(* ===== verification/_CoqProject ===== *)
-Q . S2P
Prelude.v
KeySums.v
CString.v
Types.v
Sharding.v
Clients.v
TaskPool.v
MapPhase.v
ReducePhase.v
Replication.v
Http.v
WorkerText.v
Worker.v
WorkerRpc.v
Job.v
Scripts.v
Cluster.v
System.v
Election.v
Startup.v
Leader.v
WordCount.v
Workshop6.v
