(* ===== verification/Prelude.v ===== *)
(** * Verification of a MapReduce framework

    The program ([src/w7]) is a master and workers in C++. A master accepts a job
    over HTTP, cuts the blobs of a storage container into shards, hands the
    shards to workers over gRPC, collects the names of the intermediate blobs,
    hands the reducers out in the same way and records the outputs. Workers run
    the user's Python functions on the pieces of a shard and on the blobs of a
    reducer. ZooKeeper lists the live workers and masters; one master leads, the
    others receive its job as checkpoints and take over when it ends. [src/w6] is
    an earlier stage with the election and a greeting RPC only.

    ** The files

    - [Prelude] (this file): the outcome of a piece of C++ (returns, throws, is
      undefined, or parks its thread), record update, machine integers,
      [std::map] iteration, and the lemmas on lists, maps, permutations and
      reachability that the other files share.
    - [KeySums]: sums by key, the reference a MapReduce job is compared with.
    - [CString]: the [std::string] operations and number conversions used.
    - [Types]: the enums, structs, messages, the [Master] object, the client
      objects and the globals; failure injection
      ([helpers.h], [mrclient.h], [master.h], [mr.proto]).
    - [Sharding]: [dbconn.h], [Master::create_sharding_data].
    - [Clients]: [mrclient.h], [Master::update_workers], the heartbeat and address
      rounds with their completion loops, the choice of a client.
    - [TaskPool]: what a task phase promises, as an abstract machine and a class;
      [MapPhase] and [ReducePhase] are its instances.
    - [MapPhase]: [Master::runMapper], [dispatchMapTasks], [AsyncCompleteMapRpc].
    - [ReducePhase]: [Master::runReducer], [dispatchReduceTasks],
      [AsyncCompleteReduceRpc].
    - [Replication]: [serialize_data], [deserialize_data], [start_repl_client],
      [processReplicatedData], the end of [create_sharding_data] (the start of
      the replication client) of [masterimpl.cc], [replclient.cc],
      [replserver.h].
    - [Http]: [requesthandler.h], the setters it calls and the set-up of a job
      ([req_handler::process] up to [runMapper]).
    - [WorkerText]: [fix_word_boundary] of [worker.h].
    - [Worker]: [workerimpl.cc], the rest of [worker.h], the [do_work] handlers of
      [mrservice.h]. The blob storage is the class [Storage].
    - [WorkerRpc]: the completion queue loop and the call objects of
      [mrservice.h].
    - [Job]: the map phase, the workers' replies and the reduce phase together.
    - [Scripts]: the user's functions of the repository, [python/map.py] and
      [python/reduce.py], and the conversion of their dicts.
    - [Cluster]: the workers and the storage they share, whole tasks as steps.
    - [System]: the master's phases ([MapPhase], [ReducePhase]) and the cluster
      stepping together.
    - [Election]: the watchers, [elect_leader], [wait_until_leader], [run] and
      [run_as_leader] of [masterimpl.cc].
    - [Startup]: the two [main]s, registration with ZooKeeper, server addresses.
    - [Leader]: the heartbeat thread [start_ping] and all of a master's
      operations together.
    - [WordCount]: a job of word counting from the request ([Http], [Sharding],
      [WorkerText]) over the system to the outputs ([Scripts], [KeySums]).
    - [Workshop6]: the masters and workers of [src/w6].

    ** How state and operations correspond to the code

    An object is a record with the fields of the class under their names
    ([Types.Master], [Worker.Worker]); a pointer to a client object is a key of
    the heap of a [World], which also has the globals, so that a client is one
    object however many tables point to it. A method is a function on the record
    or the world; where it can throw, be undefined or park its thread it returns
    an [outcome]. Code that several threads run is a configuration with one
    program counter for each thread and a function from an action to the next
    configuration ([map_exec], [reduce_exec], [repl_exec], [wait_exec],
    [handleRpcs_step]): an action is a short piece of one thread, so that a run of
    actions is an interleaving of such pieces. Most are one access to what the
    threads share; a few take several accesses as one: the choice of a client
    with the start of the call ([start_map_call], [start_reduce_call]), the loop
    of [ping_start], the making of a checkpoint. Memory is sequentially
    consistent; the unlocked accesses, which C++ calls data races, are taken to be
    atomic, and an iterator into a list to stay valid while the other thread
    appends to it. [int] arithmetic that overflows wraps as the compiled code
    does, where C++ leaves it undefined.
    Answers of ZooKeeper, of the storage, of RPCs and of the Python functions are
    arguments of the steps and are not restricted unless a theorem says so; in
    [System] the answers of RPCs are those of the modelled workers, or errors.

    ** What the theorems show

    - The purpose of the program: [WordCount.word_count_job]. From the request on,
      for every interleaving of the master's threads and the workers, with
      retries, repeated and late executions and workers that come and go, the
      outputs of a job that has returned are together the word count of the blobs,
      provided the storage does not fail, as many shards are made as there are
      mappers and the blobs are texts as [countable_blobs] says; what goes wrong
      otherwise is proved too ([MapPhase.map_return_drops],
      [WorkerText.long_word_lost], [Scripts.ex_tab]).
      It rests on [System.job_outputs], which says for any user's functions what
      the output of a reducer is made of, on the specification of the two scripts
      ([Scripts.map_script_counts], [Scripts.reduce_script_sums]) and on the
      pieces being cut between words ([WorkerText]).
    - A whole job on the master's side: [Job.job_complete] follows a job from the
      shards over the workers' replies to the outputs. Under it: every shard and every reducer is
      in one place at any time and done once ([MapPhase.map_tasks_exactly_once],
      [ReducePhase.reduce_tasks_exactly_once]), both phases refine the task pool
      and can always finish, what is there when they return, and what a worker
      does for a task ([Worker.map_task_correct], [Worker.reduce_task_correct]).
    - Data: the shards tile the blobs ([Sharding]), the workers together read
      every byte once ([WorkerText.workers_read_once]), names of blobs read back
      ([Worker.replies_reach_reducers]), checkpoints and queries round trip.
    - Masters: one leader at a time, who it is, when a follower takes over and
      with what ([Election], [Replication.failover_resumes]); the tables of a
      master agree in every state it reaches ([Leader.leader_always_typed]).
    - The worker's server is a plain loop over its requests and listens to every
      kind of request ([WorkerRpc]).
    - Errors and limits: what is refused, thrown, truncated or lost, and the
      situations in which the program never returns: fewer shards than mappers,
      a retry while there is no leader, a heartbeat thread that starts late; and
      the second job with another master, which ends the process
      ([Http.second_job_terminates]).

    ** Bounds and fuel

    [int] and [int32] wrap at 32 bits, [size_t] at 64 bits, [long] saturates in
    [strtol]; [float] is binary32 with rounding to nearest. The loops of
    [make_shards] take fuel: [shard_fuel] is enough whenever the shard size is
    positive, and with the size 0 the loop does not end, which the model reports
    as such. [digits] takes one more unit than the binary logarithm of the
    number. All other loops are structural or are step relations. Numbers of
    znodes are taken to fit ZooKeeper's ten digits in [Election] and [Workshop6].

    ** Not modelled

    Logging, building and closing the objects of gRPC, ZooKeeper, cpp-netlib and
    the Azure client, sleeping times, what the Python functions make of contents
    that are not ASCII (the parameter [unicode]; where a theorem is about any
    user's functions they are the parameter [py]), [std::hash] (the parameter
    [hash]), tasks that a worker's death cuts off half-way (a task is one step in
    [Cluster]),
    [GetIPAddress] of [src/w6] (no caller), scripts, containers and cluster
    descriptions. The code that is commented out in [masterimpl.cc], [helpers.h],
    [replserver.h] and [replserver.cc] is left aside. *)

From stdpp Require Export base list list_numbers gmap strings sorting relations.
From Stdlib Require Export ZArith Lia.
#[global] Open Scope Z_scope.
#[export] Set Warnings "-clear-no-such-hyp".

(** ** Outcomes of C++ code

    A piece of sequential C++ either returns, throws, has undefined behaviour,
    or parks its thread for ever ([enter_fail_state] sleeps in a [while (true)]). *)

Inductive exn : Type :=
  | OutOfRange        (* std::out_of_range: at(), stol *)
  | InvalidArgument   (* std::invalid_argument: stol *)
  | StorageError      (* a std::exception of the storage library *)
  | LibraryError      (* another std::exception of a library *)
  | ForeignError      (* a thrown object that is not a std::exception *)
  | Terminate.        (* std::terminate: no handler runs, the process ends *)

#[export] Instance exn_eq_dec : EqDecision exn.
Proof. solve_decision. Defined.

Inductive outcome (A : Type) : Type :=
  | Ret (a : A)
  | Raise (e : exn)
  | Undef             (* undefined behaviour *)
  | Parked.           (* the thread sleeps for ever *)
Arguments Ret {A} a.
Arguments Raise {A} e.
Arguments Undef {A}.
Arguments Parked {A}.

Definition obind {A B} (f : A → outcome B) (m : outcome A) : outcome B :=
  match m with
  | Ret a => f a
  | Raise e => Raise e
  | Undef => Undef
  | Parked => Parked
  end.

(** The outcome without the value. *)
Definition ovoid {A} : outcome A → outcome unit := obind (λ _, Ret tt).

(** Every handler of the program catches [std::exception]. *)
Definition std_exception (e : exn) : bool :=
  match e with
  | OutOfRange | InvalidArgument | StorageError | LibraryError => true
  | ForeignError | Terminate => false
  end.

(** [try { m } catch (std::exception) { h }]. *)
Definition catch_std {A} (h : exn → outcome A) (m : outcome A) : outcome A :=
  match m with
  | Raise e => if std_exception e then h e else Raise e
  | _ => m
  end.

(** It returns, or throws what a handler catches. *)
Definition handled {A} (m : outcome A) : Prop :=
  match m with
  | Ret _ => True
  | Raise e => std_exception e = true
  | Undef | Parked => False
  end.

Declare Scope cpp_scope.
Delimit Scope cpp_scope with cpp.
Notation "'let!' x ':=' m 'in' k" := (obind (λ x, k) m)
  (at level 10, x pattern, m at level 100, k at level 200) : cpp_scope.
#[global] Open Scope cpp_scope.

(** ** Record update

    [r <| f := v |>] is [r] with the field [f] replaced by [v]: the constructor
    applied to the record's own projections, the one under [f] replaced. *)

Class EtaRecord (R : Type) : Type := eta_record : R → R.
Class FieldUpdate {R T : Type} (p : R → T) : Type := field_update : (T → T) → R → R.

Ltac derive_field_update :=
  match goal with
  | |- @FieldUpdate ?R ?T ?p =>
      let r := fresh "r" in
      let f := fresh "f" in
      refine (fun f r => _);
      let inst := constr:(_ : EtaRecord R) in
      let full := eval cbv beta delta [eta_record] in (inst r) in
      let full := (let h := head_of full in eval cbv beta delta [h] in full) in
      match (eval pattern (p r) in full) with
      | ?g _ => let t := eval cbv beta in (g (f (p r))) in exact t
      end
  end
with head_of t := match t with ?f _ => head_of f | ?h => h end.

#[export] Hint Extern 0 (FieldUpdate _) => derive_field_update : typeclass_instances.

Notation "r <| p := v |>" := (field_update (p := p) (λ _, v) r)
  (at level 1, left associativity, format "r <| p  :=  v |>") : cpp_scope.

(** ** Machine integers

    [int]/[int32_t] are 32-bit two's complement, [long] is 64-bit two's
    complement and [size_t] is 64-bit unsigned (x86-64, the deployed target). *)

Definition to_int32 (z : Z) : Z := (z + 2 ^ 31) mod 2 ^ 32 - 2 ^ 31.
Definition to_size (z : Z) : Z := z mod 2 ^ 64.
Definition long_min : Z := - 2 ^ 63.
Definition long_max : Z := 2 ^ 63 - 1.

Definition is_int32 (z : Z) : Prop := - 2 ^ 31 ≤ z < 2 ^ 31.
Definition is_size (z : Z) : Prop := 0 ≤ z < 2 ^ 64.

(** ** [std::map] iteration: the entries in increasing key order *)

Definition key_le {A} (x y : Z * A) : Prop := x.1 ≤ y.1.
#[export] Instance key_le_dec {A} : RelDecision (@key_le A) := λ x y, decide (x.1 ≤ y.1).

Definition std_map_items {A} (m : gmap Z A) : list (Z * A) :=
  merge_sort key_le (map_to_list m).

(** [std::map::emplace] and [insert]: the first binding of a key stays. *)
Definition emplace {K A} `{Countable K} (k : K) (a : A) (m : gmap K A) : gmap K A :=
  match m !! k with Some _ => m | None => <[k:=a]> m end.

(** [v[i]] on a [std::vector]: [None] is out of range (undefined behaviour). *)
Definition vec_index {A} (l : list A) (i : Z) : option A :=
  if decide (0 ≤ i) then l !! Z.to_nat i else None.

(** ** Automation *)

Create HintDb cpp.

Ltac obind_inv :=
  repeat match goal with
  | H : obind _ ?m = Ret _ |- _ =>
      let E := fresh "E" in destruct m eqn:E; simpl in H; try discriminate H
  | H : Ret _ = Ret _ |- _ => injection H as H
  end.

(** ** Shared lemmas *)

Lemma to_int32_id z : is_int32 z → to_int32 z = z.
Proof. unfold is_int32, to_int32. intros. rewrite Z.mod_small; lia. Qed.

Lemma to_int32_range z : is_int32 (to_int32 z).
Proof.
  unfold is_int32, to_int32.
  pose proof (Z.mod_pos_bound (z + 2 ^ 31) (2 ^ 32)). lia.
Qed.

Lemma to_size_id z : is_size z → to_size z = z.
Proof. unfold is_size, to_size. intros. by rewrite Z.mod_small. Qed.

Lemma to_size_neg z : - 2 ^ 64 ≤ z < 0 → to_size z = z + 2 ^ 64.
Proof. unfold to_size. intros. symmetry. apply (Z.mod_unique _ _ (-1)); lia. Qed.

Lemma to_size_range z : is_size (to_size z).
Proof. unfold is_size, to_size. apply Z.mod_pos_bound. lia. Qed.

Lemma std_map_items_perm {A} (m : gmap Z A) : std_map_items m ≡ₚ map_to_list m.
Proof. apply merge_sort_Permutation. Qed.

Lemma elem_of_std_map_items {A} (m : gmap Z A) k a :
  (k, a) ∈ std_map_items m ↔ m !! k = Some a.
Proof. by rewrite std_map_items_perm, elem_of_map_to_list. Qed.

#[export] Instance key_le_total {A} : Total (@key_le A).
Proof. intros x y. unfold key_le. lia. Qed.
#[export] Instance key_le_trans {A} : Transitive (@key_le A).
Proof. intros x y z. unfold key_le. lia. Qed.

Lemma std_map_items_sorted {A} (m : gmap Z A) : StronglySorted key_le (std_map_items m).
Proof. apply StronglySorted_merge_sort; apply _. Qed.

Lemma NoDup_std_map_keys {A} (m : gmap Z A) : NoDup (std_map_items m).*1.
Proof. rewrite std_map_items_perm. apply NoDup_fst_map_to_list. Qed.

Lemma lookup_emplace_eq {K A} `{Countable K} (k : K) (a : A) m :
  emplace k a m !! k = Some (default a (m !! k)).
Proof. unfold emplace. destruct (m !! k) eqn:E; simplify_map_eq; done. Qed.

Lemma lookup_emplace_ne {K A} `{Countable K} (k k' : K) (a : A) m :
  k ≠ k' → emplace k a m !! k' = m !! k'.
Proof. unfold emplace. destruct (m !! k); simplify_map_eq; intros; by simplify_map_eq. Qed.

Lemma emplace_fresh {K A} `{Countable K} (k : K) (a : A) m :
  m !! k = None → emplace k a m = <[k:=a]> m.
Proof. unfold emplace. by intros ->. Qed.

(** An invariant of the initial state that every step keeps holds of every
    reachable state. *)
Lemma rtc_invariant {C} (step : C → C → Prop) (I : C → Prop) c c' :
  (∀ x y, I x → step x y → I y) → I c → rtc step c c' → I c'.
Proof. intros Hs Hc Hr. induction Hr; eauto. Qed.

(** The same, with an invariant that may use one already known to hold. *)
Lemma rtc_invariant_under {C} (step : C → C → Prop) (J I : C → Prop) c c' :
  (∀ x y, J x → step x y → J y) → (∀ x y, J x → I x → step x y → I y) →
  J c → I c → rtc step c c' → I c'.
Proof. intros HJ HI HJc HIc Hr. induction Hr; eauto. Qed.

(** If some measure can always be made smaller until the goal holds, the goal
    can be reached. *)
Lemma rtc_progress {C} (step : C → C → Prop) (I G : C → Prop) (μ : C → nat) :
  (∀ x, I x → G x ∨ ∃ y, rtc step x y ∧ I y ∧ (μ y < μ x)%nat) →
  ∀ x, I x → ∃ y, rtc step x y ∧ G y.
Proof.
  intros Hp x. remember (μ x) as n eqn:Hn. revert x Hn.
  induction n as [n IH] using lt_wf_ind. intros x -> HI.
  destruct (Hp x HI) as [?|(y & Hxy & HIy & Hlt)]; [by exists x; split; [apply rtc_refl|]|].
  destruct (IH _ Hlt y eq_refl HIy) as (z & ? & ?).
  exists z. split; [by etrans|done].
Qed.

Lemma filter_agree {A} (P Q : A → Prop) `{!∀ x, Decision (P x), !∀ x, Decision (Q x)} (l : list A) :
  (∀ x, x ∈ l → P x ↔ Q x) → filter P l = filter Q l.
Proof.
  induction l as [|x l IH]; intros Hpq; [done|]. rewrite !filter_cons.
  rewrite IH by set_solver. apply decide_ext. apply Hpq. set_solver.
Qed.

Lemma map_keys_insert {A} (m : gmap Z A) i a :
  m !! i = None → (map_to_list (<[i:=a]> m)).*1 ≡ₚ i :: (map_to_list m).*1.
Proof. intros Hi. by rewrite (map_to_list_insert m i a Hi). Qed.

Lemma map_vals_insert {A} (m : gmap Z A) i a :
  m !! i = None → (map_to_list (<[i:=a]> m)).*2 ≡ₚ a :: (map_to_list m).*2.
Proof. intros Hi. by rewrite (map_to_list_insert m i a Hi). Qed.

Lemma elem_of_map_keys {A} (m : gmap Z A) i : i ∈ (map_to_list m).*1 ↔ is_Some (m !! i).
Proof.
  rewrite list_elem_of_fmap. split.
  - intros ([k a] & -> & Hk%elem_of_map_to_list). by exists a.
  - intros [a Ha]. exists (i, a). split; [done|]. by apply elem_of_map_to_list.
Qed.

Lemma elem_of_map_vals {A} (m : gmap Z A) a :
  a ∈ (map_to_list m).*2 ↔ ∃ i, m !! i = Some a.
Proof.
  rewrite list_elem_of_fmap. split.
  - intros ([k b] & -> & Hk%elem_of_map_to_list). by exists k.
  - intros [i Hi]. exists (i, a). split; [done|]. by apply elem_of_map_to_list.
Qed.

(** Distributing a list over [n] classes loses and repeats nothing. *)
Lemma partition_perm {A} (f : A → option Z) (l : list A) (n : nat) :
  Forall (λ x, ∃ k, f x = Some k ∧ 0 ≤ k < Z.of_nat n) l →
  (Z.of_nat <$> seq 0 n) ≫= (λ j, filter (λ x, f x = Some j) l) ≡ₚ l.
Proof.
  induction 1 as [|b l (k & Hk & Hlt) _ IH].
  { induction (Z.of_nat <$> seq 0 n) as [|j js IHj]; [done|]. done. }
  etrans; [|apply Permutation_skip, IH].
  assert (∃ js ks, Z.of_nat <$> seq 0 n = js ++ k :: ks ∧ k ∉ js ∧ k ∉ ks) as (js & ks & -> & Hj & Hks).
  { assert (k ∈ Z.of_nat <$> seq 0 n) as (js & ks & Heq)%list_elem_of_split.
    { apply list_elem_of_fmap. exists (Z.to_nat k). rewrite elem_of_seq. lia. }
    exists js, ks. split; [done|].
    assert (NoDup (Z.of_nat <$> seq 0 n)) as Hnd by (apply NoDup_fmap_2; [apply _|apply NoDup_seq]).
    rewrite Heq in Hnd. apply NoDup_app in Hnd as (_ & Hd & [? _]%NoDup_cons).
    split; [|done]. intros Hin. apply (Hd k Hin). apply list_elem_of_here. }
  assert (∀ ms, k ∉ ms → ms ≫= (λ j, filter (λ x, f x = Some j) (b :: l))
    = ms ≫= (λ j, filter (λ x, f x = Some j) l)) as Hother.
  { intros ms. induction ms as [|m ms IHm]; [done|]. rewrite not_elem_of_cons. intros [Hne Hin].
    rewrite !bind_cons, IHm by done. f_equal.
    rewrite filter_cons_False; [done|]. rewrite Hk. naive_solver. }
  rewrite !bind_app, !bind_cons, (Hother js Hj), (Hother ks Hks).
  rewrite filter_cons_True by done.
  symmetry. apply Permutation_middle.
Qed.

(** Permutations by counting: [perm_solve] proves a permutation from the
    permutations in the context, element by element. *)
Definition occ1 {A} `{EqDecision A} (x y : A) : nat := if decide (y = x) then 1%nat else 0%nat.
Definition occ {A} `{EqDecision A} (x : A) (l : list A) : nat :=
  foldr (λ y n, (occ1 x y + n)%nat) 0%nat l.

Section occ.
Context {A : Type} `{!EqDecision A}.
Implicit Types l k : list A.

Lemma occ_nil (x : A) : occ x [] = 0%nat.
Proof. done. Qed.
Lemma occ_cons (x y : A) l : occ x (y :: l) = (occ1 x y + occ x l)%nat.
Proof. done. Qed.
Lemma occ_app (x : A) l k : occ x (l ++ k) = (occ x l + occ x k)%nat.
Proof. induction l as [|y l IH]; [done|]. simpl. rewrite IH. lia. Qed.

Lemma occ_count_occ (x : A) l : occ x l = count_occ (λ x y, decide (x = y)) l x.
Proof.
  induction l as [|y l IH]; [done|]. simpl. unfold occ1. rewrite IH. by destruct (decide _).
Qed.

Lemma perm_occ l k : l ≡ₚ k ↔ ∀ x, occ x l = occ x k.
Proof.
  rewrite (Permutation_count_occ (λ x y, decide (x = y))). setoid_rewrite occ_count_occ. done.
Qed.
End occ.

Ltac perm_solve :=
  apply perm_occ; let x := fresh "x" in intros x;
  repeat match goal with
  | H : @Permutation _ ?l ?k |- _ =>
      let H' := fresh H in
      pose proof (proj1 (perm_occ l k) H x) as H'; clear H
  end;
  rewrite ?occ_app, ?occ_cons, ?occ_app, ?occ_cons, ?occ_app, ?occ_cons, ?occ_nil in *;
  lia.

#[export] Hint Resolve to_int32_range to_size_range : cpp.
