(* ===== verification/KeySums.v ===== *)
(** * Sums by key: what a job computes

    [group_sum] lists each key of a list of pairs once, with the sum of its
    numbers: the reference a job is compared with, up to order. It does not see
    the order of the pairs, it can be taken in parts and of parts, and the parts
    of a partition of the keys can be put together: the three things a MapReduce
    job does with it. *)

From S2P Require Export Prelude.

Section KeySums.
Context {K : Type} `{!EqDecision K}.
Implicit Types (l d : list (K * Z)) (k : K).

Definition key_total k l : Z := foldr (λ kv n, (if decide (kv.1 = k) then kv.2 else 0) + n) 0 l.

Definition group_sum l : list (K * Z) := (λ k, (k, key_total k l)) <$> remove_dups l.*1.

Lemma key_total_cons k kv l : key_total k (kv :: l) = (if decide (kv.1 = k) then kv.2 else 0) + key_total k l.
Proof. done. Qed.

Lemma key_total_app k l l' : key_total k (l ++ l') = key_total k l + key_total k l'.
Proof. induction l as [|kv l IH]; simpl; [done|]. rewrite IH. lia. Qed.

#[export] Instance key_total_proper k : Proper ((≡ₚ) ==> eq) (key_total k).
Proof.
  induction 1; rewrite ?key_total_cons; [done|congruence|lia|congruence].
Qed.

Lemma key_total_absent k l : k ∉ l.*1 → key_total k l = 0.
Proof.
  induction l as [|kv l IH]; [done|]. rewrite fmap_cons, not_elem_of_cons, key_total_cons. intros [Hk Hl].
  rewrite decide_False by done. by rewrite IH.
Qed.

Lemma key_total_filter (P : K → Prop) `{!∀ k, Decision (P k)} k l :
  key_total k (filter (λ kv, P kv.1) l) = if decide (P k) then key_total k l else 0.
Proof.
  induction l as [|kv l IH]; [by destruct (decide _)|].
  rewrite filter_cons. destruct (decide (P kv.1)); rewrite ?key_total_cons, IH;
    destruct (decide (kv.1 = k)) as [<-|]; destruct (decide (P _)); done || lia.
Qed.

Lemma fst_tagged (f : K → Z) (ks : list K) : ((λ k, (k, f k)) <$> ks).*1 = ks.
Proof. rewrite <-list_fmap_compose. apply list_fmap_id. Qed.

(** A list without repeated keys is given by its keys and its sums. *)
Lemma tagged_totals d : NoDup d.*1 → d = (λ k, (k, key_total k d)) <$> d.*1.
Proof.
  induction d as [|[k n] d IH]; [done|]. rewrite fmap_cons. intros [Hk Hd]%NoDup_cons.
  rewrite fmap_cons. cbn [fst]. rewrite key_total_cons, decide_True by done.
  rewrite (key_total_absent k d Hk), Z.add_0_r. cbn [snd]. f_equal.
  rewrite IH at 1 by done. apply list_fmap_ext. intros i k' Hin%list_elem_of_lookup_2. f_equal.
  rewrite key_total_cons, decide_False; [done|]. intros <-. done.
Qed.

Lemma group_sum_unique d l :
  NoDup d.*1 → (∀ k, k ∈ d.*1 ↔ k ∈ l.*1) → (∀ k, key_total k d = key_total k l) → d ≡ₚ group_sum l.
Proof.
  intros Hd Hk Ht. rewrite (tagged_totals d Hd).
  rewrite (list_fmap_ext _ (λ k, (k, key_total k l)) d.*1) by (intros; by rewrite Ht).
  apply fmap_Permutation, NoDup_Permutation; [done|apply NoDup_remove_dups|].
  intros k. by rewrite elem_of_remove_dups.
Qed.

Lemma group_sum_keys l : (group_sum l).*1 = remove_dups l.*1.
Proof. apply fst_tagged. Qed.

Lemma elem_of_group_sum_keys k l : k ∈ (group_sum l).*1 ↔ k ∈ l.*1.
Proof. by rewrite group_sum_keys, elem_of_remove_dups. Qed.

Lemma group_sum_NoDup l : NoDup (group_sum l).*1.
Proof. rewrite group_sum_keys. apply NoDup_remove_dups. Qed.

Lemma key_total_group_sum k l : key_total k (group_sum l) = key_total k l.
Proof.
  destruct (decide (k ∈ l.*1)) as [Hk|Hk].
  2:{ rewrite !key_total_absent; [done|done|]. by rewrite elem_of_group_sum_keys. }
  assert (∀ ks, NoDup ks → k ∈ ks → key_total k ((λ k, (k, key_total k l)) <$> ks) = key_total k l) as H.
  { induction ks as [|k' ks IH]; [by intros _ ?%elem_of_nil|]. intros [Hn Hks]%NoDup_cons [->|Hin]%elem_of_cons.
    - rewrite fmap_cons, key_total_cons, decide_True by done. rewrite (key_total_absent k' (_ <$> _))
        by (by rewrite (fst_tagged (λ k, key_total k l))).
      simpl. lia.
    - rewrite fmap_cons, key_total_cons, decide_False by (simpl; set_solver). by apply IH. }
  apply H; [apply NoDup_remove_dups|by apply elem_of_remove_dups].
Qed.

(** The order of the pairs does not matter. *)
#[export] Instance group_sum_proper : Proper ((≡ₚ) ==> (≡ₚ)) group_sum.
Proof.
  intros l l' Hl. apply group_sum_unique; [apply group_sum_NoDup| |].
  - intros k. by rewrite elem_of_group_sum_keys, Hl.
  - intros k. by rewrite key_total_group_sum, Hl.
Qed.

(** Parts may be summed beforehand. *)
Lemma group_sum_bind {A} (f : A → list (K * Z)) (xs : list A) :
  group_sum (xs ≫= λ x, group_sum (f x)) ≡ₚ group_sum (xs ≫= f).
Proof.
  apply group_sum_unique; [apply group_sum_NoDup| |].
  - intros k. rewrite elem_of_group_sum_keys. induction xs as [|x xs IH]; [done|].
    by rewrite !bind_cons, !fmap_app, !elem_of_app, IH, elem_of_group_sum_keys.
  - intros k. rewrite key_total_group_sum. induction xs as [|x xs IH]; [done|].
    by rewrite !bind_cons, !key_total_app, IH, key_total_group_sum.
Qed.

Lemma group_sum_filter (P : K → Prop) `{!∀ k, Decision (P k)} l :
  filter (λ kv, P kv.1) (group_sum l) ≡ₚ group_sum (filter (λ kv, P kv.1) l).
Proof.
  assert (∀ d k, k ∈ (filter (λ kv, P kv.1) d).*1 ↔ P k ∧ k ∈ d.*1) as Hin.
  { intros d k. rewrite !list_elem_of_fmap. setoid_rewrite list_elem_of_filter. naive_solver. }
  apply group_sum_unique.
  - assert (∀ d, NoDup d.*1 → NoDup (filter (λ kv, P kv.1) d).*1) as Hnd; [|apply Hnd, group_sum_NoDup].
    induction d as [|kv d IH]; [done|]. rewrite fmap_cons. intros [Hk Hd]%NoDup_cons.
    rewrite filter_cons. destruct (decide _); [|by apply IH]. rewrite fmap_cons. apply NoDup_cons.
    split; [|by apply IH]. rewrite Hin. by intros [_ ?].
  - intros k. rewrite !Hin. by rewrite elem_of_group_sum_keys.
  - intros k. rewrite !key_total_filter, key_total_group_sum. done.
Qed.

(** The sums of the [n] classes of the keys together are the sums. *)
Lemma group_sum_partition (f : K → Z) n l :
  (∀ k, k ∈ l.*1 → 0 ≤ f k < Z.of_nat n) →
  (Z.of_nat <$> seq 0 n) ≫= (λ j, group_sum (filter (λ kv, f kv.1 = j) l)) ≡ₚ group_sum l.
Proof.
  intros Hf. etrans; [|apply (partition_perm (λ kv : K * Z, Some (f kv.1)) (group_sum l) n)].
  - induction (Z.of_nat <$> seq 0 n) as [|j js IH]; [done|]. rewrite !bind_cons, IH.
    apply Permutation_app; [|done]. etrans; [symmetry; exact (group_sum_filter (λ k, f k = j) l)|].
    erewrite filter_agree; [done|]. intros kv _. naive_solver.
  - apply Forall_forall. intros kv Hkv. eexists. split; [done|]. apply Hf.
    apply elem_of_group_sum_keys. by apply list_elem_of_fmap_2.
Qed.
End KeySums.
