(* ===== verification/CString.v ===== *)
(** * C++ strings and numbers

    The operations of [std::string], [std::to_string], [strtol], [std::stol] and
    [std::istringstream >>] that the sources call, on Rocq's [string], with the
    lemmas the naming and request components share: a printed number reads
    back, and the suffix after the last separator of a name is what was put
    there. *)

From S2P Require Export Prelude.
From Stdlib Require Export Ascii.
#[global] Arguments String.append !_ _ / : simpl nomatch.
#[global] Open Scope Z_scope.

(** ** Searching and slicing *)

(** [s.find(c)] and [s.find_first_of(c)]. *)
Fixpoint find_first (c : ascii) (s : string) : option nat :=
  match s with
  | EmptyString => None
  | String a s' => if decide (a = c) then Some O else S <$> find_first c s'
  end.

(** [s.rfind(c)] and [s.find_last_of(c)]. *)
Fixpoint find_last (c : ascii) (s : string) : option nat :=
  match s with
  | EmptyString => None
  | String a s' =>
      match find_last c s' with
      | Some n => Some (S n)
      | None => if decide (a = c) then Some O else None
      end
  end.

Fixpoint str_drop (n : nat) (s : string) : string :=
  match n, s with
  | S n', String _ s' => str_drop n' s'
  | _, _ => s
  end.

Fixpoint str_take (n : nat) (s : string) : string :=
  match n, s with
  | S n', String a s' => String a (str_take n' s')
  | _, _ => EmptyString
  end.

(** [s.substr(s.find_last_of(c) + 1)]: [npos + 1] is 0. *)
Definition after_last (c : ascii) (s : string) : string :=
  match find_last c s with Some i => str_drop (S i) s | None => s end.

(** [s.substr(0, s.find(c))]: a length of [npos] is the whole string. *)
Definition before_first (c : ascii) (s : string) : string :=
  match find_first c s with Some i => str_take i s | None => s end.

Fixpoint str_forall (P : ascii → bool) (s : string) : bool :=
  match s with EmptyString => true | String a s' => P a && str_forall P s' end.

Fixpoint str_map (f : ascii → ascii) (s : string) : string :=
  match s with EmptyString => EmptyString | String a s' => String (f a) (str_map f s') end.

(** [s.find(sub) != npos]. *)
Fixpoint str_contains (sub s : string) : bool :=
  String.prefix sub s ||
  match s with EmptyString => false | String _ s' => str_contains sub s' end.

(** ** Numbers *)

Definition digit_char (d : Z) : ascii := ascii_of_nat (48 + Z.to_nat d).

Definition digit_value (a : ascii) : option Z :=
  let n := Z.of_nat (nat_of_ascii a) in
  if decide (48 ≤ n ≤ 57) then Some (n - 48) else None.

(** Decimal digits of a non-negative number, put before [acc]; [fuel] is at
    least the number of digits. *)
Fixpoint digits_go (fuel : nat) (z : Z) (acc : string) : string :=
  match fuel with
  | O => acc
  | S f =>
      let acc := String (digit_char (z mod 10)) acc in
      if decide (z < 10) then acc else digits_go f (z / 10) acc
  end.

Definition digits (z : Z) : string := digits_go (S (Z.to_nat (Z.log2 z))) z "".

Definition to_string (z : Z) : string :=
  if decide (z < 0) then String "-" (digits (- z)) else digits z.

(** [isspace] in the C locale. *)
Definition is_space (a : ascii) : bool :=
  let n := nat_of_ascii a in bool_decide (n = 32 ∨ 9 ≤ n ≤ 13)%nat.

Fixpoint skip_spaces (s : string) : string :=
  match s with
  | String a s' => if is_space a then skip_spaces s' else s
  | EmptyString => s
  end.

(** The number read from the leading digits, [None] if there is none. *)
Fixpoint read_digits (s : string) (acc : option Z) : option Z :=
  match s with
  | EmptyString => acc
  | String a s' =>
      match digit_value a with
      | Some d => read_digits s' (Some (default 0 acc * 10 + d))
      | None => acc
      end
  end.

Definition read_number (s : string) : option Z :=
  match skip_spaces s with
  | String a s' =>
      if decide (a = "-"%char) then Z.opp <$> read_digits s' None
      else if decide (a = "+"%char) then read_digits s' None
      else read_digits (String a s') None
  | EmptyString => None
  end.

(** [strtol(s, nullptr, 10)]: 0 when there is no number, saturated to [long]. *)
Definition strtol (s : string) : Z :=
  Z.max long_min (Z.min long_max (default 0 (read_number s))).

(** [std::stol(s)]. *)
Definition stol (s : string) : outcome Z :=
  match read_number s with
  | None => Raise InvalidArgument
  | Some n => if decide (long_min ≤ n ≤ long_max) then Ret n else Raise OutOfRange
  end.

(** ** [std::istringstream >> std::string]: the words between white space *)

Fixpoint words_go (cur : string) (s : string) : list string :=
  match s with
  | EmptyString => if decide (cur = EmptyString) then [] else [cur]
  | String a s' =>
      if is_space a
      then (if decide (cur = EmptyString) then [] else [cur]) ++ words_go EmptyString s'
      else words_go (cur +:+ String a EmptyString) s'
  end.

Definition words (s : string) : list string := words_go EmptyString s.

(** ** Lemmas *)

Lemma str_app_nil_r (s : string) : s +:+ "" = s.
Proof. induction s as [|a s IH]; [done|]. cbn. by rewrite IH. Qed.

Lemma str_app_assoc (a b c : string) : (a +:+ b) +:+ c = a +:+ (b +:+ c).
Proof. induction a as [|x a IH]; [done|]. cbn. by rewrite IH. Qed.

Lemma str_cons_app (a : ascii) (s t : string) : String a s +:+ t = String a (s +:+ t).
Proof. done. Qed.

Lemma str_length_app (s t : string) : String.length (s +:+ t) = (String.length s + String.length t)%nat.
Proof. induction s as [|a s IH]; [done|]. simpl. by rewrite IH. Qed.

Lemma str_drop_app (s t : string) : str_drop (String.length s) (s +:+ t) = t.
Proof. induction s; [done|]. done. Qed.

Lemma str_take_app (s t : string) : str_take (String.length s) (s +:+ t) = s.
Proof. induction s as [|a s IH]; [by destruct t|]. cbn. by rewrite IH. Qed.

Lemma str_forall_cons P a s : str_forall P (String a s) = P a && str_forall P s.
Proof. done. Qed.

Lemma str_forall_app P (s t : string) :
  str_forall P (s +:+ t) = str_forall P s && str_forall P t.
Proof. induction s as [|a s IH]; [done|]. cbn. by rewrite IH, andb_assoc. Qed.

Lemma str_forall_impl (P Q : ascii → bool) s :
  (∀ a, P a → Q a) → str_forall P s → str_forall Q s.
Proof.
  intros HPQ. induction s as [|a s IH]; [done|]. rewrite !str_forall_cons.
  rewrite !andb_True. intros [??]. eauto.
Qed.

Lemma find_last_absent c s : str_forall (λ a, bool_decide (a ≠ c)) s → find_last c s = None.
Proof.
  induction s as [|a s IH]; [done|]. cbn. rewrite andb_True, bool_decide_spec.
  intros [Ha Hs]. rewrite IH by done. by rewrite decide_False.
Qed.

Lemma find_first_absent c s : str_forall (λ a, bool_decide (a ≠ c)) s → find_first c s = None.
Proof.
  induction s as [|a s IH]; [done|]. cbn. rewrite andb_True, bool_decide_spec.
  intros [Ha Hs]. rewrite decide_False by done. by rewrite IH.
Qed.

Lemma find_last_app c s t :
  str_forall (λ a, bool_decide (a ≠ c)) t →
  find_last c (s +:+ String c t) = Some (String.length s).
Proof.
  intros Ht. induction s as [|a s IH]; cbn.
  - by rewrite find_last_absent, decide_True.
  - by rewrite IH.
Qed.

Lemma find_first_app c s t :
  str_forall (λ a, bool_decide (a ≠ c)) s →
  find_first c (s +:+ String c t) = Some (String.length s).
Proof.
  induction s as [|a s IH]; cbn; [by rewrite decide_True|].
  rewrite andb_True, bool_decide_spec. intros [Ha Hs].
  rewrite decide_False by done. by rewrite IH.
Qed.

(** What follows the last separator of [s ++ c ++ t] is [t], when [t] has none. *)
Lemma after_last_app c s t :
  str_forall (λ a, bool_decide (a ≠ c)) t → after_last c (s +:+ String c t) = t.
Proof.
  intros Ht. unfold after_last. rewrite find_last_app by done.
  replace (S (String.length s)) with (String.length (s +:+ String c "")).
  2:{ clear. induction s as [|a s IH]; [done|]. cbn. by rewrite IH. }
  replace (s +:+ String c t) with ((s +:+ String c "") +:+ t)
    by (by rewrite str_app_assoc).
  apply str_drop_app.
Qed.

Lemma before_first_app c s t :
  str_forall (λ a, bool_decide (a ≠ c)) s → before_first c (s +:+ String c t) = s.
Proof.
  intros Hs. unfold before_first. rewrite find_first_app by done. apply str_take_app.
Qed.

(** *** Printed numbers *)

Definition is_digit (a : ascii) : bool := bool_decide (is_Some (digit_value a)).

Lemma digit_char_cases (P : ascii → Prop) d :
  0 ≤ d < 10 →
  (∀ n, (n < 10)%nat → P (ascii_of_nat (48 + n))) → P (digit_char d).
Proof. intros Hd H. unfold digit_char. apply H. lia. Qed.

Lemma digit_value_char d : 0 ≤ d < 10 → digit_value (digit_char d) = Some d.
Proof.
  intros Hd. rewrite <-(Z2Nat.id d) at 2 by lia. unfold digit_char.
  assert (Z.to_nat d < 10)%nat as Hn by lia. revert Hn. generalize (Z.to_nat d).
  intros n Hn. do 10 (destruct n as [|n]; [done|]). lia.
Qed.

Lemma is_digit_char d : 0 ≤ d < 10 → is_digit (digit_char d).
Proof. intros. unfold is_digit. rewrite digit_value_char by assumption. exact I. Qed.

Lemma is_digit_neq a c : is_digit a → digit_value c = None → a ≠ c.
Proof. unfold is_digit. rewrite bool_decide_spec. intros [? Ha] Hc ->. congruence. Qed.

Lemma is_digit_not_space a : is_digit a → is_space a = false.
Proof.
  unfold is_digit, digit_value, is_space. rewrite bool_decide_spec.
  intros [d Hd]. case_decide; [|done]. apply bool_decide_eq_false. lia.
Qed.

Lemma digits_go_read fuel z acc :
  0 ≤ z < 10 ^ Z.of_nat fuel → (0 < fuel)%nat →
  ∃ k, ∀ o, read_digits (digits_go fuel z acc) o
            = read_digits acc (Some (default 0 o * 10 ^ Z.of_nat k + z)).
Proof.
  revert z acc. induction fuel as [|f IH]; intros z acc Hz Hf; [lia|]. cbn [digits_go].
  pose proof (Z.mod_pos_bound z 10). case_decide as Hlt.
  - exists 1%nat. intros o. cbn [read_digits]. rewrite digit_value_char by lia.
    rewrite Z.mod_small by lia. done.
  - rewrite Nat2Z.inj_succ, Z.pow_succ_r in Hz by lia.
    destruct f as [|f]; [cbn in Hz; lia|].
    destruct (IH (z / 10) (String (digit_char (z mod 10)) acc)) as [k Hk]; [|lia|].
    { split; [apply Z.div_pos; lia|]. apply Z.div_lt_upper_bound; lia. }
    exists (S k). intros o. rewrite Hk. cbn [read_digits].
    rewrite digit_value_char by lia. do 2 f_equal. cbn [default].
    rewrite (Z.div_mod z 10) at 3 by lia.
    rewrite Nat2Z.inj_succ, Z.pow_succ_r by lia. simpl. lia.
Qed.

Lemma digits_go_digits fuel z acc :
  0 ≤ z → str_forall is_digit acc → str_forall is_digit (digits_go fuel z acc).
Proof.
  revert z acc. induction fuel as [|f IH]; intros z acc Hz Ha; [done|]. cbn [digits_go].
  pose proof (Z.mod_pos_bound z 10).
  assert (is_digit (digit_char (z mod 10))) by (apply is_digit_char; lia).
  case_decide; [|apply IH; [apply Z.div_pos; lia|]]; rewrite str_forall_cons; apply andb_True; split; assumption.
Qed.

Lemma digits_go_cons fuel z acc : (0 < fuel)%nat → 0 ≤ z →
  ∃ a s, digits_go fuel z acc = String a s ∧ is_digit a.
Proof.
  revert z acc. induction fuel as [|f IH]; intros z acc Hf Hz; [lia|]. cbn [digits_go].
  pose proof (Z.mod_pos_bound z 10).
  case_decide.
  - eexists _, _. split; [reflexivity|]. apply is_digit_char. lia.
  - destruct f; [|apply IH; [lia|apply Z.div_pos; lia]].
    eexists _, _. split; [reflexivity|]. apply is_digit_char. lia.
Qed.

Lemma digits_fuel_enough z : 0 ≤ z → z < 10 ^ Z.of_nat (S (Z.to_nat (Z.log2 z))).
Proof.
  intros Hz. rewrite Nat2Z.inj_succ, Z2Nat.id by apply Z.log2_nonneg.
  destruct (decide (z = 0)) as [->|]; [done|].
  destruct (Z.log2_spec z) as [_ H]; [lia|].
  eapply Z.lt_le_trans; [exact H|]. apply Z.pow_le_mono_l. lia.
Qed.

Lemma digits_all_digits z : 0 ≤ z → str_forall is_digit (digits z).
Proof. intros. by apply digits_go_digits. Qed.

(** No digit follows: where the reading of a number stops. *)
Definition stops_number (s : string) : Prop :=
  match s with EmptyString => True | String a _ => digit_value a = None end.

Lemma read_digits_stop s o : stops_number s → read_digits s o = o.
Proof. destruct s as [|a s]; [done|]. cbn. by intros ->. Qed.

Lemma digits_go_app fuel z acc t : digits_go fuel z acc +:+ t = digits_go fuel z (acc +:+ t).
Proof.
  revert z acc. induction fuel as [|f IH]; intros z acc; [done|]. cbn [digits_go].
  case_decide; [done|]. by rewrite IH.
Qed.

Lemma read_digits_digits z t :
  0 ≤ z → stops_number t → read_digits (digits z +:+ t) None = Some z.
Proof.
  intros Hz Ht. unfold digits. rewrite digits_go_app.
  destruct (digits_go_read (S (Z.to_nat (Z.log2 z))) z ("" +:+ t)) as [k ->];
    [split; [done|by apply digits_fuel_enough]|lia|].
  rewrite read_digits_stop by done. done.
Qed.

Lemma read_number_to_string z t : stops_number t → read_number (to_string z +:+ t) = Some z.
Proof.
  intros Ht. unfold to_string. case_decide as Hz.
  - change (Z.opp <$> read_digits (digits (- z) +:+ t) None = Some z).
    rewrite read_digits_digits by (lia || done). simpl. f_equal. lia.
  - destruct (digits_go_cons (S (Z.to_nat (Z.log2 z))) z "") as (a & s & Hs & Ha); [lia|lia|].
    pose proof (read_digits_digits z t ltac:(lia) Ht) as Hr.
    unfold digits in Hr |- *. rewrite Hs in Hr |- *.
    unfold read_number. cbn [String.append skip_spaces]. rewrite is_digit_not_space by done.
    rewrite decide_False by (by apply is_digit_neq).
    rewrite decide_False by (by apply is_digit_neq). done.
Qed.

Lemma stol_to_string z t :
  long_min ≤ z ≤ long_max → stops_number t → stol (to_string z +:+ t) = Ret z.
Proof. intros. unfold stol. rewrite read_number_to_string by done. by rewrite decide_True. Qed.

Lemma strtol_to_string z t :
  long_min ≤ z ≤ long_max → stops_number t → strtol (to_string z +:+ t) = z.
Proof. intros. unfold strtol. rewrite read_number_to_string by done. simpl. lia. Qed.

Lemma strtol_range s : long_min ≤ strtol s ≤ long_max.
Proof. unfold strtol. assert (long_min ≤ long_max) by done. lia. Qed.

Lemma to_string_chars z (P : ascii → bool) :
  P "-"%char → (∀ a, is_digit a → P a) → str_forall P (to_string z).
Proof.
  intros Hm Hd. unfold to_string. case_decide.
  - rewrite str_forall_cons. apply andb_True. split; [done|].
    eapply str_forall_impl; [exact Hd|apply digits_all_digits; lia].
  - eapply str_forall_impl; [exact Hd|apply digits_all_digits; lia].
Qed.

Lemma to_string_inj z z' : to_string z = to_string z' → z = z'.
Proof.
  intros H. pose proof (read_number_to_string z "" I) as H1.
  rewrite H, read_number_to_string in H1 by done. congruence.
Qed.
