(* ===== verification/Types.v ===== *)
(** * Data of the framework

    The enums and structs of [master/helpers.h], the messages of
    [protos/mr.proto], the client objects of [master/mrclient.h] and the state
    of [class Master] ([master/master.h]) together with the globals of
    [masterimpl.cc] it shares with its threads. *)

From S2P Require Export CString.

(** ** [master/helpers.h] *)

Inductive ClientStatus : Type :=
  | IDLE
  | MAP_RUNNING
  | REDUCE_RUNNING
  | MAP_DONE
  | REDUCE_DONE
  | BROKEN
  | DEADLINE_EXCEED.

Inductive PingStatus : Type :=
  | PING_CHECK
  | PING_SUCCESS
  | PING_FAIL.

Inductive ReturnStatus : Type :=
  | FAILED
  | SUCCESS
  | TIMEDOUT.

#[export] Instance ClientStatus_eq_dec : EqDecision ClientStatus.
Proof. solve_decision. Defined.
#[export] Instance PingStatus_eq_dec : EqDecision PingStatus.
Proof. solve_decision. Defined.
#[export] Instance ReturnStatus_eq_dec : EqDecision ReturnStatus.
Proof. solve_decision. Defined.

Record MapperResult : Type := mkMapperResult {
  status : ReturnStatus;
  shardId : Z;
  cname : string;
  isrequeued : bool;
  blobList : list string
}.

(** The constructor's parameters are (status, b, c, jobid, requeued): [b] is
    stored in [blobname] and [c] in [cname]. *)
Record ReduceResult : Type := mkReduceResult_fields {
  r_status : ReturnStatus;
  r_cname : string;
  r_blobname : string;
  r_jobid : Z;
  r_isrequeued : bool
}.

Definition mkReduceResult (s : ReturnStatus) (b c : string) (j : Z) (x : bool) : ReduceResult :=
  {| r_status := s; r_cname := c; r_blobname := b; r_jobid := j; r_isrequeued := x |}.

Record shard_info : Type := mk_shard_info {
  blob_name : string;
  begin_offset : Z;
  end_offset : Z;
  is_partial : bool
}.

Record ClientInfo : Type := mkClientInfo {
  ci_address : string;
  nodeid : string
}.

Record ShardData : Type := mkShardData {
  blobName_ : string;
  begin_ : Z;
  end_ : Z
}.

Record FileShard : Type := mkFileShard {
  shardId_ : Z;
  sets_ : list ShardData
}.

(** ** [protos/mr.proto]: storing into an [int32] field converts to it *)

Record MasterInfo : Type := mkMasterInfo {
  mi_name : string;
  mi_connectionstring : string;
  mi_containername : string
}.

Record ShardTuple : Type := mkShardTuple {
  st_blobname : string;
  startoffset : Z;
  endoffset : Z
}.

Record MapperInput : Type := mkMapperInput {
  npartition : Z;
  mi_shard_id : Z;
  stuples : list ShardTuple;
  mi_req_id : string
}.

Record IntermediateResult : Type := mkIntermediateResult {
  ir_containername : string;
  ir_blobs : list string
}.

Record ReducerInput : Type := mkReducerInput {
  ri_req_id : string;
  ri_containername : string;
  reducer_id : Z;
  ri_blobs : list string
}.

Record FinalResult : Type := mkFinalResult {
  fr_blobname : string;
  fr_containername : string
}.

Record JobStatus : Type := mkJobStatus {
  js_shard_id : Z;
  js_int_container : string;
  js_blob_list : list string
}.

Record FileShardSet : Type := mkFileShardSet {
  fs_shard_id : Z;
  fs_stuples : list ShardTuple
}.

Record ReduceJobStatus : Type := mkReduceJobStatus {
  rj_jobid : Z;
  rj_out_container : string
}.

Record CheckPointData : Type := mkCheckPointData {
  cp_req_id : Z;
  cp_n_mappers : Z;
  cp_n_reducers : Z;
  cp_in_container : string;
  cp_shard_list : list FileShardSet;
  cp_job_list : list JobStatus;
  cp_reduce_job_list : list ReduceJobStatus
}.

(** The result of one RPC: the reply, or a status that is not OK with its
    gRPC code. 4 is [DEADLINE_EXCEEDED]. *)
Inductive rpc_result (A : Type) : Type :=
  | RpcOk (reply : A)
  | RpcError (error_code : Z).
Arguments RpcOk {A} reply.
Arguments RpcError {A} error_code.

(** ** [master/mrclient.h]: the client objects and their calls in flight *)

(** A pointer to a client object. *)
Abbreviation cptr := nat.

Record MapReduceClient : Type := mkMapReduceClient {
  address_ : string;
  clientStatus_ : ClientStatus;
  pingStatus_ : PingStatus;
  nMapRequests : Z;
  nReduceRequests : Z
}.

#[export] Instance eta_MapReduceClient : EtaRecord MapReduceClient := λ r,
  mkMapReduceClient (address_ r) (clientStatus_ r) (pingStatus_ r)
    (nMapRequests r) (nReduceRequests r).

(** [AsyncClientMapCall]: the request it was started with, and the fields the
    completion handler reads. *)
Record AsyncClientMapCall : Type := mkMapCall {
  mc_query : MapperInput;
  mc_shardId : Z;
  mc_address : string;
  mc_client : cptr
}.

Record AsyncClientReduceCall : Type := mkReduceCall {
  rc_query : ReducerInput;
  rc_jobid : Z;
  rc_address : string;
  rc_client : cptr
}.

(** ** [master/master.h]: the state of a master *)

Record Master : Type := mkMaster {
  m_address : string;
  m_nodepath : string;
  m_has_failed : bool;
  m_will_fail : bool;
  m_until_fail : Z;
  m_connection : string;
  m_dbConnection : option string;   (* the connection string it was made with *)
  m_Clients : list cptr;
  m_ClientMap : gmap cptr ClientInfo;
  m_stop_repl_as_leader : bool;
  m_stop_repl_as_follower : bool;
  m_map_done : bool;
  m_hbcheck : bool;
  m_bReplicated : bool;
  m_server : bool;                  (* the HTTP server is running *)
  m_rid : Z;
  m_nmappers : Z;
  m_nreducers : Z;
  m_containername : string;
  m_shardsz : Z;
  m_shards : list FileShard;
  m_ShardClientMapper : gmap Z cptr;
  m_IntermediateResultMap : gmap Z MapperResult;
  m_IntblobList : list string;
  m_intcontainer : string;
  m_OutputResultMap : gmap Z string;
  repl_clt_thd : bool               (* the replication client's thread is joinable *)
}.

#[export] Instance eta_Master : EtaRecord Master := λ r,
  mkMaster (m_address r) (m_nodepath r) (m_has_failed r) (m_will_fail r) (m_until_fail r)
    (m_connection r) (m_dbConnection r) (m_Clients r) (m_ClientMap r)
    (m_stop_repl_as_leader r) (m_stop_repl_as_follower r) (m_map_done r) (m_hbcheck r)
    (m_bReplicated r) (m_server r) (m_rid r) (m_nmappers r) (m_nreducers r)
    (m_containername r) (m_shardsz r) (m_shards r) (m_ShardClientMapper r)
    (m_IntermediateResultMap r) (m_IntblobList r) (m_intcontainer r) (m_OutputResultMap r)
    (repl_clt_thd r).

(** The master process: its [Master] object, the client objects its pointers
    refer to, the globals of [masterimpl.cc] and the static counters of
    [getShardId] and [req_handler::request_id]. *)
Record World : Type := mkWorld {
  master : Master;
  heap : gmap cptr MapReduceClient;
  g_ready : bool;
  g_repl_data : bool;
  g_repl_list : list MapperResult;
  watchTriggered : bool;
  shard_counter : Z;
  request_counter : Z
}.

#[export] Instance eta_World : EtaRecord World := λ r,
  mkWorld (master r) (heap r) (g_ready r) (g_repl_data r) (g_repl_list r)
    (watchTriggered r) (shard_counter r) (request_counter r).

(** [Master::Master(int fail_after)]. *)
Definition Master_new (fail_after : Z) : Master :=
  {| m_address := ""; m_nodepath := "";
     m_has_failed := false;
     m_will_fail := if decide (fail_after ≤ 0) then false else true;
     m_until_fail := if decide (fail_after ≤ 0) then 0 else fail_after;
     m_connection := ""; m_dbConnection := None;
     m_Clients := []; m_ClientMap := ∅;
     m_stop_repl_as_leader := true; m_stop_repl_as_follower := true;
     m_map_done := true; m_hbcheck := false; m_bReplicated := false;
     m_server := false;
     m_rid := 0; m_nmappers := 0; m_nreducers := 0; m_containername := "";
     m_shardsz := 0; m_shards := []; m_ShardClientMapper := ∅;
     m_IntermediateResultMap := ∅; m_IntblobList := []; m_intcontainer := "";
     m_OutputResultMap := ∅; repl_clt_thd := false |}.

(** The globals as the process starts. *)
Definition World_new (fail_after : Z) : World :=
  {| master := Master_new fail_after; heap := ∅;
     g_ready := true; g_repl_data := true; g_repl_list := [];
     watchTriggered := false; shard_counter := -1; request_counter := -1 |}.

(** ** Failure injection *)

(** [Master::stop_ping]. *)
Definition stop_ping (m : Master) : Master := m <| m_hbcheck := false |>.

(** [Master::enter_fail_state]: the state in which the calling thread then
    sleeps for ever. *)
Definition enter_fail_state (m : Master) : Master :=
  stop_ping (m <| m_has_failed := true |>)
    <| m_stop_repl_as_leader := true |>
    <| m_stop_repl_as_follower := true |>
    <| m_map_done := true |>
    <| m_server := false |>.

(** [Master::task_assigned_check_fail]: the new state, and whether the thread
    entered the fail state (it then never returns). *)
Definition task_assigned_check_fail (m : Master) : Master * bool :=
  if m_will_fail m then
    let m := m <| m_until_fail := to_int32 (m_until_fail m - 1) |> in
    if decide (m_until_fail m ≤ 0) then (enter_fail_state m, true) else (m, false)
  else (m, false).
