(* ===== verification/Sharding.v ===== *)
(** * Sharding ([master/dbconn.h], [Master::create_sharding_data])

    How a container is cut into shards. [calc_shard_sz] works in [float];
    [make_shards] cuts the blobs in listing order into pieces, the last piece
    of a blob being partial when the shard goes on in the next blob;
    [create_sharding_data] joins the pieces into numbered shards.

    The theorems: the pieces of a blob tile it without gap or overlap; every
    shard but the last holds exactly [shard_sz] bytes and the last one fewer;
    shard [i] of the list has the id [i]; how many shards there are, and when
    that is the number of mappers the job waits for. *)

From S2P Require Export Types.
From Corelib Require Import SpecFloat.

(** ** The container listing

    What the storage library answers to [list_blobs]: for each item, whether it
    is a blob, its name and its size in bytes. *)
Record blob_item : Type := mk_blob_item {
  item_is_blob : bool;
  item_name : string;
  item_size : Z
}.

(** ** [float] arithmetic (IEEE binary32, round to nearest even) *)

Definition f32_of_Z (z : Z) : spec_float := binary_normalize 24 128 z 0 false.
Definition f32_add : spec_float → spec_float → spec_float := SFadd 24 128.
Definition f32_div : spec_float → spec_float → spec_float := SFdiv 24 128.

(** [ceil], then the conversion to [size_t]: undefined for infinities, NaN and
    values that [size_t] does not hold. *)
Definition ceil_to_size (x : spec_float) : outcome Z :=
  match x with
  | S754_zero _ => Ret 0
  | S754_finite s m e =>
      let v := if s then Z.neg m else Z.pos m in
      let c := if decide (0 ≤ e) then v * 2 ^ e else - (- v / 2 ^ (- e)) in
      if decide (0 ≤ c < 2 ^ 64) then Ret c else Undef
  | _ => Undef
  end.

(** [DBConnection::calc_shard_sz]: the sum over the blobs, in [float]. *)
Definition total_f32 (items : list blob_item) : spec_float :=
  foldl (λ tot_sz it,
      if item_is_blob it then f32_add tot_sz (f32_of_Z (item_size it)) else tot_sz)
    (S754_zero false) items.

Definition calc_shard_sz (items : list blob_item) (nshards : Z) : outcome Z :=
  ceil_to_size (f32_div (total_f32 items) (f32_of_Z nshards)).

(** ** [DBConnection::make_shards] *)

(** The loop [while (end <= blob_sz)]: [None] when the fuel runs out, else
    the values of [begin], [end] and [rem_shard_sz] after it and the pieces
    appended. *)
Fixpoint shard_loop (fuel : nat) (name : string) (shard_sz blob_sz : Z)
    (b e rem : Z) : option (Z * Z * Z * list shard_info) :=
  match fuel with
  | O => None
  | S f =>
      if decide (e ≤ blob_sz) then
        let piece := mk_shard_info name b e false in
        let rem := shard_sz in
        if decide (e = blob_sz) then Some (b, e, rem, [piece])
        else
          let b := e in
          let e := to_size (b + shard_sz) in
          if decide (blob_sz < e) then Some (b, e, rem, [piece])
          else
            '(b, e, rem, ps) ← shard_loop f name shard_sz blob_sz b e rem;
            Some (b, e, rem, piece :: ps)
      else Some (b, e, rem, [])
  end.

(** One blob: the pieces it adds and the new [rem_shard_sz]. *)
Definition shard_blob (fuel : nat) (shard_sz rem : Z) (it : blob_item)
    : option (Z * list shard_info) :=
  let name := item_name it in
  let blob_sz := item_size it in
  '(b, e, rem, ps) ← shard_loop fuel name shard_sz blob_sz 0 rem rem;
  if decide (blob_sz < e)
  then Some (to_size (rem - to_size (blob_sz - b)), ps ++ [mk_shard_info name b blob_sz true])
  else Some (rem, ps).

Fixpoint make_shards_go (fuel : nat) (shard_sz rem : Z) (items : list blob_item)
    : option (list shard_info) :=
  match items with
  | [] => Some []
  | it :: items =>
      if item_is_blob it then
        '(rem, ps) ← shard_blob fuel shard_sz rem it;
        qs ← make_shards_go fuel shard_sz rem items;
        Some (ps ++ qs)
      else make_shards_go fuel shard_sz rem items
  end.

Definition make_shards (fuel : nat) (shard_sz : Z) (items : list blob_item)
    : option (list shard_info) :=
  make_shards_go fuel shard_sz shard_sz items.

(** Fuel that is enough for every blob of the listing: the first round of the
    loop ends a shard, each later one consumes [shard_sz] bytes. *)
Definition blob_fuel (shard_sz : Z) (it : blob_item) : nat :=
  S (S (Z.to_nat (item_size it / shard_sz))).

Definition shard_fuel (shard_sz : Z) (items : list blob_item) : nat :=
  foldr (λ it n, blob_fuel shard_sz it `max` n)%nat O items.

(** ** [getShardId] and [Master::create_sharding_data] *)

(** [getShardId(reset)]: the value returned and the static counter after it. *)
Definition getShardId (reset : bool) (id_ : Z) : Z * Z :=
  if reset then (-1, -1) else let id_ := to_int32 (id_ + 1) in (id_, id_).

Definition to_ShardData (p : shard_info) : ShardData :=
  mkShardData (blob_name p) (begin_offset p) (end_offset p).

(** The loop over the shard pieces: [info_set] collects until a piece that is
    not partial ends the shard. *)
Fixpoint join_pieces (pieces : list shard_info) (info_set : list ShardData) (id_ : Z)
    : list FileShard * Z :=
  match pieces with
  | [] =>
      match info_set with
      | [] => ([], id_)
      | _ => let '(i, id_) := getShardId false id_ in ([mkFileShard i info_set], id_)
      end
  | p :: ps =>
      let info_set := info_set ++ [to_ShardData p] in
      if is_partial p then join_pieces ps info_set id_
      else
        let '(i, id_) := getShardId false id_ in
        let '(shards, id_) := join_pieces ps [] id_ in
        (mkFileShard i info_set :: shards, id_)
  end.

(** [Master::create_sharding_data] up to the start of the replication client.
    [Ret None]: [make_shards] does not terminate. *)
Definition create_sharding_data (items : list blob_item) (w : World) : outcome (option World) :=
  let m := (master w) <| m_shards := [] |> in
  match m_dbConnection m with
  | None => Ret (Some (w <| master := m |>))
  | Some _ =>
      let! sz := calc_shard_sz items (m_nmappers m) in
      let m := m <| m_shardsz := sz |> in
      match make_shards (shard_fuel sz items) sz items with
      | None => Ret None
      | Some pieces =>
          let '(_, id_) := getShardId true (shard_counter w) in
          let '(shards, id_) := join_pieces pieces [] id_ in
          Ret (Some (w <| master := m <| m_shards := shards |> |> <| shard_counter := id_ |>))
      end
  end.

(** ** Specification vocabulary *)

Definition piece_len (p : shard_info) : Z := end_offset p - begin_offset p.
Definition shard_len (s : FileShard) : Z := foldr (λ d n, end_ d - begin_ d + n) 0 (sets_ s).

(** The pieces [ps] of blob [name] go from offset [b] to offset [e], each one
    starting where the one before ends. *)
Fixpoint chain (name : string) (b : Z) (ps : list shard_info) (e : Z) : Prop :=
  match ps with
  | [] => b = e
  | p :: ps =>
      blob_name p = name ∧ begin_offset p = b ∧ b ≤ end_offset p ∧ chain name (end_offset p) ps e
  end.

(** The pieces of a blob cover it from its first to its last byte. *)
Definition tiles (it : blob_item) (ps : list shard_info) : Prop :=
  chain (item_name it) 0 ps (item_size it).

(** Cutting into shards of [sz] bytes, [pend] bytes of the current shard being
    already taken: a piece that ends a shard completes it exactly. *)
Fixpoint cut_ok (sz pend : Z) (ps : list shard_info) (pend' : Z) : Prop :=
  match ps with
  | [] => pend = pend'
  | p :: ps =>
      0 ≤ piece_len p ∧
      if is_partial p then pend + piece_len p < sz ∧ cut_ok sz (pend + piece_len p) ps pend'
      else pend + piece_len p = sz ∧ cut_ok sz 0 ps pend'
  end.

Definition blobs (items : list blob_item) : list blob_item :=
  filter (λ it, Is_true (item_is_blob it)) items.

Definition total_size (items : list blob_item) : Z :=
  foldr (λ it n, item_size it + n) 0 (blobs items).

(** A listing [size_t] arithmetic is exact on. *)
Definition fits (sz : Z) (it : blob_item) : Prop := 0 ≤ item_size it ∧ item_size it + sz < 2 ^ 64.

Definition ceil_div (a b : Z) : Z := - (- a / b).

(** ** The loops of [make_shards] *)

Lemma chain_app name b ps m qs e :
  chain name b ps m → chain name m qs e → chain name b (ps ++ qs) e.
Proof.
  revert b. induction ps as [|p ps IH]; intros b; simpl; [by intros ->|].
  intros (? & ? & ? & ?) ?. eauto.
Qed.

Lemma cut_ok_app sz a ps m qs c :
  cut_ok sz a ps m → cut_ok sz m qs c → cut_ok sz a (ps ++ qs) c.
Proof.
  revert a. induction ps as [|p ps IH]; intros a; simpl; [by intros ->|].
  destruct (is_partial p); intros (? & ? & ?) ?; eauto.
Qed.

(** The state the loop leaves: either the last piece ended with the blob, or
    the bytes from [b'] on are left over for a partial piece. *)
Definition loop_post (sz blob_sz rem b' e' rem' : Z) (ps : list shard_info) : Prop :=
  rem' = (if decide (ps = []) then rem else sz) ∧
  (e' = blob_sz ∧ ps ≠ [] ∨ blob_sz < e' ∧ b' ≤ blob_sz ∧ e' - b' = rem').

(** What the loop over one blob establishes, [e - b] bytes being still missing
    from the current shard. *)
Lemma shard_loop_spec fuel name sz blob_sz b e :
  0 < e - b ≤ sz → 0 ≤ b ≤ blob_sz → blob_sz + sz < 2 ^ 64 →
  (0 < fuel)%nat → (e ≤ blob_sz → (S (Z.to_nat ((blob_sz - e) / sz)) ≤ fuel)%nat) →
  ∃ b' e' rem' ps,
    shard_loop fuel name sz blob_sz b e (e - b) = Some (b', e', rem', ps) ∧
    loop_post sz blob_sz (e - b) b' e' rem' ps ∧
    chain name b ps (if decide (e' = blob_sz) then blob_sz else b') ∧
    cut_ok sz (sz - (e - b)) ps (sz - rem') ∧
    (b < blob_sz → b' < blob_sz) ∧
    Forall (λ p, 0 < piece_len p) ps.
Proof.
  revert b e. induction fuel as [|f IH]; intros b e Hrem Hb Hov Hf0 Hf; [lia|].
  cbn [shard_loop]. unfold loop_post. case_decide as Hle.
  2:{ exists b, e, (e - b), []. rewrite !decide_True by done. rewrite decide_False by lia.
      repeat split; try done; lia. }
  case_decide as Heq.
  { subst blob_sz. exists b, e, sz, [mk_shard_info name b e false].
    rewrite (decide_False (P:=_ = [])), decide_True by done.
    repeat (split || constructor); unfold piece_len; cbn; try done; lia. }
  rewrite to_size_id by (unfold is_size; lia).
  case_decide as Hgt.
  { exists e, (e + sz), sz, [mk_shard_info name b e false].
    rewrite (decide_False (P:=_ = [])) by done. rewrite decide_False by lia.
    split; [done|]. split; [split; [done|right; lia]|].
    repeat (split || constructor); unfold piece_len; cbn; try done; lia. }
  destruct (IH e (e + sz)) as (b' & e' & rem' & ps & Hl & [Hr Hp] & Hc & Hcut & Hlt & Hpos);
    [lia|lia|lia| |intros _|].
  { specialize (Hf Hle). assert (1 ≤ (blob_sz - e) / sz); [|lia].
    apply Z.div_le_lower_bound; lia. }
  { specialize (Hf Hle). replace (blob_sz - e) with (blob_sz - (e + sz) + 1 * sz) in Hf by lia.
    rewrite Z.div_add in Hf by lia.
    pose proof (Z.div_pos (blob_sz - (e + sz)) sz). lia. }
  replace (e + sz - e) with sz in * by lia. rewrite Hl. cbn.
  exists b', e', sz, (mk_shard_info name b e false :: ps).
  assert (rem' = sz) as -> by (rewrite Hr; by destruct (decide (ps = []))).
  rewrite (decide_False (P:=_ = [])) by done.
  split; [done|]. split; [split; [done|destruct Hp as [[??]|?]; [by left|by right]]|].
  replace (sz - sz) with 0 in Hcut by lia.
  repeat (split || constructor); unfold piece_len; cbn; try done; try lia.
  replace (sz - sz) with 0 by lia. done.
Qed.

(** One blob: its pieces tile it, cut the shards exactly, and leave the bytes
    still missing from the current shard in [rem]. *)
Lemma shard_blob_spec fuel sz rem it :
  0 < rem ≤ sz → fits sz it → (blob_fuel sz it ≤ fuel)%nat →
  ∃ rem' ps,
    shard_blob fuel sz rem it = Some (rem', ps) ∧ 0 < rem' ≤ sz ∧
    tiles it ps ∧ cut_ok sz (sz - rem) ps (sz - rem') ∧
    (0 < item_size it → Forall (λ p, 0 < piece_len p) ps).
Proof.
  intros Hrem [Hsz Hov] Hf. unfold shard_blob, tiles, blob_fuel in *.
  destruct (shard_loop_spec fuel (item_name it) sz (item_size it) 0 rem)
    as (b' & e' & rem' & ps & Hl & [Hr Hp] & Hc & Hcut & Hlt & Hpos); [lia|lia|lia|lia| |].
  { intros ?. assert ((item_size it - rem) / sz ≤ item_size it / sz); [|lia].
    apply Z.div_le_mono; lia. }
  rewrite Z.sub_0_r in Hl, Hcut, Hr. rewrite Hl. cbn.
  assert (0 < rem' ≤ sz) by (rewrite Hr; destruct (decide (ps = [])); lia).
  destruct (decide (item_size it < e')) as [Hgt|Hgt].
  - rewrite decide_False in Hc by lia. destruct Hp as [?|(_ & Hb' & He)]; [lia|].
    assert (0 ≤ b') as Hb0.
    { clear -Hc. revert Hc. generalize (item_name it). intros n.
      assert (∀ b, 0 ≤ b → chain n b ps b' → 0 ≤ b') as H; [|by apply H].
      induction ps as [|p ps IH]; cbn; intros b Hb; [by intros ->|].
      intros (_ & _ & ? & ?). eapply IH; [|done]. lia. }
    rewrite (to_size_id (item_size it - b')), to_size_id by (unfold is_size; lia).
    eexists _, _. split; [done|]. split; [lia|].
    split; [eapply chain_app; [done|]; repeat split; cbn; first [done|lia]|]. split.
    + eapply cut_ok_app; [done|]. simpl. unfold piece_len. simpl. lia.
    + intros Hs. apply Forall_app. split; [done|]. repeat constructor.
      unfold piece_len; cbn. lia.
  - eexists _, _. split; [done|]. split; [lia|].
    rewrite decide_True in Hc by lia. done.
Qed.

Lemma blobs_cons it items :
  blobs (it :: items) = if item_is_blob it then it :: blobs items else blobs items.
Proof. unfold blobs. rewrite filter_cons. by destruct (item_is_blob it). Qed.

Lemma make_shards_go_spec fuel sz rem items :
  0 < rem ≤ sz → Forall (fits sz) (blobs items) → (shard_fuel sz items ≤ fuel)%nat →
  ∃ rem' pss,
    make_shards_go fuel sz rem items = Some (concat pss) ∧ 0 < rem' ≤ sz ∧
    Forall2 tiles (blobs items) pss ∧ cut_ok sz (sz - rem) (concat pss) (sz - rem') ∧
    (Forall (λ it, 0 < item_size it) (blobs items) →
     Forall (λ p, 0 < piece_len p) (concat pss)).
Proof.
  revert rem. induction items as [|it items IH]; intros rem Hrem Hfit Hf.
  { exists rem, []. repeat split; try done; lia. }
  cbn [make_shards_go].
  change (shard_fuel sz (it :: items)) with (blob_fuel sz it `max` shard_fuel sz items)%nat in Hf.
  rewrite blobs_cons in Hfit |- *. destruct (item_is_blob it) eqn:Hblob.
  - apply Forall_cons in Hfit as [Hfit Hfits].
    destruct (shard_blob_spec fuel sz rem it) as (rem1 & ps & -> & Hr1 & Ht & Hc & Hp);
      [done|done|lia|]. simpl.
    destruct (IH rem1) as (rem' & pss & -> & Hr' & Hts & Hcs & Hps); [done|done|lia|].
    exists rem', (ps :: pss). repeat split; try done; try lia.
    + by constructor.
    + simpl. by eapply cut_ok_app.
    + rewrite Forall_cons. intros [??]. simpl. apply Forall_app. eauto.
  - apply IH; [done|done|lia].
Qed.

(** ** Joining the pieces *)

Definition sets_len (l : list ShardData) : Z := foldr (λ d n, end_ d - begin_ d + n) 0 l.

Lemma sets_len_app l k : sets_len (l ++ k) = sets_len l + sets_len k.
Proof. induction l as [|d l IH]; simpl; [done|]. rewrite IH. lia. Qed.

Lemma sets_len_pos l : Forall (λ d, 0 < end_ d - begin_ d) l → l ≠ [] → 0 < sets_len l.
Proof.
  intros Hl Hne. destruct Hl as [|d l Hd Hl]; [done|]. simpl.
  assert (0 ≤ sets_len l); [|unfold sets_len in *; lia].
  clear -Hl. induction Hl as [|d l Hd Hl IH]; simpl; [done|]. unfold sets_len in *. lia.
Qed.

Lemma to_int32_add z n : to_int32 (to_int32 z + n) = to_int32 (z + n).
Proof.
  unfold to_int32. f_equal.
  replace ((z + 2 ^ 31) mod 2 ^ 32 - 2 ^ 31 + n + 2 ^ 31)
    with ((z + 2 ^ 31) mod 2 ^ 32 + n) by lia.
  replace (z + n + 2 ^ 31) with (z + 2 ^ 31 + n) by lia.
  by rewrite Zplus_mod_idemp_l.
Qed.

(** The shards are complete ones of [sz] bytes, followed by at most one that
    holds the [pend] bytes left over. *)
Definition shards_cut (sz pend : Z) (shards : list FileShard) : Prop :=
  ∃ fulls last, shards = fulls ++ last ∧ Forall (λ s, shard_len s = sz) fulls ∧
    (last = [] ∧ pend = 0 ∨
     ∃ s, last = [s] ∧ shard_len s = pend ∧
          (Forall (λ d, 0 < end_ d - begin_ d) (concat (sets_ <$> shards)) → 0 < pend)).

Lemma join_pieces_spec sz ps info id0 pend :
  cut_ok sz (sets_len info) ps pend →
  let shards := (join_pieces ps info id0).1 in
  (∀ i s, shards !! i = Some s → shardId_ s = to_int32 (id0 + 1 + Z.of_nat i)) ∧
  concat (sets_ <$> shards) = info ++ (to_ShardData <$> ps) ∧
  shards_cut sz pend shards.
Proof.
  revert info id0. induction ps as [|p ps IH]; intros info id0 Hc; simpl in *.
  - subst pend. destruct info as [|d info]; simpl.
    + split; [by intros|]. split; [done|]. exists [], []. split; [done|]. split; [done|]. by left.
    + split; [intros [|i] s; intros [= <-]; simpl; f_equal; lia|].
      split; [by rewrite !app_nil_r|]. eexists [], _. split; [done|]. split; [done|]. right.
      eexists. split; [done|]. split; [done|]. simpl. rewrite app_nil_r. intros Hp.
      by apply (sets_len_pos (d :: info)).
  - destruct Hc as [Hlen Hc].
    assert (sets_len (info ++ [to_ShardData p]) = sets_len info + piece_len p) as Hl
      by (rewrite sets_len_app; simpl; unfold piece_len; lia).
    destruct (is_partial p).
    + destruct Hc as [_ Hc]. rewrite <-Hl in Hc.
      destruct (IH _ id0 Hc) as (Hid & Hcat & Hcut). simpl in *.
      split; [done|]. split; [|done]. by rewrite Hcat, <-app_assoc.
    + destruct Hc as [Hfull Hc].
      destruct (IH [] (to_int32 (id0 + 1)) Hc) as (Hid & Hcat & Hcut). simpl in *.
      destruct (join_pieces ps [] (to_int32 (id0 + 1))) as [shards id1]. simpl in *.
      split; [|split].
      * intros [|i] s; [intros [= <-]; simpl; f_equal; lia|]. intros Hs. simpl in Hs.
        rewrite (Hid _ _ Hs), <-Z.add_assoc, to_int32_add. f_equal. lia.
      * change (list_fmap _ _ sets_ shards) with (sets_ <$> shards). by rewrite Hcat, <-app_assoc.
      * destruct Hcut as (fulls & last & -> & Hf & Hlast).
        exists (mkFileShard (to_int32 (id0 + 1)) (info ++ [to_ShardData p]) :: fulls), last.
        split; [done|]. split; [constructor; [|done]; unfold shard_len; simpl; fold (sets_len (info ++ [to_ShardData p])); lia|].
        destruct Hlast as [?|(s & -> & Hs & Hpos)]; [by left|right].
        exists s. split; [done|]. split; [done|]. simpl. intros [_ Hp]%Forall_app. by apply Hpos.
Qed.

Definition shards_total (shards : list FileShard) : Z := foldr (λ s n, shard_len s + n) 0 shards.

Lemma shards_total_concat shards : shards_total shards = sets_len (concat (sets_ <$> shards)).
Proof.
  induction shards as [|s shards IH]; [done|]. rewrite fmap_cons. simpl.
  by rewrite sets_len_app, <-IH.
Qed.

Lemma chain_len name b ps e : chain name b ps e → sets_len (to_ShardData <$> ps) = e - b.
Proof.
  revert b. induction ps as [|p ps IH]; intros b; [simpl; lia|].
  intros (_ & <- & _ & Hc). rewrite fmap_cons. simpl. fold (sets_len (to_ShardData <$> ps)).
  rewrite (IH _ Hc). lia.
Qed.

Lemma tiles_total its pss :
  Forall2 tiles its pss →
  sets_len (to_ShardData <$> concat pss) = foldr (λ it n, item_size it + n) 0 its.
Proof.
  intros H. induction H as [|it ps its pss Ht _ IH]; [done|]. simpl.
  rewrite fmap_app, sets_len_app, IH. apply chain_len in Ht. lia.
Qed.

Lemma shards_total_full sz shards :
  Forall (λ s, shard_len s = sz) shards → shards_total shards = sz * Z.of_nat (length shards).
Proof.
  induction 1 as [|s shards Hs _ IH]; [simpl; lia|]. simpl length.
  rewrite Nat2Z.inj_succ. unfold shards_total in *. simpl. lia.
Qed.

Lemma shards_total_app l k : shards_total (l ++ k) = shards_total l + shards_total k.
Proof. induction l as [|s l IH]; simpl; [done|]. rewrite IH. lia. Qed.

(** Everything [create_sharding_data] establishes when the listing fits. *)
Section CreateShardingData.
Context (items : list blob_item) (w : World) (conn : string) (sz : Z).
Context (Hconn : m_dbConnection (master w) = Some conn).
Context (Hsz : calc_shard_sz items (m_nmappers (master w)) = Ret sz).
Context (Hpos : 0 < sz) (Hfits : Forall (fits sz) (blobs items)).

Lemma create_sharding_data_spec :
  ∃ w' pss pend,
    create_sharding_data items w = Ret (Some w') ∧
    Forall2 tiles (blobs items) pss ∧ 0 ≤ pend < sz ∧
    let shards := m_shards (master w') in
    concat (sets_ <$> shards) = to_ShardData <$> concat pss ∧
    shards_cut sz pend shards ∧
    (∀ i s, shards !! i = Some s → shardId_ s = to_int32 (Z.of_nat i)) ∧
    (Forall (λ it, 0 < item_size it) (blobs items) →
     Forall (λ p, 0 < piece_len p) (concat pss)).
Proof.
  unfold create_sharding_data. simpl. rewrite Hconn, Hsz. simpl.
  destruct (make_shards_go_spec (shard_fuel sz items) sz sz items)
    as (rem & pss & Hm & Hr & Ht & Hc & Hp); [lia|done|done|].
  unfold make_shards. rewrite Hm.
  replace (sz - sz) with (sets_len []) in Hc by (simpl; lia).
  destruct (join_pieces_spec _ _ _ (-1) _ Hc) as (Hid & Hcat & Hcut).
  destruct (join_pieces (concat pss) [] (-1)) as [shards id1]. simpl in *.
  eexists _, pss, (sz - rem). split; [done|]. split; [done|]. split; [lia|]. simpl.
  split; [done|]. split; [done|]. split; [|done].
  intros i s Hs. rewrite (Hid _ _ Hs). by f_equal.
Qed.

(** The shards hold as many bytes as the blobs. *)
Lemma create_sharding_data_total w' :
  create_sharding_data items w = Ret (Some w') →
  ∃ fulls last pend, m_shards (master w') = fulls ++ last ∧
    0 ≤ pend < sz ∧ total_size items = sz * Z.of_nat (length fulls) + pend ∧
    Forall (λ s, shard_len s = sz) fulls ∧
    (last = [] ∧ pend = 0 ∨ ∃ s, last = [s] ∧ shard_len s = pend ∧
       (Forall (λ it, 0 < item_size it) (blobs items) → 0 < pend)).
Proof.
  destruct create_sharding_data_spec as (w1 & pss & pend & -> & Ht & Hpend & Hcat & Hcut & _ & Hp).
  intros [= <-]. destruct Hcut as (fulls & last & Hs & Hf & Hl). exists fulls, last, pend.
  split; [done|]. split; [done|]. split.
  - unfold total_size. rewrite <-(tiles_total _ _ Ht), <-Hcat, <-shards_total_concat, Hs.
    rewrite shards_total_app, (shards_total_full _ _ Hf).
    destruct Hl as [[-> ->]|(s & -> & <- & _)]; unfold shards_total; simpl; lia.
  - split; [done|]. destruct Hl as [?|(s & -> & ? & Hlast)]; [by left|right].
    exists s. split; [done|]. split; [done|]. intros Hs0. apply Hlast.
    rewrite Hcat. apply Forall_fmap. by apply Hp.
Qed.

Lemma create_sharding_data_length w' :
  create_sharding_data items w = Ret (Some w') →
  Z.of_nat (length (m_shards (master w'))) ≤ total_size items / sz + 1.
Proof.
  intros Hw. destruct (create_sharding_data_total w' Hw)
    as (fulls & last & pend & -> & Hpend & -> & _ & Hl).
  rewrite length_app, Z.mul_comm, Z.div_add_l, Z.div_small by lia.
  destruct Hl as [[-> _]|(s & -> & _)]; simpl; lia.
Qed.
End CreateShardingData.

(** ** Properties *)

(** C12: the shards, read in order, list exactly the pieces that tile each blob
    of the container from its first to its last byte, in listing order: no byte
    is left out and none is given to two shards. *)
Theorem create_sharding_data_tiles items w conn sz :
  m_dbConnection (master w) = Some conn →
  calc_shard_sz items (m_nmappers (master w)) = Ret sz →
  0 < sz → Forall (fits sz) (blobs items) →
  ∃ w' pss, create_sharding_data items w = Ret (Some w') ∧
    Forall2 tiles (blobs items) pss ∧
    concat (sets_ <$> m_shards (master w')) = to_ShardData <$> concat pss.
Proof.
  intros Hc Hs Hp Hf.
  destruct (create_sharding_data_spec items w conn sz Hc Hs Hp Hf)
    as (w' & pss & _ & ? & ? & _ & ? & _). eauto.
Qed.

(** C28: every shard but the last holds exactly [sz] bytes and the last one, if
    it is shorter, holds what is left of the total. *)
Theorem create_sharding_data_sizes items w conn sz w' :
  m_dbConnection (master w) = Some conn →
  calc_shard_sz items (m_nmappers (master w)) = Ret sz →
  0 < sz → Forall (fits sz) (blobs items) →
  create_sharding_data items w = Ret (Some w') →
  ∃ fulls last, m_shards (master w') = fulls ++ last ∧
    Forall (λ s, shard_len s = sz) fulls ∧
    (last = [] ∧ total_size items mod sz = 0 ∨
     ∃ s, last = [s] ∧ shard_len s = total_size items mod sz).
Proof.
  intros Hc Hs Hp Hf Hw.
  destruct (create_sharding_data_total items w conn sz Hc Hs Hp Hf w' Hw)
    as (fulls & last & pend & ? & ? & Ht & ? & Hl).
  assert (total_size items mod sz = pend) as ->.
  { rewrite Ht, Z.add_comm, Z.mul_comm, Z.mod_add, Z.mod_small; lia. }
  exists fulls, last. destruct Hl as [[??]|(s & ? & ? & _)]; eauto 10.
Qed.

(** the shard at index [i] has the id [i], which is what makes the job
    queue of indices ([runMapper]) and the re-queued ids of failed tasks the
    same numbers. *)
Theorem create_sharding_data_ids items w conn sz w' i s :
  m_dbConnection (master w) = Some conn →
  calc_shard_sz items (m_nmappers (master w)) = Ret sz →
  0 < sz → Forall (fits sz) (blobs items) →
  total_size items / sz + 1 < 2 ^ 31 →
  create_sharding_data items w = Ret (Some w') →
  m_shards (master w') !! i = Some s → shardId_ s = Z.of_nat i.
Proof.
  intros Hc Hs Hp Hf Hlim Hw Hi.
  pose proof (create_sharding_data_length items w conn sz Hc Hs Hp Hf w' Hw) as Hlen.
  destruct (create_sharding_data_spec items w conn sz Hc Hs Hp Hf)
    as (w1 & _ & _ & Hw1 & _ & _ & _ & _ & Hid & _).
  rewrite Hw1 in Hw. injection Hw as ->. rewrite (Hid _ _ Hi).
  apply to_int32_id. apply lookup_lt_Some in Hi. unfold is_int32. lia.
Qed.

(** with no empty blob in the container there are [ceil(total / sz)]
    shards. *)
Theorem create_sharding_data_count items w conn sz w' :
  m_dbConnection (master w) = Some conn →
  calc_shard_sz items (m_nmappers (master w)) = Ret sz →
  0 < sz → Forall (fits sz) (blobs items) →
  Forall (λ it, 0 < item_size it) (blobs items) →
  create_sharding_data items w = Ret (Some w') →
  Z.of_nat (length (m_shards (master w'))) = ceil_div (total_size items) sz.
Proof.
  intros Hc Hs Hp Hf Hne Hw.
  destruct (create_sharding_data_total items w conn sz Hc Hs Hp Hf w' Hw)
    as (fulls & last & pend & -> & ? & -> & _ & Hl).
  unfold ceil_div. rewrite length_app, Nat2Z.inj_add.
  destruct Hl as [[-> ->]|(s & -> & _ & Hpend)]; simpl length.
  - replace (- (sz * Z.of_nat (length fulls) + 0)) with (- Z.of_nat (length fulls) * sz) by lia.
    rewrite Z.div_mul by lia. lia.
  - specialize (Hpend Hne).
    replace (- (sz * Z.of_nat (length fulls) + pend))
      with ((sz - pend) + (- (Z.of_nat (length fulls) + 1)) * sz) by lia.
    rewrite Z.div_add, Z.div_small by lia. lia.
Qed.

(** when the computed shard size is the exact [ceil(total / m)] and there
    are at least [m * (m - 1)] bytes, there are exactly [m] shards, one for each
    mapper the job waits for. *)
Theorem create_sharding_data_one_per_mapper items w conn m w' :
  m_dbConnection (master w) = Some conn → m_nmappers (master w) = m → 0 < m →
  calc_shard_sz items m = Ret (ceil_div (total_size items) m) →
  Forall (fits (ceil_div (total_size items) m)) (blobs items) →
  Forall (λ it, 0 < item_size it) (blobs items) →
  0 < total_size items → m * (m - 1) ≤ total_size items →
  create_sharding_data items w = Ret (Some w') →
  Z.of_nat (length (m_shards (master w'))) = m.
Proof.
  intros Hc Hm Hmpos Hs Hf Hne Htot Hbig Hw. subst m.
  set (m := m_nmappers (master w)) in *. set (t := total_size items) in *.
  assert (ceil_div t m = (t + m - 1) / m) as Hceil.
  { unfold ceil_div. pose proof (Z.div_mod (- t) m ltac:(lia)).
    pose proof (Z.mod_pos_bound (- t) m ltac:(lia)).
    apply (Z.div_unique _ _ _ (m - 1 - (- t) mod m)); lia. }
  assert (0 < ceil_div t m) as Hsz.
  { rewrite Hceil. apply Z.div_str_pos. lia. }
  rewrite (create_sharding_data_count items w conn _ w' Hc Hs Hsz Hf Hne Hw).
  fold t. unfold ceil_div at 1. set (s := ceil_div t m) in *.
  assert (t ≤ s * m ∧ s * (m - 1) < t) as [H1 H2].
  { rewrite Hceil. pose proof (Z.div_mod (t + m - 1) m ltac:(lia)).
    pose proof (Z.mod_pos_bound (t + m - 1) m ltac:(lia)). split; [nia|].
    subst s. rewrite Hceil in *. nia. }
  assert (- t / s = - m); [|lia].
  symmetry. apply (Z.div_unique _ _ _ (s * m - t)); [left; nia|lia].
Qed.

(** ** Concrete runs *)

Definition ex_items : list blob_item :=
  [mk_blob_item true "a.txt" 10; mk_blob_item false "dir/" 0;
   mk_blob_item true "b.txt" 3; mk_blob_item true "c.txt" 9].

Definition ex_leader (nmappers : Z) : World :=
  let w := World_new 0 in
  w <| master := (master w) <| m_dbConnection := Some "conn" |> <| m_nmappers := nmappers |> |>.

(** The state after [create_sharding_data], when it returns one. *)
Definition sharded (items : list blob_item) (w : World) : World :=
  match create_sharding_data items w with Ret (Some w') => w' | _ => w end.

Ltac ex_fits :=
  repeat (constructor; [vm_compute; split; [discriminate|reflexivity]|]); constructor.
Ltac ex_nonempty := repeat (constructor; [cbn; lia|]); constructor.

Lemma create_sharding_data_tiles_witness :
  ∃ w' pss, create_sharding_data ex_items (ex_leader 6) = Ret (Some w') ∧
    Forall2 tiles (blobs ex_items) pss ∧
    concat (sets_ <$> m_shards (master w')) = to_ShardData <$> concat pss.
Proof.
  apply (create_sharding_data_tiles ex_items (ex_leader 6) "conn" 4);
    [reflexivity|vm_compute; reflexivity|lia|ex_fits].
Defined.

Lemma create_sharding_data_sizes_witness :
  ∃ fulls last, m_shards (master (sharded ex_items (ex_leader 6))) = fulls ++ last ∧
    Forall (λ s, shard_len s = 4) fulls ∧
    (last = [] ∧ total_size ex_items mod 4 = 0 ∨
     ∃ s, last = [s] ∧ shard_len s = total_size ex_items mod 4).
Proof.
  apply (create_sharding_data_sizes ex_items (ex_leader 6) "conn" 4);
    [reflexivity|vm_compute; reflexivity|lia|ex_fits|vm_compute; reflexivity].
Defined.

Lemma create_sharding_data_ids_witness :
  ∃ s, m_shards (master (sharded ex_items (ex_leader 6))) !! 5%nat = Some s ∧ shardId_ s = 5.
Proof.
  eexists. split; [vm_compute; reflexivity|].
  apply (create_sharding_data_ids ex_items (ex_leader 6) "conn" 4
           (sharded ex_items (ex_leader 6)) 5%nat);
    [reflexivity|vm_compute; reflexivity|lia|ex_fits|vm_compute; reflexivity
    |vm_compute; reflexivity|vm_compute; reflexivity].
Defined.

Lemma create_sharding_data_count_witness :
  Z.of_nat (length (m_shards (master (sharded ex_items (ex_leader 6))))) = ceil_div 22 4.
Proof.
  apply (create_sharding_data_count ex_items (ex_leader 6) "conn" 4);
    [reflexivity|vm_compute; reflexivity|lia|ex_fits|ex_nonempty|vm_compute; reflexivity].
Defined.

Lemma create_sharding_data_one_per_mapper_witness :
  Z.of_nat (length (m_shards (master (sharded ex_items (ex_leader 5))))) = 5.
Proof.
  apply (create_sharding_data_one_per_mapper ex_items (ex_leader 5) "conn" 5);
    [reflexivity|reflexivity|lia|vm_compute; reflexivity|ex_fits|ex_nonempty
    |vm_compute; reflexivity|vm_compute; discriminate|vm_compute; reflexivity].
Defined.

(** With 10 bytes and 7 mappers the shard size is [ceil(10/7) = 2] and there are
    only 5 shards. *)
Example create_sharding_data_too_few :
  length (m_shards (master (sharded [mk_blob_item true "a.txt" 10] (ex_leader 7)))) = 5%nat.
Proof. vm_compute. reflexivity. Qed.

(** The total is accumulated in [float]: a blob of [2^24 + 1] bytes counts for
    [2^24], and one mapper gets two shards. *)
Example calc_shard_sz_rounds :
  calc_shard_sz [mk_blob_item true "a.txt" (2 ^ 24 + 1)] 1 = Ret (2 ^ 24) ∧
  length (m_shards (master
    (sharded [mk_blob_item true "a.txt" (2 ^ 24 + 1)] (ex_leader 1)))) = 2%nat.
Proof. vm_compute. split; reflexivity. Qed.
