(* ===== verification/Clients.v ===== *)
(** * Workers as the leader sees them ([master/mrclient.h] and the client part
    of [masterimpl.cc])

    The list of client objects kept in step with ZooKeeper
    ([update_workers]), the calls that are started on them, the heartbeat and
    address-exchange rounds with their completion loops, and the choice of the
    client a task goes to ([findMinReqHealthyClient]). *)

From S2P Require Export Types.

(** ** What ZooKeeper answers

    [getChildren()->forPath(path)] and [getData()->forPath(path)] at the moment
    of the call. [getData] answers every path with a string, which is what the
    code reckons with ([wait_until_leader] tests it for garbage); [create] and
    [setData] answer codes, which the code drops. *)
Record Zookeeper : Type := mkZookeeper {
  zk_children : string → outcome (list string);
  zk_data : string → string
}.

(** ** [class MapReduceClient] *)

(** The constructor leaves [pingStatus_] uninitialised: [junk] is what the
    memory held. *)
Definition MapReduceClient_new (junk : PingStatus) : MapReduceClient :=
  mkMapReduceClient "" IDLE junk 0 0.

Definition setStatus (s : ClientStatus) (c : MapReduceClient) : MapReduceClient :=
  c <| clientStatus_ := s |>.
Definition setPingStatus (s : PingStatus) (c : MapReduceClient) : MapReduceClient :=
  c <| pingStatus_ := s |>.
Definition set_address (a : string) (c : MapReduceClient) : MapReduceClient :=
  c <| address_ := a |>.

Definition to_ShardTuple (d : ShardData) : ShardTuple :=
  mkShardTuple (blobName_ d) (to_int32 (begin_ d)) (to_int32 (end_ d)).

(** [invokeMapTaskAsync]: the call that is started, and the client after it. *)
Definition invokeMapTaskAsync (self : cptr) (c : MapReduceClient) (fileShard : FileShard)
    (nPartitions req_id : Z) : AsyncClientMapCall * MapReduceClient :=
  let query := mkMapperInput (to_int32 nPartitions) (to_int32 (shardId_ fileShard))
                 (to_ShardTuple <$> sets_ fileShard) (to_string req_id) in
  (mkMapCall query (shardId_ fileShard) (address_ c) self,
   c <| nMapRequests := to_int32 (nMapRequests c + 1) |>).

(** [invokeReduceTaskAsync]. *)
Definition invokeReduceTaskAsync (self : cptr) (c : MapReduceClient) (blobs : list string)
    (containername : string) (req_id reducer : Z) : AsyncClientReduceCall * MapReduceClient :=
  let query := mkReducerInput (to_string req_id) containername (to_int32 reducer) blobs in
  (mkReduceCall query reducer (address_ c) self,
   c <| nReduceRequests := to_int32 (nReduceRequests c + 1) |>).

(** [ExchangeInfo]: the request sent. *)
Definition ExchangeInfo (myAddress connString containername : string) : MasterInfo :=
  mkMasterInfo myAddress connString containername.

(** ** Keeping the clients in step with ZooKeeper *)

(** [Master::worker_client_already_added]: [m_ClientMap.at] throws for a client
    that has no entry. *)
Fixpoint worker_client_already_added (wrkPath : string) (cs : list cptr)
    (cm : gmap cptr ClientInfo) : outcome bool :=
  match cs with
  | [] => Ret false
  | client :: cs =>
      match cm !! client with
      | None => Raise OutOfRange
      | Some info =>
          if decide (nodeid info = wrkPath) then Ret true
          else worker_client_already_added wrkPath cs cm
      end
  end.

(** [Master::add_client]. *)
Definition add_client (client : cptr) (addr wrkrPath : string) (m : Master) : Master :=
  m <| m_ClientMap := emplace client (mkClientInfo addr wrkrPath) (m_ClientMap m) |>
    <| m_Clients := m_Clients m ++ [client] |>.

(** The first loop of [update_workers]. *)
Fixpoint add_workers (zk : Zookeeper) (junk : PingStatus) (wrkrs : list string) (w : World)
    : outcome World :=
  match wrkrs with
  | [] => Ret w
  | x :: wrkrs =>
      let wrkPath := "/workers/" +:+ x in
      let! added := worker_client_already_added wrkPath (m_Clients (master w))
                      (m_ClientMap (master w)) in
      if added : bool then add_workers zk junk wrkrs w
      else
        let target_str := zk_data zk wrkPath in
        let client := fresh (dom (heap w)) in
        let w := w <| heap := <[client := MapReduceClient_new junk]> (heap w) |> in
        add_workers zk junk wrkrs (w <| master := add_client client target_str wrkPath (master w) |>)
  end.

(** The second loop of [update_workers]: clients whose node is gone. *)
Fixpoint remove_workers (wrkrs : list string) (cs : list cptr) (cm : gmap cptr ClientInfo)
    : outcome (list cptr * gmap cptr ClientInfo) :=
  match cs with
  | [] => Ret ([], cm)
  | client :: cs =>
      match cm !! client with
      | None => Raise OutOfRange
      | Some info =>
          if decide (after_last "/" (nodeid info) ∈ wrkrs) then
            let! (cs, cm) := remove_workers wrkrs cs cm in Ret (client :: cs, cm)
          else remove_workers wrkrs cs (delete client cm)
      end
  end.

(** [Master::update_workers]. A [std::exception] of ZooKeeper is caught and the
    list taken to be empty; anything else it throws leaves the method. *)
Definition update_workers (zk : Zookeeper) (junk : PingStatus) (w : World) : outcome World :=
  if m_has_failed (master w) then Ret w
  else
    let! wrkrs := catch_std (λ _, Ret []) (zk_children zk "/workers") in
    let! w := add_workers zk junk wrkrs w in
    let! (cs, cm) := remove_workers wrkrs (m_Clients (master w)) (m_ClientMap (master w)) in
    Ret (w <| master := (master w) <| m_Clients := cs |> <| m_ClientMap := cm |> |>).

(** ** Heartbeat and address exchange *)

(** What a failed call leaves in its client: code 4 is a missed deadline. *)
Definition failed_status (error_code : Z) : ClientStatus :=
  if decide (error_code = 4) then DEADLINE_EXCEED else BROKEN.

(** One round of the loop of [AsyncCompletePingRpc]. *)
Definition complete_ping (ev : cptr * rpc_result unit) (h : gmap cptr MapReduceClient)
    : gmap cptr MapReduceClient :=
  match ev with
  | (client, RpcOk _) => alter (setPingStatus PING_SUCCESS) client h
  | (client, RpcError code) =>
      alter (λ c, setStatus (failed_status code) (setPingStatus PING_FAIL c)) client h
  end.

(** One round of the loop of [AsyncCompleteExchangeRpc]: the reply is the
    address the worker gives. *)
Definition complete_exchange (ev : cptr * rpc_result string) (h : gmap cptr MapReduceClient)
    : gmap cptr MapReduceClient :=
  match ev with
  | (client, RpcOk message) =>
      alter (λ c, setPingStatus PING_SUCCESS (set_address message c)) client h
  | (client, RpcError code) =>
      alter (λ c, setStatus (failed_status code) (setPingStatus PING_FAIL c)) client h
  end.

(** The loops: at most [nrpcs] completions are taken from the queue, fewer if
    it shuts down. *)
Definition AsyncCompletePingRpc (events : list (cptr * rpc_result unit)) (nrpcs : nat)
    (h : gmap cptr MapReduceClient) : gmap cptr MapReduceClient :=
  foldl (λ h ev, complete_ping ev h) h (take nrpcs events).

Definition AsyncCompleteExchangeRpc (events : list (cptr * rpc_result string)) (nrpcs : nat)
    (h : gmap cptr MapReduceClient) : gmap cptr MapReduceClient :=
  foldl (λ h ev, complete_exchange ev h) h (take nrpcs events).

(** The loop of [ping_workers] that starts the calls ([check_liveness]). *)
Definition ping_start (w : World) : World :=
  w <| heap := foldl (λ h c, alter (setPingStatus PING_CHECK) c h) (heap w)
                 (m_Clients (master w)) |>.

(** [Master::ping_workers]: [events] are the completions in the order the queue
    delivers them. *)
Definition ping_workers (events : list (cptr * rpc_result unit)) (w : World) : World :=
  let w := ping_start w in
  let nrpcs := length (m_Clients (master w)) in
  w <| heap := AsyncCompletePingRpc events nrpcs (heap w) |> <| g_ready := true |>.

(** [Master::get_worker_addresses]: the requests it sends, by client, and the
    world after the completions. *)
Definition exchange_requests (m : Master) : list (cptr * MasterInfo) :=
  (λ kv : cptr * ClientInfo,
     (kv.1, ExchangeInfo (m_address m) (m_connection m) (m_containername m)))
    <$> map_to_list (m_ClientMap m).

Definition get_worker_addresses (events : list (cptr * rpc_result string)) (w : World) : World :=
  let nrpcs := size (m_ClientMap (master w)) in
  w <| heap := AsyncCompleteExchangeRpc events nrpcs (heap w) |>.

(** ** Choosing a client *)

Definition healthy (h : gmap cptr MapReduceClient) (client : cptr) : Prop :=
  pingStatus_ <$> h !! client = Some PING_SUCCESS.
#[export] Instance healthy_dec h client : Decision (healthy h client) := decide (_ = _).

(** One scan of [Master::findHealthyClient]. *)
Definition findHealthyClient (h : gmap cptr MapReduceClient) (cs : list cptr) : option cptr :=
  snd <$> list_find (healthy h) cs.

(** [getNumMapRequests] or [getNumReduceRequests]. *)
Definition num_requests (bReduce : bool) (h : gmap cptr MapReduceClient) (client : cptr) : Z :=
  match h !! client with
  | Some c => if bReduce then nReduceRequests c else nMapRequests c
  | None => 0
  end.

Definition min_req_step (bReduce : bool) (h : gmap cptr MapReduceClient)
    (min_req_client : option cptr) (client : cptr) : option cptr :=
  if decide (healthy h client) then
    match min_req_client with
    | None => Some client
    | Some c =>
        if decide (num_requests bReduce h client < num_requests bReduce h c)
        then Some client else Some c
    end
  else min_req_client.

(** One scan of [Master::findMinReqHealthyClient]; on [None] the caller waits
    for the next heartbeat round and scans again. *)
Definition findMinReqHealthyClient (bReduce : bool) (h : gmap cptr MapReduceClient)
    (cs : list cptr) : option cptr :=
  foldl (min_req_step bReduce h) None cs.

(** ** Lemmas: the choice of a client *)

(** The list scanned so far has [o] as its first client with the fewest
    requests. *)
Definition scan_post (b : bool) (h : gmap cptr MapReduceClient) (cs : list cptr)
    (o : option cptr) : Prop :=
  match o with
  | None => ∀ c, c ∈ cs → ¬ healthy h c
  | Some c =>
      ∃ pre post, cs = pre ++ c :: post ∧ healthy h c ∧
        (∀ c', c' ∈ pre → healthy h c' → num_requests b h c < num_requests b h c') ∧
        (∀ c', c' ∈ post → healthy h c' → num_requests b h c ≤ num_requests b h c')
  end.

Lemma scan_post_step b h cs o c :
  scan_post b h cs o → scan_post b h (cs ++ [c]) (min_req_step b h o c).
Proof.
  unfold scan_post, min_req_step. intros Ho. case_decide as Hc.
  2:{ destruct o as [m|].
      - destruct Ho as (pre & post & -> & Hm & Hpre & Hpost). exists pre, (post ++ [c]).
        rewrite <-app_assoc. split; [done|]. split; [done|]. split; [done|].
        intros c' [?| ->%list_elem_of_singleton]%elem_of_app; [by apply Hpost|done].
      - intros c' [?| ->%list_elem_of_singleton]%elem_of_app; [by apply Ho|done]. }
  destruct o as [m|].
  - destruct Ho as (pre & post & -> & Hm & Hpre & Hpost). case_decide as Hlt.
    + exists (pre ++ m :: post), []. split; [done|]. split; [done|]. split; [|by intros ? ?%elem_of_nil].
      intros c' [H| [->|H]%elem_of_cons]%elem_of_app Hh; [|done|].
      * specialize (Hpre c' H Hh). lia.
      * specialize (Hpost c' H Hh). lia.
    + exists pre, (post ++ [c]). rewrite <-app_assoc. split; [done|]. split; [done|]. split; [done|].
      intros c' [?| ->%list_elem_of_singleton]%elem_of_app Hh; [by apply Hpost|lia].
  - exists cs, []. split; [done|]. split; [done|]. split; [|by intros ? ?%elem_of_nil].
    intros c' H Hh. by destruct (Ho c').
Qed.

Lemma findMinReqHealthyClient_scan b h cs : scan_post b h cs (findMinReqHealthyClient b h cs).
Proof.
  unfold findMinReqHealthyClient. induction cs as [|c cs IH] using rev_ind.
  - by intros c ?%elem_of_nil.
  - rewrite foldl_app. by apply scan_post_step.
Qed.

Lemma findMinReqHealthyClient_Some b h cs c :
  findMinReqHealthyClient b h cs = Some c → c ∈ cs ∧ healthy h c.
Proof.
  intros H. pose proof (findMinReqHealthyClient_scan b h cs) as Hs. rewrite H in Hs.
  destruct Hs as (pre & post & -> & ? & _). split; [set_solver|done].
Qed.

Lemma findMinReqHealthyClient_exists b h cs c :
  c ∈ cs → healthy h c → is_Some (findMinReqHealthyClient b h cs).
Proof.
  intros Hc Hh. pose proof (findMinReqHealthyClient_scan b h cs) as Hs.
  destruct (findMinReqHealthyClient b h cs); [done|]. by destruct (Hs c).
Qed.

(** ** Lemmas: rounds of completions *)

Lemma foldl_alter_ne {A} (f : A → cptr) (g : A → MapReduceClient → MapReduceClient)
    (l : list A) (h : gmap cptr MapReduceClient) c :
  c ∉ f <$> l → foldl (λ h x, alter (g x) (f x) h) h l !! c = h !! c.
Proof.
  revert h. induction l as [|x l IH]; intros h; [done|]. rewrite fmap_cons, not_elem_of_cons.
  intros [Hx Hl]. simpl. rewrite IH by done. by apply lookup_alter_ne.
Qed.

Lemma foldl_alter_eq {A} (f : A → cptr) (g : A → MapReduceClient → MapReduceClient)
    (l : list A) (h : gmap cptr MapReduceClient) x :
  NoDup (f <$> l) → x ∈ l →
  foldl (λ h x, alter (g x) (f x) h) h l !! f x = g x <$> h !! f x.
Proof.
  revert h. induction l as [|y l IH]; intros h; [by intros _ ?%elem_of_nil|].
  rewrite fmap_cons, NoDup_cons. intros [Hy Hl] [->|Hx]%elem_of_cons; simpl.
  - rewrite foldl_alter_ne by done. by rewrite lookup_alter_eq.
  - rewrite IH by done. rewrite lookup_alter_ne; [done|].
    intros Heq. apply Hy. rewrite Heq. apply list_elem_of_fmap. eauto.
Qed.

(** The completion of one ping as an update of its client. *)
Definition ping_update (ev : cptr * rpc_result unit) : MapReduceClient → MapReduceClient :=
  match ev.2 with
  | RpcOk _ => setPingStatus PING_SUCCESS
  | RpcError code => λ c, setStatus (failed_status code) (setPingStatus PING_FAIL c)
  end.

Lemma complete_ping_alter ev h : complete_ping ev h = alter (ping_update ev) ev.1 h.
Proof. by destruct ev as [c [|]]. Qed.

Lemma AsyncCompletePingRpc_all events n h :
  (length events ≤ n)%nat →
  AsyncCompletePingRpc events n h
  = foldl (λ h ev, alter (ping_update ev) ev.1 h) h events.
Proof.
  intros Hn. unfold AsyncCompletePingRpc. rewrite take_ge by done.
  clear Hn. revert h. induction events as [|ev events IH]; intros h; simpl; [done|].
  rewrite complete_ping_alter. apply IH.
Qed.

(** ** Lemmas: what the task phases share *)

(** What a phase does not change. *)
Definition job_params (m : Master) : list FileShard * Z * Z * Z * bool * list cptr :=
  (m_shards m, m_nmappers m, m_nreducers m, m_rid m, m_will_fail m, m_Clients m).

Lemma task_assigned_check_fail_spec m m' parked :
  task_assigned_check_fail m = (m', parked) →
  job_params m' = job_params m ∧ m_IntermediateResultMap m' = m_IntermediateResultMap m ∧
  m_IntblobList m' = m_IntblobList m ∧ m_ShardClientMapper m' = m_ShardClientMapper m ∧
  (parked = true → m_will_fail m = true ∧ m_map_done m' = true) ∧
  (parked = false → m_map_done m' = m_map_done m).
Proof.
  unfold task_assigned_check_fail. destruct (m_will_fail m) eqn:Hw; [|by intros [= <- <-]].
  destruct (decide _); intros [= <- <-]; unfold job_params; simpl; rewrite Hw; done.
Qed.

Lemma task_assigned_check_fail_data m m' parked :
  task_assigned_check_fail m = (m', parked) →
  m_intcontainer m' = m_intcontainer m ∧ m_OutputResultMap m' = m_OutputResultMap m.
Proof.
  unfold task_assigned_check_fail. destruct (m_will_fail m) eqn:Hw; [|by intros [= <- <-]].
  destruct (decide _); by intros [= <- <-].
Qed.

(** A ping that succeeds makes a client that can be dispatched to. *)
Lemma ping_ok_healthy b h cs p :
  p ∈ cs → is_Some (h !! p) →
  is_Some (findMinReqHealthyClient b (complete_ping (p, RpcOk tt) h) cs).
Proof.
  intros Hp [cl Hcl]. apply (findMinReqHealthyClient_exists _ _ _ p); [done|].
  unfold healthy. simpl. by rewrite lookup_alter_eq, Hcl.
Qed.

Lemma ping_start_heap w p : is_Some (heap (ping_start w) !! p) ↔ is_Some (heap w !! p).
Proof.
  unfold ping_start. simpl. generalize (heap w) as h.
  induction (m_Clients (master w)) as [|q l IH]; intros h; [done|]. simpl.
  by rewrite IH, lookup_alter_is_Some.
Qed.

Lemma complete_ping_heap ev h p : is_Some (complete_ping ev h !! p) ↔ is_Some (h !! p).
Proof. by rewrite complete_ping_alter, lookup_alter_is_Some. Qed.

(** ** Lemmas: [update_workers] *)

(** The client list, the client map and the heap agree; a client's node is
    below [/workers] and no two clients stand for the same node. *)
Record clients_wf (w : World) : Prop := {
  cw_nodup : NoDup (m_Clients (master w));
  cw_dom : ∀ c, c ∈ m_Clients (master w) ↔ is_Some (m_ClientMap (master w) !! c);
  cw_heap : ∀ c, c ∈ m_Clients (master w) → is_Some (heap w !! c);
  cw_path : ∀ c info, m_ClientMap (master w) !! c = Some info →
    ∃ x, nodeid info = "/workers/" +:+ x ∧ str_forall (λ a, bool_decide (a ≠ "/"%char)) x;
  cw_inj : ∀ c c' info info', m_ClientMap (master w) !! c = Some info →
    m_ClientMap (master w) !! c' = Some info' → nodeid info = nodeid info' → c = c'
}.

(** A child name: one path component. *)
Definition node_name (x : string) : Prop := str_forall (λ a, bool_decide (a ≠ "/"%char)) x.

Lemma after_last_worker x : node_name x → after_last "/" ("/workers/" +:+ x) = x.
Proof. exact (after_last_app "/" "/workers" x). Qed.

Lemma workers_path_inj x y : "/workers/" +:+ x = "/workers/" +:+ y → x = y.
Proof. intros H. by apply (inj (String.append "/workers/")). Qed.

Definition node_of (cm : gmap cptr ClientInfo) (c : cptr) : string :=
  default "" (nodeid <$> cm !! c).

(** The nodes the leader has a client for. *)
Definition known_nodes (w : World) : list string :=
  node_of (m_ClientMap (master w)) <$> m_Clients (master w).

Lemma worker_client_already_added_spec p cs cm :
  (∀ c, c ∈ cs → is_Some (cm !! c)) →
  worker_client_already_added p cs cm = Ret (bool_decide (p ∈ node_of cm <$> cs)).
Proof.
  intros Hcs. induction cs as [|c cs IH]; [done|]. cbn [worker_client_already_added].
  destruct (Hcs c) as [info Hi]; [set_solver|]. rewrite Hi.
  rewrite IH by set_solver. destruct (decide (nodeid info = p)) as [Hn|Hn].
  - rewrite bool_decide_eq_true_2; [done|]. rewrite fmap_cons. apply elem_of_cons. left.
    unfold node_of. rewrite Hi. by subst.
  - f_equal. apply bool_decide_ext. rewrite fmap_cons, elem_of_cons. unfold node_of at 2.
    rewrite Hi. simpl. naive_solver.
Qed.

Lemma known_node_Some w c info :
  clients_wf w → m_ClientMap (master w) !! c = Some info → nodeid info ∈ known_nodes w.
Proof.
  intros Hw Hi. unfold known_nodes. apply list_elem_of_fmap. exists c. unfold node_of.
  rewrite Hi. split; [done|]. apply cw_dom; [done|]. by rewrite Hi.
Qed.

Lemma known_node_inv w p :
  clients_wf w → p ∈ known_nodes w →
  ∃ c info, m_ClientMap (master w) !! c = Some info ∧ nodeid info = p.
Proof.
  intros Hw. unfold known_nodes. rewrite list_elem_of_fmap. intros (c & -> & Hc).
  apply (cw_dom w Hw) in Hc as [info Hi]. exists c, info. unfold node_of. by rewrite Hi.
Qed.

(** The client [update_workers] makes for a new node. *)
Definition with_new_client (client : cptr) (junk : PingStatus) (addr path : string) (w : World)
    : World :=
  let w := w <| heap := <[client := MapReduceClient_new junk]> (heap w) |> in
  w <| master := add_client client addr path (master w) |>.

Lemma with_new_client_map w junk addr p c :
  clients_wf w → heap w !! c = None →
  m_ClientMap (master (with_new_client c junk addr p w))
  = <[c := mkClientInfo addr p]> (m_ClientMap (master w)).
Proof.
  intros Hw Hc. simpl. apply emplace_fresh. apply eq_None_not_Some.
  intros Hs%(cw_dom w Hw)%(cw_heap w Hw). rewrite Hc in Hs. by destruct Hs.
Qed.

Lemma with_new_client_wf w junk addr x c :
  clients_wf w → node_name x → heap w !! c = None → ("/workers/" +:+ x) ∉ known_nodes w →
  clients_wf (with_new_client c junk addr ("/workers/" +:+ x) w).
Proof.
  intros Hw Hx Hc Hnew.
  assert (c ∉ m_Clients (master w)) as Hfresh.
  { intros Hs%(cw_heap w Hw). rewrite Hc in Hs. by destruct Hs. }
  pose proof (with_new_client_map w junk addr ("/workers/" +:+ x) c Hw Hc) as Hm.
  assert (∀ c' info, m_ClientMap (master w) !! c' = Some info →
          nodeid info ≠ "/workers/" +:+ x) as Hdist.
  { intros c' info Hi Heq. apply Hnew. rewrite <-Heq. by eapply known_node_Some. }
  split; rewrite ?Hm; simpl.
  - apply NoDup_app. split; [apply cw_nodup; done|]. split; [|apply NoDup_singleton].
    intros c' Hc' ->%list_elem_of_singleton. done.
  - intros c'. rewrite elem_of_app, list_elem_of_singleton, (cw_dom w Hw).
    destruct (decide (c' = c)) as [->|]; simplify_map_eq; naive_solver.
  - intros c'. rewrite elem_of_app, list_elem_of_singleton.
    intros [Hc'| ->]; [|by simplify_map_eq].
    destruct (decide (c' = c)) as [->|]; simplify_map_eq; [done|]. by apply (cw_heap w Hw).
  - intros c' info. rewrite lookup_insert_Some.
    intros [[<- <-]|[_ Hi]]; [by exists x|]. by apply (cw_path w Hw c').
  - intros c1 c2 i1 i2. rewrite !lookup_insert_Some.
    intros [[<- <-]|[? H1]] [[<- <-]|[? H2]]; simpl; intros Heq; [done| | |].
    + symmetry in Heq. by apply (Hdist c2) in Heq.
    + by apply (Hdist c1) in Heq.
    + by eapply (cw_inj w Hw).
Qed.

Lemma known_nodes_with_new_client w junk addr p c :
  clients_wf w → heap w !! c = None →
  known_nodes (with_new_client c junk addr p w) = known_nodes w ++ [p].
Proof.
  intros Hw Hc. unfold known_nodes. rewrite (with_new_client_map w junk addr p c Hw Hc). simpl.
  rewrite fmap_app. f_equal.
  - apply list_fmap_ext. intros i c' Hc'. unfold node_of. rewrite lookup_insert_ne; [done|].
    intros ->. apply list_elem_of_lookup_2, (cw_heap w Hw) in Hc'. rewrite Hc in Hc'.
    by destruct Hc'.
  - simpl. unfold node_of. by simplify_map_eq.
Qed.

(** What adding the clients of new nodes keeps and adds. *)
Record clients_added (zk : Zookeeper) (l : list string) (w w' : World) : Prop := {
  ca_wf : clients_wf w';
  ca_new : ∀ c info, m_ClientMap (master w') !! c = Some info →
    nodeid info ∈ known_nodes w ∨ ci_address info = zk_data zk (nodeid info);
  ca_map : m_ClientMap (master w) ⊆ m_ClientMap (master w');
  ca_heap : heap w ⊆ heap w';
  ca_known : ∀ p, p ∈ known_nodes w' ↔ p ∈ known_nodes w ∨ p ∈ String.append "/workers/" <$> l
}.

Lemma add_workers_spec zk junk l w :
  clients_wf w → Forall node_name l →
  ∃ w', add_workers zk junk l w = Ret w' ∧ clients_added zk l w w'.
Proof.
  revert w. induction l as [|x l IH]; intros w Hw Hl; cbn [add_workers].
  { exists w. split; [done|]. split; try done.
    - intros c info Hi. left. by eapply known_node_Some.
    - intros p. simpl. set_solver. }
  apply Forall_cons in Hl as [Hx Hl].
  rewrite worker_client_already_added_spec by (intros c; by apply cw_dom). cbn [obind].
  change (node_of (m_ClientMap (master w)) <$> m_Clients (master w)) with (known_nodes w).
  case_bool_decide as Hin.
  - destruct (IH w Hw Hl) as (w' & -> & H). exists w'. split; [done|].
    destruct H as [H1 Hnew H2 H3 H4]. split; try done.
    intros p. rewrite H4, fmap_cons. set_solver.
  - set (c := fresh (dom (heap w))).
    assert (heap w !! c = None) as Hc by (apply not_elem_of_dom, is_fresh).
    set (w1 := with_new_client c junk (zk_data zk ("/workers/" +:+ x)) ("/workers/" +:+ x) w).
    destruct (IH w1 (with_new_client_wf _ _ _ _ _ Hw Hx Hc Hin) Hl) as (w' & Hr & H).
    exists w'. split; [exact Hr|]. destruct H as [H1 Hnew H2 H3 H4]. split; [done| | | |].
    + intros c' info Hi. destruct (Hnew c' info Hi) as [Hk|Ha]; [|by right].
      unfold w1 in Hk. rewrite known_nodes_with_new_client in Hk by done.
      apply elem_of_app in Hk as [Hk|Hk%list_elem_of_singleton]; [by left|]. right.
      assert (m_ClientMap (master w') !! c = Some (mkClientInfo (zk_data zk ("/workers/" +:+ x)) ("/workers/" +:+ x)))
        as Hc'.
      { eapply lookup_weaken; [|exact H2]. unfold w1. rewrite with_new_client_map by done.
        apply lookup_insert_eq. }
      assert (c' = c) as -> by (eapply (cw_inj w' H1); [exact Hi|exact Hc'|exact Hk]).
      rewrite Hc' in Hi. by injection Hi as <-.
    + etrans; [|exact H2]. unfold w1. rewrite with_new_client_map by done.
      apply insert_subseteq. apply eq_None_not_Some.
      intros Hs%(cw_dom w Hw)%(cw_heap w Hw). rewrite Hc in Hs. by destruct Hs.
    + etrans; [|exact H3]. by apply insert_subseteq.
    + intros p. rewrite H4. unfold w1. rewrite known_nodes_with_new_client, fmap_cons by done.
      set_solver.
Qed.

(** Whether [remove_workers] keeps a client. *)
Definition keeps (wrkrs : list string) (cm : gmap cptr ClientInfo) (c : cptr) : Prop :=
  after_last "/" (node_of cm c) ∈ wrkrs.
#[export] Instance keeps_dec wrkrs cm c : Decision (keeps wrkrs cm c) :=
  decide (_ ∈ wrkrs).

Lemma remove_workers_spec wrkrs cs cm :
  NoDup cs → (∀ c, c ∈ cs → is_Some (cm !! c)) →
  ∃ cm', remove_workers wrkrs cs cm = Ret (filter (keeps wrkrs cm) cs, cm') ∧
    ∀ c, cm' !! c = if decide (c ∈ cs ∧ ¬ keeps wrkrs cm c) then None else cm !! c.
Proof.
  revert cm. induction cs as [|c cs IH]; intros cm Hnd Hcs; cbn [remove_workers].
  { exists cm. split; [done|]. intros c. rewrite decide_False; [done|]. set_solver. }
  apply NoDup_cons in Hnd as [Hc Hnd].
  destruct (Hcs c) as [info Hi]; [set_solver|]. rewrite Hi.
  assert (after_last "/" (nodeid info) = after_last "/" (node_of cm c)) as ->
    by (unfold node_of; by rewrite Hi).
  rewrite filter_cons. destruct (decide (after_last "/" (node_of cm c) ∈ wrkrs)) as [Hk|Hk].
  - destruct (IH cm Hnd) as (cm' & -> & Hcm'); [set_solver|]. cbn [obind].
    rewrite decide_True by done. exists cm'. split; [done|]. intros c'. rewrite Hcm'.
    apply decide_ext. unfold keeps. set_solver.
  - rewrite decide_False by done.
    destruct (IH (delete c cm) Hnd) as (cm' & Hr & Hcm').
    { intros c' Hc'. rewrite lookup_delete_ne by set_solver. apply Hcs. set_solver. }
    assert (∀ c', c' ∈ cs → node_of (delete c cm) c' = node_of cm c') as Hsame.
    { intros c' Hc'. unfold node_of. by rewrite lookup_delete_ne by set_solver. }
    assert (filter (keeps wrkrs (delete c cm)) cs = filter (keeps wrkrs cm) cs) as Hfil.
    { apply filter_agree. intros c' Hc'. unfold keeps. by rewrite Hsame. }
    rewrite Hr, Hfil. exists cm'. split; [done|]. intros c'. rewrite Hcm'.
    destruct (decide (c' = c)) as [->|Hne].
    + rewrite (decide_True (P:=c ∈ c :: cs ∧ _)) by (split; [set_solver|done]).
      rewrite lookup_delete_eq. by case_decide.
    + rewrite lookup_delete_ne by done. apply decide_ext. unfold keeps.
      destruct (decide (c' ∈ cs)) as [Hin|]; [rewrite Hsame by done|]; set_solver.
Qed.

(** The job a master holds, which the membership code leaves alone. *)
Definition job_state (m : Master) :=
  (m_shards m, m_nmappers m, m_nreducers m, m_rid m, m_will_fail m, m_has_failed m,
   m_IntermediateResultMap m, m_IntblobList m, m_intcontainer m, m_OutputResultMap m,
   m_containername m, m_address m, m_connection m).

(** The membership code changes the client tables and the heap only. *)
Definition with_clients (w : World) (cs : list cptr) (cm : gmap cptr ClientInfo)
    (h : gmap cptr MapReduceClient) : World :=
  w <| master := (master w) <| m_Clients := cs |> <| m_ClientMap := cm |> |> <| heap := h |>.

Lemma add_workers_frame zk junk l w w' :
  add_workers zk junk l w = Ret w' →
  ∃ cs cm h, w' = with_clients w cs cm h ∧
    ∀ p, is_Some (heap w !! p) → is_Some (h !! p).
Proof.
  revert w. induction l as [|x l IH]; intros w; cbn [add_workers].
  { intros [= <-]. exists (m_Clients (master w)), (m_ClientMap (master w)), (heap w).
    split; [by destruct w as [[]]|done]. }
  intros H. destruct (worker_client_already_added _ _ _) as [[]| | |]; try discriminate H; cbn [obind] in H.
  - by apply IH.
  - apply IH in H as (cs & cm & h & -> & Hh). exists cs, cm, h. split; [done|].
    intros p Hp. apply Hh. cbn. rewrite lookup_insert_is_Some'. by right.
Qed.

Lemma update_workers_shape zk junk w w' :
  update_workers zk junk w = Ret w' →
  ∃ cs cm h, w' = with_clients w cs cm h ∧
    ∀ p, is_Some (heap w !! p) → is_Some (h !! p).
Proof.
  unfold update_workers. destruct (m_has_failed (master w)).
  { intros [= <-]. exists (m_Clients (master w)), (m_ClientMap (master w)), (heap w).
    split; [by destruct w as [[]]|done]. }
  destruct (catch_std _ _) as [l| | |]; try done. cbn [obind].
  destruct (add_workers zk junk l w) as [w1| | |] eqn:Ha; try done. cbn [obind].
  destruct (remove_workers _ _ _) as [[cs cm]| | |]; try done. cbn [obind]. intros [= <-].
  apply add_workers_frame in Ha as (cs1 & cm1 & h & -> & Hh). by exists cs, cm, h.
Qed.

Lemma update_workers_frame zk junk w w' :
  update_workers zk junk w = Ret w' →
  job_state (master w') = job_state (master w) ∧ g_repl_list w' = g_repl_list w ∧
  request_counter w' = request_counter w.
Proof. by intros (cs & cm & h & -> & _)%update_workers_shape. Qed.

Lemma get_worker_addresses_heap events w c :
  is_Some (heap (get_worker_addresses events w) !! c) ↔ is_Some (heap w !! c).
Proof.
  unfold get_worker_addresses, AsyncCompleteExchangeRpc. simpl. generalize (heap w) as h.
  induction (take _ events) as [|[k [msg|code]] l IH]; intros h; [done|..]; simpl;
    by rewrite IH, lookup_alter_is_Some.
Qed.

Lemma update_workers_spec zk junk w wrkrs :
  clients_wf w → m_has_failed (master w) = false →
  zk_children zk "/workers" = Ret wrkrs → Forall node_name wrkrs →
  ∃ w', update_workers zk junk w = Ret w' ∧ clients_wf w' ∧
    (∀ x, node_name x → "/workers/" +:+ x ∈ known_nodes w' ↔ x ∈ wrkrs) ∧
    (∀ c info x, m_ClientMap (master w) !! c = Some info →
       nodeid info = "/workers/" +:+ x → x ∈ wrkrs →
       m_ClientMap (master w') !! c = Some info ∧ heap w' !! c = heap w !! c) ∧
    (∀ c info, m_ClientMap (master w') !! c = Some info →
       nodeid info ∉ known_nodes w → ci_address info = zk_data zk (nodeid info)).
Proof.
  intros Hw Hfail Hzk Hl. unfold update_workers. rewrite Hfail, Hzk. cbn [catch_std obind].
  destruct (add_workers_spec zk junk wrkrs w Hw Hl) as (w1 & -> & [Hw1 Hnew Hmap Hheap Hknown]).
  cbn [obind].
  destruct (remove_workers_spec wrkrs (m_Clients (master w1)) (m_ClientMap (master w1)))
    as (cm' & -> & Hcm'); [by apply cw_nodup|by intros; apply cw_dom|]. cbn [obind].
  eexists. split; [done|].
  assert (∀ c info, cm' !! c = Some info ↔
    m_ClientMap (master w1) !! c = Some info ∧ after_last "/" (nodeid info) ∈ wrkrs) as Hcm.
  { intros c info. rewrite Hcm'.
    destruct (m_ClientMap (master w1) !! c) as [info1|] eqn:Hi1.
    2:{ destruct (decide _); naive_solver. }
    assert (c ∈ m_Clients (master w1)) by (apply cw_dom; [done|by rewrite Hi1]).
    assert (node_of (m_ClientMap (master w1)) c = nodeid info1) as Hn
      by (unfold node_of; by rewrite Hi1).
    destruct (decide _) as [[_ Hk]|Hk]; unfold keeps in Hk; rewrite Hn in Hk; [naive_solver|].
    destruct (decide (after_last "/" (nodeid info1) ∈ wrkrs)); naive_solver. }
  assert (clients_wf (w1 <| master := (master w1)
    <| m_Clients := filter (keeps wrkrs (m_ClientMap (master w1))) (m_Clients (master w1)) |>
    <| m_ClientMap := cm' |> |>)) as Hw'.
  { split; simpl.
    - apply NoDup_filter. by apply cw_nodup.
    - intros c. rewrite list_elem_of_filter. unfold is_Some. setoid_rewrite Hcm.
      rewrite (cw_dom w1 Hw1). unfold keeps, node_of. split.
      + intros [Hk [info Hi]]. rewrite Hi in Hk. by exists info.
      + intros (info & Hi & Hk). rewrite Hi. simpl. eauto.
    - intros c [_ Hc]%list_elem_of_filter. by apply (cw_heap w1 Hw1).
    - intros c info [Hi _]%Hcm. by apply (cw_path w1 Hw1 c).
    - intros c1 c2 i1 i2 [H1 _]%Hcm [H2 _]%Hcm. by eapply (cw_inj w1 Hw1). }
  split; [done|]. split; [|split].
  - intros x Hx. split.
    + intros (c & info & Hi & Hn)%(known_node_inv _ _ Hw'). simpl in Hi.
      apply Hcm in Hi as [_ Hk]. by rewrite Hn, after_last_worker in Hk.
    + intros Hin. destruct (known_node_inv w1 ("/workers/" +:+ x) Hw1) as (c & info & Hi & Hn).
      { apply Hknown. right. apply list_elem_of_fmap. eauto. }
      rewrite <-Hn. eapply (known_node_Some _ c info Hw'). simpl. apply Hcm.
      split; [done|]. by rewrite Hn, after_last_worker.
  - intros c info x Hi Hn Hin. simpl. split.
    + apply Hcm. split; [by eapply lookup_weaken|].
      destruct (cw_path w Hw c info Hi) as (y & Hy & Hny).
      rewrite Hn in Hy. apply workers_path_inj in Hy as ->. by rewrite Hn, after_last_worker.
    + destruct (cw_heap w Hw c) as [cl Hcl]; [by apply cw_dom; [|rewrite Hi]|].
      rewrite Hcl. by eapply lookup_weaken.
  - simpl. intros c info [Hi _]%Hcm Hk. by destruct (Hnew c info Hi).
Qed.

(** ** Properties *)

(** C26: [update_workers] keeps the client list, the client map and the heap in
    agreement, and afterwards the leader has a client for exactly the nodes
    ZooKeeper lists below [/workers]; a client whose node is still listed is
    kept as it is, and a new one has the address that is its node's data. *)
Theorem update_workers_correct zk junk w wrkrs :
  clients_wf w → m_has_failed (master w) = false →
  zk_children zk "/workers" = Ret wrkrs → Forall node_name wrkrs →
  ∃ w', update_workers zk junk w = Ret w' ∧ clients_wf w' ∧
    (∀ x, node_name x → "/workers/" +:+ x ∈ known_nodes w' ↔ x ∈ wrkrs) ∧
    (∀ c info x, m_ClientMap (master w) !! c = Some info →
       nodeid info = "/workers/" +:+ x → x ∈ wrkrs →
       m_ClientMap (master w') !! c = Some info ∧ heap w' !! c = heap w !! c) ∧
    (∀ c info, m_ClientMap (master w') !! c = Some info →
       nodeid info ∉ known_nodes w → ci_address info = zk_data zk (nodeid info)).
Proof. exact (update_workers_spec zk junk w wrkrs). Qed.

(** [findMinReqHealthyClient] answers with a healthy client of the list that
    has the fewest requests, the earliest such one, and with none only if no
    client is healthy. *)
Theorem findMinReqHealthyClient_correct bReduce h cs :
  match findMinReqHealthyClient bReduce h cs with
  | None => ∀ c, c ∈ cs → ¬ healthy h c
  | Some c =>
      ∃ pre post, cs = pre ++ c :: post ∧ healthy h c ∧
        (∀ c', c' ∈ pre → healthy h c' →
           num_requests bReduce h c < num_requests bReduce h c') ∧
        (∀ c', c' ∈ post → healthy h c' →
           num_requests bReduce h c ≤ num_requests bReduce h c')
  end.
Proof. exact (findMinReqHealthyClient_scan bReduce h cs). Qed.

(** after a heartbeat round in which every ping has completed, a client is
    healthy exactly if its ping succeeded, a client whose ping failed is marked
    by what went wrong, and the waiting dispatcher is released. *)
Theorem ping_workers_correct events w client res :
  clients_wf w → events.*1 ≡ₚ m_Clients (master w) → (client, res) ∈ events →
  g_ready (ping_workers events w) = true ∧
  ∃ c c', heap w !! client = Some c ∧ heap (ping_workers events w) !! client = Some c' ∧
    match res with
    | RpcOk _ => pingStatus_ c' = PING_SUCCESS ∧ clientStatus_ c' = clientStatus_ c
    | RpcError code => pingStatus_ c' = PING_FAIL ∧
        clientStatus_ c' = if decide (code = 4) then DEADLINE_EXCEED else BROKEN
    end ∧ nMapRequests c' = nMapRequests c ∧ nReduceRequests c' = nReduceRequests c.
Proof.
  intros Hw Hev Hin. split; [done|]. simpl.
  assert (NoDup events.*1) as Hnd by (rewrite Hev; by apply cw_nodup).
  assert (client ∈ m_Clients (master w)) as Hcl.
  { rewrite <-Hev. apply list_elem_of_fmap. by exists (client, res). }
  destruct (cw_heap w Hw client Hcl) as [c Hc]. exists c.
  rewrite AsyncCompletePingRpc_all
    by (rewrite <-Hev, length_fmap; done).
  pose proof (foldl_alter_eq fst ping_update events
    (foldl (λ h c, alter (setPingStatus PING_CHECK) c h) (heap w) (m_Clients (master w)))
    (client, res) Hnd Hin) as Hfold.
  simpl in Hfold. rewrite Hfold.
  rewrite (foldl_alter_eq id (λ _, setPingStatus PING_CHECK) _ (heap w) client);
    [|rewrite list_fmap_id; by apply cw_nodup|done].
  unfold id. rewrite Hc. simpl. eexists. split; [done|]. split; [done|].
  destruct res; done.
Qed.

(** ** Concrete runs *)

Definition ex_zk : Zookeeper :=
  mkZookeeper (λ p, if decide (p = "/workers") then Ret ["worker_0"; "worker_2"] else Ret [])
    (λ p, if decide (p = "/workers/worker_0") then "10.0.0.1:50051" else "10.0.0.2:50051").

(** The leader knows [worker_0] and [worker_1]. *)
Definition ex_workers : World :=
  let w := World_new 0 in
  w <| heap := {[ 0%nat := mkMapReduceClient "a" IDLE PING_SUCCESS 3 1;
                  1%nat := mkMapReduceClient "b" IDLE PING_FAIL 0 0 ]} |>
    <| master := (master w) <| m_Clients := [0%nat; 1%nat] |>
        <| m_ClientMap := {[ 0%nat := mkClientInfo "a" "/workers/worker_0";
                             1%nat := mkClientInfo "b" "/workers/worker_1" ]} |> |>.

Lemma ex_workers_wf : clients_wf ex_workers.
Proof.
  split; simpl.
  - by apply (bool_decide_unpack _).
  - intros c. rewrite !lookup_insert, !lookup_singleton. repeat case_decide; set_solver.
  - intros c. rewrite !lookup_insert, !lookup_singleton. repeat case_decide; set_solver.
  - intros c info. rewrite !lookup_insert, !lookup_singleton.
    repeat case_decide; intros [= <-]; eexists; (split; [reflexivity|done]).
  - intros c c' i i'. rewrite !lookup_insert, !lookup_singleton.
    repeat case_decide; intros [= <-] [= <-]; by subst.
Qed.

Lemma update_workers_correct_witness :
  ∃ w', update_workers ex_zk PING_CHECK ex_workers = Ret w' ∧ clients_wf w' ∧
    (∀ x, node_name x → "/workers/" +:+ x ∈ known_nodes w' ↔ x ∈ ["worker_0"; "worker_2"]) ∧
    (∀ c info x, m_ClientMap (master ex_workers) !! c = Some info →
       nodeid info = "/workers/" +:+ x → x ∈ ["worker_0"; "worker_2"] →
       m_ClientMap (master w') !! c = Some info ∧ heap w' !! c = heap ex_workers !! c) ∧
    (∀ c info, m_ClientMap (master w') !! c = Some info →
       nodeid info ∉ known_nodes ex_workers → ci_address info = zk_data ex_zk (nodeid info)).
Proof.
  apply (update_workers_correct ex_zk PING_CHECK ex_workers);
    [exact ex_workers_wf|reflexivity|reflexivity|repeat constructor].
Defined.

Lemma ping_workers_correct_witness :
  g_ready (ping_workers [(1%nat, RpcOk tt); (0%nat, RpcError 14)] ex_workers) = true ∧
  ∃ c c', heap ex_workers !! 0%nat = Some c ∧
    heap (ping_workers [(1%nat, RpcOk tt); (0%nat, RpcError 14)] ex_workers) !! 0%nat = Some c' ∧
    (pingStatus_ c' = PING_FAIL ∧
     clientStatus_ c' = if decide (14 = 4) then DEADLINE_EXCEED else BROKEN) ∧
    nMapRequests c' = nMapRequests c ∧ nReduceRequests c' = nReduceRequests c.
Proof.
  apply (ping_workers_correct [(1%nat, RpcOk tt); (0%nat, RpcError 14)] ex_workers 0%nat (RpcError 14));
    [exact ex_workers_wf|simpl; constructor|set_solver].
Defined.
