(* ===== verification/TaskPool.v ===== *)
(** * Task pools: what the map and the reduce phase promise

    Both phases hand out a fixed list of task numbers to workers that may fail,
    hand a failed task out again and collect one result for each task. The
    contract is an abstract machine, the pool: the tasks that wait and the results
    of the settled ones, in which the only step takes one waiting task, which has
    no result, and gives it its result. The class [TaskPhase] says what a phase
    has to show; that it then refines the pool, step by step, and what follows from
    that is proved here once, for every phase. *)

From S2P Require Export Prelude.

(** The abstract machine. *)
Record pool (R : Type) : Type := mkPool { pl_waiting : gset Z; pl_results : gmap Z R }.
Arguments mkPool {R} pl_waiting pl_results.
Arguments pl_waiting {R} p.
Arguments pl_results {R} p.

Inductive pool_step {R : Type} (p : pool R) : pool R → Prop :=
  | pool_settle i r : i ∈ pl_waiting p → pl_results p !! i = None →
      pool_step p (mkPool (pl_waiting p ∖ {[i]}) (<[i:=r]> (pl_results p))).

(** The results gain the one of a task that had none. *)
Inductive settles {R : Type} (ids : list Z) (p p' : gmap Z R) : Prop :=
  | settles_one i r : i ∈ ids → p !! i = None → p' = <[i:=r]> p → settles ids p p'.

(** A phase with configurations [C] and results [R]: the tasks not settled yet,
    the settled ones with their results, and the invariant under which the
    phase refines the pool. *)
Class TaskPhase (C R : Type) := {
  tp_step : C → C → Prop;
  tp_inv : list Z → C → Prop;
  tp_waiting : C → list Z;
  tp_results : C → gmap Z R;
  tp_inv_step ids c c' : NoDup ids → tp_inv ids c → tp_step c c' → tp_inv ids c';
  tp_partition ids c : tp_inv ids c →
    tp_waiting c ++ (map_to_list (tp_results c)).*1 ≡ₚ ids;
  tp_settles ids c c' : NoDup ids → tp_inv ids c → tp_step c c' →
    tp_results c' = tp_results c ∨ settles ids (tp_results c) (tp_results c')
}.

Section TaskPhase.
Context {C R : Type} `{!TaskPhase C R} (ids : list Z) (Hids : NoDup ids).

Lemma tp_inv_rtc c c' : tp_inv ids c → rtc tp_step c c' → tp_inv ids c'.
Proof. intros Hi. apply rtc_invariant; [|done]. intros x y. by apply tp_inv_step. Qed.

Lemma tp_results_mono c c' : tp_inv ids c → rtc tp_step c c' → tp_results c ⊆ tp_results c'.
Proof.
  intros Hi Hr. induction Hr as [|x y z Hxy Hyz IH]; [done|].
  specialize (IH (tp_inv_step _ _ _ Hids Hi Hxy)).
  destruct (tp_settles _ _ _ Hids Hi Hxy) as [<-|[i r _ Hn Heq]]; [done|].
  etrans; [|exact IH]. rewrite Heq. by apply insert_subseteq.
Qed.

Lemma tp_exactly_once c i : tp_inv ids c → i ∈ ids →
  (i ∈ tp_waiting c ∧ tp_results c !! i = None) ∨
  (i ∉ tp_waiting c ∧ is_Some (tp_results c !! i)).
Proof.
  intros Hi Hin. pose proof (tp_partition ids c Hi) as Hp.
  assert (NoDup (tp_waiting c ++ (map_to_list (tp_results c)).*1)) as Hnd by by rewrite Hp.
  apply NoDup_app in Hnd as (_ & Hdisj & _).
  rewrite <-Hp, elem_of_app in Hin.
  destruct Hin as [Hin|Hin].
  - left. split; [done|]. apply eq_None_not_Some. rewrite <-elem_of_map_keys. by apply Hdisj.
  - right. split; [|by apply elem_of_map_keys]. intros Hw. by apply (Hdisj i).
Qed.

Lemma tp_results_elem c i : tp_inv ids c → is_Some (tp_results c !! i) → i ∈ ids.
Proof.
  intros Hi Hr. rewrite <-(tp_partition ids c Hi), elem_of_app. right.
  by apply elem_of_map_keys.
Qed.

Lemma tp_length c : tp_inv ids c →
  length ids = (length (tp_waiting c) + size (tp_results c))%nat.
Proof.
  intros Hi. rewrite <-(tp_partition ids c Hi), length_app, length_fmap.
  by rewrite <-length_map_to_list.
Qed.

(** All tasks have a result exactly when none waits. *)
Lemma tp_complete c : tp_inv ids c → size (tp_results c) = length ids →
  tp_waiting c = [] ∧ ∀ i, i ∈ ids ↔ is_Some (tp_results c !! i).
Proof.
  intros Hi Hs. pose proof (tp_length c Hi) as Hl.
  assert (tp_waiting c = []) as Hw by (apply nil_length_inv; lia).
  split; [done|]. intros i. split; [|by apply tp_results_elem].
  intros Hin. destruct (tp_exactly_once c i Hi Hin) as [[Hx _]|[_ ?]]; [|done].
  rewrite Hw in Hx. by apply elem_of_nil in Hx.
Qed.

(** The pool a configuration stands for. *)
Definition pool_of (c : C) : pool R := mkPool (list_to_set (tp_waiting c)) (tp_results c).

Lemma tp_waiting_nodup c : tp_inv ids c → NoDup (tp_waiting c).
Proof.
  intros Hi. assert (NoDup (tp_waiting c ++ (map_to_list (tp_results c)).*1)) as Hnd
    by by rewrite (tp_partition ids c Hi).
  by apply NoDup_app in Hnd as [? _].
Qed.

(** A step of the phase is none of the pool, or one. *)
Lemma tp_refines c c' : tp_inv ids c → tp_step c c' →
  pool_of c' = pool_of c ∨ pool_step (pool_of c) (pool_of c').
Proof.
  intros Hi Hs. assert (tp_inv ids c') as Hi' by (by eapply tp_inv_step).
  pose proof (tp_partition ids c Hi) as Hp. rewrite <-(tp_partition ids c' Hi') in Hp.
  pose proof (tp_waiting_nodup c Hi) as Hnd.
  destruct (tp_settles _ _ _ Hids Hi Hs) as [Heq|[i r _ Hn Heq]]; unfold pool_of; rewrite Heq in *.
  - left. f_equal. assert (tp_waiting c' ≡ₚ tp_waiting c) as -> by perm_solve. done.
  - right. rewrite (map_keys_insert _ i r Hn) in Hp.
    assert (tp_waiting c ≡ₚ i :: tp_waiting c') as Hw.
    { perm_solve. }
    rewrite Hw in Hnd. apply NoDup_cons in Hnd as [Hni _].
    replace (list_to_set (tp_waiting c') : gset Z)
      with (list_to_set (tp_waiting c) ∖ {[i]} : gset Z) by (rewrite Hw; set_solver).
    apply (pool_settle (mkPool _ _)); [cbn; rewrite Hw; set_solver|done].
Qed.

(** A run of the phase is a run of the pool. *)
Lemma tp_simulation c c' : tp_inv ids c → rtc tp_step c c' →
  rtc pool_step (pool_of c) (pool_of c').
Proof.
  intros Hi Hr. induction Hr as [|x y z Hxy Hyz IH]; [done|].
  specialize (IH (tp_inv_step _ _ _ Hids Hi Hxy)).
  destruct (tp_refines x y Hi Hxy) as [<-|Hs]; [done|]. by eapply rtc_l.
Qed.
End TaskPhase.
