(* ===== verification/MapPhase.v ===== *)
(** * The map phase ([Master::dispatchMapTasks], [AsyncCompleteMapRpc])

    The dispatcher, the completion thread and the heartbeat thread share the
    locals of [dispatchMapTasks] and the globals. A configuration holds both
    threads' program counters; an action is one access of a thread to the
    shared data, so that a run is any interleaving of actions. [map_exec] is
    executable; [map_step] is one action.

    The theorems: every shard is at any time in exactly one of the queue, the
    calls in flight, the responses and the results; the request counter is
    exact and bounded; when the dispatcher returns every shard has its result
    and its blobs are listed once; it can always reach that point when as many
    shards as mappers were queued, and never does when there are fewer. *)

From S2P Require Export Clients TaskPool.

(** ** Configurations *)

(** The dispatcher: in the inner dispatch loop; in it, after the call is started
    and before [nrpcs++]; waiting in [findMinReqHealthyClient]; at [while(responseList.size() == 0);]; at the
    head of the response loop; between [erase] and [nrpcs--]; returned; asleep
    in [enter_fail_state]; past an out-of-range index. *)
Inductive main_pc : Type :=
  | MDispatch | MStarted | MWait | MSpin | MProcess | MErased | MReturn | MParked | MUndef.

(** The completion thread: at [while (!done)]; blocked in [cq.Next] after the
    test [nrpcs > resList.size()]; between the response list and the
    replication list, for a call that succeeded; returned. *)
Inductive completer_pc : Type :=
  | CTop | CWait | CPublish (r : MapperResult) (client : cptr) | CExit.

#[export] Instance main_pc_eq_dec : EqDecision main_pc.
Proof. solve_decision. Defined.
#[export] Instance MapperResult_eq_dec : EqDecision MapperResult.
Proof. solve_decision. Defined.
#[export] Instance completer_pc_eq_dec : EqDecision completer_pc.
Proof. solve_decision. Defined.

Record MapConf : Type := mkMapConf {
  mw : World;
  job_q : list Z;
  nrpcs : Z;
  responseList : list MapperResult;
  cq : list AsyncClientMapCall;      (* started, not yet delivered by [Next] *)
  mpc : main_pc;
  cpc : completer_pc
}.

#[export] Instance eta_MapConf : EtaRecord MapConf := λ r,
  mkMapConf (mw r) (job_q r) (nrpcs r) (responseList r) (cq r) (mpc r) (cpc r).

Abbreviation mmaster c := (master (mw c)).

Definition set_master (f : Master → Master) (w : World) : World :=
  w <| master := f (master w) |>.

(** Entry of [dispatchMapTasks], its thread started. *)
Definition dispatchMapTasks_start (w : World) (q : list Z) : MapConf :=
  {| mw := set_master (λ m, m <| m_map_done := false |>) w;
     job_q := q; nrpcs := 0; responseList := []; cq := [];
     mpc := MDispatch; cpc := CTop |}.

(** [Master::runMapper]: the queue is the indices of the shards. *)
Definition runMapper_start (w : World) : MapConf :=
  let w := set_master (λ m, m <| m_IntblobList := [] |> <| m_IntermediateResultMap := ∅ |>) w in
  dispatchMapTasks_start w (Z.of_nat <$> seq 0 (length (m_shards (master w)))).

(** ** The dispatcher's actions *)

(** One round of the inner loop up to [nrpcs++], [i] being the front of the
    queue and [curClient] the client found. *)
Definition start_map_call (c : MapConf) (i : Z) (curClient : cptr) : MapConf :=
  let m := mmaster c in
  match vec_index (m_shards m) i, heap (mw c) !! curClient with
  | Some shard, Some cl =>
      let '(call, cl) := invokeMapTaskAsync curClient (setStatus MAP_RUNNING cl) shard
                           (m_nreducers m) (m_rid m) in
      let m := m <| m_ShardClientMapper := <[shardId_ shard := curClient]> (m_ShardClientMapper m) |> in
      c <| mw := (mw c) <| master := m |> <| heap := <[curClient := cl]> (heap (mw c)) |> |>
        <| cq := cq c ++ [call] |> <| mpc := MStarted |>
  | _, _ => c <| mpc := MUndef |>
  end.

(** Its end: [nrpcs++], [job_q.pop()] and the failure injection. *)
Definition count_map_call (c : MapConf) : MapConf :=
  let '(m, parked) := task_assigned_check_fail (mmaster c) in
  c <| mw := (mw c) <| master := m |> |>
    <| nrpcs := nrpcs c + 1 |> <| job_q := tail (job_q c) |>
    <| mpc := if parked then MParked else MDispatch |>.

(** One round of the response loop, up to the call of [erase]. *)
Definition process_map_response (c : MapConf) (res : MapperResult) (rest : list MapperResult)
    : MapConf :=
  let c := c <| responseList := rest |> <| mpc := MErased |> in
  if decide (status res = SUCCESS) then
    match m_IntermediateResultMap (mmaster c) !! shardId res with
    | Some _ => c
    | None =>
        c <| mw := set_master (λ m,
               m <| m_IntermediateResultMap := <[shardId res := res]> (m_IntermediateResultMap m) |>
                 <| m_IntblobList := m_IntblobList m ++ blobList res |>
                 <| m_intcontainer := cname res |>) (mw c) |>
    end
  else c <| job_q := job_q c ++ [shardId res] |>.

(** The test after the response loop: [size() == m_nmappers] compares as
    unsigned. *)
Definition check_map_done (c : MapConf) : MapConf :=
  if decide (Z.of_nat (size (m_IntermediateResultMap (mmaster c)))
             = to_size (m_nmappers (mmaster c)))
  then c <| mw := set_master (λ m, m <| m_map_done := true |>) (mw c) |>
         <| responseList := [] |> <| mpc := MReturn |>
  else c <| mpc := MDispatch |>.

(** ** The completion thread's actions *)

Definition map_success (call : AsyncClientMapCall) (reply : IntermediateResult) : MapperResult :=
  mkMapperResult SUCCESS (mc_shardId call) (ir_containername reply) false (ir_blobs reply).

Definition map_failure (call : AsyncClientMapCall) (error_code : Z) : MapperResult :=
  mkMapperResult (if decide (error_code = 4) then TIMEDOUT else FAILED) (mc_shardId call) "" false [].

(** A completion delivered by [cq.Next]. *)
Definition complete_map_call (c : MapConf) (call : AsyncClientMapCall)
    (res : rpc_result IntermediateResult) : MapConf :=
  match res with
  | RpcOk reply =>
      let r := map_success call reply in
      c <| responseList := responseList c ++ [r] |> <| cpc := CPublish r (mc_client call) |>
  | RpcError code =>
      c <| mw := (mw c) <| heap := alter (setStatus (failed_status code)) (mc_client call)
                                     (heap (mw c)) |> |>
        <| responseList := responseList c ++ [map_failure call code] |> <| cpc := CTop |>
  end.

(** [setStatus(MAP_DONE)], then the update of the replication list. *)
Definition publish_map_result (c : MapConf) (r : MapperResult) (client : cptr) : MapConf :=
  c <| mw := (mw c) <| heap := alter (setStatus MAP_DONE) client (heap (mw c)) |>
               <| g_repl_data := true |> <| g_repl_list := g_repl_list (mw c) ++ [r] |> |>
    <| cpc := CTop |>.

(** ** Actions *)

Inductive map_action : Type :=
  (* dispatcher *)
  | ADispatch | AStarted | AWait | AWake | ADispatched | ASpin | AProcess | ACount | ACheck
  (* completion thread; a delivery names the call by its position in [cq] *)
  | CEnter | CLeave | CComplete (pos : nat) (res : rpc_result IntermediateResult) | CPublished
  (* heartbeat thread *)
  | PStart | PComplete (ev : cptr * rpc_result unit) | PEnd.

(** The configuration after an action, [None] if it is not enabled. *)
Definition map_exec (a : map_action) (c : MapConf) : option MapConf :=
  match a, mpc c, cpc c with
  | ADispatch, MDispatch, _ =>
      match job_q c, findMinReqHealthyClient false (heap (mw c)) (m_Clients (mmaster c)) with
      | i :: _, Some curClient =>
          if decide (10 < nrpcs c) then None else Some (start_map_call c i curClient)
      | _, _ => None
      end
  | AStarted, MStarted, _ => Some (count_map_call c)
  | AWait, MDispatch, _ =>
      match job_q c, findMinReqHealthyClient false (heap (mw c)) (m_Clients (mmaster c)) with
      | _ :: _, None =>
          if decide (10 < nrpcs c) then None
          else Some (c <| mw := (mw c) <| g_ready := false |> |> <| mpc := MWait |>)
      | _, _ => None
      end
  | AWake, MWait, _ => if g_ready (mw c) then Some (c <| mpc := MDispatch |>) else None
  | ADispatched, MDispatch, _ =>
      if decide (job_q c = [] ∨ 10 < nrpcs c) then Some (c <| mpc := MSpin |>) else None
  | ASpin, MSpin, _ =>
      match responseList c with [] => None | _ => Some (c <| mpc := MProcess |>) end
  | AProcess, MProcess, _ =>
      match responseList c with
      | [] => None
      | res :: rest => Some (process_map_response c res rest)
      end
  | ACount, MErased, _ => Some (c <| nrpcs := nrpcs c - 1 |> <| mpc := MProcess |>)
  | ACheck, MProcess, _ =>
      match responseList c with [] => Some (check_map_done c) | _ => None end
  | CEnter, _, CTop =>
      if m_map_done (mmaster c) then None
      else if decide (Z.of_nat (length (responseList c)) < to_size (nrpcs c))
           then Some (c <| cpc := CWait |>) else None
  | CLeave, _, CTop => if m_map_done (mmaster c) then Some (c <| cpc := CExit |>) else None
  | CComplete pos res, _, CWait =>
      match cq c !! pos with
      | Some call => Some (complete_map_call (c <| cq := delete pos (cq c) |>) call res)
      | None => None
      end
  | CPublished, _, CPublish r client => Some (publish_map_result c r client)
  | PStart, _, _ => Some (c <| mw := ping_start (mw c) |>)
  | PComplete ev, _, _ => Some (c <| mw := (mw c) <| heap := complete_ping ev (heap (mw c)) |> |>)
  | PEnd, _, _ => Some (c <| mw := (mw c) <| g_ready := true |> |>)
  | _, _, _ => None
  end.

Definition map_step (c c' : MapConf) : Prop := ∃ a, map_exec a c = Some c'.

(** A run: the actions of a trace, one after the other. *)
Fixpoint map_run (tr : list map_action) (c : MapConf) : option MapConf :=
  match tr with
  | [] => Some c
  | a :: tr => c' ← map_exec a c; map_run tr c'
  end.

(** The same actions as rules. *)
Inductive map_rule (c : MapConf) : MapConf → Prop :=
  | rule_dispatch i q p : mpc c = MDispatch → job_q c = i :: q → nrpcs c ≤ 10 →
      findMinReqHealthyClient false (heap (mw c)) (m_Clients (mmaster c)) = Some p →
      map_rule c (start_map_call c i p)
  | rule_started : mpc c = MStarted → map_rule c (count_map_call c)
  | rule_wait : mpc c = MDispatch → job_q c ≠ [] → nrpcs c ≤ 10 →
      findMinReqHealthyClient false (heap (mw c)) (m_Clients (mmaster c)) = None →
      map_rule c (c <| mw := (mw c) <| g_ready := false |> |> <| mpc := MWait |>)
  | rule_wake : mpc c = MWait → g_ready (mw c) = true → map_rule c (c <| mpc := MDispatch |>)
  | rule_dispatched : mpc c = MDispatch → job_q c = [] ∨ 10 < nrpcs c →
      map_rule c (c <| mpc := MSpin |>)
  | rule_spin : mpc c = MSpin → responseList c ≠ [] → map_rule c (c <| mpc := MProcess |>)
  | rule_process res rest : mpc c = MProcess → responseList c = res :: rest →
      map_rule c (process_map_response c res rest)
  | rule_count : mpc c = MErased → map_rule c (c <| nrpcs := nrpcs c - 1 |> <| mpc := MProcess |>)
  | rule_check : mpc c = MProcess → responseList c = [] → map_rule c (check_map_done c)
  | rule_enter : cpc c = CTop → m_map_done (mmaster c) = false →
      Z.of_nat (length (responseList c)) < to_size (nrpcs c) → map_rule c (c <| cpc := CWait |>)
  | rule_leave : cpc c = CTop → m_map_done (mmaster c) = true → map_rule c (c <| cpc := CExit |>)
  | rule_complete pos call res : cpc c = CWait → cq c !! pos = Some call →
      map_rule c (complete_map_call (c <| cq := delete pos (cq c) |>) call res)
  | rule_publish r client : cpc c = CPublish r client →
      map_rule c (publish_map_result c r client)
  | rule_ping_start : map_rule c (c <| mw := ping_start (mw c) |>)
  | rule_ping_complete ev :
      map_rule c (c <| mw := (mw c) <| heap := complete_ping ev (heap (mw c)) |> |>)
  | rule_ping_end : map_rule c (c <| mw := (mw c) <| g_ready := true |> |>).

Lemma map_step_rule c c' : map_step c c' ↔ map_rule c c'.
Proof.
  split.
  - intros [a Ha]. destruct a; simpl in Ha;
      destruct (mpc c) eqn:Hpc, (cpc c) eqn:Hcpc; try discriminate Ha;
      repeat case_match; simplify_eq; try done;
      econstructor; first [done | lia | congruence | by destruct (m_map_done _)].
  - destruct 1 as [i q p Hpc Hq Hn Hp|Hpc|Hpc Hq Hn Hp|Hpc Hr|Hpc Hq|Hpc Hr|res rest Hpc Hr|Hpc|Hpc Hr
      |Hpc Hd Hn|Hpc Hd|pos call res Hpc Hpos|r client Hpc| |ev|];
      [exists ADispatch|exists AStarted|exists AWait|exists AWake|exists ADispatched|exists ASpin|exists AProcess
      |exists ACount|exists ACheck|exists CEnter|exists CLeave|exists (CComplete pos res)
      |exists CPublished|exists PStart|exists (PComplete ev)|exists PEnd]; simpl.
    + rewrite Hpc, Hq, Hp. by rewrite decide_False by lia.
    + by rewrite Hpc.
    + rewrite Hpc, Hp. destruct (job_q c); [done|]. by rewrite decide_False by lia.
    + by rewrite Hpc, Hr.
    + rewrite Hpc. by rewrite decide_True.
    + rewrite Hpc. by destruct (responseList c).
    + by rewrite Hpc, Hr.
    + by rewrite Hpc.
    + by rewrite Hpc, Hr.
    + rewrite Hpc, Hd, decide_True by done. by destruct (mpc c).
    + rewrite Hpc, Hd. by destruct (mpc c).
    + rewrite Hpc, Hpos. by destruct (mpc c).
    + rewrite Hpc. by destruct (mpc c).
    + by destruct (mpc c), (cpc c).
    + by destruct (mpc c), (cpc c).
    + by destruct (mpc c), (cpc c).
Qed.

(** ** The invariant *)

Definition map_results (c : MapConf) : gmap Z MapperResult := m_IntermediateResultMap (mmaster c).

(** The queue without the task whose call is started already. *)
Definition pending_q (c : MapConf) : list Z :=
  match mpc c with MStarted => tail (job_q c) | _ => job_q c end.

(** Tasks without a result: queued, in flight, or answered and not processed. *)
Definition map_waiting (c : MapConf) : list Z :=
  pending_q c ++ (mc_shardId <$> cq c) ++ (shardId <$> responseList c).

(** A success that is in the response list and not yet in the replication list. *)
Definition unpublished (c : MapConf) : list MapperResult :=
  match cpc c with CPublish r _ => [r] | _ => [] end.

Definition succeeded (l : list MapperResult) : list MapperResult :=
  filter (λ r, status r = SUCCESS) l.

(** The results of a map and the blobs they list. *)
Definition result_list (m : gmap Z MapperResult) : list MapperResult := (map_to_list m).*2.
Definition result_blobs (m : gmap Z MapperResult) : list string := result_list m ≫= blobList.

(** Task [i] is the shard with the id [i]. *)
Definition shards_indexed (m : Master) (ids : list Z) : Prop :=
  ∀ i, i ∈ ids → ∃ s, vec_index (m_shards m) i = Some s ∧ shardId_ s = i.

(** The request a call carries is the one for its shard. *)
Definition call_ok (m : Master) (call : AsyncClientMapCall) : Prop :=
  ∃ s, vec_index (m_shards m) (mc_shardId call) = Some s ∧
    mc_query call = mkMapperInput (to_int32 (m_nreducers m)) (to_int32 (mc_shardId call))
                      (to_ShardTuple <$> sets_ s) (to_string (m_rid m)).

(** [w0] is the world the phase started in. *)
Record map_inv (w0 : World) (ids : list Z) (c : MapConf) : Prop := {
  mi_params : job_params (mmaster c) = job_params (master w0);
  mi_shards : shards_indexed (master w0) ids;
  mi_tokens : map_waiting c ++ (map_to_list (map_results c)).*1 ≡ₚ ids;
  mi_count : nrpcs c = Z.of_nat (length (cq c)) + Z.of_nat (length (responseList c))
                       + (if decide (mpc c = MErased) then 1 else 0)
                       - (if decide (mpc c = MStarted) then 1 else 0);
  mi_bound : 0 ≤ nrpcs c ≤ 11;
  mi_room : mpc c = MStarted → nrpcs c ≤ 10;
  mi_results : ∀ i r, map_results c !! i = Some r → shardId r = i ∧ status r = SUCCESS;
  mi_calls : ∀ call, call ∈ cq c → call_ok (master w0) call;
  mi_clients : ∀ p, p ∈ m_Clients (master w0) → is_Some (heap (mw c) !! p);
  mi_blobs : m_IntblobList (mmaster c) ++ result_blobs (m_IntermediateResultMap (master w0))
    ≡ₚ m_IntblobList (master w0) ++ result_blobs (map_results c);
  mi_repl : ∃ new, g_repl_list (mw c) = g_repl_list w0 ++ new ∧
    new ++ unpublished c ++ result_list (m_IntermediateResultMap (master w0))
    ≡ₚ succeeded (responseList c) ++ result_list (map_results c);
  mi_done : m_map_done (mmaster c) = bool_decide (mpc c = MReturn ∨ mpc c = MParked);
  mi_return : mpc c = MReturn →
    Z.of_nat (size (map_results c)) = to_size (m_nmappers (master w0));
  mi_undef : mpc c ≠ MUndef
}.

Section map_inv.
Context (w0 : World) (ids : list Z) (Hids : NoDup ids).

Lemma result_blobs_insert (m : gmap Z MapperResult) i r :
  m !! i = None → result_blobs (<[i:=r]> m) ≡ₚ blobList r ++ result_blobs m.
Proof. intros Hi. unfold result_blobs, result_list. by rewrite (map_vals_insert m i r Hi). Qed.

Lemma succeeded_app l k : succeeded (l ++ k) = succeeded l ++ succeeded k.
Proof. apply filter_app. Qed.

(** A response that waits to be processed has no result. *)
Lemma response_fresh c r : map_inv w0 ids c → r ∈ responseList c → map_results c !! shardId r = None.
Proof using Hids.
  intros Hi Hr. assert (NoDup (map_waiting c ++ (map_to_list (map_results c)).*1)) as Hnd
    by (rewrite (mi_tokens _ _ _ Hi); exact Hids).
  apply NoDup_app in Hnd as (_ & Hdisj & _). apply eq_None_not_Some.
  rewrite <-elem_of_map_keys. apply Hdisj. unfold map_waiting.
  rewrite !elem_of_app. right. right. apply list_elem_of_fmap. eauto.
Qed.

(** An update of the clients and of [g_ready] alone, the dispatcher moving
    between two states that are not final. *)
Definition running (pc : main_pc) : Prop :=
  pc = MDispatch ∨ pc = MWait ∨ pc = MSpin ∨ pc = MProcess.

Lemma map_inv_frame c w pc :
  map_inv w0 ids c → master w = mmaster c → g_repl_list w = g_repl_list (mw c) →
  (∀ p, is_Some (heap (mw c) !! p) → is_Some (heap w !! p)) →
  (pc = mpc c ∨ running pc ∧ running (mpc c)) →
  map_inv w0 ids (c <| mw := w |> <| mpc := pc |>).
Proof.
  intros [] Hm Hg Hh Hpc.
  assert ((pc = MErased ↔ mpc c = MErased) ∧ (pc = MStarted ↔ mpc c = MStarted) ∧ (pc = MReturn ↔ mpc c = MReturn) ∧
          (pc = MParked ↔ mpc c = MParked) ∧ (pc = MUndef ↔ mpc c = MUndef)) as (Ha & Hs & Hb & Hc & Hd)
    by (unfold running in Hpc; destruct Hpc as [->|[? ?]]; [done|]; naive_solver congruence).
  split; unfold map_waiting, map_results, unpublished in *; simpl; rewrite ?Hm, ?Hg; auto.
  - etrans; [|exact mi_tokens0]. unfold pending_q. simpl.
    destruct pc, (mpc c); try done; naive_solver.
  - rewrite mi_count0. f_equal; [f_equal|]; by apply decide_ext.
  - by rewrite Hs.
  - rewrite mi_done0. apply bool_decide_ext. by rewrite Hb, Hc.
  - by rewrite Hb.
  - by rewrite Hd.
Qed.
End map_inv.

(** Unfolds the invariant's vocabulary; with [Hpc : mpc c = _], evaluates the
    parts that depend on the program counter. *)
Ltac map_inv_simpl :=
  unfold map_waiting, pending_q, map_results, unpublished in *; simpl; auto; try lia; try done.
Ltac map_inv_at Hpc :=
  unfold map_waiting, pending_q in *;
  repeat match goal with
  | H : context [mpc ?c] |- _ => lazymatch H with Hpc => fail | _ => rewrite Hpc in H end
  end;
  simpl in *.

Section map_steps.
Context (w0 : World) (ids : list Z) (Hids : NoDup ids).

Lemma start_map_call_inv c i q p :
  map_inv w0 ids c → mpc c = MDispatch → job_q c = i :: q → nrpcs c ≤ 10 →
  p ∈ m_Clients (mmaster c) → map_inv w0 ids (start_map_call c i p).
Proof.
  intros [] Hpc Hq Hn Hp. unfold start_map_call.
  pose proof mi_params0 as Hps. unfold job_params in Hps. injection Hps as Hs Hm Hr Hid Hw Hc.
  unfold map_waiting, pending_q in mi_tokens0. rewrite Hpc in mi_tokens0.
  destruct (mi_shards0 i) as (s & Hsi & Hsid).
  { rewrite <-mi_tokens0, Hq. set_solver. }
  rewrite Hs, Hsi. destruct (mi_clients0 p) as [cl Hcl]; [by rewrite <-Hc|]. rewrite Hcl.
  cbn [invokeMapTaskAsync]. simpl in *.
  split; unfold map_waiting, pending_q, map_results, unpublished in *; simpl; auto; try done.
  - revert mi_tokens0. rewrite Hq, fmap_app. simpl. rewrite Hsid. intros. perm_solve.
  - rewrite mi_count0, Hpc, length_app. simpl. lia.
  - intros call [Hcall| ->%list_elem_of_singleton]%elem_of_app; [by apply mi_calls0|].
    exists s. simpl. rewrite Hsid, Hsi, Hr, Hid. done.
  - intros p' Hp'. destruct (decide (p' = p)) as [->|]; simplify_map_eq; eauto.
  - rewrite mi_done0, Hpc. done.
Qed.

Lemma count_map_call_inv c :
  map_inv w0 ids c → mpc c = MStarted → map_inv w0 ids (count_map_call c).
Proof.
  intros [] Hpc. unfold count_map_call.
  destruct (task_assigned_check_fail _) as [m' parked] eqn:Hf.
  apply task_assigned_check_fail_spec in Hf as (Hjp & Hres & Hbl & _ & Hpt & Hpf). simpl in *.
  unfold map_waiting, pending_q in mi_tokens0. rewrite Hpc in mi_tokens0.
  specialize (mi_room0 Hpc).
  split; unfold map_waiting, pending_q, map_results, unpublished in *; simpl;
    rewrite ?Hres, ?Hbl; auto; try lia; try (by destruct parked).
  - by rewrite Hjp.
  - rewrite mi_count0, Hpc. destruct parked; simpl; lia.
  - destruct parked; [by rewrite (proj2 (Hpt eq_refl))|].
    rewrite Hpf by done. rewrite mi_done0, Hpc. done.
Qed.

Lemma process_map_response_inv c res rest :
  map_inv w0 ids c → mpc c = MProcess → responseList c = res :: rest →
  map_inv w0 ids (process_map_response c res rest).
Proof using Hids.
  intros Hi Hpc Hl. pose proof (response_fresh w0 ids Hids c res Hi) as Hfresh.
  rewrite Hl in Hfresh. specialize (Hfresh (list_elem_of_here _ _)).
  destruct Hi. map_inv_at Hpc. unfold process_map_response.
  destruct (decide (status res = SUCCESS)) as [Hs|Hs].
  - simpl. change (m_IntermediateResultMap (mmaster c) !! shardId res) with
      (map_results c !! shardId res). rewrite Hfresh.
    split; map_inv_simpl.
    + pose proof (map_keys_insert _ _ res Hfresh). rewrite Hl in mi_tokens0.
      rewrite fmap_cons in mi_tokens0. perm_solve.
    + rewrite mi_count0, Hl. simpl. lia.
    + intros i r. rewrite lookup_insert_Some. intros [[<- <-]|[_ ?]]; auto.
    + rewrite result_blobs_insert by done.
      rewrite <-app_assoc, (Permutation_app_comm (blobList res)), app_assoc, mi_blobs0.
      rewrite <-app_assoc. f_equiv. apply Permutation_app_comm.
    + destruct mi_repl0 as (new & -> & Hnew). exists new. split; [done|].
      unfold result_list at 2. rewrite (map_vals_insert _ _ res Hfresh).
      rewrite Hl in Hnew. unfold succeeded in Hnew. rewrite filter_cons_True in Hnew by done.
      etrans; [exact Hnew|]. unfold succeeded, result_list. perm_solve.
  - split; map_inv_simpl.
    + rewrite Hl in mi_tokens0. rewrite fmap_cons in mi_tokens0. perm_solve.
    + rewrite mi_count0, Hl. simpl. lia.
    + destruct mi_repl0 as (new & -> & Hnew). exists new. split; [done|].
      rewrite Hl in Hnew. unfold succeeded in Hnew. by rewrite filter_cons_False in Hnew.
Qed.

Lemma count_map_response_inv c :
  map_inv w0 ids c → mpc c = MErased →
  map_inv w0 ids (c <| nrpcs := nrpcs c - 1 |> <| mpc := MProcess |>).
Proof.
  intros [] Hpc. map_inv_at Hpc. split; map_inv_simpl.
Qed.

Lemma check_map_done_inv c :
  map_inv w0 ids c → mpc c = MProcess → responseList c = [] →
  map_inv w0 ids (check_map_done c).
Proof.
  intros Hi Hpc Hl. unfold check_map_done. destruct (decide _) as [Hd|Hd].
  - destruct Hi. map_inv_at Hpc. split; map_inv_simpl.
    + by rewrite Hl in mi_tokens0.
    + rewrite mi_count0, Hl. done.
    + by rewrite Hl in mi_repl0.
    + intros _. rewrite Hd. f_equal. unfold job_params in mi_params0. congruence.
  - apply (map_inv_frame w0 ids c (mw c) MDispatch); auto. right. unfold running. auto.
Qed.

Lemma complete_map_call_inv c pos call res :
  map_inv w0 ids c → cpc c = CWait → cq c !! pos = Some call →
  map_inv w0 ids (complete_map_call (c <| cq := delete pos (cq c) |>) call res).
Proof.
  intros [] Hcpc Hpos. pose proof (delete_Permutation _ _ _ Hpos) as Hdel.
  assert (length (cq c) = S (length (delete pos (cq c)))) as Hlen by by rewrite Hdel at 1.
  assert (∀ r, shardId r = mc_shardId call →
    (pending_q c ++ (mc_shardId <$> delete pos (cq c)) ++ (shardId <$> responseList c ++ [r]))
    ++ (map_to_list (map_results c)).*1 ≡ₚ ids) as Htok.
  { intros r Hr. rewrite fmap_app. simpl. rewrite Hr. unfold map_waiting in mi_tokens0.
    pose proof (fmap_Permutation mc_shardId _ _ Hdel) as Hd. rewrite fmap_cons in Hd.
    perm_solve. }
  destruct mi_repl0 as (new & Hg & Hnew). unfold unpublished in Hnew. rewrite Hcpc in Hnew.
  destruct res as [reply|code]; unfold complete_map_call;
    split; map_inv_simpl.
  - rewrite mi_count0, length_app, Hlen. simpl. lia.
  - intros call' Hc. apply mi_calls0. rewrite Hdel. set_solver.
  - exists new. split; [done|]. rewrite succeeded_app. unfold succeeded at 2. simpl.
    rewrite filter_cons_True, filter_nil by done. perm_solve.
  - rewrite mi_count0, length_app, Hlen. simpl. lia.
  - intros call' Hc. apply mi_calls0. rewrite Hdel. set_solver.
  - intros p Hp. rewrite lookup_alter_is_Some. auto.
  - exists new. split; [done|]. rewrite succeeded_app. unfold succeeded at 2.
    rewrite filter_cons_False, filter_nil, app_nil_r by (simpl; by destruct (decide (code = 4))). done.
Qed.
End map_steps.

(** What [dispatchMapTasks] is entered with: the results the master has already
    and a queue of the other shards. *)
Record map_start_ok (w : World) (q : list Z) : Prop := {
  ms_nodup : NoDup (q ++ (map_to_list (m_IntermediateResultMap (master w))).*1);
  ms_shards : shards_indexed (master w) (q ++ (map_to_list (m_IntermediateResultMap (master w))).*1);
  ms_results : ∀ i r, m_IntermediateResultMap (master w) !! i = Some r →
    shardId r = i ∧ status r = SUCCESS;
  ms_clients : ∀ p, p ∈ m_Clients (master w) → is_Some (heap w !! p)
}.

(** The tasks of the phase. *)
Definition map_ids (w : World) (q : list Z) : list Z :=
  q ++ (map_to_list (m_IntermediateResultMap (master w))).*1.

Section map_reach.
Context (w0 : World) (ids : list Z) (Hids : NoDup ids).

Lemma publish_map_result_inv c r client :
  map_inv w0 ids c → cpc c = CPublish r client → map_inv w0 ids (publish_map_result c r client).
Proof.
  intros [] Hcpc. split; unfold map_waiting, map_results, unpublished in *; simpl; auto.
  - intros p Hp. rewrite lookup_alter_is_Some. auto.
  - destruct mi_repl0 as (new & -> & Hnew). rewrite Hcpc in Hnew. exists (new ++ [r]).
    by rewrite <-!app_assoc in *.
Qed.

Lemma map_inv_cpc c pc :
  map_inv w0 ids c → unpublished c = [] → pc = CTop ∨ pc = CWait ∨ pc = CExit →
  map_inv w0 ids (c <| cpc := pc |>).
Proof.
  intros [] Hu Hpc. split; unfold map_waiting, map_results in *; simpl; auto.
  destruct mi_repl0 as (new & ? & Hnew). exists new. split; [done|].
  rewrite Hu in Hnew. unfold unpublished. simpl.
  by destruct Hpc as [->|[->| ->]].
Qed.

Lemma map_step_inv c c' : map_inv w0 ids c → map_step c c' → map_inv w0 ids c'.
Proof using Hids.
  intros Hi [i q p Hpc Hq Hn Hp|Hpc|Hpc Hq Hn Hp|Hpc Hr|Hpc Hq|Hpc Hr|res rest Hpc Hr|Hpc|Hpc Hr
    |Hpc Hd Hn|Hpc Hd|pos call res Hpc Hpos|r client Hpc| |ev|]%map_step_rule.
  - apply findMinReqHealthyClient_Some in Hp as [Hp _]. by eapply start_map_call_inv.
  - by apply count_map_call_inv.
  - apply map_inv_frame; auto. right. unfold running. auto.
  - apply (map_inv_frame w0 ids c (mw c) MDispatch); auto. right. unfold running. auto.
  - apply (map_inv_frame w0 ids c (mw c) MSpin); auto. right. unfold running. auto.
  - apply (map_inv_frame w0 ids c (mw c) MProcess); auto. right. unfold running. auto.
  - by apply process_map_response_inv.
  - by apply count_map_response_inv.
  - by apply check_map_done_inv.
  - apply map_inv_cpc; auto. unfold unpublished. by rewrite Hpc.
  - apply map_inv_cpc; auto. unfold unpublished. by rewrite Hpc.
  - by apply complete_map_call_inv.
  - by apply publish_map_result_inv.
  - apply (map_inv_frame w0 ids c (ping_start (mw c)) (mpc c)); auto.
    intros p. by rewrite ping_start_heap.
  - apply (map_inv_frame w0 ids c _ (mpc c)); auto.
    intros p. simpl. by rewrite complete_ping_heap.
  - by apply (map_inv_frame w0 ids c _ (mpc c)); auto.
Qed.

Lemma map_inv_rtc c c' : map_inv w0 ids c → rtc map_step c c' → map_inv w0 ids c'.
Proof using Hids. apply rtc_invariant. intros x y. by apply map_step_inv. Qed.
End map_reach.

Lemma map_start_inv w q :
  map_start_ok w q → map_inv w (map_ids w q) (dispatchMapTasks_start w q).
Proof.
  intros []. split; unfold map_waiting, map_results, unpublished; simpl; auto; try done.
  - by rewrite app_nil_r.
  - set_solver.
  - exists []. by rewrite app_nil_r.
Qed.

Lemma map_run_rtc tr c c' : map_run tr c = Some c' → rtc map_step c c'.
Proof.
  revert c. induction tr as [|a tr IH]; intros c; simpl; [by intros [= <-]|].
  destruct (map_exec a c) as [c1|] eqn:Ha; [|done]. intros H. eapply rtc_l; [by exists a|].
  by apply IH.
Qed.

(** ** The phase is a task pool *)

Lemma map_step_results w0 ids c c' :
  NoDup ids → map_inv w0 ids c → map_step c c' →
  map_results c' = map_results c ∨ settles ids (map_results c) (map_results c').
Proof.
  intros Hids Hi [i q p Hpc Hq Hn Hp|Hpc|Hpc Hq Hn Hp|Hpc Hr|Hpc Hq|Hpc Hr|res rest Hpc Hr|Hpc|Hpc Hr
    |Hpc Hd Hn|Hpc Hd|pos call res Hpc Hpos|r client Hpc| |ev|]%map_step_rule; try (by left).
  - left. unfold start_map_call. destruct (vec_index _ _); [|done].
    by destruct (heap _ !! _).
  - left. unfold count_map_call. destruct (task_assigned_check_fail _) as [m' parked] eqn:Hf.
    apply task_assigned_check_fail_spec in Hf as (_ & Hres & _). exact Hres.
  - unfold process_map_response. destruct (decide (status res = SUCCESS)); [|by left].
    assert (map_results c !! shardId res = None) as Hf
      by (apply (response_fresh w0 ids Hids c res Hi); rewrite Hr; set_solver).
    unfold map_results in Hf. simpl. rewrite Hf. right.
    apply (settles_one _ _ _ (shardId res) res); [|done|done].
    rewrite <-(mi_tokens _ _ _ Hi). unfold map_waiting. rewrite Hr. set_solver.
  - left. unfold check_map_done. by destruct (decide _).
  - left. by destruct res.
Qed.

#[export] Program Instance map_phase : TaskPhase MapConf MapperResult := {|
  tp_step := map_step;
  tp_inv ids c := ∃ w0, map_inv w0 ids c;
  tp_waiting := map_waiting;
  tp_results := map_results
|}.
Next Obligation. intros ids c c' Hids [w0 Hi] Hs. exists w0. by eapply map_step_inv. Qed.
Next Obligation. intros ids c [w0 Hi]. by apply (mi_tokens w0 ids c). Qed.
Next Obligation. intros ids c c' Hids [w0 Hi] Hs. by eapply map_step_results. Qed.

Lemma map_reach_inv w q c :
  map_start_ok w q → rtc map_step (dispatchMapTasks_start w q) c → map_inv w (map_ids w q) c.
Proof. intros Hok. apply map_inv_rtc; [by apply ms_nodup|by apply map_start_inv]. Qed.

(** ** Progress *)

Definition scanning (pc : main_pc) : Prop := pc = MDispatch ∨ pc = MStarted ∨ pc = MWait ∨ pc = MSpin.

(** The part of the invariant that keeps the phase going, when the queue holds
    as many tasks as the phase waits for and failure injection is off. *)
Record map_live (w0 : World) (ids : list Z) (c : MapConf) : Prop := {
  ml_inv : map_inv w0 ids c;
  ml_more : scanning (mpc c) → (size (map_results c) < length ids)%nat;
  ml_spin : mpc c = MSpin → job_q c = [] ∨ 10 < nrpcs c;
  ml_parked : mpc c ≠ MParked;
  ml_exit : cpc c = CExit → mpc c = MReturn
}.

Lemma start_map_call_shape c i p :
  mpc (start_map_call c i p) ≠ MUndef →
  mpc (start_map_call c i p) = MStarted ∧ map_results (start_map_call c i p) = map_results c ∧ cpc (start_map_call c i p) = cpc c ∧
  job_q (start_map_call c i p) = job_q c ∧ responseList (start_map_call c i p) = responseList c ∧
  length (cq (start_map_call c i p)) = S (length (cq c)).
Proof.
  unfold map_results, start_map_call. destruct (vec_index _ _); [|done]. destruct (heap _ !! _); [|done].
  simpl. rewrite length_app. simpl. intros _. split_and!; try done. lia.
Qed.

Section map_live.
Context (w0 : World) (ids : list Z) (Hids : NoDup ids).
Context (Hn : to_size (m_nmappers (master w0)) = Z.of_nat (length ids)).
Context (Hfail : m_will_fail (master w0) = false).

Lemma map_results_size c : map_inv w0 ids c → (size (map_results c) ≤ length ids)%nat.
Proof.
  intros Hi. pose proof (tp_length (C:=MapConf) ids c (ex_intro _ w0 Hi)) as H. simpl in H. lia.
Qed.

Lemma count_map_call_shape c :
  map_inv w0 ids c →
  mpc (count_map_call c) = MDispatch ∧ map_results (count_map_call c) = map_results c ∧
  cpc (count_map_call c) = cpc c ∧ job_q (count_map_call c) = tail (job_q c) ∧
  cq (count_map_call c) = cq c ∧ responseList (count_map_call c) = responseList c.
Proof using Hfail.
  intros Hi. unfold count_map_call. destruct (task_assigned_check_fail _) as [m' parked] eqn:Hf.
  apply task_assigned_check_fail_spec in Hf as (Hjp & Hres & _ & _ & Hpt & _).
  pose proof (mi_params _ _ _ Hi) as Hp. unfold job_params in Hp, Hjp. simpl in *.
  destruct parked; [|done]. destruct (Hpt eq_refl) as [? _]. congruence.
Qed.

Lemma map_live_step c c' : map_live w0 ids c → map_step c c' → map_live w0 ids c'.
Proof using Hids Hn Hfail.
  intros [Hi Hmore Hspin Hpark Hex] Hs. pose proof (map_step_inv w0 ids Hids c c' Hi Hs) as Hi'.
  unfold scanning in *. apply map_step_rule in Hs. revert Hi'.
  destruct Hs as [i q p Hpc Hq Hc Hp|Hpc|Hpc Hq Hc Hp|Hpc Hr|Hpc Hq|Hpc Hr|res rest Hpc Hr
    |Hpc|Hpc Hr|Hpc Hd Hc|Hpc Hd|pos call res Hpc Hpos|r client Hpc| |ev|]; intros Hi';
    try (split; [done|..]; unfold scanning; simpl; rewrite ?Hpc; naive_solver congruence).
  - destruct (start_map_call_shape c i p (mi_undef _ _ _ Hi')) as (H1 & H2 & H3 & _).
    split; [done|..]; unfold scanning; rewrite ?H1, ?H2, ?H3; naive_solver congruence.
  - destruct (count_map_call_shape c Hi) as (H1 & H2 & H3 & _).
    split; [done|..]; unfold scanning; rewrite ?H1, ?H2, ?H3; [|naive_solver congruence..].
    intros _. apply Hmore. auto.
  - split; [done|..]; unfold scanning, process_map_response, map_results in *; simpl;
      repeat case_match; simpl; try (naive_solver congruence).
  - split; [done|..]; unfold scanning, check_map_done in *; destruct (decide _) as [Hd|Hd]; simpl in *;
      try (naive_solver congruence).
    intros _. pose proof (map_results_size c Hi) as Hle.
    pose proof (mi_params _ _ _ Hi) as Hpar. unfold job_params in Hpar.
    injection Hpar as _ Hm _. rewrite Hm, Hn in Hd. unfold map_results in *. simpl in *. lia.
  - split; [done|..]; unfold scanning; simpl; try done.
    intros _. rewrite (mi_done _ _ _ Hi), bool_decide_eq_true in Hd. naive_solver.
  - split; [done|..]; destruct res; unfold scanning; simpl; try naive_solver congruence.
Qed.

Lemma map_live_rtc c c' : map_live w0 ids c → rtc map_step c c' → map_live w0 ids c'.
Proof using Hids Hn Hfail. apply rtc_invariant. exact map_live_step. Qed.
End map_live.

(** A measure that some sequence of actions always makes smaller. *)
Definition response_weight (r : MapperResult) : nat :=
  if decide (status r = SUCCESS) then 10 else 30.
Definition mpc_weight (pc : main_pc) : nat :=
  match pc with MDispatch => 1 | MStarted => 2 | MWait => 2 | MProcess => 2 | MErased => 3 | _ => 0 end.
Definition cpc_weight (pc : completer_pc) : nat :=
  match pc with CTop => 1 | CPublish _ _ => 2 | _ => 0 end.
Definition map_measure (c : MapConf) : nat :=
  (16 * length (pending_q c) + 14 * length (cq c) + sum_list_with response_weight (responseList c)
   + mpc_weight (mpc c) + cpc_weight (cpc c))%nat.

Section map_progress.
Context (w0 : World) (ids : list Z) (Hids : NoDup ids).
Context (Hn : to_size (m_nmappers (master w0)) = Z.of_nat (length ids)).
Context (Hfail : m_will_fail (master w0) = false).
Context (Hclients : m_Clients (master w0) ≠ []).

Lemma ping_makes_healthy c :
  map_inv w0 ids c → ∃ h p, rtc map_step c (c <| mw := (mw c) <| heap := h |> |>) ∧
    findMinReqHealthyClient false h (m_Clients (mmaster c)) = Some p.
Proof using Hclients.
  intros Hi. pose proof (mi_params _ _ _ Hi) as Hp. unfold job_params in Hp.
  assert (m_Clients (mmaster c) = m_Clients (master w0)) as Hcl by congruence.
  destruct (m_Clients (master w0)) as [|p l] eqn:Hl; [done|].
  assert (p ∈ m_Clients (master w0)) as Hpin by (rewrite Hl; apply list_elem_of_here).
  destruct (ping_ok_healthy false (heap (mw c)) (m_Clients (mmaster c)) p) as [p' Hp'];
    [by rewrite Hcl, <-Hl|by apply (mi_clients _ _ _ Hi)|].
  exists (complete_ping (p, RpcOk tt) (heap (mw c))), p'. split; [|done].
  apply rtc_once, map_step_rule, rule_ping_complete.
Qed.

(** Between dispatches something is queued, in flight or answered. *)
Lemma map_not_idle c :
  map_live w0 ids c → mpc c = MSpin → cq c = [] → responseList c = [] →
  job_q c ≠ [] ∧ nrpcs c = 0.
Proof.
  intros [Hi Hmore _ _ _] Hs Hc Hr. unfold scanning in Hmore. rewrite Hs in Hmore.
  specialize (Hmore ltac:(auto)).
  pose proof (tp_length (C:=MapConf) ids c (ex_intro _ w0 Hi)) as Hlen. simpl in Hlen.
  unfold map_waiting, pending_q in Hlen. rewrite Hs, Hc, Hr, app_nil_r in Hlen. split.
  - intros Hq. rewrite Hq in Hlen. simpl in Hlen. lia.
  - by rewrite (mi_count _ _ _ Hi), Hc, Hr, Hs.
Qed.

Lemma progress_dispatch c :
  map_live w0 ids c → mpc c = MDispatch →
  ∃ c', rtc map_step c c' ∧ (map_measure c' < map_measure c)%nat.
Proof using Hids Hn Hfail Hclients.
  intros Hl Hpc. pose proof (ml_inv _ _ _ Hl) as Hi.
  destruct (job_q c) as [|i q] eqn:Hq; [|destruct (decide (10 < nrpcs c)) as [Hc|Hc]].
  1, 2: exists (c <| mpc := MSpin |>); split;
    [apply rtc_once, map_step_rule, rule_dispatched; auto
    |unfold map_measure, pending_q; simpl; rewrite Hpc, ?Hq; simpl; lia].
  destruct (ping_makes_healthy c Hi) as (h & p & Hr & Hp).
  set (c1 := c <| mw := (mw c) <| heap := h |> |>) in *.
  assert (map_step c1 (start_map_call c1 i p)) as Hs
    by (apply map_step_rule; eapply rule_dispatch; try done; simpl; lia).
  exists (start_map_call c1 i p). split; [by eapply rtc_r|].
  pose proof (map_live_rtc w0 ids Hids Hn Hfail _ _ Hl Hr) as Hl1.
  pose proof (map_live_step w0 ids Hids Hn Hfail _ _ Hl1 Hs) as Hl2.
  destruct (start_map_call_shape c1 i p (mi_undef _ _ _ (ml_inv _ _ _ Hl2)))
    as (H1 & _ & H2 & H3 & H4 & H5).
  unfold map_measure, pending_q. rewrite H1, H2, H3, H4, H5, Hpc. unfold c1. simpl.
  rewrite Hq. simpl. lia.
Qed.

Lemma progress_started c :
  map_live w0 ids c → mpc c = MStarted → (map_measure (count_map_call c) < map_measure c)%nat.
Proof using Hfail.
  intros Hl Hpc. destruct (count_map_call_shape w0 ids Hfail c (ml_inv _ _ _ Hl))
    as (H1 & _ & H2 & H3 & H4 & H5).
  unfold map_measure, pending_q. rewrite H1, H2, H3, H4, H5, Hpc. simpl. lia.
Qed.

Lemma progress_process c res rest :
  mpc c = MProcess → responseList c = res :: rest →
  (map_measure (process_map_response c res rest) + 10 ≤ map_measure c + 1)%nat.
Proof.
  intros Hpc Hr. unfold map_measure, pending_q, process_map_response. rewrite Hr, Hpc.
  destruct (decide (status res = SUCCESS)) as [Hs|Hs]; simpl.
  - unfold response_weight at 2. rewrite decide_True by done.
    destruct (m_IntermediateResultMap _ !! _); simpl; lia.
  - rewrite length_app. unfold response_weight at 2. rewrite decide_False by done. simpl. lia.
Qed.

Lemma progress_spin c :
  map_live w0 ids c → mpc c = MSpin →
  ∃ c', rtc map_step c c' ∧ (map_measure c' < map_measure c)%nat.
Proof using Hids Hn Hfail Hclients.
  intros Hl Hpc. pose proof (ml_inv _ _ _ Hl) as Hi.
  destruct (responseList c) as [|res rest] eqn:Hr.
  2:{ set (c1 := c <| mpc := MProcess |>).
      exists (process_map_response c1 res rest). split.
      - eapply rtc_l; [|apply rtc_once]; apply map_step_rule.
        + apply rule_spin; [done|]. by rewrite Hr.
        + by apply (rule_process c1).
      - pose proof (progress_process c1 res rest eq_refl Hr) as Hm. unfold map_measure, pending_q in *.
        simpl in *. rewrite Hpc. simpl. lia. }
  destruct (cq c) as [|call l] eqn:Hc.
  { destruct (map_not_idle c Hl Hpc Hc Hr) as [Hq Hz].
    destruct (ml_spin _ _ _ Hl Hpc); [done|lia]. }
  pose proof (mi_count _ _ _ Hi) as Hcount. rewrite Hpc, Hr, Hc in Hcount. simpl in Hcount.
  pose proof (mi_bound _ _ _ Hi) as Hb.
  destruct (cpc c) as [| |r client|] eqn:Hcpc.
  - exists (c <| cpc := CWait |>). split.
    + apply rtc_once, map_step_rule, rule_enter; [done|by rewrite (mi_done _ _ _ Hi), Hpc|].
      rewrite Hr, to_size_id by (unfold is_size; lia). simpl. lia.
    + unfold map_measure, pending_q. simpl. rewrite Hcpc. simpl. lia.
  - exists (complete_map_call (c <| cq := delete 0%nat (cq c) |>) call
      (RpcOk (mkIntermediateResult "" []))). split.
    + apply rtc_once, map_step_rule, rule_complete; [done|by rewrite Hc].
    + unfold map_measure, pending_q. simpl. rewrite Hr, Hc, Hcpc. simpl. unfold response_weight. simpl. lia.
  - exists (publish_map_result c r client). split.
    + by apply rtc_once, map_step_rule, rule_publish.
    + unfold map_measure, pending_q. simpl. rewrite Hcpc. simpl. lia.
  - pose proof (ml_exit _ _ _ Hl Hcpc). congruence.
Qed.

Lemma map_progress c :
  map_live w0 ids c → mpc c = MReturn ∨
  ∃ c', rtc map_step c c' ∧ map_live w0 ids c' ∧ (map_measure c' < map_measure c)%nat.
Proof using Hids Hn Hfail Hclients.
  intros Hl. pose proof (ml_inv _ _ _ Hl) as Hi.
  assert (mpc c = MReturn ∨ ∃ c', rtc map_step c c' ∧ (map_measure c' < map_measure c)%nat)
    as [?|(c' & Hr & Hm)].
  2:{ by left. }
  2:{ right. exists c'. split; [done|]. split; [|done]. by eapply map_live_rtc. }
  destruct (mpc c) eqn:Hpc; try (by left); right.
  - by apply progress_dispatch.
  - exists (count_map_call c). split; [by apply rtc_once, map_step_rule, rule_started|].
    by apply progress_started.
  - exists (c <| mw := (mw c) <| g_ready := true |> |> <| mpc := MDispatch |>). split.
    + eapply rtc_l; [|apply rtc_once]; apply map_step_rule; [apply rule_ping_end|].
      by apply (rule_wake (c <| mw := (mw c) <| g_ready := true |> |>)).
    + unfold map_measure, pending_q. simpl. rewrite Hpc. simpl. lia.
  - by apply progress_spin.
  - destruct (responseList c) as [|res rest] eqn:Hr.
    + exists (check_map_done c). split; [by apply rtc_once, map_step_rule, rule_check|].
      unfold map_measure, pending_q, check_map_done. destruct (decide _); simpl; rewrite ?Hr, Hpc; simpl; lia.
    + exists (process_map_response c res rest).
      split; [by apply rtc_once, map_step_rule, rule_process|].
      pose proof (progress_process c res rest Hpc Hr). lia.
  - eexists. split; [by apply rtc_once, map_step_rule, rule_count|].
    unfold map_measure, pending_q. simpl. rewrite Hpc. simpl. lia.
  - by pose proof (ml_parked _ _ _ Hl).
  - by pose proof (mi_undef _ _ _ Hi).
Qed.
End map_progress.

(** ** Lemmas for the entry points *)

(** What [create_sharding_data] and [update_workers] leave: shard [i] has the id
    [i], and the client pointers are valid. *)
Record job_ready (w : World) : Prop := {
  jr_ids : ∀ i s, m_shards (master w) !! i = Some s → shardId_ s = Z.of_nat i;
  jr_clients : ∀ p, p ∈ m_Clients (master w) → is_Some (heap w !! p)
}.

Definition shard_ids (m : Master) : list Z := Z.of_nat <$> seq 0 (length (m_shards m)).

(** The world [runMapper] enters [dispatchMapTasks] with. *)
Definition cleared (w : World) : World :=
  set_master (λ m, m <| m_IntblobList := [] |> <| m_IntermediateResultMap := ∅ |>) w.

Lemma elem_of_shard_ids m i : i ∈ shard_ids m ↔ ∃ n : nat, i = Z.of_nat n ∧ is_Some (m_shards m !! n).
Proof.
  unfold shard_ids. rewrite list_elem_of_fmap. split.
  - intros (n & -> & Hn%elem_of_seq). exists n. split; [done|]. apply lookup_lt_is_Some. lia.
  - intros (n & -> & Hn%lookup_lt_is_Some). exists n. split; [done|]. apply elem_of_seq. lia.
Qed.

Lemma runMapper_start_ok w : job_ready w → map_start_ok (cleared w) (shard_ids (master w)).
Proof.
  intros [Hids Hcl]. split; simpl; rewrite ?map_to_list_empty, ?app_nil_r; try done.
  - unfold shard_ids. apply NoDup_fmap_2; [apply _|apply NoDup_seq].
  - intros i (n & -> & [s Hs])%elem_of_shard_ids. exists s. split; [|by apply Hids].
    unfold vec_index. rewrite decide_True by lia. by rewrite Nat2Z.id.
Qed.

Lemma map_ids_runMapper w : map_ids (cleared w) (shard_ids (master w)) = shard_ids (master w).
Proof. unfold map_ids. simpl. by rewrite map_to_list_empty, app_nil_r. Qed.

Lemma runMapper_start_eq w :
  runMapper_start w = dispatchMapTasks_start (cleared w) (shard_ids (master w)).
Proof. done. Qed.

Lemma map_return_waiting w q c :
  map_start_ok w q → rtc map_step (dispatchMapTasks_start w q) c → mpc c = MReturn →
  Z.of_nat (length (map_ids w q))
  = Z.of_nat (length (map_waiting c)) + to_size (m_nmappers (master w)).
Proof.
  intros Hok Hr Hpc. pose proof (map_reach_inv w q c Hok Hr) as Hi.
  rewrite <-(mi_return _ _ _ Hi Hpc).
  pose proof (tp_length (C:=MapConf) (map_ids w q) c (ex_intro _ w Hi)) as Hl. simpl in Hl. lia.
Qed.

Lemma map_waiting_nil c : mpc c ≠ MStarted → map_waiting c = [] → job_q c = [] ∧ cq c = [] ∧ responseList c = [].
Proof.
  unfold map_waiting. intros Hpc [Hq [H1 H2]%app_eq_nil]%app_eq_nil.
  apply fmap_nil_inv in H1. apply fmap_nil_inv in H2. unfold pending_q in Hq.
  by destruct (mpc c).
Qed.

(** A dispatcher that has returned and a completion thread that is in [cq.Next]
    with nothing in flight. *)
Definition join_stuck (c : MapConf) : Prop := mpc c = MReturn ∧ cpc c = CWait ∧ cq c = [].

Lemma join_stuck_step c c' : join_stuck c → map_step c c' → join_stuck c'.
Proof.
  unfold join_stuck. intros (Hm & Hc & Hq) Hs%map_step_rule.
  destruct Hs as [i q p Hpc Hq' Hn Hp|Hpc|Hpc Hq' Hn Hp|Hpc Hr|Hpc Hq'|Hpc Hr|res rest Hpc Hr
      |Hpc|Hpc Hr|Hpc Hd Hn|Hpc Hd|pos call res Hpc Hpos|r client Hpc| |ev|]; simpl; try congruence;
    try done.
  by rewrite Hq in Hpos.
Qed.

(** The dispatcher with nothing queued, in flight or answered, and not all
    results: between its two loops for ever. *)
Definition map_idle (c : MapConf) : Prop :=
  (mpc c = MDispatch ∨ mpc c = MSpin) ∧ job_q c = [] ∧ cq c = [] ∧ responseList c = [] ∧
  nrpcs c = 0 ∧ cpc c = CTop ∧ m_map_done (mmaster c) = false.

Lemma map_idle_step c c' : map_idle c → map_step c c' → map_idle c'.
Proof.
  unfold map_idle. intros (Hm & Hq & Hcq & Hl & Hz & Hc & Hd) Hs%map_step_rule.
  destruct Hs as [i q p Hpc Hq' Hn Hp|Hpc|Hpc Hq' Hn Hp|Hpc Hr|Hpc Hq'|Hpc Hr|res rest Hpc Hr
      |Hpc|Hpc Hr|Hpc Hd' Hn|Hpc Hd'|pos call res Hpc Hpos|r client Hpc| |ev|]; simpl;
    try (destruct Hm; congruence); try done.
  - by auto 10.
  - rewrite Hl, Hz in Hn. done.
Qed.

(** The replication list of a reachable state. *)
Lemma map_replication_spec w q c :
  map_start_ok w q → m_IntermediateResultMap (master w) = ∅ →
  rtc map_step (dispatchMapTasks_start w q) c →
  ∃ new, g_repl_list (mw c) = g_repl_list w ++ new ∧ NoDup (shardId <$> new) ∧
    ∀ r, r ∈ new → status r = SUCCESS ∧ shardId r ∈ map_ids w q ∧
      (map_results c !! shardId r = Some r ∨ r ∈ responseList c).
Proof.
  intros Hok He Hr. pose proof (map_reach_inv w q c Hok Hr) as Hi.
  destruct (mi_repl _ _ _ Hi) as (new & Hg & Hnew). exists new. split; [done|].
  rewrite He in Hnew. unfold result_list at 1 in Hnew. rewrite map_to_list_empty in Hnew.
  change ((@nil (Z * MapperResult)).*2) with (@nil MapperResult) in Hnew. rewrite app_nil_r in Hnew.
  assert (∀ r, r ∈ new → status r = SUCCESS ∧
    (map_results c !! shardId r = Some r ∨ r ∈ responseList c)) as Hin.
  { intros r Hin. assert (r ∈ succeeded (responseList c) ++ result_list (map_results c)) as Hin'
      by (rewrite <-Hnew; set_solver).
    apply elem_of_app in Hin' as [[? ?]%list_elem_of_filter|[i Hir]%elem_of_map_vals]; [by auto|].
    destruct (mi_results _ _ _ Hi i r Hir) as [<- ?]. auto. }
  assert (shardId <$> result_list (map_results c) = (map_to_list (map_results c)).*1) as Hkeys.
  { unfold result_list. rewrite <-list_fmap_compose. apply list_fmap_ext.
    intros n [i r] Hn%list_elem_of_lookup_2%elem_of_map_to_list. simpl.
    by destruct (mi_results _ _ _ Hi i r Hn). }
  assert (NoDup (map_waiting c ++ (map_to_list (map_results c)).*1)) as Hnd
    by (rewrite (mi_tokens _ _ _ Hi); by apply ms_nodup).
  split.
  - assert (NoDup (shardId <$> new ++ unpublished c)) as H.
    { rewrite Hnew, fmap_app, Hkeys. eapply sublist_NoDup; [exact Hnd|].
      unfold map_waiting. apply sublist_app; [|done]. do 2 apply sublist_inserts_l.
      apply fmap_sublist, sublist_filter. }
    rewrite fmap_app in H. by apply NoDup_app in H as [? _].
  - intros r Hin'. destruct (Hin r Hin') as [Hs Hor]. split; [done|]. split; [|done].
    rewrite <-(mi_tokens _ _ _ Hi). unfold map_waiting. rewrite !elem_of_app.
    destruct Hor as [Hor|Hor]; [right; apply elem_of_map_keys; eauto|].
    left. right. right. apply list_elem_of_fmap. eauto.
Qed.

(** ** Properties *)

(** C4: no map task is lost or done twice. In every reachable state each task is
    either waiting, in exactly one of the queue, the calls in flight and the
    unprocessed responses, or has one result, which is a success for that very
    shard; results the phase started with are kept. *)
Theorem map_tasks_exactly_once w q c i :
  map_start_ok w q → rtc map_step (dispatchMapTasks_start w q) c → i ∈ map_ids w q →
  NoDup (map_waiting c) ∧ m_IntermediateResultMap (master w) ⊆ map_results c ∧
  ((i ∈ map_waiting c ∧ map_results c !! i = None) ∨
   (i ∉ map_waiting c ∧ ∃ r, map_results c !! i = Some r ∧ shardId r = i ∧ status r = SUCCESS)).
Proof.
  intros Hok Hr Hin. pose proof (ms_nodup _ _ Hok) as Hids. fold (map_ids w q) in Hids.
  pose proof (map_reach_inv w q c Hok Hr) as Hi.
  assert (tp_inv (C:=MapConf) (map_ids w q) c) as Hi' by (by exists w).
  assert (NoDup (map_waiting c ++ (map_to_list (map_results c)).*1)) as Hnd
    by (rewrite (mi_tokens _ _ _ Hi); exact Hids).
  apply NoDup_app in Hnd as (Hnd & _ & _). split; [done|]. split.
  - refine (tp_results_mono (C:=MapConf) (map_ids w q) Hids (dispatchMapTasks_start w q) c _ Hr).
    exists w. by apply map_start_inv.
  - destruct (tp_exactly_once (C:=MapConf) (map_ids w q) Hids c i Hi' Hin) as [?|[? [r Hir]]];
      [by left|right]. split; [done|]. exists r. split; [done|]. by apply (mi_results _ _ _ Hi).
Qed.

(** C18: the map phase refines a pool of tasks: it starts as the pool of the queued
    tasks, and each step of each of its threads, in every state it reaches, leaves
    the pool as it is or takes one waiting task that has no result and gives it
    its result: no step loses a task, settles one twice or changes a result. *)
Theorem map_refines_pool w q c c' :
  map_start_ok w q → rtc map_step (dispatchMapTasks_start w q) c → map_step c c' →
  pool_of (dispatchMapTasks_start w q) = mkPool (list_to_set q) (m_IntermediateResultMap (master w)) ∧
  (pool_of c' = pool_of c ∨ pool_step (pool_of c) (pool_of c')).
Proof.
  intros Hok Hr Hs. split.
  - unfold pool_of. cbn. unfold map_waiting. cbn. by rewrite app_nil_r.
  - apply (tp_refines (C:=MapConf) (map_ids w q) (ms_nodup _ _ Hok)); [|done].
    exists w. by apply map_reach_inv.
Qed.

(** the dispatcher never indexes the shards out of range nor follows a dead
    client pointer; the request counter is exactly the calls in flight plus the
    unprocessed responses (plus the one just erased, less the one just started), stays within 0 and 11, so
    its unsigned comparison in the completion thread is exact; and each call in
    flight carries its own shard's pieces. *)
Theorem map_dispatch_bounded w q c :
  map_start_ok w q → rtc map_step (dispatchMapTasks_start w q) c →
  mpc c ≠ MUndef ∧ 0 ≤ nrpcs c ≤ 11 ∧ to_size (nrpcs c) = nrpcs c ∧
  nrpcs c = Z.of_nat (length (cq c)) + Z.of_nat (length (responseList c))
            + (if decide (mpc c = MErased) then 1 else 0)
            - (if decide (mpc c = MStarted) then 1 else 0) ∧
  ∀ call, call ∈ cq c → call_ok (master w) call.
Proof.
  intros Hok Hr. pose proof (map_reach_inv w q c Hok Hr) as [].
  split; [done|]. split; [done|]. split; [apply to_size_id; unfold is_size; lia|]. done.
Qed.

Lemma runMapper_complete_spec w c :
  job_ready w → rtc map_step (runMapper_start w) c → mpc c = MReturn →
  to_size (m_nmappers (master w)) = Z.of_nat (length (m_shards (master w))) →
  (∀ i s, m_shards (master w) !! i = Some s → ∃ r, map_results c !! Z.of_nat i = Some r ∧
     status r = SUCCESS ∧ shardId r = shardId_ s) ∧
  size (map_results c) = length (m_shards (master w)) ∧
  m_IntblobList (mmaster c) ≡ₚ result_blobs (map_results c) ∧
  job_q c = [] ∧ cq c = [] ∧ responseList c = [] ∧ m_map_done (mmaster c) = true.
Proof.
  intros Hjr Hr Hpc Hn. pose proof (runMapper_start_ok w Hjr) as Hok.
  pose proof (map_reach_inv _ _ c Hok Hr) as Hi. rewrite map_ids_runMapper in Hi.
  pose proof (mi_return _ _ _ Hi Hpc) as Hsz. simpl in Hsz. rewrite Hn in Hsz.
  assert (size (map_results c) = length (shard_ids (master w))) as Hsz'
    by (unfold shard_ids; rewrite length_fmap, length_seq; lia).
  pose proof (ms_nodup _ _ Hok) as Hids.
  change (NoDup (map_ids (cleared w) (shard_ids (master w)))) in Hids.
  rewrite map_ids_runMapper in Hids.
  assert (tp_inv (C:=MapConf) (shard_ids (master w)) c) as Hi' by (by exists (cleared w)).
  destruct (tp_complete (C:=MapConf) (shard_ids (master w)) Hids c Hi' Hsz') as [Hw Hall].
  split; [|split; [lia|split]].
  - intros i s Hs. destruct (proj1 (Hall (Z.of_nat i))) as [r Hir].
    { apply elem_of_shard_ids. by exists i. }
    exists r. split; [done|]. destruct (mi_results _ _ _ Hi _ _ Hir) as [-> ?].
    split; [done|]. symmetry. by apply (jr_ids w Hjr).
  - pose proof (mi_blobs _ _ _ Hi) as Hb. simpl in Hb. unfold result_blobs at 1, result_list in Hb.
    by rewrite map_to_list_empty, app_nil_r in Hb.
  - destruct (map_waiting_nil c ltac:(congruence) Hw) as (? & ? & ?). repeat split; try done.
    rewrite (mi_done _ _ _ Hi), Hpc. done.
Qed.

(** C16: when [dispatchMapTasks] returns from [runMapper] and the job waits for
    as many mappers as there are shards, every shard has a successful result,
    the blob list holds the blobs of these results, each once, and nothing is
    queued, in flight or unprocessed. *)
Theorem runMapper_complete w c :
  job_ready w → rtc map_step (runMapper_start w) c → mpc c = MReturn →
  to_size (m_nmappers (master w)) = Z.of_nat (length (m_shards (master w))) →
  (∀ i s, m_shards (master w) !! i = Some s → ∃ r, map_results c !! Z.of_nat i = Some r ∧
     status r = SUCCESS ∧ shardId r = shardId_ s) ∧
  size (map_results c) = length (m_shards (master w)) ∧
  m_IntblobList (mmaster c) ≡ₚ result_blobs (map_results c) ∧
  job_q c = [] ∧ cq c = [] ∧ responseList c = [] ∧ m_map_done (mmaster c) = true.
Proof. apply runMapper_complete_spec. Qed.

(** C21: with failure injection off, at least one client, something queued and as
    many tasks as mappers, the map phase can still finish from every state it
    can reach, whatever failed on the way. *)
Theorem map_can_finish w q c :
  map_start_ok w q → q ≠ [] → m_Clients (master w) ≠ [] → m_will_fail (master w) = false →
  to_size (m_nmappers (master w)) = Z.of_nat (length (map_ids w q)) →
  rtc map_step (dispatchMapTasks_start w q) c →
  ∃ c', rtc map_step c c' ∧ mpc c' = MReturn.
Proof.
  intros Hok Hq Hcl Hf Hn Hr. pose proof (ms_nodup _ _ Hok) as Hids.
  refine (rtc_progress map_step (map_live w (map_ids w q)) (λ c, mpc c = MReturn) map_measure _ c _).
  - intros x Hx. by apply map_progress.
  - eapply map_live_rtc; try done. split; simpl; try done; [by apply map_start_inv|].
    intros _. unfold map_results, map_ids. simpl. rewrite length_app, length_fmap, length_map_to_list.
    destruct q; [done|]. simpl. lia.
Qed.

(** [dispatchMapTasks] returns with exactly as many results as the job has
    mappers: if there are more shards than mappers the others are dropped
    without a result. *)
Theorem map_return_drops w q c :
  map_start_ok w q → rtc map_step (dispatchMapTasks_start w q) c → mpc c = MReturn →
  Z.of_nat (length (map_waiting c))
  = Z.of_nat (length (map_ids w q)) - to_size (m_nmappers (master w)).
Proof. intros Hok Hr Hpc. rewrite (map_return_waiting w q c Hok Hr Hpc). lia. Qed.

(** C36: with fewer shards than mappers [dispatchMapTasks] never returns. *)
Theorem map_fewer_shards_never_return w q c :
  map_start_ok w q → Z.of_nat (length (map_ids w q)) < to_size (m_nmappers (master w)) →
  rtc map_step (dispatchMapTasks_start w q) c → mpc c ≠ MReturn.
Proof. intros Hok Hlt Hr Hpc. pose proof (map_return_waiting w q c Hok Hr Hpc). lia. Qed.

(** a new leader that takes over when every shard has its result already
    (the old one failed after the map phase) enters [dispatchMapTasks] with an
    empty queue and never returns. *)
Theorem map_resume_complete_spins w c :
  rtc map_step (dispatchMapTasks_start w []) c → mpc c ≠ MReturn.
Proof.
  intros Hr. assert (map_idle c) as (Hm & _).
  { refine (rtc_invariant map_step map_idle _ _ map_idle_step _ Hr).
    unfold map_idle. simpl. auto 10. }
  destruct Hm; congruence.
Qed.

(** C31: what the leader adds to the replication list during a map phase that
    starts with no results, as [runMapper] makes it, are results of distinct shards that succeeded, each one the result it has itself
    or the response it is about to process. *)
Theorem map_replication_sound w q c :
  map_start_ok w q → m_IntermediateResultMap (master w) = ∅ →
  rtc map_step (dispatchMapTasks_start w q) c →
  ∃ new, g_repl_list (mw c) = g_repl_list w ++ new ∧ NoDup (shardId <$> new) ∧
    ∀ r, r ∈ new → status r = SUCCESS ∧ shardId r ∈ map_ids w q ∧
      (map_results c !! shardId r = Some r ∨ r ∈ responseList c).
Proof. exact (map_replication_spec w q c). Qed.

(** ** Concrete runs *)

Definition ex_shards (n : nat) : list FileShard :=
  (λ i : nat, mkFileShard (Z.of_nat i) [mkShardData "in.txt" (10 * Z.of_nat i) (10 * Z.of_nat i + 10)])
    <$> seq 0 n.

(** One worker, whose last ping has succeeded; [n] shards for [m] mappers. *)
Definition ex_map_world (n : nat) (m : Z) : World :=
  let w := World_new 0 in
  w <| heap := {[ 0%nat := mkMapReduceClient "10.0.0.1:50051" IDLE PING_SUCCESS 0 0 ]} |>
    <| master := (master w) <| m_Clients := [0%nat] |>
        <| m_ClientMap := {[ 0%nat := mkClientInfo "a" "/workers/worker_0" ]} |>
        <| m_shards := ex_shards n |> <| m_nmappers := m |> <| m_nreducers := 1 |> |>.

Definition ok_reply (b : string) : rpc_result IntermediateResult :=
  RpcOk (mkIntermediateResult "out" [b]).

(** One task: dispatched, failed, dispatched again and done. *)
Definition ex_retry_trace : list map_action :=
  [ADispatch; AStarted; ADispatched; CEnter; CComplete 0 (RpcError 4); ASpin; AProcess; ACount; ACheck;
   ADispatch; AStarted; ADispatched; CEnter; CComplete 0 (ok_reply "int_a_0"); CPublished;
   ASpin; AProcess; ACount; ACheck].

Definition ex_retry : MapConf :=
  default (runMapper_start (ex_map_world 1 1)) (map_run ex_retry_trace (runMapper_start (ex_map_world 1 1))).

Lemma ex_retry_run : map_run ex_retry_trace (runMapper_start (ex_map_world 1 1)) = Some ex_retry.
Proof. vm_compute. reflexivity. Qed.

Lemma ex_map_ready n m : job_ready (ex_map_world n m).
Proof.
  split; simpl.
  - intros i s Hs. unfold ex_shards in Hs. apply list_lookup_fmap_Some in Hs as (j & -> & Hj).
    apply lookup_seq in Hj as [-> _]. done.
  - intros p ->%list_elem_of_singleton. by rewrite lookup_singleton_eq.
Qed.

Lemma ex_start_ok n m :
  map_start_ok (cleared (ex_map_world n m)) (shard_ids (master (ex_map_world n m))).
Proof. apply runMapper_start_ok, ex_map_ready. Qed.

Lemma ex_reach n m tr c :
  map_run tr (runMapper_start (ex_map_world n m)) = Some c →
  rtc map_step (dispatchMapTasks_start (cleared (ex_map_world n m))
    (shard_ids (master (ex_map_world n m)))) c.
Proof. rewrite runMapper_start_eq. apply map_run_rtc. Qed.

(** Two shards, one mapper: the dispatcher returns with one of them. *)
Definition ex_drop_trace : list map_action :=
  [ADispatch; AStarted; ADispatch; AStarted; ADispatched; CEnter; CComplete 1 (ok_reply "int_b_0"); CPublished;
   ASpin; AProcess; ACount; ACheck].
Definition ex_drop : MapConf :=
  default (runMapper_start (ex_map_world 2 1)) (map_run ex_drop_trace (runMapper_start (ex_map_world 2 1))).

Lemma ex_drop_run : map_run ex_drop_trace (runMapper_start (ex_map_world 2 1)) = Some ex_drop.
Proof. vm_compute. reflexivity. Qed.

(** The completion thread tests [nrpcs > resList.size()] between [erase] and
    [nrpcs--]. *)
Definition ex_join_trace : list map_action :=
  [ADispatch; AStarted; ADispatched; CEnter; CComplete 0 (ok_reply "int_a_0"); CPublished;
   ASpin; AProcess; CEnter; ACount; ACheck].
Definition ex_join : MapConf :=
  default (runMapper_start (ex_map_world 1 1)) (map_run ex_join_trace (runMapper_start (ex_map_world 1 1))).

(** the completion thread can be left behind: there is a run of a one-shard
    job, without any failure, in which [dispatchMapTasks] returns while the
    completion thread is in [cq.Next] with no call in flight; from there it
    never ends, so that [m_t1.join()] in [runReducer] never returns. *)
Theorem map_join_deadlock :
  map_run ex_join_trace (runMapper_start (ex_map_world 1 1)) = Some ex_join ∧
  mpc ex_join = MReturn ∧ m_map_done (mmaster ex_join) = true ∧
  ∀ c, rtc map_step ex_join c → cpc c = CWait.
Proof.
  split; [vm_compute; reflexivity|]. split; [reflexivity|]. split; [reflexivity|].
  intros c Hr. assert (join_stuck c) as (_ & ? & _); [|done].
  refine (rtc_invariant map_step join_stuck _ _ join_stuck_step _ Hr).
  split; [reflexivity|]. split; reflexivity.
Qed.

Lemma map_tasks_exactly_once_witness :
  0 ∈ map_ids (cleared (ex_map_world 1 1)) (shard_ids (master (ex_map_world 1 1))) ∧
  (0 ∉ map_waiting ex_retry ∧
    ∃ r, map_results ex_retry !! 0 = Some r ∧ shardId r = 0 ∧ status r = SUCCESS).
Proof.
  split; [apply (bool_decide_unpack _); vm_compute; reflexivity|].
  destruct (map_tasks_exactly_once (cleared (ex_map_world 1 1)) (shard_ids (master (ex_map_world 1 1))) ex_retry 0 (ex_start_ok 1 1)
    (ex_reach 1 1 _ _ ex_retry_run) ltac:(apply (bool_decide_unpack _); vm_compute; reflexivity))
    as (_ & _ & [[_ H]|H]); [discriminate H|exact H].
Defined.

(** The second answer is taken up. *)
Definition ex_answered : MapConf :=
  default ex_retry (map_run (take 16 ex_retry_trace) (runMapper_start (ex_map_world 1 1))).
Definition ex_settled : MapConf := default ex_retry (map_exec AProcess ex_answered).

Lemma map_refines_pool_witness : pool_step (pool_of ex_answered) (pool_of ex_settled).
Proof.
  destruct (map_refines_pool (cleared (ex_map_world 1 1)) (shard_ids (master (ex_map_world 1 1)))
    ex_answered ex_settled (ex_start_ok 1 1)) as [_ [H|H]].
  - apply (ex_reach 1 1 (take 16 ex_retry_trace)). vm_compute. reflexivity.
  - exists AProcess. vm_compute. reflexivity.
  - apply (f_equal (λ p, pl_results p !! 0)) in H. vm_compute in H. discriminate H.
  - exact H.
Defined.

Lemma map_dispatch_bounded_witness : mpc ex_retry ≠ MUndef ∧ 0 ≤ nrpcs ex_retry ≤ 11.
Proof.
  destruct (map_dispatch_bounded (cleared (ex_map_world 1 1)) (shard_ids (master (ex_map_world 1 1))) ex_retry (ex_start_ok 1 1)
    (ex_reach 1 1 _ _ ex_retry_run)) as (H1 & H2 & _).
  exact (conj H1 H2).
Defined.

Lemma runMapper_complete_witness :
  mpc ex_retry = MReturn ∧ size (map_results ex_retry) = 1%nat ∧
  m_IntblobList (mmaster ex_retry) ≡ₚ result_blobs (map_results ex_retry).
Proof.
  destruct (runMapper_complete (ex_map_world 1 1) ex_retry (ex_map_ready 1 1)
    (map_run_rtc _ _ _ ex_retry_run))
    as (_ & H1 & H2 & _); [reflexivity|reflexivity|].
  exact (conj eq_refl (conj H1 H2)).
Defined.

Lemma map_can_finish_witness :
  ∃ c', rtc map_step (dispatchMapTasks_start (cleared (ex_map_world 1 1)) (shard_ids (master (ex_map_world 1 1)))) c' ∧ mpc c' = MReturn.
Proof.
  apply (map_can_finish (cleared (ex_map_world 1 1)) (shard_ids (master (ex_map_world 1 1))) _ (ex_start_ok 1 1));
    [discriminate|discriminate|reflexivity|reflexivity|constructor].
Defined.

Lemma map_return_drops_witness :
  mpc ex_drop = MReturn ∧ Z.of_nat (length (map_waiting ex_drop)) = 2 - 1.
Proof.
  split; [reflexivity|].
  apply (map_return_drops (cleared (ex_map_world 2 1)) (shard_ids (master (ex_map_world 2 1))) ex_drop (ex_start_ok 2 1)
    (ex_reach 2 1 _ _ ex_drop_run)). reflexivity.
Defined.

Lemma map_fewer_shards_never_return_witness :
  1 < to_size 2 ∧ mpc (dispatchMapTasks_start (cleared (ex_map_world 1 2))
    (shard_ids (master (ex_map_world 1 2)))) ≠ MReturn.
Proof.
  split; [reflexivity|].
  apply (map_fewer_shards_never_return (cleared (ex_map_world 1 2)) (shard_ids (master (ex_map_world 1 2))) _ (ex_start_ok 1 2));
    [reflexivity|constructor].
Defined.

Lemma map_resume_complete_spins_witness :
  mpc ((dispatchMapTasks_start (cleared (ex_map_world 1 1)) []) <| mpc := MSpin |>) ≠ MReturn.
Proof.
  apply (map_resume_complete_spins (cleared (ex_map_world 1 1))).
  apply (map_run_rtc [ADispatched]). vm_compute. reflexivity.
Defined.

Lemma map_replication_sound_witness :
  ∃ new, g_repl_list (mw ex_retry) = [] ++ new ∧ NoDup (shardId <$> new).
Proof.
  destruct (map_replication_sound (cleared (ex_map_world 1 1)) (shard_ids (master (ex_map_world 1 1))) ex_retry (ex_start_ok 1 1)
    eq_refl (ex_reach 1 1 _ _ ex_retry_run)) as (new & H1 & H2 & _).
  exact (ex_intro _ new (conj H1 H2)).
Defined.
