(* ===== verification/ReducePhase.v ===== *)
(** * The reduce phase ([Master::runReducer], [dispatchReduceTasks],
    [AsyncCompleteReduceRpc])

    The dispatcher hands out the reducer numbers, each with the intermediate
    blobs whose name ends in that number, waits until every call that was handed
    out is answered, and queues the failed ones again. As in [MapPhase] a
    configuration holds the program counters of both threads and an action is
    one step of one thread.

    The theorems: a reducer gets exactly its own blobs; every reducer is done
    exactly once; the phase can always finish; its completion thread can always
    be joined. *)

From S2P Require Export Clients TaskPool.

(** ** Configurations *)

(** The dispatcher: in the inner dispatch loop; in it after the call is started;
    waiting in [findMinReqHealthyClient]; at [while(responseList.size() !=
    nrpcs);]; in the response loop with the iterator at [pos]; between [erase]
    and [nrpcs--]; returned; asleep in [enter_fail_state]; past a dead pointer; left
    by an exception. *)
Inductive reduce_pc : Type :=
  | RDispatch | RStarted | RWait | RAwait | RProcess (pos : nat) | RErased (pos : nat)
  | RReturn | RParked | RUndef | RThrown (e : exn).

(** The completion thread: at [while (!done)]; in [cq.Next]; returned. *)
Inductive rcompleter_pc : Type := RTop | RNext | RExit.

#[export] Instance reduce_pc_eq_dec : EqDecision reduce_pc.
Proof. solve_decision. Defined.
#[export] Instance rcompleter_pc_eq_dec : EqDecision rcompleter_pc.
Proof. solve_decision. Defined.
#[export] Instance ReduceResult_eq_dec : EqDecision ReduceResult.
Proof. solve_decision. Defined.

Record RedConf : Type := mkRedConf {
  rw : World;
  rjob_q : list Z;
  rnrpcs : Z;
  rresponses : list ReduceResult;
  rcq : list AsyncClientReduceCall;
  rdone : bool;
  rpc : reduce_pc;
  rcpc : rcompleter_pc
}.

#[export] Instance eta_RedConf : EtaRecord RedConf := λ r,
  mkRedConf (rw r) (rjob_q r) (rnrpcs r) (rresponses r) (rcq r) (rdone r) (rpc r) (rcpc r).

Abbreviation rmaster c := (master (rw c)).

(** Entry of [dispatchReduceTasks], its thread started. *)
Definition dispatchReduceTasks_start (w : World) (q : list Z) : RedConf :=
  {| rw := w <| master := (master w) <| m_OutputResultMap := ∅ |> |>;
     rjob_q := q; rnrpcs := 0; rresponses := []; rcq := []; rdone := false;
     rpc := RDispatch; rcpc := RTop |}.

(** [Master::runReducer]: [for (int i = 0; i < m_nreducers; i++)]. *)
Definition reducer_ids (m : Master) : list Z := Z.of_nat <$> seq 0 (Z.to_nat (m_nreducers m)).
Definition runReducer_start (w : World) : RedConf :=
  dispatchReduceTasks_start w (reducer_ids (master w)).

(** ** The dispatcher's actions *)

(** The loop over [m_IntblobList]: the blobs whose suffix is [jobid]; [stol]
    throws if a name has no number after its last underscore. *)
Fixpoint reduce_blobs (l : list string) (jobid : Z) : outcome (list string) :=
  match l with
  | [] => Ret []
  | item :: l =>
      let! r := stol (after_last "_" item) in
      let! rest := reduce_blobs l jobid in
      Ret (if decide (to_int32 r = jobid) then item :: rest else rest)
  end.

(** The test [nrpcs - responseList.size() > m_Clients.size()], unsigned. *)
Definition too_many (c : RedConf) : Prop :=
  Z.of_nat (length (m_Clients (rmaster c)))
  < to_size (to_size (rnrpcs c) - Z.of_nat (length (rresponses c))).
#[export] Instance too_many_dec c : Decision (too_many c) := decide (_ < _).

(** One round of the inner loop up to [nrpcs++]. *)
Definition start_reduce_call (c : RedConf) (jobid : Z) (blobs : list string) (client : cptr)
    : RedConf :=
  match heap (rw c) !! client with
  | Some cl =>
      let '(call, cl) := invokeReduceTaskAsync client (setStatus REDUCE_RUNNING cl) blobs
                           (m_intcontainer (rmaster c)) (m_rid (rmaster c)) jobid in
      c <| rw := (rw c) <| heap := <[client := cl]> (heap (rw c)) |> |>
        <| rcq := rcq c ++ [call] |> <| rpc := RStarted |>
  | None => c <| rpc := RUndef |>
  end.

(** Its end: [nrpcs++], the failure injection and [job_q.pop()]. *)
Definition count_reduce_call (c : RedConf) : RedConf :=
  let '(m, parked) := task_assigned_check_fail (rmaster c) in
  let c := c <| rw := (rw c) <| master := m |> |> <| rnrpcs := rnrpcs c + 1 |> in
  if parked then c <| rpc := RParked |>
  else c <| rjob_q := tail (rjob_q c) |> <| rpc := RDispatch |>.

(** One round of the response loop, up to the call of [erase]. *)
Definition process_reduce_response (c : RedConf) (pos : nat) (res : ReduceResult) : RedConf :=
  if decide (r_status res = SUCCESS) then c <| rpc := RProcess (S pos) |>
  else c <| rjob_q := rjob_q c ++ [r_jobid res] |>
         <| rresponses := delete pos (rresponses c) |> <| rpc := RErased pos |>.

(** The loop that fills [m_OutputResultMap]. *)
Definition output_results (l : list ReduceResult) (out : gmap Z string) : gmap Z string :=
  foldl (λ out res,
      if decide (r_status res = SUCCESS) then emplace (r_jobid res) (r_cname res) out else out)
    out l.

(** The end of a round. *)
Definition check_reduce_done (c : RedConf) : RedConf :=
  match rjob_q c with
  | [] =>
      c <| rdone := true |>
        <| rw := (rw c) <| master := (rmaster c) <| m_OutputResultMap :=
             output_results (rresponses c) (m_OutputResultMap (rmaster c)) |> |> |>
        <| rpc := RReturn |>
  | _ => c <| rpc := RDispatch |>
  end.

(** ** The completion thread's actions *)

Definition reduce_success (call : AsyncClientReduceCall) (reply : FinalResult) : ReduceResult :=
  mkReduceResult SUCCESS (fr_containername reply) (fr_blobname reply) (rc_jobid call) false.

Definition reduce_failure (call : AsyncClientReduceCall) (error_code : Z) : ReduceResult :=
  mkReduceResult (if decide (error_code = 4) then TIMEDOUT else FAILED) "" "" (rc_jobid call) false.

(** A completion delivered by [cq.Next]. *)
Definition complete_reduce_call (c : RedConf) (call : AsyncClientReduceCall)
    (res : rpc_result FinalResult) : RedConf :=
  let '(r, st) := match res with
                  | RpcOk reply => (reduce_success call reply, REDUCE_DONE)
                  | RpcError code => (reduce_failure call code, failed_status code)
                  end in
  c <| rw := (rw c) <| heap := alter (setStatus st) (rc_client call) (heap (rw c)) |> |>
    <| rresponses := rresponses c ++ [r] |> <| rcpc := RTop |>.

(** ** Actions *)

Inductive reduce_action : Type :=
  (* dispatcher *)
  | BDispatch | BThrow | BStarted | BWait | BWake | BDispatched | BAwait | BProcess | BCount | BCheck
  (* completion thread *)
  | BEnter | BLeave | BComplete (pos : nat) (res : rpc_result FinalResult)
  (* heartbeat thread *)
  | BPingStart | BPingComplete (ev : cptr * rpc_result unit) | BPingEnd.

Definition reduce_exec (a : reduce_action) (c : RedConf) : option RedConf :=
  match a, rpc c, rcpc c with
  | BDispatch, RDispatch, _ =>
      match rjob_q c, findMinReqHealthyClient true (heap (rw c)) (m_Clients (rmaster c)) with
      | jobid :: _, Some client =>
          if decide (too_many c) then None
          else match reduce_blobs (m_IntblobList (rmaster c)) jobid with
               | Ret blobs => Some (start_reduce_call c jobid blobs client)
               | _ => None
               end
      | _, _ => None
      end
  | BThrow, RDispatch, _ =>
      match rjob_q c with
      | jobid :: _ =>
          if decide (too_many c) then None
          else match reduce_blobs (m_IntblobList (rmaster c)) jobid with
               | Raise e => Some (c <| rpc := RThrown e |>)
               | _ => None
               end
      | [] => None
      end
  | BStarted, RStarted, _ => Some (count_reduce_call c)
  | BWait, RDispatch, _ =>
      match rjob_q c, findMinReqHealthyClient true (heap (rw c)) (m_Clients (rmaster c)) with
      | jobid :: _, None =>
          if decide (too_many c) then None
          else match reduce_blobs (m_IntblobList (rmaster c)) jobid with
               | Ret _ => Some (c <| rw := (rw c) <| g_ready := false |> |> <| rpc := RWait |>)
               | _ => None
               end
      | _, _ => None
      end
  | BWake, RWait, _ => if g_ready (rw c) then Some (c <| rpc := RDispatch |>) else None
  | BDispatched, RDispatch, _ =>
      if decide (rjob_q c = [] ∨ too_many c) then Some (c <| rpc := RAwait |>) else None
  | BAwait, RAwait, _ =>
      if decide (Z.of_nat (length (rresponses c)) = to_size (rnrpcs c))
      then Some (c <| rpc := RProcess 0 |>) else None
  | BProcess, RProcess pos, _ => process_reduce_response c pos <$> rresponses c !! pos
  | BCount, RErased pos, _ => Some (c <| rnrpcs := rnrpcs c - 1 |> <| rpc := RProcess pos |>)
  | BCheck, RProcess pos, _ =>
      match rresponses c !! pos with None => Some (check_reduce_done c) | Some _ => None end
  | BEnter, _, RTop =>
      if rdone c then None
      else if decide (Z.of_nat (length (rresponses c)) < to_size (rnrpcs c))
           then Some (c <| rcpc := RNext |>) else None
  | BLeave, _, RTop => if rdone c then Some (c <| rcpc := RExit |>) else None
  | BComplete pos res, _, RNext =>
      match rcq c !! pos with
      | Some call => Some (complete_reduce_call (c <| rcq := delete pos (rcq c) |>) call res)
      | None => None
      end
  | BPingStart, _, _ => Some (c <| rw := ping_start (rw c) |>)
  | BPingComplete ev, _, _ =>
      Some (c <| rw := (rw c) <| heap := complete_ping ev (heap (rw c)) |> |>)
  | BPingEnd, _, _ => Some (c <| rw := (rw c) <| g_ready := true |> |>)
  | _, _, _ => None
  end.

Definition reduce_step (c c' : RedConf) : Prop := ∃ a, reduce_exec a c = Some c'.

Fixpoint reduce_run (tr : list reduce_action) (c : RedConf) : option RedConf :=
  match tr with
  | [] => Some c
  | a :: tr => c' ← reduce_exec a c; reduce_run tr c'
  end.

(** The same actions as rules. *)
Inductive reduce_rule (c : RedConf) : RedConf → Prop :=
| rrule_dispatch jobid q blobs p : rpc c = RDispatch → rjob_q c = jobid :: q → ¬ too_many c →
    reduce_blobs (m_IntblobList (rmaster c)) jobid = Ret blobs →
    findMinReqHealthyClient true (heap (rw c)) (m_Clients (rmaster c)) = Some p →
    reduce_rule c (start_reduce_call c jobid blobs p)
| rrule_throw jobid q e : rpc c = RDispatch → rjob_q c = jobid :: q → ¬ too_many c →
    reduce_blobs (m_IntblobList (rmaster c)) jobid = Raise e →
    reduce_rule c (c <| rpc := RThrown e |>)
| rrule_started : rpc c = RStarted → reduce_rule c (count_reduce_call c)
| rrule_wait jobid q blobs : rpc c = RDispatch → rjob_q c = jobid :: q → ¬ too_many c →
    reduce_blobs (m_IntblobList (rmaster c)) jobid = Ret blobs →
    findMinReqHealthyClient true (heap (rw c)) (m_Clients (rmaster c)) = None →
    reduce_rule c (c <| rw := (rw c) <| g_ready := false |> |> <| rpc := RWait |>)
| rrule_wake : rpc c = RWait → g_ready (rw c) = true → reduce_rule c (c <| rpc := RDispatch |>)
| rrule_dispatched : rpc c = RDispatch → rjob_q c = [] ∨ too_many c →
    reduce_rule c (c <| rpc := RAwait |>)
| rrule_await : rpc c = RAwait → Z.of_nat (length (rresponses c)) = to_size (rnrpcs c) →
    reduce_rule c (c <| rpc := RProcess 0 |>)
| rrule_process pos res : rpc c = RProcess pos → rresponses c !! pos = Some res →
    reduce_rule c (process_reduce_response c pos res)
| rrule_count pos : rpc c = RErased pos →
    reduce_rule c (c <| rnrpcs := rnrpcs c - 1 |> <| rpc := RProcess pos |>)
| rrule_check pos : rpc c = RProcess pos → rresponses c !! pos = None →
    reduce_rule c (check_reduce_done c)
| rrule_enter : rcpc c = RTop → rdone c = false →
    Z.of_nat (length (rresponses c)) < to_size (rnrpcs c) → reduce_rule c (c <| rcpc := RNext |>)
| rrule_leave : rcpc c = RTop → rdone c = true → reduce_rule c (c <| rcpc := RExit |>)
| rrule_complete pos call res : rcpc c = RNext → rcq c !! pos = Some call →
    reduce_rule c (complete_reduce_call (c <| rcq := delete pos (rcq c) |>) call res)
| rrule_ping_start : reduce_rule c (c <| rw := ping_start (rw c) |>)
| rrule_ping_complete ev :
    reduce_rule c (c <| rw := (rw c) <| heap := complete_ping ev (heap (rw c)) |> |>)
| rrule_ping_end : reduce_rule c (c <| rw := (rw c) <| g_ready := true |> |>).

Lemma reduce_step_rule c c' : reduce_step c c' ↔ reduce_rule c c'.
Proof.
  split.
  - intros [a Ha]. destruct a; simpl in Ha;
      destruct (rpc c) eqn:Hpc, (rcpc c) eqn:Hcpc; try discriminate Ha;
      repeat case_match; simplify_option_eq; try done;
      econstructor; first [done | lia | congruence | by destruct (rdone _)].
  - destruct 1 as [j q bl p Hpc Hq Hn Hb Hp|j q e Hpc Hq Hn Hb|Hpc|j q bl Hpc Hq Hn Hb Hp|Hpc Hr|Hpc Hq
      |Hpc Hr|pos res Hpc Hr|pos Hpc|pos Hpc Hr|Hpc Hd Hn|Hpc Hd|pos call res Hpc Hpos| |ev|];
      [exists BDispatch|exists BThrow|exists BStarted|exists BWait|exists BWake|exists BDispatched
      |exists BAwait|exists BProcess|exists BCount|exists BCheck|exists BEnter|exists BLeave
      |exists (BComplete pos res)|exists BPingStart|exists (BPingComplete ev)|exists BPingEnd]; simpl.
    + rewrite Hpc, Hq, Hp, Hb. by rewrite decide_False.
    + rewrite Hpc, Hq, Hb. by rewrite decide_False.
    + by rewrite Hpc.
    + rewrite Hpc, Hq, Hp, Hb. by rewrite decide_False.
    + by rewrite Hpc, Hr.
    + rewrite Hpc. by rewrite decide_True.
    + rewrite Hpc. by rewrite decide_True.
    + by rewrite Hpc, Hr.
    + by rewrite Hpc.
    + by rewrite Hpc, Hr.
    + rewrite Hpc, Hd, decide_True by done. by destruct (rpc c).
    + rewrite Hpc, Hd. by destruct (rpc c).
    + rewrite Hpc, Hpos. by destruct (rpc c).
    + by destruct (rpc c), (rcpc c).
    + by destruct (rpc c), (rcpc c).
    + by destruct (rpc c), (rcpc c).
Qed.

(** ** The invariant *)

Definition r_succeeded (l : list ReduceResult) : list ReduceResult :=
  filter (λ r, r_status r = SUCCESS) l.
Definition r_failed (l : list ReduceResult) : list ReduceResult :=
  filter (λ r, r_status r ≠ SUCCESS) l.

Definition reduce_results (c : RedConf) : gmap Z ReduceResult :=
  list_to_map ((λ r, (r_jobid r, r)) <$> r_succeeded (rresponses c)).

(** The queue without the task whose call is started already. *)
Definition rpending (c : RedConf) : list Z :=
  match rpc c with RStarted | RParked => tail (rjob_q c) | _ => rjob_q c end.

(** Reducers without a result: queued, in flight, or failed and not yet queued
    again. *)
Definition reduce_waiting (c : RedConf) : list Z :=
  rpending c ++ (rc_jobid <$> rcq c) ++ (r_jobid <$> r_failed (rresponses c)).

(** The request a call carries names the reducer and exactly its blobs. *)
Definition rcall_ok (m : Master) (call : AsyncClientReduceCall) : Prop :=
  ∃ blobs, reduce_blobs (m_IntblobList m) (rc_jobid call) = Ret blobs ∧
    rc_query call = mkReducerInput (to_string (m_rid m)) (m_intcontainer m)
                      (to_int32 (rc_jobid call)) blobs.

Definition all_success (l : list ReduceResult) : Prop := Forall (λ r, r_status r = SUCCESS) l.

(** What holds at each point of the dispatcher. *)
Definition reduce_at (c : RedConf) : Prop :=
  match rpc c with
  | RProcess pos => rcq c = [] ∧ all_success (take pos (rresponses c))
  | RErased pos => rcq c = [] ∧ all_success (take pos (rresponses c)) ∧ rjob_q c ≠ []
  | RReturn => rcq c = [] ∧ all_success (rresponses c) ∧ rjob_q c = [] ∧
      m_OutputResultMap (rmaster c) = output_results (rresponses c) ∅
  | RUndef => False
  | _ => True
  end.

Definition is_erased (pc : reduce_pc) : bool :=
  match pc with RErased _ => true | _ => false end.

Record reduce_inv (w0 : World) (ids : list Z) (c : RedConf) : Prop := {
  ri_params : job_params (rmaster c) = job_params (master w0);
  ri_blobs : m_IntblobList (rmaster c) = m_IntblobList (master w0);
  ri_container : m_intcontainer (rmaster c) = m_intcontainer (master w0);
  ri_tokens : rpending c ++ (rc_jobid <$> rcq c) ++ (r_jobid <$> rresponses c) ≡ₚ ids;
  ri_count : rnrpcs c = Z.of_nat (length (rcq c)) + Z.of_nat (length (rresponses c))
                        + (if is_erased (rpc c) then 1 else 0)
                        - (if decide (rpc c = RStarted) then 1 else 0);
  ri_lower : 0 ≤ rnrpcs c;
  ri_calls : ∀ call, call ∈ rcq c → rcall_ok (master w0) call;
  ri_clients : ∀ p, p ∈ m_Clients (master w0) → is_Some (heap (rw c) !! p);
  ri_at : reduce_at c;
  ri_next : rcpc c = RNext → rcq c ≠ [] ∨ rpending c ≠ [];
  ri_done : rdone c = bool_decide (rpc c = RReturn);
  ri_output : rpc c ≠ RReturn → m_OutputResultMap (rmaster c) = ∅
}.

Ltac reduce_inv_simpl :=
  unfold rpending, reduce_at, is_erased in *; simpl in *; auto; try lia; try done.
Ltac reduce_inv_at Hpc :=
  unfold rpending, reduce_at, is_erased in *;
  repeat match goal with
  | H : context [rpc ?c] |- _ => lazymatch H with Hpc => fail | _ => rewrite Hpc in H end
  end;
  simpl in *.

Section reduce_steps.
Context (w0 : World) (ids : list Z) (Hlen : Z.of_nat (length ids) < 2 ^ 31).

Lemma reduce_count_bound c : reduce_inv w0 ids c → rnrpcs c ≤ Z.of_nat (length ids).
Proof.
  intros []. rewrite <-ri_tokens0, !length_app, !length_fmap, ri_count0.
  unfold is_erased, reduce_at, rpending in *.
  destruct (rpc c); simpl; try lia.
  destruct ri_at0 as (_ & _ & Hq). destruct (rjob_q c); [done|]. simpl. lia.
Qed.

Lemma reduce_count_size c : reduce_inv w0 ids c → to_size (rnrpcs c) = rnrpcs c.
Proof.
  intros Hi. pose proof (reduce_count_bound c Hi). pose proof (ri_lower _ _ _ Hi).
  apply to_size_id. unfold is_size. lia.
Qed.

Lemma too_many_spec c :
  reduce_inv w0 ids c → rpc c = RDispatch →
  too_many c ↔ (length (m_Clients (rmaster c)) < length (rcq c))%nat.
Proof.
  intros Hi Hpc. unfold too_many. rewrite reduce_count_size by done.
  pose proof (reduce_count_bound c Hi). pose proof (ri_count _ _ _ Hi) as Hc.
  rewrite Hpc in Hc. simpl in Hc. rewrite to_size_id by (unfold is_size; lia). lia.
Qed.

(** An update of the clients and of [g_ready] alone, the dispatcher moving
    between two states that say nothing more. *)
Definition rplain (pc : reduce_pc) : Prop :=
  match pc with RDispatch | RWait | RAwait | RThrown _ => True | _ => False end.

Lemma reduce_inv_frame c w pc :
  reduce_inv w0 ids c → master w = rmaster c →
  (∀ p, is_Some (heap (rw c) !! p) → is_Some (heap w !! p)) →
  (pc = rpc c ∨ rplain pc ∧ rplain (rpc c)) →
  reduce_inv w0 ids (c <| rw := w |> <| rpc := pc |>).
Proof.
  intros [] Hm Hh [->|[Hpc Hpc']].
  - split; reduce_inv_simpl; by rewrite Hm.
  - destruct (rpc c) eqn:Hc; try done; reduce_inv_at Hc; destruct pc; try done;
      (split; reduce_inv_simpl; rewrite ?Hm; auto; try lia).
Qed.

Lemma start_reduce_call_inv c jobid q blobs p :
  reduce_inv w0 ids c → rpc c = RDispatch → rjob_q c = jobid :: q →
  reduce_blobs (m_IntblobList (rmaster c)) jobid = Ret blobs →
  p ∈ m_Clients (rmaster c) → reduce_inv w0 ids (start_reduce_call c jobid blobs p).
Proof.
  intros [] Hpc Hq Hb Hp. unfold start_reduce_call.
  pose proof ri_params0 as Hps. unfold job_params in Hps. injection Hps as Hs Hm Hr Hid Hw Hc.
  destruct (ri_clients0 p) as [cl Hcl]; [by rewrite <-Hc|]. rewrite Hcl.
  cbn [invokeReduceTaskAsync]. reduce_inv_at Hpc. split; reduce_inv_simpl.
  - revert ri_tokens0. rewrite Hq, fmap_app. simpl. intros. perm_solve.
  - rewrite ri_count0, length_app. simpl. lia.
  - intros call [Hcall| ->%list_elem_of_singleton]%elem_of_app; [by apply ri_calls0|].
    exists blobs. simpl. rewrite <-ri_blobs0, Hb, ri_container0, Hid. done.
  - intros p' Hp'. destruct (decide (p' = p)) as [->|]; simplify_map_eq; eauto.
  - intros _. left. intros [? ?]%app_eq_nil. done.
Qed.

Lemma count_reduce_call_inv c :
  reduce_inv w0 ids c → rpc c = RStarted → reduce_inv w0 ids (count_reduce_call c).
Proof.
  intros [] Hpc. unfold count_reduce_call.
  destruct (task_assigned_check_fail _) as [m' parked] eqn:Hf.
  pose proof (task_assigned_check_fail_data _ _ _ Hf) as [Hct Hout].
  apply task_assigned_check_fail_spec in Hf as (Hjp & Hres & Hbl & _ & Hpt & Hpf).
  reduce_inv_at Hpc.
  destruct parked; split; reduce_inv_simpl; rewrite ?Hjp, ?Hbl, ?Hct, ?Hout; auto.
Qed.

Lemma process_reduce_response_inv c pos res :
  reduce_inv w0 ids c → rpc c = RProcess pos → rresponses c !! pos = Some res →
  reduce_inv w0 ids (process_reduce_response c pos res).
Proof.
  intros [] Hpc Hr. pose proof (delete_Permutation _ _ _ Hr) as Hdel.
  pose proof (lookup_lt_Some _ _ _ Hr) as Hlt. reduce_inv_at Hpc.
  destruct ri_at0 as [Hcq Hall]. unfold process_reduce_response.
  destruct (decide (r_status res = SUCCESS)) as [Hs|Hs]; split; reduce_inv_simpl.
  - split; [done|]. rewrite (take_S_r _ _ _ Hr). apply Forall_app. split; [done|].
    by apply Forall_singleton.
  - pose proof (fmap_Permutation r_jobid _ _ Hdel) as Hd. rewrite fmap_cons in Hd. perm_solve.
  - rewrite ri_count0, length_delete by eauto. lia.
  - split; [done|]. split; [|by intros [? ?]%app_eq_nil].
    rewrite delete_take_drop, take_app_length' by (rewrite length_take; lia). done.
  - intros _. right. by intros [? ?]%app_eq_nil.
Qed.

Lemma count_reduce_response_inv c pos :
  reduce_inv w0 ids c → rpc c = RErased pos →
  reduce_inv w0 ids (c <| rnrpcs := rnrpcs c - 1 |> <| rpc := RProcess pos |>).
Proof.
  intros [] Hpc. reduce_inv_at Hpc. destruct ri_at0 as (? & ? & ?). split; reduce_inv_simpl.
Qed.

Lemma check_reduce_done_inv c pos :
  reduce_inv w0 ids c → rpc c = RProcess pos → rresponses c !! pos = None →
  reduce_inv w0 ids (check_reduce_done c).
Proof.
  intros [] Hpc Hr%lookup_ge_None. reduce_inv_at Hpc. destruct ri_at0 as [Hcq Hall].
  rewrite take_ge in Hall by done. unfold check_reduce_done.
  destruct (rjob_q c) as [|j q] eqn:Hq; split; reduce_inv_simpl; rewrite ?Hq; auto; try lia.
  rewrite ri_output0 by done. done.
Qed.

Lemma complete_reduce_call_inv c pos call res :
  reduce_inv w0 ids c → rcpc c = RNext → rcq c !! pos = Some call →
  reduce_inv w0 ids (complete_reduce_call (c <| rcq := delete pos (rcq c) |>) call res).
Proof.
  intros [] Hcpc Hpos. pose proof (delete_Permutation _ _ _ Hpos) as Hdel.
  assert (length (rcq c) = S (length (delete pos (rcq c)))) as Hl by by rewrite Hdel at 1.
  assert (∃ r st, r_jobid r = rc_jobid call ∧
    complete_reduce_call (c <| rcq := delete pos (rcq c) |>) call res
    = c <| rcq := delete pos (rcq c) |>
        <| rw := (rw c) <| heap := alter (setStatus st) (rc_client call) (heap (rw c)) |> |>
        <| rresponses := rresponses c ++ [r] |> <| rcpc := RTop |>) as (r & st & Hr & ->)
    by (destruct res; by repeat eexists).
  assert (∀ P : Prop, rcq c = [] → P) as Hne by (intros P Hn; rewrite Hn in Hpos; done).
  split; reduce_inv_simpl.
  - rewrite fmap_app. simpl. rewrite Hr.
    pose proof (fmap_Permutation rc_jobid _ _ Hdel) as Hd. rewrite fmap_cons in Hd. perm_solve.
  - rewrite ri_count0, length_app, Hl. simpl. lia.
  - intros call' Hc. apply ri_calls0. rewrite Hdel. by apply list_elem_of_further.
  - intros p Hp. rewrite lookup_alter_is_Some. auto.
  - destruct (rpc c); try done; destruct ri_at0 as [Hn _]; by apply Hne.
Qed.

Lemma reduce_inv_rcpc c pc :
  reduce_inv w0 ids c → (pc = RNext → rcq c ≠ [] ∨ rpending c ≠ []) →
  reduce_inv w0 ids (c <| rcpc := pc |>).
Proof. intros [] Hpc. split; reduce_inv_simpl. Qed.

Lemma reduce_step_inv c c' : reduce_inv w0 ids c → reduce_step c c' → reduce_inv w0 ids c'.
Proof.
  intros Hi [j q bl p Hpc Hq Hn Hb Hp|j q e Hpc Hq Hn Hb|Hpc|j q bl Hpc Hq Hn Hb Hp|Hpc Hr|Hpc Hq
      |Hpc Hr|pos res Hpc Hr|pos Hpc|pos Hpc Hr|Hpc Hd Hn|Hpc Hd|pos call res Hpc Hpos| |ev|]%reduce_step_rule.
  - apply findMinReqHealthyClient_Some in Hp as [Hp _]. by eapply start_reduce_call_inv.
  - apply (reduce_inv_frame c (rw c) (RThrown e)); auto. right. by rewrite Hpc.
  - by apply count_reduce_call_inv.
  - apply reduce_inv_frame; auto. right. by rewrite Hpc.
  - apply (reduce_inv_frame c (rw c) RDispatch); auto. right. by rewrite Hpc.
  - apply (reduce_inv_frame c (rw c) RAwait); auto. right. by rewrite Hpc.
  - rewrite reduce_count_size in Hr by done. destruct Hi. rewrite ri_count0 in Hr.
    reduce_inv_at Hpc. assert (rcq c = []) as Hcq by (apply nil_length_inv; lia).
    split; reduce_inv_simpl. split; [done|]. by apply Forall_nil.
  - by apply process_reduce_response_inv.
  - by apply count_reduce_response_inv.
  - by eapply check_reduce_done_inv.
  - apply reduce_inv_rcpc; [done|]. intros _. rewrite reduce_count_size in Hn by done.
    destruct Hi. rewrite ri_count0 in Hn. destruct (rcq c); [|by left].
    right. unfold reduce_at, rpending, is_erased in *. destruct (rpc c); simpl in Hn; try lia.
    naive_solver.
  - by apply reduce_inv_rcpc.
  - by apply complete_reduce_call_inv.
  - apply (reduce_inv_frame c (ping_start (rw c)) (rpc c)); auto.
    intros p. by rewrite ping_start_heap.
  - apply (reduce_inv_frame c _ (rpc c)); auto.
    intros p. simpl. by rewrite complete_ping_heap.
  - by apply (reduce_inv_frame c _ (rpc c)); auto.
Qed.

Lemma reduce_inv_rtc c c' : reduce_inv w0 ids c → rtc reduce_step c c' → reduce_inv w0 ids c'.
Proof. apply rtc_invariant. exact reduce_step_inv. Qed.

End reduce_steps.

Lemma reduce_start_inv w q :
  (∀ p, p ∈ m_Clients (master w) → is_Some (heap w !! p)) →
  reduce_inv w q (dispatchReduceTasks_start w q).
Proof.
  intros Hcl. split; reduce_inv_simpl; [by rewrite app_nil_r|intros ? Hc; by apply elem_of_nil in Hc].
Qed.

Lemma reduce_run_rtc tr c c' : reduce_run tr c = Some c' → rtc reduce_step c c'.
Proof.
  revert c. induction tr as [|a tr IH]; intros c; simpl; [by intros [= <-]|].
  destruct (reduce_exec a c) as [c1|] eqn:Ha; [|done]. intros H. eapply rtc_l; [by exists a|].
  by apply IH.
Qed.

(** ** The phase is a task pool *)

Lemma responses_split l :
  r_jobid <$> l ≡ₚ (r_jobid <$> r_failed l) ++ (r_jobid <$> r_succeeded l).
Proof.
  rewrite <-fmap_app. apply fmap_Permutation. rewrite (Permutation_app_comm (r_failed l)).
  symmetry. apply (filter_app_complement (λ r, r_status r = SUCCESS)).
Qed.

Lemma reduce_partition w0 ids c :
  reduce_inv w0 ids c →
  reduce_waiting c ++ (r_jobid <$> r_succeeded (rresponses c)) ≡ₚ ids.
Proof.
  intros Hi. rewrite <-(ri_tokens _ _ _ Hi). unfold reduce_waiting.
  rewrite (responses_split (rresponses c)). by rewrite <-!app_assoc.
Qed.

Lemma reduce_results_keys w0 ids c :
  NoDup ids → reduce_inv w0 ids c →
  NoDup ((λ r, (r_jobid r, r)) <$> r_succeeded (rresponses c)).*1 ∧
  (map_to_list (reduce_results c)).*1 ≡ₚ r_jobid <$> r_succeeded (rresponses c).
Proof.
  intros Hids Hi. pose proof (reduce_partition _ _ _ Hi) as Hp.
  assert (((λ r, (r_jobid r, r)) <$> r_succeeded (rresponses c)).*1
    = r_jobid <$> r_succeeded (rresponses c)) as Hk by (by rewrite <-list_fmap_compose).
  assert (NoDup (reduce_waiting c ++ (r_jobid <$> r_succeeded (rresponses c)))) as Hnd
    by (by rewrite Hp).
  apply NoDup_app in Hnd as (_ & _ & Hnd). rewrite <-Hk in Hnd. split; [done|].
  unfold reduce_results. rewrite map_to_list_to_map by done. by rewrite Hk.
Qed.

Lemma lookup_reduce_results w0 ids c r :
  NoDup ids → reduce_inv w0 ids c → r ∈ rresponses c → r_status r = SUCCESS →
  reduce_results c !! r_jobid r = Some r.
Proof.
  intros Hids Hi Hr Hs. destruct (reduce_results_keys w0 ids c Hids Hi) as [Hnd _].
  unfold reduce_results. apply elem_of_list_to_map; [done|].
  apply list_elem_of_fmap. exists r. split; [done|]. by apply list_elem_of_filter.
Qed.

Lemma reduce_results_Some c i r :
  reduce_results c !! i = Some r → r ∈ rresponses c ∧ r_status r = SUCCESS ∧ r_jobid r = i.
Proof.
  unfold reduce_results. intros H%elem_of_list_to_map_2.
  apply list_elem_of_fmap in H as (r' & [= -> ->] & [? ?]%list_elem_of_filter). done.
Qed.

Lemma r_succeeded_app l k : r_succeeded (l ++ k) = r_succeeded l ++ r_succeeded k.
Proof. apply filter_app. Qed.

Lemma r_succeeded_delete l pos r :
  l !! pos = Some r → r_status r ≠ SUCCESS → r_succeeded (delete pos l) = r_succeeded l.
Proof.
  intros Hr Hs. rewrite <-(take_drop_middle l pos r Hr) at 2.
  rewrite delete_take_drop, !r_succeeded_app. f_equal. unfold r_succeeded.
  by rewrite filter_cons_False.
Qed.

Lemma reduce_step_results w0 ids c c' :
  NoDup ids → Z.of_nat (length ids) < 2 ^ 31 → reduce_inv w0 ids c → reduce_step c c' →
  reduce_results c' = reduce_results c ∨
  settles ids (reduce_results c) (reduce_results c').
Proof.
  intros Hids Hlen Hi Hs. pose proof (reduce_step_inv w0 ids Hlen c c' Hi Hs) as Hi'. revert Hi'.
  apply reduce_step_rule in Hs.
  destruct Hs as [j q bl p Hpc Hq Hn Hb Hp|j q e Hpc Hq Hn Hb|Hpc|j q bl Hpc Hq Hn Hb Hp|Hpc Hr|Hpc Hq
    |Hpc Hr|pos res Hpc Hr|pos Hpc|pos Hpc Hr|Hpc Hd Hn|Hpc Hd|pos call res Hpc Hpos| |ev|];
    intros Hi'; try (by left).
  - left. unfold start_reduce_call. by destruct (heap _ !! _).
  - left. unfold count_reduce_call. by destruct (task_assigned_check_fail _) as [m' []].
  - left. unfold process_reduce_response. destruct (decide _) as [|Hs]; [done|].
    unfold reduce_results. simpl. by erewrite r_succeeded_delete.
  - left. unfold check_reduce_done. by destruct (rjob_q c).
  - destruct res as [reply|code].
    + right. set (r := reduce_success call reply).
      set (L := (λ r, (r_jobid r, r)) <$> r_succeeded (rresponses c)).
      assert ((λ r, (r_jobid r, r)) <$> r_succeeded (rresponses c ++ [r]) = L ++ [(r_jobid r, r)])
        as Heq by (by rewrite r_succeeded_app, fmap_app).
      destruct (reduce_results_keys w0 ids _ Hids Hi') as [Hnd _].
      change (NoDup ((λ r, (r_jobid r, r)) <$> r_succeeded (rresponses c ++ [r])).*1) in Hnd.
      rewrite Heq, fmap_app in Hnd. apply NoDup_app in Hnd as (_ & Hdisj & _).
      assert (r_jobid r ∉ L.*1) as Hfresh.
      { intros Hin. apply (Hdisj _ Hin). by apply list_elem_of_singleton. }
      apply (settles_one _ _ _ (r_jobid r) r).
      * rewrite <-(reduce_partition _ _ _ Hi). unfold reduce_waiting. rewrite !elem_of_app.
        left. right. left. apply list_elem_of_fmap. exists call. split; [done|].
        by eapply list_elem_of_lookup_2.
      * by apply not_elem_of_list_to_map_1.
      * change (list_to_map ((λ r, (r_jobid r, r)) <$> r_succeeded (rresponses c ++ [r]))
          = <[r_jobid r := r]> (list_to_map L : gmap Z ReduceResult)).
        rewrite Heq. by apply list_to_map_snoc.
    + left. unfold reduce_results, complete_reduce_call. simpl. rewrite r_succeeded_app.
      unfold r_succeeded at 2. rewrite filter_cons_False, filter_nil, app_nil_r; [done|].
      simpl. by destruct (decide (code = 4)).
Qed.

#[export] Program Instance reduce_phase : TaskPhase RedConf ReduceResult := {|
  tp_step := reduce_step;
  tp_inv ids c := Z.of_nat (length ids) < 2 ^ 31 ∧ NoDup ids ∧ ∃ w0, reduce_inv w0 ids c;
  tp_waiting := reduce_waiting;
  tp_results := reduce_results
|}.
Next Obligation.
  intros ids c c' _ (Hl & Hids & w0 & Hi) Hs. split; [done|]. split; [done|]. exists w0.
  by eapply reduce_step_inv.
Qed.
Next Obligation.
  intros ids c (Hl & Hids & w0 & Hi). destruct (reduce_results_keys w0 ids c Hids Hi) as [_ ->].
  by eapply reduce_partition.
Qed.
Next Obligation. intros ids c c' _ (Hl & Hids & w0 & Hi) Hs. by eapply reduce_step_results. Qed.


(** ** Which blobs a reducer gets *)

(** The reducer a blob belongs to by its name. *)
Definition reducer_of (b : string) : option Z :=
  match stol (after_last "_" b) with Ret r => Some (to_int32 r) | _ => None end.

Definition reducer_blobs (l : list string) (j : Z) : list string :=
  filter (λ b, reducer_of b = Some j) l.

Lemma reduce_blobs_spec l j :
  Forall (λ b, is_Some (reducer_of b)) l → reduce_blobs l j = Ret (reducer_blobs l j).
Proof.
  induction 1 as [|b l [k Hk] _ IH]; [done|]. cbn [reduce_blobs]. unfold reducer_blobs.
  rewrite filter_cons, Hk. unfold reducer_of in Hk.
  destruct (stol (after_last "_" b)) as [r| | |] eqn:Hs; simplify_eq/=. rewrite IH. cbn [obind].
  f_equal. unfold reducer_blobs. destruct (decide (to_int32 r = j)) as [<-|Hne].
  - by rewrite decide_True.
  - rewrite decide_False; [done|]. naive_solver.
Qed.

Lemma reduce_blobs_bad l b j :
  b ∈ l → reducer_of b = None → ∃ e, reduce_blobs l j = Raise e.
Proof.
  induction l as [|a l IH]; [by intros ?%elem_of_nil|]. intros Hb Hn.
  assert (∀ s, match stol s with Undef | Parked => False | _ => True end) as Hstol.
  { intros s. unfold stol. destruct (read_number s); [by destruct (decide _)|done]. }
  cbn [reduce_blobs]. specialize (Hstol (after_last "_" a)).
  destruct (stol (after_last "_" a)) as [r|e| |] eqn:Hs; try done; cbn [obind]; [|by exists e].
  apply elem_of_cons in Hb as [->|Hb].
  - unfold reducer_of in Hn. by rewrite Hs in Hn.
  - destruct (IH Hb Hn) as [e ->]. by exists e.
Qed.

(** ** The result map *)

Lemma output_results_other l out i :
  i ∉ r_jobid <$> l → output_results l out !! i = out !! i.
Proof.
  revert out. induction l as [|r l IH]; intros out; [done|].
  rewrite fmap_cons, not_elem_of_cons. intros [Hi Hl]. simpl.
  change (output_results l (if decide (r_status r = SUCCESS)
    then emplace (r_jobid r) (r_cname r) out else out) !! i = out !! i).
  rewrite IH by done. destruct (decide _); [|done]. by apply lookup_emplace_ne.
Qed.

Lemma output_results_in l out r :
  NoDup (r_jobid <$> l) → all_success l → r ∈ l → out !! r_jobid r = None →
  output_results l out !! r_jobid r = Some (r_cname r).
Proof.
  revert out. induction l as [|a l IH]; intros out; [by intros _ _ ?%elem_of_nil|].
  rewrite fmap_cons, NoDup_cons. intros [Ha Hnd] [Hs Hall]%Forall_cons Hr Hout. simpl.
  change (output_results l (if decide (r_status a = SUCCESS)
    then emplace (r_jobid a) (r_cname a) out else out) !! r_jobid r = Some (r_cname r)).
  rewrite decide_True by done. apply elem_of_cons in Hr as [->|Hr].
  - rewrite output_results_other by done. by rewrite lookup_emplace_eq, Hout.
  - apply IH; try done. rewrite lookup_emplace_ne; [done|].
    intros Heq. apply Ha. rewrite Heq. apply list_elem_of_fmap. eauto.
Qed.

(** ** Progress *)

Record reduce_live (w0 : World) (ids : list Z) (c : RedConf) : Prop := {
  rl_inv : reduce_inv w0 ids c;
  rl_running : match rpc c with RParked | RThrown _ => False | _ => True end;
  rl_exit : rcpc c = RExit → rpc c = RReturn
}.

Definition rresponse_weight (n : nat) (r : ReduceResult) : nat :=
  if decide (r_status r = SUCCESS) then 0 else n.
Definition rpc_weight (k l : nat) (pc : reduce_pc) : nat :=
  match pc with
  | RDispatch => k + 1 | RWait | RStarted => k + 2 | RAwait => k
  | RProcess pos => l - pos | RErased pos => l - pos + 2 | _ => 0
  end.
Definition rcpc_weight (pc : rcompleter_pc) : nat := match pc with RTop => 1 | _ => 0 end.

(** [k] is more than the number of tasks. *)
Definition queue_weight (k : nat) : nat := 2 * k + 10.
Definition fail_weight (k : nat) : nat := queue_weight k + 2.
Arguments queue_weight : simpl never.
Arguments fail_weight : simpl never.
Definition reduce_measure (k : nat) (c : RedConf) : nat :=
  (queue_weight k * length (rpending c) + 3 * length (rcq c)
   + sum_list_with (rresponse_weight (fail_weight k)) (rresponses c)
   + rpc_weight k (length (rresponses c)) (rpc c) + rcpc_weight (rcpc c))%nat.

Lemma start_reduce_call_shape c j bl p :
  is_Some (heap (rw c) !! p) →
  rpc (start_reduce_call c j bl p) = RStarted ∧ rcpc (start_reduce_call c j bl p) = rcpc c ∧
  rjob_q (start_reduce_call c j bl p) = rjob_q c ∧
  rresponses (start_reduce_call c j bl p) = rresponses c ∧
  length (rcq (start_reduce_call c j bl p)) = S (length (rcq c)).
Proof.
  intros [cl Hcl]. unfold start_reduce_call. rewrite Hcl. simpl. rewrite length_app. simpl.
  split_and!; try done. lia.
Qed.

Section reduce_live.
Context (w0 : World) (ids : list Z) (Hlen : Z.of_nat (length ids) < 2 ^ 31).
Context (Hfail : m_will_fail (master w0) = false).
Context (Hclients : m_Clients (master w0) ≠ []).
Context (Hblobs : Forall (λ b, is_Some (reducer_of b)) (m_IntblobList (master w0))).

Lemma reduce_blobs_ok c j :
  reduce_inv w0 ids c →
  reduce_blobs (m_IntblobList (rmaster c)) j = Ret (reducer_blobs (m_IntblobList (rmaster c)) j).
Proof using Hblobs. intros Hi. apply reduce_blobs_spec. by rewrite (ri_blobs _ _ _ Hi). Qed.

Lemma count_reduce_call_shape c :
  reduce_inv w0 ids c →
  rpc (count_reduce_call c) = RDispatch ∧ rcpc (count_reduce_call c) = rcpc c ∧
  rjob_q (count_reduce_call c) = tail (rjob_q c) ∧ rcq (count_reduce_call c) = rcq c ∧
  rresponses (count_reduce_call c) = rresponses c.
Proof using Hfail.
  intros Hi. unfold count_reduce_call. destruct (task_assigned_check_fail _) as [m' parked] eqn:Hf.
  apply task_assigned_check_fail_spec in Hf as (Hjp & Hres & _ & _ & Hpt & _).
  pose proof (ri_params _ _ _ Hi) as Hp. unfold job_params in Hp, Hjp. simpl in *.
  destruct parked; [|done]. destruct (Hpt eq_refl) as [? _]. congruence.
Qed.

Lemma reduce_clients c p :
  reduce_inv w0 ids c → p ∈ m_Clients (rmaster c) → is_Some (heap (rw c) !! p).
Proof.
  intros Hi Hp. apply (ri_clients _ _ _ Hi). pose proof (ri_params _ _ _ Hi) as Hj.
  unfold job_params in Hj. congruence.
Qed.

Lemma reduce_live_step c c' : reduce_live w0 ids c → reduce_step c c' → reduce_live w0 ids c'.
Proof using Hlen Hfail Hblobs.
  intros [Hi Hrun Hex] Hs. pose proof (reduce_step_inv w0 ids Hlen c c' Hi Hs) as Hi'. revert Hi'.
  apply reduce_step_rule in Hs.
  destruct Hs as [j q bl p Hpc Hq Hn Hb Hp|j q e Hpc Hq Hn Hb|Hpc|j q bl Hpc Hq Hn Hb Hp|Hpc Hr|Hpc Hq
    |Hpc Hr|pos res Hpc Hr|pos Hpc|pos Hpc Hr|Hpc Hd Hn|Hpc Hd|pos call res Hpc Hpos| |ev|];
    intros Hi'; (split; [done|..]); simpl; try done; try (naive_solver congruence).
  - apply findMinReqHealthyClient_Some in Hp as [Hp _].
    by destruct (start_reduce_call_shape c j bl p (reduce_clients c p Hi Hp)) as (-> & _).
  - apply findMinReqHealthyClient_Some in Hp as [Hp _].
    destruct (start_reduce_call_shape c j bl p (reduce_clients c p Hi Hp)) as (-> & -> & _).
    intros H%Hex. congruence.
  - rewrite reduce_blobs_ok in Hb by done. done.
  - by destruct (count_reduce_call_shape c Hi) as (-> & _).
  - destruct (count_reduce_call_shape c Hi) as (-> & -> & _). intros H%Hex. congruence.
  - unfold process_reduce_response. by destruct (decide _).
  - unfold process_reduce_response. destruct (decide _); simpl; intros H%Hex; congruence.
  - unfold check_reduce_done. by destruct (rjob_q c).
  - unfold check_reduce_done. destruct (rjob_q c); simpl; [done|]. intros H%Hex; congruence.
  - intros _. rewrite (ri_done _ _ _ Hi), bool_decide_eq_true in Hd. done.
  - by destruct res.
  - by destruct res.
Qed.

Lemma reduce_live_rtc c c' : reduce_live w0 ids c → rtc reduce_step c c' → reduce_live w0 ids c'.
Proof using Hlen Hfail Hblobs. apply rtc_invariant. exact reduce_live_step. Qed.
End reduce_live.

Lemma sum_list_with_success n call reply :
  sum_list_with (rresponse_weight n) [reduce_success call reply] = 0%nat.
Proof. done. Qed.

Section reduce_progress.
Context (w0 : World) (ids : list Z) (Hlen : Z.of_nat (length ids) < 2 ^ 31).
Context (Hfail : m_will_fail (master w0) = false).
Context (Hclients : m_Clients (master w0) ≠ []).
Context (Hblobs : Forall (λ b, is_Some (reducer_of b)) (m_IntblobList (master w0))).

Local Abbreviation k := (length ids + 2)%nat.
Local Abbreviation μ := (reduce_measure k).

Lemma reduce_ping_healthy c :
  reduce_inv w0 ids c → ∃ h p, rtc reduce_step c (c <| rw := (rw c) <| heap := h |> |>) ∧
    findMinReqHealthyClient true h (m_Clients (rmaster c)) = Some p.
Proof using Hclients.
  intros Hi. pose proof (ri_params _ _ _ Hi) as Hp. unfold job_params in Hp.
  assert (m_Clients (rmaster c) = m_Clients (master w0)) as Hcl by congruence.
  destruct (m_Clients (master w0)) as [|p l] eqn:Hl; [done|].
  assert (p ∈ m_Clients (rmaster c)) as Hpin by (rewrite Hcl; apply list_elem_of_here).
  destruct (ping_ok_healthy true (heap (rw c)) (m_Clients (rmaster c)) p) as [p' Hp'];
    [done|by eapply reduce_clients|].
  exists (complete_ping (p, RpcOk tt) (heap (rw c))), p'. split; [|done].
  apply rtc_once, reduce_step_rule, rrule_ping_complete.
Qed.

(** From the head of the dispatch loop with something queued and room for it. *)
Lemma progress_reduce_dispatch c :
  reduce_live w0 ids c → rpc c = RDispatch → rjob_q c ≠ [] → ¬ too_many c →
  ∃ c', rtc reduce_step c c' ∧ (μ c' + k + 2 < μ c)%nat.
Proof using Hlen Hfail Hclients Hblobs.
  intros Hl Hpc Hq Hm. pose proof (rl_inv _ _ _ Hl) as Hi.
  destruct (rjob_q c) as [|j q] eqn:Hjq; [done|].
  destruct (reduce_ping_healthy c Hi) as (h & p & Hr & Hp).
  set (c1 := c <| rw := (rw c) <| heap := h |> |>) in *.
  pose proof (reduce_inv_rtc w0 ids Hlen _ _ Hi Hr) as Hi1.
  pose proof (findMinReqHealthyClient_Some _ _ _ _ Hp) as [Hpin _].
  pose proof (reduce_blobs_ok w0 ids Hblobs c1 j Hi1) as Hb.
  set (bl := reducer_blobs (m_IntblobList (rmaster c1)) j) in *.
  exists (start_reduce_call c1 j bl p). split.
  { eapply rtc_r; [exact Hr|]. apply reduce_step_rule. by eapply rrule_dispatch. }
  destruct (start_reduce_call_shape c1 j bl p (reduce_clients w0 ids c1 p Hi1 Hpin))
    as (H1 & H2 & H3 & H4 & H5).
  unfold reduce_measure, rpending. rewrite H1, H2, H3, H4, H5, Hpc. unfold c1. simpl.
  rewrite Hjq. simpl. unfold queue_weight. lia.
Qed.

Lemma progress_reduce_await c :
  reduce_live w0 ids c → rpc c = RAwait → ∃ c', rtc reduce_step c c' ∧ (μ c' < μ c)%nat.
Proof using Hlen.
  intros Hl Hpc. pose proof (rl_inv _ _ _ Hl) as Hi.
  pose proof (ri_count _ _ _ Hi) as Hc. rewrite Hpc in Hc. simpl in Hc.
  pose proof (reduce_count_size w0 ids Hlen c Hi) as Hsz.
  pose proof (reduce_count_bound w0 ids c Hi) as Hb.
  destruct (rcq c) as [|call l] eqn:Hcq.
  { exists (c <| rpc := RProcess 0 |>). split.
    - apply rtc_once, reduce_step_rule, rrule_await; [done|]. rewrite Hsz, Hc. simpl. lia.
    - unfold reduce_measure, rpending. simpl. rewrite Hpc. simpl in *. lia. }
  destruct (rcpc c) eqn:Hcpc.
  - exists (c <| rcpc := RNext |>). split.
    + apply rtc_once, reduce_step_rule, rrule_enter; [done|by rewrite (ri_done _ _ _ Hi), Hpc|].
      rewrite Hsz, Hc. simpl. lia.
    + unfold reduce_measure, rpending. simpl. rewrite Hcpc, Hpc. simpl. lia.
  - exists (complete_reduce_call (c <| rcq := delete 0%nat (rcq c) |>) call
      (RpcOk (mkFinalResult "" ""))). split.
    + apply rtc_once, reduce_step_rule, rrule_complete; [done|by rewrite Hcq].
    + unfold reduce_measure, rpending. simpl. rewrite Hcq, Hcpc, Hpc. simpl.
      rewrite sum_list_with_app, sum_list_with_success. lia.
  - pose proof (rl_exit _ _ _ Hl Hcpc). congruence.
Qed.

Lemma progress_reduce_process c pos :
  reduce_live w0 ids c → rpc c = RProcess pos →
  (∃ c', rtc reduce_step c c' ∧ rpc c' = RReturn) ∨ ∃ c', rtc reduce_step c c' ∧ (μ c' < μ c)%nat.
Proof using Hlen Hfail Hclients Hblobs.
  intros Hl Hpc. pose proof (rl_inv _ _ _ Hl) as Hi.
  destruct (rresponses c !! pos) as [res|] eqn:Hr.
  - right. exists (process_reduce_response c pos res).
    split; [by apply rtc_once, reduce_step_rule, rrule_process|].
    pose proof (lookup_lt_Some _ _ _ Hr) as Hlt.
    unfold reduce_measure, rpending, process_reduce_response. rewrite Hpc.
    destruct (decide (r_status res = SUCCESS)) as [Hs|Hs]; simpl; [lia|].
    rewrite length_app, length_delete by eauto.
    assert (sum_list_with (rresponse_weight (fail_weight k)) (rresponses c)
      = rresponse_weight (fail_weight k) res
        + sum_list_with (rresponse_weight (fail_weight k)) (delete pos (rresponses c)))%nat as ->
      by (rewrite (delete_Permutation _ _ _ Hr) at 1; done).
    unfold rresponse_weight at 2. rewrite decide_False by done. rewrite Nat.mul_add_distr_l.
    assert (fail_weight k = queue_weight k + 2)%nat by done. simpl. lia.
  - destruct (rjob_q c) as [|j q] eqn:Hq; [left|right].
    { exists (check_reduce_done c). split; [by eapply rtc_once, reduce_step_rule, rrule_check|].
      unfold check_reduce_done. by rewrite Hq. }
    set (c1 := c <| rpc := RDispatch |>).
    assert (reduce_step c c1) as Hs1.
    { apply reduce_step_rule. replace c1 with (check_reduce_done c)
        by (unfold check_reduce_done; by rewrite Hq). by eapply rrule_check. }
    pose proof (reduce_live_step w0 ids Hlen Hfail Hblobs _ _ Hl Hs1) as Hl1.
    pose proof (ri_at _ _ _ Hi) as Hat. unfold reduce_at in Hat. rewrite Hpc in Hat.
    destruct (progress_reduce_dispatch c1 Hl1 eq_refl) as (c2 & Hr2 & Hm).
    + simpl. by rewrite Hq.
    + rewrite (too_many_spec w0 ids Hlen c1 (rl_inv _ _ _ Hl1) eq_refl). simpl.
      destruct Hat as [-> _]. simpl. lia.
    + exists c2. split; [by eapply rtc_l|]. apply lookup_ge_None in Hr.
      assert (μ c1 = μ c + k + 1)%nat; [|lia].
      unfold reduce_measure, rpending, c1. simpl. rewrite Hpc. simpl. lia.
Qed.

Lemma reduce_progress c :
  reduce_live w0 ids c →
  (∃ c', rtc reduce_step c c' ∧ rpc c' = RReturn) ∨
  ∃ c', rtc reduce_step c c' ∧ reduce_live w0 ids c' ∧ (μ c' < μ c)%nat.
Proof using Hlen Hfail Hclients Hblobs.
  intros Hl. pose proof (rl_inv _ _ _ Hl) as Hi.
  assert ((∃ c', rtc reduce_step c c' ∧ rpc c' = RReturn) ∨
    ∃ c', rtc reduce_step c c' ∧ (μ c' < μ c)%nat) as [?|(c' & Hr & Hm)]; [|by left|].
  2:{ right. exists c'. split; [done|]. split; [|done].
      exact (reduce_live_rtc w0 ids Hlen Hfail Hblobs c c' Hl Hr). }
  destruct (rpc c) eqn:Hpc.
  - right. destruct (decide (rjob_q c = [] ∨ too_many c)) as [Hd|[Hq Hm]%Decidable.not_or].
    + exists (c <| rpc := RAwait |>). split; [by apply rtc_once, reduce_step_rule, rrule_dispatched|].
      unfold reduce_measure, rpending. simpl. rewrite Hpc. simpl. lia.
    + destruct (progress_reduce_dispatch c Hl Hpc Hq Hm) as (c' & ? & ?). exists c'.
      split; [done|lia].
  - right. exists (count_reduce_call c). split; [by apply rtc_once, reduce_step_rule, rrule_started|].
    destruct (count_reduce_call_shape w0 ids Hfail c Hi) as (H1 & H2 & H3 & H4 & H5).
    unfold reduce_measure, rpending. rewrite H1, H2, H3, H4, H5, Hpc. simpl. lia.
  - right. exists (c <| rw := (rw c) <| g_ready := true |> |> <| rpc := RDispatch |>). split.
    + eapply rtc_l; [|apply rtc_once]; apply reduce_step_rule; [apply rrule_ping_end|].
      by apply (rrule_wake (c <| rw := (rw c) <| g_ready := true |> |>)).
    + unfold reduce_measure, rpending. simpl. rewrite Hpc. simpl. lia.
  - right. by apply progress_reduce_await.
  - by eapply progress_reduce_process.
  - right. eexists. split; [by eapply rtc_once, reduce_step_rule, rrule_count|].
    unfold reduce_measure, rpending. simpl. rewrite Hpc. simpl. lia.
  - left. by exists c.
  - pose proof (rl_running _ _ _ Hl) as H. by rewrite Hpc in H.
  - pose proof (ri_at _ _ _ (rl_inv _ _ _ Hl)) as H. unfold reduce_at in H. by rewrite Hpc in H.
  - pose proof (rl_running _ _ _ Hl) as H. by rewrite Hpc in H.
Qed.

End reduce_progress.

(** ** Lemmas for the entry point *)

Lemma reducer_ids_NoDup m : NoDup (reducer_ids m).
Proof. apply NoDup_fmap_2; [apply _|apply NoDup_seq]. Qed.

Lemma elem_of_reducer_ids m j : j ∈ reducer_ids m ↔ 0 ≤ j < m_nreducers m.
Proof.
  unfold reducer_ids. rewrite list_elem_of_fmap. setoid_rewrite elem_of_seq. split.
  - intros (n & -> & ?). lia.
  - intros ?. exists (Z.to_nat j). lia.
Qed.

Lemma reducer_ids_length m :
  is_int32 (m_nreducers m) → Z.of_nat (length (reducer_ids m)) < 2 ^ 31.
Proof. unfold is_int32, reducer_ids. rewrite length_fmap, length_seq. lia. Qed.

(** What [runReducer] starts from: the client pointers are valid, the number of
    reducers is an [int]. *)
Record reduce_ready (w : World) : Prop := {
  rr_clients : ∀ p, p ∈ m_Clients (master w) → is_Some (heap w !! p);
  rr_int : is_int32 (m_nreducers (master w))
}.

Lemma runReducer_inv w c :
  reduce_ready w → rtc reduce_step (runReducer_start w) c →
  reduce_inv w (reducer_ids (master w)) c.
Proof.
  intros [Hcl Hn]. apply reduce_inv_rtc; [by apply reducer_ids_length|by apply reduce_start_inv].
Qed.

Lemma runReducer_pool w c :
  reduce_ready w → rtc reduce_step (runReducer_start w) c →
  tp_inv (C:=RedConf) (reducer_ids (master w)) c.
Proof.
  intros Hw Hr. split; [by apply reducer_ids_length, rr_int|].
  split; [apply reducer_ids_NoDup|]. exists w. by apply runReducer_inv.
Qed.

Lemma reduce_return_step c c' : reduce_step c c' → rpc c = RReturn → rpc c' = RReturn.
Proof.
  intros [j q bl p Hpc Hq Hn Hb Hp|j q e Hpc Hq Hn Hb|Hpc|j q bl Hpc Hq Hn Hb Hp|Hpc Hr|Hpc Hq
    |Hpc Hr|pos res Hpc Hr|pos Hpc|pos Hpc Hr|Hpc Hd Hn|Hpc Hd|pos call res Hpc Hpos| |ev|]%reduce_step_rule
    Hret; try congruence; try done. by destruct res.
Qed.

Lemma reduce_return_rtc c c' : rtc reduce_step c c' → rpc c = RReturn → rpc c' = RReturn.
Proof. intros Hr. induction Hr; [done|]. intros. eauto using reduce_return_step. Qed.

Lemma reduce_return_next w0 ids c :
  reduce_inv w0 ids c → rpc c = RReturn → rcpc c ≠ RNext.
Proof.
  intros Hi Hpc Hn. pose proof (ri_at _ _ _ Hi) as Hat. unfold reduce_at in Hat. rewrite Hpc in Hat.
  destruct Hat as (Hcq & _ & Hq & _). destruct (ri_next _ _ _ Hi Hn) as [?|Hp]; [done|].
  unfold rpending in Hp. by rewrite Hpc, Hq in Hp.
Qed.

(** The dispatcher before its first dispatch, or left by an exception. *)
Definition reduce_blocked (q : list Z) (l : list string) (n : nat) (c : RedConf) : Prop :=
  (rpc c = RDispatch ∨ ∃ e, rpc c = RThrown e) ∧ rjob_q c = q ∧ rnrpcs c = 0 ∧
  rresponses c = [] ∧ rcq c = [] ∧ rcpc c = RTop ∧ rdone c = false ∧
  m_IntblobList (rmaster c) = l ∧ length (m_Clients (rmaster c)) = n.

Lemma reduce_blocked_step q l n b c c' :
  q ≠ [] → b ∈ l → reducer_of b = None →
  reduce_blocked q l n c → reduce_step c c' → reduce_blocked q l n c'.
Proof.
  intros Hqne Hbl Hb (Hpc0 & Hq & Hz & Hl & Hcq & Hcp & Hd0 & Hil & Hn0) Hs.
  assert (∀ j bl, reduce_blobs (m_IntblobList (rmaster c)) j ≠ Ret bl) as Hbad.
  { intros j bl Hbs. rewrite Hil in Hbs. destruct (reduce_blobs_bad l b j Hbl Hb) as [e He].
    congruence. }
  assert (¬ too_many c) as Hm.
  { unfold too_many. rewrite Hz, Hl.
    replace (to_size (to_size 0 - Z.of_nat (length (@nil ReduceResult)))) with 0 by reflexivity. lia. }
  apply reduce_step_rule in Hs.
  destruct Hs as [j q' bl p Hpc Hq' Hn Hb' Hp|j q' e Hpc Hq' Hn Hb'|Hpc|j q' bl Hpc Hq' Hn Hb' Hp|Hpc Hr|Hpc Hq'
    |Hpc Hr|pos res Hpc Hr|pos Hpc|pos Hpc Hr|Hpc Hd Hn|Hpc Hd|pos call res Hpc Hpos| |ev|];
    try (by destruct (Hbad _ _ Hb')); try (destruct Hpc0 as [?|[? ?]]; congruence); try done.
  - unfold reduce_blocked. simpl. naive_solver.
  - destruct Hq' as [Hq'|]; [congruence|done].
  - rewrite Hl, Hz in Hn. done.
Qed.

(** ** Properties *)

(** every intermediate blob goes to exactly one reducer: when the names end
    in reducer numbers, reducer [j] is given the blobs numbered [j], in the
    order of the list, and the lists of all reducers together are the list. *)
Theorem reduce_blobs_partition l n :
  Forall (λ b, ∃ k, reducer_of b = Some k ∧ 0 ≤ k < Z.of_nat n) l →
  (∀ j, reduce_blobs l j = Ret (reducer_blobs l j)) ∧
  (Z.of_nat <$> seq 0 n) ≫= reducer_blobs l ≡ₚ l.
Proof.
  intros Hl. split.
  { intros j. apply reduce_blobs_spec. eapply Forall_impl; [exact Hl|]. intros b (k & -> & _). done. }
  apply (partition_perm reducer_of l n Hl).
Qed.

(** C5: no reduce task is lost or done twice: in every reachable state each
    reducer is either waiting (queued, in flight or failed and not yet queued
    again) or has exactly one successful response in the list. *)
Theorem reduce_tasks_exactly_once w c j :
  reduce_ready w → rtc reduce_step (runReducer_start w) c → 0 ≤ j < m_nreducers (master w) →
  NoDup (reduce_waiting c ++ (r_jobid <$> r_succeeded (rresponses c))) ∧
  ((j ∈ reduce_waiting c ∧ reduce_results c !! j = None) ∨
   ((j ∉ reduce_waiting c) ∧ ∃ r, reduce_results c !! j = Some r ∧ r ∈ rresponses c ∧
      r_status r = SUCCESS ∧ r_jobid r = j)).
Proof.
  intros Hw Hr Hj%elem_of_reducer_ids. pose proof (runReducer_pool w c Hw Hr) as Hi.
  split.
  - rewrite (reduce_partition w (reducer_ids (master w)) c (runReducer_inv w c Hw Hr)).
    apply reducer_ids_NoDup.
  - destruct (tp_exactly_once (C:=RedConf) _ (reducer_ids_NoDup (master w)) c j Hi Hj)
      as [?|[? [r Hjr]]]; [by left|right]. split; [done|]. exists r. split; [done|].
    by apply reduce_results_Some.
Qed.

Lemma runReducer_complete_spec w c :
  reduce_ready w → rtc reduce_step (runReducer_start w) c → rpc c = RReturn →
  (∀ j, 0 ≤ j < m_nreducers (master w) → ∃ r, r ∈ rresponses c ∧ r_status r = SUCCESS ∧
     r_jobid r = j ∧ m_OutputResultMap (rmaster c) !! j = Some (r_cname r)) ∧
  (∀ j, is_Some (m_OutputResultMap (rmaster c) !! j) → 0 ≤ j < m_nreducers (master w)) ∧
  rjob_q c = [] ∧ rcq c = [].
Proof.
  intros Hw Hr Hpc. pose proof (runReducer_inv w c Hw Hr) as Hi.
  pose proof (ri_at _ _ _ Hi) as Hat. unfold reduce_at in Hat. rewrite Hpc in Hat.
  destruct Hat as (Hcq & Hall & Hq & Hout).
  pose proof (ri_tokens _ _ _ Hi) as Htok. unfold rpending in Htok. rewrite Hpc, Hq, Hcq in Htok.
  simpl in Htok. assert (NoDup (r_jobid <$> rresponses c)) as Hnd
    by (rewrite Htok; apply reducer_ids_NoDup).
  split; [|split; [|done]].
  - intros j Hj%elem_of_reducer_ids. rewrite <-Htok in Hj.
    apply list_elem_of_fmap in Hj as (r & -> & Hin). exists r. split; [done|].
    split; [by eapply (proj1 (Forall_forall _ _) Hall)|]. split; [done|].
    rewrite Hout. by apply output_results_in.
  - intros j. rewrite Hout. destruct (decide (j ∈ r_jobid <$> rresponses c)) as [Hj|Hj].
    + rewrite Htok in Hj. intros _. by apply elem_of_reducer_ids.
    + rewrite output_results_other by done. by intros [? ?].
Qed.

(** C17: when [dispatchReduceTasks] returns, every reducer has a successful
    response, [m_OutputResultMap] binds exactly the reducers, each to the [cname]
    of its response, and nothing is queued or in flight. *)
Theorem runReducer_complete w c :
  reduce_ready w → rtc reduce_step (runReducer_start w) c → rpc c = RReturn →
  (∀ j, 0 ≤ j < m_nreducers (master w) → ∃ r, r ∈ rresponses c ∧ r_status r = SUCCESS ∧
     r_jobid r = j ∧ m_OutputResultMap (rmaster c) !! j = Some (r_cname r)) ∧
  (∀ j, is_Some (m_OutputResultMap (rmaster c) !! j) → 0 ≤ j < m_nreducers (master w)) ∧
  rjob_q c = [] ∧ rcq c = [].
Proof. apply runReducer_complete_spec. Qed.

(** each reduce call in flight asks for its own reducer and carries exactly
    the blobs the loop collected for it; the request counter is the calls in
    flight plus the responses, at most the number of reducers, so that its
    unsigned comparisons are exact; and the throttle compares the calls in
    flight with the number of clients. *)
Theorem reduce_dispatch_bounded w c :
  reduce_ready w → rtc reduce_step (runReducer_start w) c →
  (∀ call, call ∈ rcq c → rcall_ok (master w) call) ∧
  0 ≤ rnrpcs c ≤ Z.max 0 (m_nreducers (master w)) ∧ to_size (rnrpcs c) = rnrpcs c ∧
  (rpc c = RDispatch →
     rnrpcs c = Z.of_nat (length (rcq c)) + Z.of_nat (length (rresponses c)) ∧
     (too_many c ↔ (length (m_Clients (rmaster c)) < length (rcq c))%nat)).
Proof.
  intros Hw Hr. pose proof (runReducer_inv w c Hw Hr) as Hi.
  pose proof (reducer_ids_length _ (rr_int w Hw)) as Hlen.
  split; [by apply ri_calls with (ids := reducer_ids (master w))|].
  split; [|split; [by eapply reduce_count_size|]].
  - pose proof (ri_lower _ _ _ Hi). pose proof (reduce_count_bound _ _ _ Hi) as Hb.
    unfold reducer_ids in Hb. rewrite length_fmap, length_seq in Hb. lia.
  - intros Hpc. split; [|by eapply too_many_spec].
    rewrite (ri_count _ _ _ Hi), Hpc. simpl. lia.
Qed.

(** C22: with failure injection off, at least one client and well-named blobs,
    the reduce phase can still finish from every state it can reach. *)
Theorem reduce_can_finish w c :
  reduce_ready w → m_will_fail (master w) = false → m_Clients (master w) ≠ [] →
  Forall (λ b, is_Some (reducer_of b)) (m_IntblobList (master w)) →
  rtc reduce_step (runReducer_start w) c → ∃ c', rtc reduce_step c c' ∧ rpc c' = RReturn.
Proof.
  intros Hw Hf Hcl Hb Hr. pose proof (reducer_ids_length _ (rr_int w Hw)) as Hlen.
  assert (reduce_live w (reducer_ids (master w)) c) as Hl.
  { eapply reduce_live_rtc; try done. split; [|done|done]. by apply reduce_start_inv, rr_clients. }
  destruct (rtc_progress reduce_step (reduce_live w (reducer_ids (master w)))
    (λ c, ∃ c', rtc reduce_step c c' ∧ rpc c' = RReturn)
    (reduce_measure (length (reducer_ids (master w)) + 2))
    (λ x Hx, reduce_progress w _ Hlen Hf Hcl Hb x Hx) c Hl) as (c1 & H1 & c2 & H2 & H3).
  exists c2. split; [by etrans|done].
Qed.

(** the completion thread of the reduce phase can always be joined: once the
    dispatcher has returned it is never in [cq.Next], whatever happens later,
    and it can end. *)
Theorem reduce_join_safe w c :
  reduce_ready w → rtc reduce_step (runReducer_start w) c → rpc c = RReturn →
  (∀ c', rtc reduce_step c c' → rcpc c' ≠ RNext) ∧
  ∃ c', rtc reduce_step c c' ∧ rcpc c' = RExit.
Proof.
  intros Hw Hr Hpc. split.
  - intros c' Hr'. eapply reduce_return_next; [|by eapply reduce_return_rtc].
    apply (runReducer_inv w c' Hw). by etrans.
  - pose proof (runReducer_inv w c Hw Hr) as Hi.
    pose proof (reduce_return_next _ _ _ Hi Hpc) as Hn. destruct (rcpc c) eqn:Hc; [|done|by exists c].
    exists (c <| rcpc := RExit |>). split; [|done]. apply rtc_once, reduce_step_rule, rrule_leave; [done|].
    by rewrite (ri_done _ _ _ Hi), Hpc.
Qed.

(** one intermediate blob whose name does not end in a number makes the
    dispatcher throw before its first call: it never returns and starts no
    call, however the threads interleave. *)
Theorem reduce_bad_blob_throws w b c :
  0 < m_nreducers (master w) → b ∈ m_IntblobList (master w) → reducer_of b = None →
  rtc reduce_step (runReducer_start w) c →
  rcq c = [] ∧ rresponses c = [] ∧ (rpc c = RDispatch ∨ ∃ e, rpc c = RThrown e).
Proof.
  intros Hn Hin Hb Hr.
  assert (reduce_blocked (reducer_ids (master w)) (m_IntblobList (master w))
    (length (m_Clients (master w))) c) as (? & _ & _ & ? & ? & _); [|done].
  refine (rtc_invariant reduce_step _ (runReducer_start w) c
    (λ x y Hx Hs, reduce_blocked_step _ _ _ b x y _ Hin Hb Hx Hs) _ Hr).
  - intros H. assert (0 ∈ reducer_ids (master w)) as H0 by (apply elem_of_reducer_ids; lia).
    rewrite H in H0. by apply elem_of_nil in H0.
  - unfold reduce_blocked, runReducer_start. simpl. auto 10.
Qed.

(** ** Concrete runs *)

(** One worker and two reducers. *)
Definition ex_reduce_world (blobs : list string) : World :=
  let w := World_new 0 in
  w <| heap := {[ 0%nat := mkMapReduceClient "10.0.0.1:50051" IDLE PING_SUCCESS 0 0 ]} |>
    <| master := (master w) <| m_Clients := [0%nat] |> <| m_nreducers := 2 |>
        <| m_IntblobList := blobs |> <| m_intcontainer := "c" |> |>.

Definition ex_blobs : list string := ["int_10.0.0.1_0"; "int_10.0.0.1_1"].

(** The reply of a worker: it names the container only. *)
Definition out_reply : rpc_result FinalResult := RpcOk (mkFinalResult "" "c").

(** Both reducers are started, one fails and is started again. *)
Definition ex_reduce_trace : list reduce_action :=
  [BDispatch; BStarted; BDispatch; BStarted; BDispatched; BEnter; BComplete 0 (RpcError 14);
   BEnter; BComplete 0 out_reply; BAwait; BProcess; BCount; BProcess; BCheck;
   BDispatch; BStarted; BDispatched; BEnter; BComplete 0 out_reply; BAwait; BProcess; BProcess;
   BCheck].
Definition ex_reduced : RedConf :=
  default (runReducer_start (ex_reduce_world ex_blobs))
    (reduce_run ex_reduce_trace (runReducer_start (ex_reduce_world ex_blobs))).

Lemma ex_reduced_run :
  reduce_run ex_reduce_trace (runReducer_start (ex_reduce_world ex_blobs)) = Some ex_reduced.
Proof. vm_compute. reflexivity. Qed.

Lemma ex_reduced_reach : rtc reduce_step (runReducer_start (ex_reduce_world ex_blobs)) ex_reduced.
Proof. exact (reduce_run_rtc _ _ _ ex_reduced_run). Qed.

Lemma ex_reduce_ready blobs : reduce_ready (ex_reduce_world blobs).
Proof.
  split; [|unfold is_int32; simpl; lia].
  intros p ->%list_elem_of_singleton. simpl. by rewrite lookup_singleton_eq.
Qed.

(** The container the worker answered with is not what the result map holds:
    the constructor of [ReduceResult] takes the blob name first. *)
Example reduce_output_is_blobname :
  m_OutputResultMap (rmaster ex_reduced) !! 0 = Some "" ∧
  r_blobname <$> rresponses ex_reduced = ["c"; "c"].
Proof. vm_compute. done. Qed.

Lemma reduce_blobs_partition_witness :
  reduce_blobs ex_blobs 1 = Ret ["int_10.0.0.1_1"] ∧
  (Z.of_nat <$> seq 0 2) ≫= reducer_blobs ex_blobs ≡ₚ ex_blobs.
Proof.
  assert (Forall (λ b, ∃ k, reducer_of b = Some k ∧ 0 ≤ k < Z.of_nat 2) ex_blobs) as H.
  { repeat constructor; [exists 0|exists 1]; split; [reflexivity|lia|reflexivity|lia]. }
  destruct (reduce_blobs_partition ex_blobs 2 H) as [H1 H2]. split; [|exact H2].
  rewrite H1. reflexivity.
Defined.

Lemma reduce_tasks_exactly_once_witness :
  NoDup (reduce_waiting ex_reduced ++ (r_jobid <$> r_succeeded (rresponses ex_reduced))).
Proof.
  exact (proj1 (reduce_tasks_exactly_once (ex_reduce_world ex_blobs) ex_reduced 0
    (ex_reduce_ready ex_blobs) ex_reduced_reach ltac:(split; reflexivity || (intros H; discriminate H)))).
Defined.

Lemma runReducer_complete_witness :
  rpc ex_reduced = RReturn ∧ rjob_q ex_reduced = [] ∧ rcq ex_reduced = [].
Proof.
  destruct (runReducer_complete (ex_reduce_world ex_blobs) ex_reduced (ex_reduce_ready ex_blobs)
    ex_reduced_reach eq_refl) as (_ & _ & H).
  exact (conj eq_refl H).
Defined.

Lemma reduce_dispatch_bounded_witness : 0 ≤ rnrpcs ex_reduced ≤ Z.max 0 2.
Proof.
  exact (proj1 (proj2 (reduce_dispatch_bounded (ex_reduce_world ex_blobs) ex_reduced
    (ex_reduce_ready ex_blobs) ex_reduced_reach))).
Defined.

Lemma reduce_can_finish_witness :
  ∃ c', rtc reduce_step (runReducer_start (ex_reduce_world ex_blobs)) c' ∧ rpc c' = RReturn.
Proof.
  apply (reduce_can_finish (ex_reduce_world ex_blobs) _ (ex_reduce_ready ex_blobs));
    [reflexivity|discriminate| |constructor].
  repeat constructor; eexists; reflexivity.
Defined.

Lemma reduce_join_safe_witness :
  rcpc ex_reduced = RTop ∧ ∃ c', rtc reduce_step ex_reduced c' ∧ rcpc c' = RExit.
Proof.
  exact (conj eq_refl (proj2 (reduce_join_safe (ex_reduce_world ex_blobs) ex_reduced
    (ex_reduce_ready ex_blobs) ex_reduced_reach eq_refl))).
Defined.

Lemma reduce_bad_blob_throws_witness :
  rcq (runReducer_start (ex_reduce_world ["result.txt"])) = [].
Proof.
  refine (proj1 (reduce_bad_blob_throws (ex_reduce_world ["result.txt"]) "result.txt" _ _ _ _ _));
    [reflexivity|apply list_elem_of_here|reflexivity|constructor].
Defined.
