(* ===== verification/Replication.v ===== *)
(** * Replication and failover ([Master::serialize_data], [deserialize_data],
    [processReplicatedData], [start_repl_client], [replclient.cc],
    [replserver.{h,cc}])

    The leader pushes its job as a checkpoint to another master each time a
    shard is done; a master that becomes leader resumes the job from the last
    checkpoint it received.

    The theorems: what a checkpoint carries, byte for byte, and for which sizes;
    that a follower resumes from any checkpoint of the leader's map phase with
    exactly the leader's tasks; that the first result of a shard in the
    replication list wins, so that a list left over from an earlier job is
    resumed instead of the current one; that what the follower has is always a
    prefix of what the leader published, and that the last update can be lost. *)

From S2P Require Export MapPhase ReducePhase.

Definition LEADER_GRPC_PORT : Z := 6060.

(** ** Checkpoints *)

Definition to_JobStatus (item : MapperResult) : JobStatus :=
  mkJobStatus (to_int32 (shardId item)) (cname item) (blobList item).

Definition to_FileShardSet (s : FileShard) : FileShardSet :=
  mkFileShardSet (to_int32 (shardId_ s)) (to_ShardTuple <$> sets_ s).

Definition to_ReduceJobStatus (kv : Z * string) : ReduceJobStatus :=
  mkReduceJobStatus (to_int32 kv.1) kv.2.

(** [Master::serialize_data] into a fresh message. *)
Definition serialize_data (w : World) : CheckPointData :=
  let m := master w in
  {| cp_req_id := to_int32 (m_rid m);
     cp_n_mappers := to_int32 (m_nmappers m);
     cp_n_reducers := to_int32 (m_nreducers m);
     cp_in_container := m_containername m;
     cp_shard_list := to_FileShardSet <$> m_shards m;
     cp_job_list := to_JobStatus <$> g_repl_list w;
     cp_reduce_job_list := to_ReduceJobStatus <$> std_map_items (m_OutputResultMap m) |}.

(** [sets.emplace_back(x.blobname(), x.startoffset(), x.endoffset())]: [int32]
    to [size_t]. *)
Definition of_ShardTuple (x : ShardTuple) : ShardData :=
  mkShardData (st_blobname x) (to_size (startoffset x)) (to_size (endoffset x)).

Definition of_FileShardSet (f : FileShardSet) : FileShard :=
  mkFileShard (fs_shard_id f) (of_ShardTuple <$> fs_stuples f).

Definition of_JobStatus (js : JobStatus) : MapperResult :=
  mkMapperResult SUCCESS (js_shard_id js) (js_int_container js) false (js_blob_list js).

(** One round of the loop over [job_list]. *)
Definition deserialize_job (m : Master) (js : JobStatus) : Master :=
  m <| m_intcontainer := js_int_container js |>
    <| m_IntermediateResultMap :=
         emplace (js_shard_id js) (of_JobStatus js) (m_IntermediateResultMap m) |>
    <| m_IntblobList := m_IntblobList m ++ js_blob_list js |>.

Definition deserialize_reduce_job (m : Master) (r : ReduceJobStatus) : Master :=
  m <| m_OutputResultMap := emplace (rj_jobid r) (rj_out_container r) (m_OutputResultMap m) |>.

(** [Master::deserialize_data]. *)
Definition deserialize_data (reply : CheckPointData) (m : Master) : Master :=
  let m := m <| m_rid := cp_req_id reply |> <| m_nmappers := cp_n_mappers reply |>
             <| m_nreducers := cp_n_reducers reply |>
             <| m_containername := cp_in_container reply |>
             <| m_shards := of_FileShardSet <$> cp_shard_list reply |>
             <| m_IntermediateResultMap := ∅ |> <| m_IntblobList := [] |> in
  let m := foldl deserialize_job m (cp_job_list reply) in
  let m := m <| m_OutputResultMap := ∅ |> in
  let m := foldl deserialize_reduce_job m (cp_reduce_job_list reply) in
  m <| m_bReplicated := true |>.

(** [ReplicationServiceImpl::sendData] and [getData], behind
    [sendCheckPointData] and [pushCheckPointData]. *)
Definition sendData (parent : World) : CheckPointData := serialize_data parent.
Definition getData (request : CheckPointData) (parent : Master) : Master :=
  deserialize_data request parent.
Definition sendCheckPointData (parent : World) : CheckPointData := sendData parent.
Definition pushCheckPointData (request : CheckPointData) (parent : Master) : Master :=
  getData request parent.

(** [ReplicationServiceClient::PushJobStatus] and [ReplicateJobStatus]: the
    other master after the call, and the caller after it. *)
Definition PushJobStatus (w : World) (delivered : bool) (other : Master) : Master :=
  let query := serialize_data w in
  if delivered then pushCheckPointData query other else other.
Definition ReplicateJobStatus (res : rpc_result CheckPointData) (m : Master) : Master :=
  match res with RpcOk reply => deserialize_data reply m | RpcError _ => m end.

(** The address [start_repl_client] connects to, from the second child listed,
    and the one [RunServer] listens on. *)
Definition repl_server_address (addr : string) : string :=
  before_first ":" addr +:+ ":" +:+ to_string LEADER_GRPC_PORT.

Definition repl_target (zk : Zookeeper) : outcome string :=
  let! children := zk_children zk "/masters" in
  match children !! 1%nat with
  | None => Raise OutOfRange
  | Some child => Ret (repl_server_address (zk_data zk ("/masters/" +:+ child)))
  end.

(** [Master::doesReplMasterExists]. *)
Definition doesReplMasterExists (zk : Zookeeper) (m : Master) : outcome bool :=
  if m_has_failed m then Ret false
  else let! children := zk_children zk "/masters" in Ret (bool_decide (1 < length children)%nat).

(** The end of [Master::create_sharding_data]: the leader starts its replication
    client if there is another master. Assigning to [repl_clt_thd] while it still
    stands for a thread that was not joined calls [std::terminate]. *)
Definition start_repl_clt_thd (zk : Zookeeper) (w : World) : outcome World :=
  let! other := doesReplMasterExists zk (master w) in
  if other : bool then
    if repl_clt_thd (master w) then Raise Terminate
    else Ret (w <| master := (master w) <| repl_clt_thd := true |> |>)
  else Ret w.

(** ** Resuming a job *)

(** The queue [processReplicatedData] builds: the shards without a result. *)
Definition replicated_queue (m : Master) : list Z :=
  shardId_ <$> filter (λ shard, m_IntermediateResultMap m !! shardId_ shard = None) (m_shards m).

(** [Master::processReplicatedData] up to the map phase: [events] are the
    completions of the address exchange. *)
Definition processReplicatedData_map (zk : Zookeeper) (junk : PingStatus)
    (events : list (cptr * rpc_result string)) (w : World) : outcome MapConf :=
  let! w := update_workers zk junk w in
  let w := get_worker_addresses events w in
  Ret (dispatchMapTasks_start w (replicated_queue (master w))).

(** The reduce phase that follows the map phase [c], and the end. *)
Definition processReplicatedData_reduce (c : MapConf) : RedConf := runReducer_start (mw c).
Definition processReplicatedData_end (c : RedConf) : World :=
  (rw c) <| master := stop_ping (rmaster c) |>.

(** ** Lemmas: round trips *)

Definition exact_offset (z : Z) : Prop := to_size (to_int32 z) = z.

Lemma exact_offset_iff z : is_size z → exact_offset z ↔ z < 2 ^ 31 ∨ 2 ^ 64 - 2 ^ 31 ≤ z.
Proof.
  unfold is_size, exact_offset. intros Hz. pose proof (to_int32_range z) as Hr.
  unfold is_int32 in Hr. split.
  - intros H. destruct (decide (z < 2 ^ 31 ∨ 2 ^ 64 - 2 ^ 31 ≤ z)) as [|Hn]; [done|].
    destruct (decide (0 ≤ to_int32 z)).
    + rewrite to_size_id in H by (unfold is_size; lia). lia.
    + rewrite to_size_neg in H by lia. lia.
  - intros [H|H].
    + rewrite to_int32_id by (unfold is_int32; lia). by apply to_size_id.
    + assert (to_int32 z = z - 2 ^ 64) as ->; [|rewrite to_size_neg; lia].
      unfold to_int32. rewrite <-(Z.mod_unique (z + 2 ^ 31) (2 ^ 32) (2 ^ 32) (z + 2 ^ 31 - 2 ^ 64)); lia.
Qed.

(** A shard the messages can carry. *)
Definition exact_shard (s : FileShard) : Prop :=
  is_int32 (shardId_ s) ∧ Forall (λ d, exact_offset (begin_ d) ∧ exact_offset (end_ d)) (sets_ s).

Lemma FileShardSet_roundtrip s : exact_shard s → of_FileShardSet (to_FileShardSet s) = s.
Proof.
  destruct s as [id sets]. unfold exact_shard, of_FileShardSet, to_FileShardSet. simpl.
  intros [Hid Hsets]. rewrite to_int32_id by done. f_equal. rewrite <-list_fmap_compose.
  etrans; [|apply list_fmap_id]. apply list_fmap_ext. intros i [b x y] Hi. simpl.
  rewrite Forall_forall in Hsets.
  destruct (Hsets _ (list_elem_of_lookup_2 _ _ _ Hi)) as [Hx Hy].
  unfold exact_offset in *. simpl in *. unfold of_ShardTuple. simpl. by rewrite Hx, Hy.
Qed.

(** The jobs of a message, folded into the map and the blob list. *)
Lemma deserialize_jobs l m :
  let m' := foldl deserialize_job m l in
  m_IntblobList m' = m_IntblobList m ++ (l ≫= js_blob_list) ∧
  (∀ i, m_IntermediateResultMap m' !! i
        = match m_IntermediateResultMap m !! i with
          | Some r => Some r
          | None => of_JobStatus ∘ snd <$> list_find (λ js, js_shard_id js = i) l
          end) ∧
  (m_rid m', m_nmappers m', m_nreducers m', m_containername m', m_shards m')
  = (m_rid m, m_nmappers m, m_nreducers m, m_containername m, m_shards m).
Proof.
  revert m. induction l as [|js l IH]; intros m.
  { simpl. rewrite app_nil_r. split; [done|]. split; [|done]. intros i. by destruct (_ !! i). }
  cbn zeta in *. simpl. destruct (IH (deserialize_job m js)) as (H1 & H2 & H3).
  split; [|split; [|by rewrite H3]].
  - rewrite H1. simpl. by rewrite <-app_assoc.
  - intros i. rewrite H2. simpl. destruct (decide (js_shard_id js = i)) as [<-|Hne].
    + rewrite lookup_emplace_eq. by destruct (m_IntermediateResultMap m !! js_shard_id js).
    + rewrite lookup_emplace_ne by done. destruct (m_IntermediateResultMap m !! i); [done|].
      by destruct (list_find _ l) as [[n x]|].
Qed.

Lemma deserialize_reduce_jobs l m :
  let m' := foldl deserialize_reduce_job m l in
  m' = m <| m_OutputResultMap :=
         m_OutputResultMap m ∪ list_to_map ((λ r, (rj_jobid r, rj_out_container r)) <$> l) |>.
Proof.
  revert m. induction l as [|r l IH]; intros m.
  { simpl. rewrite (right_id_L ∅ (∪)). by destruct m. }
  cbn zeta in *. cbn [foldl]. rewrite IH.
  set (k := (λ r, (rj_jobid r, rj_out_container r)) <$> l).
  assert (emplace (rj_jobid r) (rj_out_container r) (m_OutputResultMap m) ∪ list_to_map k
    = m_OutputResultMap m ∪ (<[rj_jobid r := rj_out_container r]> (list_to_map k : gmap Z string)))
    as Heq; [|by rewrite fmap_cons; simpl; fold k; rewrite <-Heq].
  apply map_eq. intros i. rewrite !lookup_union.
  destruct (decide (rj_jobid r = i)) as [<-|Hne].
  - rewrite lookup_emplace_eq, lookup_insert_eq.
    destruct (m_OutputResultMap m !! rj_jobid r); simpl; by destruct (list_to_map _ !! _).
  - by rewrite lookup_emplace_ne, lookup_insert_ne by done.
Qed.

Lemma reduce_jobs_roundtrip (out : gmap Z string) :
  map_Forall (λ i _, is_int32 i) out →
  list_to_map ((λ r, (rj_jobid r, rj_out_container r)) <$> (to_ReduceJobStatus <$> std_map_items out))
  = out.
Proof.
  intros Hout. rewrite <-list_fmap_compose.
  assert ((λ r, (rj_jobid r, rj_out_container r)) ∘ to_ReduceJobStatus <$> std_map_items out
    = std_map_items out) as ->.
  { etrans; [|apply list_fmap_id]. apply list_fmap_ext. intros n [i x] Hn. simpl.
    apply list_elem_of_lookup_2, elem_of_std_map_items, Hout in Hn. by rewrite to_int32_id. }
  rewrite (list_to_map_proper _ (map_to_list out)); [apply list_to_map_to_list| |].
  - apply NoDup_std_map_keys.
  - apply std_map_items_perm.
Qed.

(** What [deserialize_data] makes of a message, field by field. *)
Lemma deserialize_data_fields cp m :
  let m' := deserialize_data cp m in
  (m_rid m', m_nmappers m', m_nreducers m', m_containername m', m_bReplicated m')
  = (cp_req_id cp, cp_n_mappers cp, cp_n_reducers cp, cp_in_container cp, true) ∧
  m_shards m' = of_FileShardSet <$> cp_shard_list cp ∧
  m_IntblobList m' = (cp_job_list cp ≫= js_blob_list) ∧
  (∀ i, m_IntermediateResultMap m' !! i
        = of_JobStatus ∘ snd <$> list_find (λ js, js_shard_id js = i) (cp_job_list cp)) ∧
  m_OutputResultMap m'
  = list_to_map ((λ r, (rj_jobid r, rj_out_container r)) <$> cp_reduce_job_list cp).
Proof.
  cbn zeta. unfold deserialize_data. rewrite deserialize_reduce_jobs.
  set (m0 := m <| m_rid := _ |> <| m_nmappers := _ |> <| m_nreducers := _ |>
    <| m_containername := _ |> <| m_shards := _ |> <| m_IntermediateResultMap := _ |>
    <| m_IntblobList := _ |>).
  destruct (deserialize_jobs (cp_job_list cp) m0) as (H1 & H2 & H3). simpl in *.
  rewrite (left_id_L ∅ (∪)). injection H3 as -> -> -> -> ->. split; [done|]. split; [done|].
  split; [by rewrite H1|]. split; [|done]. intros i. by rewrite H2.
Qed.

(** ** The replication client *)

(** [start_repl_client]: at its entry; at the head of the loop; in the call with
    the message it made; before the lock; in [g_repl_cond_.wait]; returned; left
    by an exception, which ends the process. *)
Inductive repl_pc : Type :=
  | KEntry | KTest | KCall (query : CheckPointData) | KReset | KWait | KExit | KThrown (e : exn).

(** The leader, the client thread with the address it connected to, and the
    checkpoints the other master got. *)
Record ReplConf : Type := mkReplConf {
  kw : World;
  repldone : bool;
  repl_srv_id : string;
  kpc : repl_pc;
  received : list CheckPointData
}.

#[export] Instance eta_ReplConf : EtaRecord ReplConf := λ r,
  mkReplConf (kw r) (repldone r) (repl_srv_id r) (kpc r) (received r).

Definition start_repl_client (w : World) : ReplConf := mkReplConf w false "" KEntry [].

(** Its entry: the failed master's return, the address of the other master. *)
Definition repl_enter (zk : Zookeeper) (c : ReplConf) : option ReplConf :=
  if m_has_failed (master (kw c)) then Some (c <| kpc := KExit |>)
  else
    match repl_target zk with
    | Ret addr => Some (c <| repl_srv_id := addr |> <| kpc := KTest |>)
    | Raise e => Some (c <| kpc := KThrown e |>)
    | Undef | Parked => None
    end.

(** The update of [g_repl_list] in [AsyncCompleteMapRpc]. *)
Definition publish (r : MapperResult) (w : World) : World :=
  w <| g_repl_data := true |> <| g_repl_list := g_repl_list w ++ [r] |>.

Inductive repl_action : Type :=
  | KPublish (r : MapperResult) | KStop | KEnter (zk : Zookeeper)
  | KLoop | KAnswer (delivered : bool) | KLock | KWake.

Definition repl_exec (a : repl_action) (c : ReplConf) : option ReplConf :=
  match a, kpc c with
  | KPublish r, _ => Some (c <| kw := publish r (kw c) |>)
  | KStop, _ => Some (c <| repldone := true |>)
  | KEnter zk, KEntry => repl_enter zk c
  | KLoop, KTest =>
      if negb (repldone c) && g_repl_data (kw c)
      then Some (c <| kpc := KCall (serialize_data (kw c)) |>)
      else Some (c <| kpc := KExit |>)
  | KAnswer delivered, KCall query =>
      Some (c <| received := if delivered then received c ++ [query] else received c |>
              <| kpc := KReset |>)
  | KLock, KReset => Some (c <| kw := (kw c) <| g_repl_data := false |> |> <| kpc := KWait |>)
  | KWake, KWait => if g_repl_data (kw c) then Some (c <| kpc := KTest |>) else None
  | _, _ => None
  end.

Fixpoint repl_run (tr : list repl_action) (c : ReplConf) : option ReplConf :=
  match tr with
  | [] => Some c
  | a :: tr => c' ← repl_exec a c; repl_run tr c'
  end.

Definition repl_step (c c' : ReplConf) : Prop := ∃ a, repl_exec a c = Some c'.

(** A step that publishes nothing. *)
Definition quiet_step (c c' : ReplConf) : Prop :=
  ∃ a, (∀ r, a ≠ KPublish r) ∧ repl_exec a c = Some c'.

(** The master once it has taken in the checkpoints. *)
Definition follower (f : Master) (cps : list CheckPointData) : Master :=
  foldl (λ m cp, pushCheckPointData cp m) f cps.

(** ** Lemmas: the client *)

(** A checkpoint of a moment in the past: the replication list cut off. *)
Definition past_checkpoint (w : World) (cp : CheckPointData) : Prop :=
  ∃ k, (k ≤ length (g_repl_list w))%nat ∧
    cp = serialize_data (w <| g_repl_list := take k (g_repl_list w) |>).

Record repl_inv (w0 : World) (c : ReplConf) : Prop := {
  rk_master : master (kw c) = master w0;
  rk_list : g_repl_list w0 `prefix_of` g_repl_list (kw c);
  rk_received : Forall (past_checkpoint (kw c)) (received c);
  rk_call : match kpc c with KCall q => past_checkpoint (kw c) q | _ => True end
}.

Lemma past_checkpoint_publish r w cp : past_checkpoint w cp → past_checkpoint (publish r w) cp.
Proof.
  intros (k & Hk & ->). exists k. simpl. split; [rewrite length_app; lia|].
  rewrite take_app_le by done. done.
Qed.

Lemma past_checkpoint_now w : past_checkpoint w (serialize_data w).
Proof. exists (length (g_repl_list w)). split; [done|]. rewrite firstn_all. by destruct w. Qed.

Lemma repl_step_inv w0 c c' : repl_inv w0 c → repl_step c c' → repl_inv w0 c'.
Proof.
  intros [Hm Hl Hr Hc] [a Ha]. destruct a as [r| |zk| |delivered| |]; simpl in Ha.
  - injection Ha as <-. split; simpl; [done|by apply prefix_app_r| |].
    + eapply Forall_impl; [exact Hr|]. intros cp. apply past_checkpoint_publish.
    + destruct (kpc c); try done. by apply past_checkpoint_publish.
  - by injection Ha as <-.
  - destruct (kpc c); try done. unfold repl_enter in Ha. destruct (m_has_failed _); [by injection Ha as <-|].
    destruct (repl_target zk); try done; by injection Ha as <-.
  - destruct (kpc c); try done. destruct (_ && _); injection Ha as <-; split; try done.
    simpl. apply past_checkpoint_now.
  - destruct (kpc c); try done. injection Ha as <-. split; simpl; try done.
    destruct delivered; [|done]. apply Forall_app. split; [done|]. by apply Forall_singleton.
  - destruct (kpc c); try done. by injection Ha as <-.
  - destruct (kpc c); try done. destruct (g_repl_data (kw c)); [|done]. by injection Ha as <-.
Qed.

Lemma repl_inv_rtc w0 c c' : repl_inv w0 c → rtc repl_step c c' → repl_inv w0 c'.
Proof. apply rtc_invariant. exact (repl_step_inv w0). Qed.

(** The client asleep with nothing published since. *)
Definition repl_asleep (cps : list CheckPointData) (l : list MapperResult) (c : ReplConf) : Prop :=
  kpc c = KWait ∧ g_repl_data (kw c) = false ∧ received c = cps ∧ g_repl_list (kw c) = l.

Lemma repl_asleep_step cps l c c' : repl_asleep cps l c → quiet_step c c' → repl_asleep cps l c'.
Proof.
  unfold repl_asleep. intros (Hk & Hg & Hr & Hl) (a & Hq & Ha).
  destruct a as [r| |zk| |delivered| |]; simpl in Ha; rewrite ?Hk in Ha; try discriminate Ha.
  - by destruct (Hq r).
  - by injection Ha as <-.
  - by rewrite Hg in Ha.
Qed.

(** ** Lemmas: failover *)

(** The list entry a checkpoint turns into a result. *)
Definition restored (r : MapperResult) : MapperResult := of_JobStatus (to_JobStatus r).

Lemma restored_id r :
  status r = SUCCESS → isrequeued r = false → is_int32 (shardId r) → restored r = r.
Proof.
  destruct r as [st id cn rq bl]. unfold restored, of_JobStatus, to_JobStatus. simpl.
  intros -> -> Hid. by rewrite to_int32_id.
Qed.

Lemma checkpoint_results w m i :
  Forall (λ r, is_int32 (shardId r)) (g_repl_list w) →
  m_IntermediateResultMap (deserialize_data (serialize_data w) m) !! i
  = restored ∘ snd <$> list_find (λ r, shardId r = i) (g_repl_list w).
Proof.
  intros Hid. destruct (deserialize_data_fields (serialize_data w) m) as (_ & _ & _ & -> & _).
  simpl. induction (g_repl_list w) as [|r l IH]; [done|].
  apply Forall_cons in Hid as [Hr Hl]. specialize (IH Hl). rewrite fmap_cons. simpl.
  rewrite to_int32_id by done. destruct (decide (shardId r = i)); [done|].
  destruct (list_find _ (to_JobStatus <$> l)) as [[a x]|]; destruct (list_find _ l) as [[a' x']|];
    simpl in *; congruence.
Qed.

Lemma checkpoint_shards w m :
  Forall exact_shard (m_shards (master w)) →
  m_shards (deserialize_data (serialize_data w) m) = m_shards (master w).
Proof.
  intros Hs. destruct (deserialize_data_fields (serialize_data w) m) as (_ & -> & _).
  simpl. rewrite <-list_fmap_compose. etrans; [|apply list_fmap_id].
  apply list_fmap_ext. intros i s Hi. simpl. apply FileShardSet_roundtrip.
  rewrite Forall_forall in Hs. by eapply Hs, list_elem_of_lookup_2.
Qed.

Lemma list_find_in {A} (P : A → Prop) `{!∀ x, Decision (P x)} (l : list A) n x :
  list_find P l = Some (n, x) → x ∈ l ∧ P x.
Proof.
  intros (Hl & HP & _)%list_find_Some. split; [by eapply list_elem_of_lookup_2|done].
Qed.

(** ** Properties *)

(** C20: a checkpoint carries the job: if the shards' offsets, the ids and the
    counts fit the messages and the replication list has one successful result
    per shard, a master that takes it in has the leader's shards, counts,
    container and reduce results, exactly the listed results, and their blobs in
    order. *)
Theorem checkpoint_roundtrip w m :
  Forall exact_shard (m_shards (master w)) →
  Forall (λ r, status r = SUCCESS ∧ isrequeued r = false ∧ is_int32 (shardId r)) (g_repl_list w) →
  NoDup (shardId <$> g_repl_list w) →
  is_int32 (m_rid (master w)) → is_int32 (m_nmappers (master w)) →
  is_int32 (m_nreducers (master w)) →
  map_Forall (λ i _, is_int32 i) (m_OutputResultMap (master w)) →
  let m' := deserialize_data (serialize_data w) m in
  (m_rid m', m_nmappers m', m_nreducers m', m_containername m', m_bReplicated m')
  = (m_rid (master w), m_nmappers (master w), m_nreducers (master w),
     m_containername (master w), true) ∧
  m_shards m' = m_shards (master w) ∧
  m_OutputResultMap m' = m_OutputResultMap (master w) ∧
  (∀ i r, m_IntermediateResultMap m' !! i = Some r ↔ r ∈ g_repl_list w ∧ shardId r = i) ∧
  m_IntblobList m' = g_repl_list w ≫= blobList.
Proof.
  intros Hs Hl Hnd Hr Hm Hn Ho m'.
  destruct (deserialize_data_fields (serialize_data w) m) as (H1 & _ & H3 & _ & H5).
  cbn zeta in *. fold m' in H1, H3, H5. split.
  { rewrite H1. simpl. by rewrite !to_int32_id. }
  split; [by apply checkpoint_shards|]. split; [rewrite H5; by apply reduce_jobs_roundtrip|].
  split.
  - intros i r. unfold m'. rewrite checkpoint_results
      by (eapply Forall_impl; [exact Hl|]; naive_solver). rewrite Forall_forall in Hl. split.
    + destruct (list_find _ _) as [[n x]|] eqn:Hf; [|done]. simpl. intros [= <-].
      apply list_find_in in Hf as [Hin Hi]. destruct (Hl x Hin) as (? & ? & ?).
      by rewrite restored_id.
    + intros [Hin Hi]. destruct (list_find_elem_of (λ r, shardId r = i) _ r Hin Hi) as [[n x] Hf].
      rewrite Hf. simpl. apply list_find_in in Hf as [Hx Hxi]. destruct (Hl x Hx) as (? & ? & ?).
      rewrite restored_id by done. f_equal.
      apply list_elem_of_lookup_1 in Hx as [a Ha]. apply list_elem_of_lookup_1 in Hin as [b Hb].
      assert (a = b) as ->; [|congruence].
      eapply (NoDup_lookup (shardId <$> g_repl_list w)); [done|..];
        rewrite list_lookup_fmap, ?Ha, ?Hb; simpl; by rewrite ?Hxi, ?Hi.
  - rewrite H3. simpl. induction (g_repl_list w) as [|r l IH]; [done|].
    rewrite fmap_cons, !bind_cons. f_equal. apply IH; [by inversion Hl|by inversion Hnd].
Qed.

(** C34: the shards survive a checkpoint exactly if every offset is below 2 GiB
    (or in the last 2 GiB of the address range): the messages hold [int32]. *)
Theorem checkpoint_shards_exact_iff w m :
  Forall (λ s, is_int32 (shardId_ s) ∧ Forall (λ d, is_size (begin_ d) ∧ is_size (end_ d)) (sets_ s))
    (m_shards (master w)) →
  m_shards (deserialize_data (serialize_data w) m) = m_shards (master w) ↔
  ∀ s d, s ∈ m_shards (master w) → d ∈ sets_ s →
    (begin_ d < 2 ^ 31 ∨ 2 ^ 64 - 2 ^ 31 ≤ begin_ d) ∧
    (end_ d < 2 ^ 31 ∨ 2 ^ 64 - 2 ^ 31 ≤ end_ d).
Proof.
  intros Hsz. rewrite Forall_forall in Hsz. split.
  - destruct (deserialize_data_fields (serialize_data w) m) as (_ & -> & _). simpl.
    rewrite <-list_fmap_compose. intros Heq s d Hs Hd.
    destruct (Hsz s Hs) as [_ Hsets]. rewrite Forall_forall in Hsets.
    destruct (Hsets d Hd) as [Hb He].
    rewrite <-(exact_offset_iff _ Hb), <-(exact_offset_iff _ He).
    apply list_elem_of_lookup_1 in Hs as [n Hn].
    pose proof (f_equal (.!! n) Heq) as Hl. rewrite list_lookup_fmap, Hn in Hl. simpl in Hl.
    injection Hl as Hl. destruct s as [id sets]. unfold of_FileShardSet, to_FileShardSet in Hl.
    simpl in *. injection Hl as _ Hl. apply list_elem_of_lookup_1 in Hd as [k Hk].
    pose proof (f_equal (.!! k) Hl) as Hl'. rewrite !list_lookup_fmap, Hk in Hl'. simpl in Hl'.
    injection Hl' as Hl'. destruct d as [bn x y]. unfold of_ShardTuple, exact_offset in *.
    simpl in *. by injection Hl' as ? ?.
  - intros Hex. apply checkpoint_shards. apply Forall_forall. intros s Hs.
    destruct (Hsz s Hs) as [Hid Hsets]. split; [done|]. rewrite Forall_forall in Hsets |- *.
    intros d Hd. destruct (Hsets d Hd) as [Hb He]. destruct (Hex s d Hs Hd).
    by rewrite !exact_offset_iff.
Qed.

(** The shards left in the queue and the restored results are all the shards. *)
Lemma replicated_queue_perm m :
  NoDup (shardId_ <$> m_shards m) →
  (∀ i, is_Some (m_IntermediateResultMap m !! i) → i ∈ shardId_ <$> m_shards m) →
  replicated_queue m ++ (map_to_list (m_IntermediateResultMap m)).*1 ≡ₚ shardId_ <$> m_shards m.
Proof.
  intros Hnd Hsub. apply NoDup_Permutation; [|done|].
  - apply NoDup_app. split; [|split; [|apply NoDup_fst_map_to_list]].
    + unfold replicated_queue. eapply sublist_NoDup; [exact Hnd|].
      apply fmap_sublist, sublist_filter.
    + intros i (s & -> & [Hn _]%list_elem_of_filter)%list_elem_of_fmap [r Hr]%elem_of_map_keys.
      congruence.
  - intros i. rewrite elem_of_app, elem_of_map_keys. split.
    + intros [(s & -> & [_ Hin]%list_elem_of_filter)%list_elem_of_fmap|?]; [|by auto].
      apply list_elem_of_fmap. eauto.
    + intros (s & -> & Hin)%list_elem_of_fmap.
      destruct (m_IntermediateResultMap m !! shardId_ s) eqn:Hr; [right; eauto|left].
      apply list_elem_of_fmap. exists s. split; [done|]. by apply list_elem_of_filter.
Qed.

(** The follower's world with the checkpoint taken in. *)
Definition with_checkpoint (cp : CheckPointData) (f : World) : World :=
  f <| master := pushCheckPointData cp (master f) |>.

Lemma deserialize_jobs_frame l m :
  let m' := foldl deserialize_job m l in
  m_Clients m' = m_Clients m ∧ m_ClientMap m' = m_ClientMap m ∧ m_has_failed m' = m_has_failed m ∧
  m_will_fail m' = m_will_fail m.
Proof.
  revert m. induction l as [|js l IH]; intros m; [done|]. simpl. apply (IH (deserialize_job m js)).
Qed.

Lemma pushCheckPointData_frame cp m :
  let m' := pushCheckPointData cp m in
  m_Clients m' = m_Clients m ∧ m_ClientMap m' = m_ClientMap m ∧ m_has_failed m' = m_has_failed m ∧
  m_will_fail m' = m_will_fail m.
Proof.
  cbn zeta. unfold pushCheckPointData, getData, deserialize_data. rewrite deserialize_reduce_jobs. simpl.
  match goal with |- context [foldl deserialize_job ?m0 _] =>
    exact (deserialize_jobs_frame (cp_job_list cp) m0)
  end.
Qed.

Lemma clients_wf_same w w' :
  clients_wf w → heap w' = heap w → m_Clients (master w') = m_Clients (master w) →
  m_ClientMap (master w') = m_ClientMap (master w) → clients_wf w'.
Proof.
  intros [] Hh Hc Hm. split; rewrite ?Hh, ?Hc, ?Hm; auto.
Qed.

Lemma job_state_eq m m' :
  job_state m = job_state m' →
  m_shards m = m_shards m' ∧ m_nmappers m = m_nmappers m' ∧
  m_IntermediateResultMap m = m_IntermediateResultMap m'.
Proof. unfold job_state. intros [=]. done. Qed.

(** A leader in its map phase: started from [w] with the queue [q] and no
    results, nothing published before; its shards fit the messages. *)
Record leader_ok (w : World) (q : list Z) : Prop := {
  lo_start : map_start_ok w q;
  lo_fresh : m_IntermediateResultMap (master w) = ∅;
  lo_exact : Forall exact_shard (m_shards (master w));
  lo_queue : q ≡ₚ shardId_ <$> m_shards (master w);
  lo_int : is_int32 (m_nmappers (master w))
}.

Lemma leader_ids w q : leader_ok w q → map_ids w q ≡ₚ shardId_ <$> m_shards (master w).
Proof.
  intros [_ Hf _ Hq _]. unfold map_ids. by rewrite Hf, map_to_list_empty, app_nil_r.
Qed.

Lemma leader_checkpoint w q c :
  leader_ok w q → g_repl_list w = [] → rtc map_step (dispatchMapTasks_start w q) c →
  ∀ m i, m_IntermediateResultMap (deserialize_data (serialize_data (mw c)) m) !! i
    = restored ∘ snd <$> list_find (λ r, shardId r = i) (g_repl_list (mw c)) ∧
  (∀ r, r ∈ g_repl_list (mw c) → status r = SUCCESS ∧ is_int32 (shardId r) ∧
     shardId r ∈ shardId_ <$> m_shards (master w) ∧
     (map_results c !! shardId r = Some r ∨ r ∈ responseList c)).
Proof.
  intros Hw Hg Hr m i.
  destruct (map_replication_spec w q c (lo_start _ _ Hw) (lo_fresh _ _ Hw) Hr)
    as (new & Hnew & _ & Hin).
  rewrite Hg in Hnew. simpl in Hnew. rewrite Hnew.
  assert (∀ r, r ∈ new → status r = SUCCESS ∧ is_int32 (shardId r) ∧
     shardId r ∈ shardId_ <$> m_shards (master w) ∧
     (map_results c !! shardId r = Some r ∨ r ∈ responseList c)) as Hall.
  { intros r Hrn. destruct (Hin r Hrn) as (? & Hid & ?). rewrite (leader_ids w q Hw) in Hid.
    split; [done|]. split; [|done]. apply list_elem_of_fmap in Hid as (s & -> & Hs).
    pose proof (lo_exact _ _ Hw) as Hex. rewrite Forall_forall in Hex. by apply Hex. }
  split; [|done]. rewrite <-Hnew. apply checkpoint_results. rewrite Hnew.
  apply Forall_forall. intros r Hrn. by apply Hall.
Qed.

Lemma leader_restored w q c :
  leader_ok w q → g_repl_list w = [] → rtc map_step (dispatchMapTasks_start w q) c →
  ∀ m i r, m_IntermediateResultMap (pushCheckPointData (serialize_data (mw c)) m) !! i = Some r →
  ∃ r0, r = restored r0 ∧ status r0 = SUCCESS ∧ is_int32 (shardId r0) ∧
    i ∈ shardId_ <$> m_shards (master w) ∧
    (map_results c !! i = Some r0 ∨ r0 ∈ responseList c) ∧ shardId r0 = i.
Proof.
  intros Hw Hg Hr m i r. unfold pushCheckPointData, getData.
  destruct (leader_checkpoint w q c Hw Hg Hr m i) as [-> Hin].
  destruct (list_find _ _) as [[n r0]|] eqn:Hlf; [|done]. intros [= <-].
  apply list_find_in in Hlf as [Hr0 <-]. destruct (Hin r0 Hr0) as (? & ? & ? & ?). eauto 10.
Qed.

(** C9: failover in a leader's first job, that is with nothing in [g_repl_list],
    no results and every shard queued when its map phase starts: a master that took in a checkpoint made at any
    moment of that phase resumes it soundly. The offsets and ids of the leader's
    shards fit the [int32] fields of the message, the client tables of the other
    master agree, it is not marked failed and ZooKeeper lists the workers.
    [processReplicatedData] then enters the map phase with exactly the leader's
    tasks, each result it starts with is one the leader has or was about to
    process, and the queue is the shards without one. (For a later job see
    [failover_stale_result].) *)
Theorem failover_resumes w q c zk junk events f wrkrs :
  leader_ok w q → g_repl_list w = [] → rtc map_step (dispatchMapTasks_start w q) c →
  clients_wf f → m_has_failed (master f) = false →
  zk_children zk "/workers" = Ret wrkrs → Forall node_name wrkrs →
  ∃ f', processReplicatedData_map zk junk events (with_checkpoint (serialize_data (mw c)) f)
        = Ret (dispatchMapTasks_start f' (replicated_queue (master f'))) ∧
    map_start_ok f' (replicated_queue (master f')) ∧
    m_shards (master f') = m_shards (master w) ∧ m_nmappers (master f') = m_nmappers (master w) ∧
    map_ids f' (replicated_queue (master f')) ≡ₚ map_ids w q ∧
    ∀ i r, m_IntermediateResultMap (master f') !! i = Some r → ∃ r0, r = restored r0 ∧
      (map_results c !! i = Some r0 ∨ r0 ∈ responseList c) ∧ shardId r0 = i.
Proof.
  intros Hw Hg Hr Hf Hfail Hzk Hnames.
  set (cp := serialize_data (mw c)). set (f1 := with_checkpoint cp f).
  destruct (pushCheckPointData_frame cp (master f)) as (Hc & Hcm & Hhf & _).
  assert (clients_wf f1) as Hf1 by (apply (clients_wf_same f); done).
  destruct (update_workers_spec zk junk f1 wrkrs Hf1) as (f2 & Hup & Hf2 & _ & _);
    [by rewrite <-Hfail|done|done|].
  destruct (update_workers_frame zk junk f1 f2 Hup) as [Hjs _].
  unfold processReplicatedData_map. rewrite Hup. cbn [obind].
  set (f3 := get_worker_addresses events f2).
  assert (job_state (master f3) = job_state (pushCheckPointData cp (master f))) as Hjs3 by done.
  exists f3. split; [done|].
  pose proof (map_reach_inv w q c (lo_start _ _ Hw) Hr) as Hi.
  pose proof (mi_params _ _ _ Hi) as Hpar. unfold job_params in Hpar.
  injection Hpar as Hsh Hnm _ _ _ _.
  destruct (job_state_eq _ _ Hjs3) as (Es & En & Er).
  assert (m_shards (master f3) = m_shards (master w)) as Hshards.
  { rewrite Es. unfold pushCheckPointData, getData, cp. rewrite <-Hsh. apply checkpoint_shards.
    rewrite Hsh. by apply (lo_exact w q). }
  assert (∀ i r, m_IntermediateResultMap (master f3) !! i = Some r → ∃ r0, r = restored r0 ∧
      status r0 = SUCCESS ∧ is_int32 (shardId r0) ∧ i ∈ shardId_ <$> m_shards (master w) ∧
      (map_results c !! i = Some r0 ∨ r0 ∈ responseList c) ∧ shardId r0 = i) as Hres.
  { intros i r. rewrite Er. by apply (leader_restored w q). }
  assert (NoDup (shardId_ <$> m_shards (master w))) as Hnd.
  { rewrite <-(leader_ids w q Hw). apply (ms_nodup _ _ (lo_start _ _ Hw)). }
  assert (map_ids f3 (replicated_queue (master f3)) ≡ₚ shardId_ <$> m_shards (master w)) as Hids.
  { rewrite <-Hshards. apply replicated_queue_perm; rewrite Hshards; [done|].
    intros i [r Hir]. by destruct (Hres i r Hir) as (r0 & _ & _ & _ & ? & _). }
  split; [|split; [done|split; [|split; [by rewrite Hids, leader_ids|]]]].
  - split.
    + fold (map_ids f3 (replicated_queue (master f3))). by rewrite Hids.
    + intros i Hin. fold (map_ids f3 (replicated_queue (master f3))) in Hin.
      rewrite Hids, <-(leader_ids w q Hw) in Hin. rewrite Hshards.
      by apply (ms_shards _ _ (lo_start _ _ Hw)).
    + intros i r Hir. destruct (Hres i r Hir) as (r0 & -> & ? & ? & _ & _ & <-).
      simpl. by rewrite to_int32_id.
    + intros p Hp. apply get_worker_addresses_heap. by apply (cw_heap f2 Hf2).
  - rewrite En. unfold pushCheckPointData, getData, cp.
    destruct (deserialize_data_fields (serialize_data (mw c)) (master f)) as (H1 & _).
    etrans; [exact (f_equal (λ t, t.1.1.1.2) H1)|]. simpl. rewrite Hnm. apply to_int32_id.
    by apply (lo_int w q).
  - intros i r Hir. destruct (Hres i r Hir) as (r0 & ? & _ & _ & _ & ? & ?). eauto.
Qed.

(** [g_repl_list] is never cleared, and the first entry of a shard wins:
    when the leader starts a job with the list of an earlier one, a master that
    takes over restores the earlier job's result of every shard listed there,
    whatever the current job produced, and does not queue the shard again. *)
Theorem failover_stale_result w q c f i n r :
  map_start_ok w q → m_IntermediateResultMap (master w) = ∅ →
  Forall is_int32 (map_ids w q) → Forall (λ r, is_int32 (shardId r)) (g_repl_list w) →
  list_find (λ r, shardId r = i) (g_repl_list w) = Some (n, r) →
  rtc map_step (dispatchMapTasks_start w q) c →
  let m' := pushCheckPointData (serialize_data (mw c)) f in
  m_IntermediateResultMap m' !! i = Some (restored r) ∧ i ∉ replicated_queue m'.
Proof.
  intros Hw He Hids Hold Hfind Hr m'.
  destruct (map_replication_spec w q c Hw He Hr) as (new & Hnew & _ & Hin).
  assert (m_IntermediateResultMap m' !! i = Some (restored r)) as Hres.
  { unfold m', pushCheckPointData, getData. rewrite checkpoint_results; rewrite Hnew.
    - by erewrite list_find_app_l.
    - apply Forall_app. split; [done|]. apply Forall_forall. intros r' Hr'.
      rewrite Forall_forall in Hids. apply Hids. by apply Hin. }
  split; [done|]. intros (s & -> & [Hn _]%list_elem_of_filter)%list_elem_of_fmap. congruence.
Qed.

(** every checkpoint the other master ever gets is the leader's job at some
    moment: its results are a prefix of the leader's replication list. *)
Theorem repl_received_past w c cp :
  rtc repl_step (start_repl_client w) c → cp ∈ received c →
  ∃ k, cp = serialize_data ((kw c) <| g_repl_list := take k (g_repl_list (kw c)) |>) ∧
    cp_job_list cp `prefix_of` to_JobStatus <$> g_repl_list (kw c).
Proof.
  intros Hr Hin. assert (repl_inv w c) as [_ _ Hrec _].
  { eapply repl_inv_rtc; [|exact Hr]. by split. }
  rewrite Forall_forall in Hrec. destruct (Hrec cp Hin) as (k & _ & ->). exists k.
  split; [done|]. simpl. rewrite fmap_take. apply prefix_take.
Qed.

(** C38: a result published while the replication call is under way is not sent:
    the client, at the head of its loop with something to send, sends what was
    there before, resets the flag and sleeps, and unless another shard completes it
    sends nothing more and never ends, even when told to stop. *)
Theorem repl_update_lost c0 r :
  kpc c0 = KTest → repldone c0 = false → g_repl_data (kw c0) = true →
  let cps := received c0 ++ [serialize_data (kw c0)] in
  ∃ c, repl_run [KLoop; KPublish r; KAnswer true; KLock; KStop] c0 = Some c ∧
    g_repl_list (kw c) = g_repl_list (kw c0) ++ [r] ∧ received c = cps ∧
    ∀ c', rtc quiet_step c c' → received c' = cps ∧ kpc c' = KWait.
Proof.
  intros Hpc Hd Hg cps. destruct c0 as [w d addr pc recv]. cbn in Hpc, Hd, Hg. subst d pc.
  eexists. split; [simpl; by rewrite Hg|]. split; [done|]. split; [done|].
  intros c' Hr.
  match type of Hr with rtc _ ?c0 _ =>
    assert (repl_asleep cps (g_repl_list w ++ [r]) c') as (? & _ & ? & _);
    [|done]; refine (rtc_invariant quiet_step _ c0 c' (repl_asleep_step _ _) _ Hr)
  end.
  done.
Qed.

(** ** Concrete runs *)

(** A leader with two shards of which one is published. *)
Definition ex_result : MapperResult := mkMapperResult SUCCESS 1 "out" false ["int_b_0"].
Definition ex_ckpt_world : World :=
  let w := World_new 0 in
  w <| g_repl_list := [ex_result] |>
    <| master := (master w) <| m_shards := ex_shards 2 |> <| m_nmappers := 2 |>
        <| m_nreducers := 1 |> <| m_rid := 7 |> <| m_containername := "c" |> |>.

Lemma ex_shards_exact n : (n < 100)%nat → Forall exact_shard (ex_shards n).
Proof.
  intros Hn. apply Forall_forall. intros s (i & -> & Hi%elem_of_seq)%list_elem_of_fmap.
  split; simpl; [unfold is_int32; lia|]. apply Forall_singleton. simpl.
  split; apply exact_offset_iff; unfold is_size; lia.
Qed.

Lemma checkpoint_roundtrip_witness :
  m_shards (deserialize_data (serialize_data ex_ckpt_world) (Master_new 0)) = ex_shards 2.
Proof.
  refine (proj1 (proj2 (checkpoint_roundtrip ex_ckpt_world (Master_new 0) _ _ _ _ _ _ _)));
    try (unfold is_int32; simpl; lia).
  - apply ex_shards_exact. lia.
  - apply Forall_singleton. simpl. unfold is_int32. split; [reflexivity|]. split; [reflexivity|lia].
  - apply NoDup_singleton.
  - apply map_Forall_empty.
Defined.

(** One blob cut at 3 GiB. *)
Definition ex_big_world : World :=
  let w := World_new 0 in
  w <| master := (master w) <| m_shards := [mkFileShard 0 [mkShardData "in.txt" 0 (3 * 2 ^ 30)]] |> |>.

Lemma checkpoint_shards_exact_iff_witness :
  m_shards (deserialize_data (serialize_data ex_big_world) (Master_new 0))
  ≠ m_shards (master ex_big_world).
Proof.
  intros H. destruct (proj1 (checkpoint_shards_exact_iff ex_big_world (Master_new 0)
    ltac:(apply Forall_singleton; split; [unfold is_int32; simpl; lia|];
          apply Forall_singleton; unfold is_size; simpl; lia)) H
    (mkFileShard 0 [mkShardData "in.txt" 0 (3 * 2 ^ 30)]) (mkShardData "in.txt" 0 (3 * 2 ^ 30)))
    as [_ Hend]; [apply list_elem_of_here|apply list_elem_of_here|].
  simpl in Hend. lia.
Defined.

Abbreviation ex_leader := (cleared (ex_map_world 2 2)).
Abbreviation ex_leader_q := (shard_ids (master (ex_map_world 2 2))).

Lemma ex_leader_ok : leader_ok ex_leader ex_leader_q.
Proof.
  split; [apply ex_start_ok|done|by apply ex_shards_exact; lia|done|].
  unfold is_int32. simpl. lia.
Qed.

(** Both shards started, one done and published. *)
Definition ex_half_trace : list map_action :=
  [ADispatch; AStarted; ADispatch; AStarted; ADispatched; CEnter; CComplete 1 (ok_reply "int_b_0");
   CPublished].
Definition ex_half : MapConf :=
  default (runMapper_start (ex_map_world 2 2))
    (map_run ex_half_trace (runMapper_start (ex_map_world 2 2))).

Lemma ex_half_run : map_run ex_half_trace (runMapper_start (ex_map_world 2 2)) = Some ex_half.
Proof. vm_compute. reflexivity. Qed.

Lemma failover_resumes_witness :
  ∃ f', processReplicatedData_map ex_zk PING_CHECK []
          (with_checkpoint (serialize_data (mw ex_half)) ex_workers)
        = Ret (dispatchMapTasks_start f' (replicated_queue (master f'))) ∧
    map_start_ok f' (replicated_queue (master f')).
Proof.
  destruct (failover_resumes ex_leader ex_leader_q ex_half ex_zk PING_CHECK [] ex_workers
    ["worker_0"; "worker_2"] ex_leader_ok eq_refl (ex_reach 2 2 _ _ ex_half_run) ex_workers_wf eq_refl
    eq_refl ltac:(repeat constructor)) as (f' & H1 & H2 & _).
  exact (ex_intro _ f' (conj H1 H2)).
Defined.

Lemma map_start_ok_list w q l : map_start_ok w q → map_start_ok (w <| g_repl_list := l |>) q.
Proof. by intros []. Qed.

(** The second job of a leader whose first job left a result of shard 0. *)
Definition ex_second_job : World :=
  let w := cleared (ex_map_world 1 1) in
  w <| g_repl_list := [mkMapperResult SUCCESS 0 "old" false ["int_old_0"]] |>.

Lemma ex_second_job_ok : map_start_ok ex_second_job (shard_ids (master (ex_map_world 1 1))).
Proof. exact (map_start_ok_list _ _ _ (ex_start_ok 1 1)). Qed.

Lemma failover_stale_result_witness :
  let m' := pushCheckPointData (serialize_data ex_second_job) (Master_new 0) in
  m_IntermediateResultMap m' !! 0 = Some (mkMapperResult SUCCESS 0 "old" false ["int_old_0"]).
Proof.
  refine (proj1 (failover_stale_result ex_second_job (shard_ids (master (ex_map_world 1 1)))
    (dispatchMapTasks_start ex_second_job (shard_ids (master (ex_map_world 1 1))))
    (Master_new 0) 0 0%nat (mkMapperResult SUCCESS 0 "old" false ["int_old_0"])
    ex_second_job_ok eq_refl _ _ _ _)).
  - apply (bool_decide_unpack (Forall (λ z, - 2 ^ 31 ≤ z < 2 ^ 31) _)). vm_compute. reflexivity.
  - apply Forall_singleton. unfold is_int32. simpl. lia.
  - reflexivity.
  - constructor.
Defined.

(** Two masters; the leader's client enters its loop. *)
Definition ex_masters_zk : Zookeeper :=
  mkZookeeper (λ _, Ret ["master_0"; "master_1"])
    (λ p, if decide (p = "/masters/master_1") then "b:5050" else "a:5050").
Definition ex_repl : ReplConf :=
  default (start_repl_client (World_new 0)) (repl_run [KEnter ex_masters_zk] (start_repl_client (World_new 0))).

Lemma repl_received_past_witness :
  ∃ k, serialize_data ex_ckpt_world
       = serialize_data (ex_ckpt_world <| g_repl_list := take k [ex_result] |>).
Proof.
  assert (rtc repl_step (start_repl_client ex_ckpt_world)
    (mkReplConf ex_ckpt_world false "b:6060" KReset [serialize_data ex_ckpt_world])) as Hr.
  { eapply rtc_l; [exists (KEnter ex_masters_zk); vm_compute; reflexivity|].
    eapply rtc_l; [exists KLoop; reflexivity|]. eapply rtc_l; [exists (KAnswer true); reflexivity|].
    constructor. }
  destruct (repl_received_past ex_ckpt_world _ (serialize_data ex_ckpt_world) Hr
    (list_elem_of_here _ _)) as (k & Hk & _).
  exact (ex_intro _ k Hk).
Defined.

Lemma repl_update_lost_witness :
  ∃ c, repl_run [KLoop; KPublish ex_result; KAnswer true; KLock; KStop] ex_repl = Some c ∧
    g_repl_list (kw c) = [ex_result] ∧ kpc c = KWait.
Proof.
  destruct (repl_update_lost ex_repl ex_result eq_refl eq_refl eq_refl) as (c & H1 & H2 & _ & H3).
  exact (ex_intro _ c (conj H1 (conj H2 (proj2 (H3 c (rtc_refl _ _)))))).
Defined.
