(* ===== verification/Http.v ===== *)
(** * The HTTP front end ([master/requesthandler.h], [Master::set_num_mappers],
    [set_num_reducers], [set_requestid], [create_connection],
    [create_container])

    How an upload request is parsed into a job, which requests are refused and
    with what, and what happens when a parameter is missing.

    The theorems: a rendered query is parsed back to its pairs; the parameters
    of a job request reach the master once its workers are listed, and if the
    listing throws nothing of the request does; the numbers are read exactly up to
    [int] and wrap beyond; a request without the number of mappers has undefined
    behaviour; other requests are refused and change nothing. *)

From S2P Require Export Sharding Replication.

(** ** Requests and responses *)

Record request : Type := mkRequest { req_method : string; req_destination : string }.

Inductive http_status : Type := http_ok | http_bad_request.

Record response : Type := mkResponse {
  resp_status : http_status;
  resp_content_length : Z;
  resp_body : string
}.

(** ** [req_handler::get_queries] *)

(** [s.substr(0, i)] and [s.substr(i + 1)] at the first [c]. *)
Definition split_first (c : ascii) (s : string) : option (string * string) :=
  (λ i, (str_take i s, str_drop (S i) s)) <$> find_first c s.

Definition amp_to_space (a : ascii) : ascii := if decide (a = "&"%char) then " "%char else a.

(** One round of the loop [while (sin >> query_string)]. *)
Definition add_query (queries : gmap string string) (word : string) : gmap string string :=
  match split_first "=" word with
  | Some (key, value) => <[key := value]> queries
  | None => queries
  end.

Definition get_queries (dest : string) : gmap string string :=
  match split_first "?" dest with
  | None => ∅
  | Some (_, query_string) => foldl add_query ∅ (words (str_map amp_to_space query_string))
  end.

(** ** [req_handler] *)

Record req_handler : Type := mkReqHandler {
  rh_container : string;
  rh_mappers : string;
  rh_reducers : string
}.

(** The constructor: the loop over the sorted map assigns each member at most
    once. *)
Definition req_handler_new (req : request) : req_handler :=
  let dest := req_destination req in
  if str_contains "/upload" dest then
    let queries := get_queries dest in
    {| rh_container := default "" (queries !! "container");
       rh_mappers := default "" (queries !! "m");
       rh_reducers := default "" (queries !! "r") |}
  else mkReqHandler "" "" "".

(** [request_id]: the value returned and the static counter after it. *)
Definition request_id (id_ : Z) : Z * Z := let id_ := to_int32 (id_ + 1) in (id_, id_).

(** [Master::set_requestid] looks for new workers first. *)
Definition set_requestid (zk : Zookeeper) (junk : PingStatus) (id : Z) (w : World) : outcome World :=
  let! w := update_workers zk junk w in Ret (w <| master := (master w) <| m_rid := id |> |>).

(** [Master::set_num_mappers], [set_num_reducers]: [strtol] into an [int]. *)
Definition set_num_mappers (smappers : string) (m : Master) : Master :=
  m <| m_nmappers := to_int32 (strtol smappers) |>.
Definition set_num_reducers (sreducers : string) (m : Master) : Master :=
  m <| m_nreducers := to_int32 (strtol sreducers) |>.

(** [Master::create_connection]. *)
Definition create_connection (conn_string : string) (m : Master) : Master :=
  m <| m_connection := conn_string |> <| m_dbConnection := Some conn_string |>.

(** [Master::create_container]: [storage] is what the storage library does with
    the container's name; without a connection the call is through a null
    pointer. *)
Definition create_container (storage : string → outcome unit) (container : string) (m : Master)
    : Master * outcome unit :=
  let m := m <| m_containername := container |> in
  (m, match m_dbConnection m with Some _ => storage container | None => Undef end).

(** [req_handler::process] from [set_num_reducers] up to [runMapper]: the world
    afterwards, also when the code throws. [items] is the listing of the container,
    [Raise] if the storage library throws; [Parked] is a [make_shards] that does
    not end. *)
Definition process_job (zk : Zookeeper) (storage : string → outcome unit)
    (items : outcome (list blob_item)) (events : list (cptr * rpc_result string)) (h : req_handler)
    (w : World) : World * outcome unit :=
  let m := set_num_mappers (rh_mappers h) (set_num_reducers (rh_reducers h) (master w)) in
  let '(m, created) := create_container storage (rh_container h) m in
  let w := w <| master := m |> in
  match created with
  | Ret _ =>
      let cleared := w <| master := (master w) <| m_shards := [] |> |> in
      match (let! items := items in create_sharding_data items w) with
      | Ret (Some w) =>
          match start_repl_clt_thd zk w with
          | Ret w => (get_worker_addresses events w, Ret tt)
          | o => (w, ovoid o)
          end
      | Ret None => (cleared, Parked)
      | o => (cleared, ovoid o)
      end
  | o => (w, ovoid o)
  end.

(** [req_handler::process] up to [runMapper]: [set_requestid(request_id())]
    first. If it throws the clients are as they were: the listing of the workers
    comes before any change to them, and the [at] calls find every client in the
    states a master reaches ([Clients.clients_wf]). *)
Definition process_setup (zk : Zookeeper) (junk : PingStatus) (storage : string → outcome unit)
    (items : outcome (list blob_item)) (events : list (cptr * rpc_result string)) (h : req_handler)
    (w : World) : World * outcome unit :=
  let '(id, counter) := request_id (request_counter w) in
  let w := w <| request_counter := counter |> in
  match set_requestid zk junk id w with
  | Ret w => process_job zk storage items events h w
  | o => (w, ovoid o)
  end.

(** ** [connection_handler::operator()]

    [proc] stands for the whole of [process]; [what] for [e.what()], [took] for
    the text with the elapsed time. [None]: no response is written. *)
Definition refused_body : string := "Only path allowed is /upload".

Definition text_response (st : http_status) (body : string) : response :=
  mkResponse st (Z.of_nat (String.length body)) body.

Definition connection_handler (what : exn → string) (took : string)
    (proc : req_handler → World → World * outcome unit) (req : request) (w : World)
    : World * option response :=
  if decide (req_method req = "POST" ∧ str_contains "/upload" (req_destination req) = true) then
    let '(w, o) := proc (req_handler_new req) w in
    (w, match o with
        | Ret _ => Some (text_response http_ok took)
        | Raise e =>
            if std_exception e then Some (text_response http_bad_request (what e)) else None
        | Undef | Parked => None
        end)
  else
    (* [sizeof(body)] counts the terminating NUL *)
    (w, Some (mkResponse http_bad_request (Z.of_nat (String.length refused_body) + 1) refused_body)).

(** ** Specification: rendered queries *)

(** [k1=v1&k2=v2&...] *)
Fixpoint render_queries (kvs : list (string * string)) : string :=
  match kvs with
  | [] => ""
  | [(k, v)] => k +:+ "=" +:+ v
  | (k, v) :: kvs => k +:+ "=" +:+ v +:+ "&" +:+ render_queries kvs
  end.

Definition plain_value (a : ascii) : bool := negb (is_space a) && bool_decide (a ≠ "&"%char).
Definition plain_key (a : ascii) : bool := plain_value a && bool_decide (a ≠ "="%char).

Definition plain_pair (kv : string * string) : Prop :=
  str_forall plain_key kv.1 ∧ str_forall plain_value kv.2.

(** ** Lemmas *)

Lemma str_map_app f s t : str_map f (s +:+ t) = str_map f s +:+ str_map f t.
Proof. induction s as [|a s IH]; [done|]. cbn. by rewrite IH. Qed.

Lemma str_map_id (P : ascii → bool) f s : (∀ a, P a → f a = a) → str_forall P s → str_map f s = s.
Proof.
  intros Hf. induction s as [|a s IH]; [done|]. rewrite str_forall_cons, andb_True.
  intros [Ha Hs]. cbn. by rewrite Hf, IH.
Qed.

Lemma words_go_plain cur s t :
  str_forall (λ a, negb (is_space a)) s → words_go cur (s +:+ t) = words_go (cur +:+ s) t.
Proof.
  revert cur. induction s as [|a s IH]; intros cur.
  - by rewrite str_app_nil_r.
  - rewrite str_forall_cons, andb_True. intros [Ha Hs]. cbn.
    destruct (is_space a); [done|]. rewrite IH by done. by rewrite str_app_assoc.
Qed.

Lemma split_first_app c s t :
  str_forall (λ a, bool_decide (a ≠ c)) s → split_first c (s +:+ String c t) = Some (s, t).
Proof.
  intros Hs. unfold split_first. rewrite find_first_app by done. cbn [fmap option_fmap option_map].
  f_equal. f_equal; [apply str_take_app|].
  replace (S (String.length s)) with (String.length (s +:+ String c "")).
  2:{ clear. induction s as [|a s IH]; [done|]. cbn. by rewrite IH. }
  replace (s +:+ String c t) with ((s +:+ String c "") +:+ t) by (by rewrite str_app_assoc).
  apply str_drop_app.
Qed.

Lemma plain_value_amp s : str_forall plain_value s → str_map amp_to_space s = s.
Proof.
  apply str_map_id. intros a. unfold plain_value, amp_to_space.
  rewrite andb_True, bool_decide_spec. intros [_ Ha]. by rewrite decide_False.
Qed.

Lemma plain_value_words s : str_forall plain_value s → str_forall (λ a, negb (is_space a)) s.
Proof. apply str_forall_impl. intros a. unfold plain_value. rewrite andb_True. by intros [? _]. Qed.

Lemma plain_key_value s : str_forall plain_key s → str_forall plain_value s.
Proof. apply str_forall_impl. intros a. unfold plain_key. rewrite andb_True. by intros [? _]. Qed.

Lemma plain_pair_word k v : plain_pair (k, v) → str_forall plain_value (k +:+ "=" +:+ v).
Proof.
  intros [Hk Hv]. rewrite !str_forall_app, !andb_True. split; [by apply plain_key_value|].
  split; [by vm_compute|done].
Qed.

Lemma words_render kvs :
  Forall plain_pair kvs →
  words (str_map amp_to_space (render_queries kvs))
  = (λ kv, kv.1 +:+ "=" +:+ kv.2) <$> kvs.
Proof.
  unfold words. induction kvs as [|[k v] kvs IH]; [done|]. intros [Hkv Hkvs]%Forall_cons.
  specialize (IH Hkvs). pose proof (plain_pair_word k v Hkv) as Hw.
  assert (k +:+ "=" +:+ v ≠ "") as Hne by (by destruct k).
  rewrite fmap_cons. cbn [fst snd]. destruct kvs as [|kv kvs].
  - cbn [render_queries]. rewrite plain_value_amp by done.
    rewrite <-(str_app_nil_r (k +:+ "=" +:+ v)) at 1.
    rewrite words_go_plain by (by apply plain_value_words). cbn. by destruct k.
  - change (render_queries ((k, v) :: kv :: kvs))
      with (k +:+ "=" +:+ v +:+ "&" +:+ render_queries (kv :: kvs)).
    replace (k +:+ "=" +:+ v +:+ "&" +:+ render_queries (kv :: kvs))
      with ((k +:+ "=" +:+ v) +:+ ("&" +:+ render_queries (kv :: kvs)))
      by (by rewrite !str_app_assoc).
    rewrite str_map_app, plain_value_amp by done.
    rewrite words_go_plain by (by apply plain_value_words). rewrite str_map_app.
    change (str_map amp_to_space "&") with " ". cbn [String.append words_go].
    change (is_space " ") with true. cbn iota. rewrite IH.
    change ("" +:+ (k +:+ "=" +:+ v)) with (k +:+ "=" +:+ v). by rewrite decide_False.
Qed.

Lemma add_query_word queries k v :
  str_forall plain_key k → add_query queries (k +:+ "=" +:+ v) = <[k := v]> queries.
Proof.
  intros Hk. unfold add_query. change ("=" +:+ v) with (String "="%char v).
  rewrite split_first_app; [done|]. eapply str_forall_impl; [|exact Hk].
  intros a. unfold plain_key. rewrite andb_True. by intros [_ ?].
Qed.

Lemma foldl_add_queries kvs queries :
  Forall plain_pair kvs →
  foldl add_query queries ((λ kv, kv.1 +:+ "=" +:+ kv.2) <$> kvs)
  = foldl (λ q kv, <[kv.1 := kv.2]> q) queries kvs.
Proof.
  revert queries. induction kvs as [|[k v] kvs IH]; intros queries; [done|].
  intros [[Hk Hv] Hkvs]%Forall_cons. rewrite fmap_cons. cbn [foldl fst snd].
  rewrite add_query_word by done. by apply IH.
Qed.

Lemma get_queries_spec path kvs :
  str_forall (λ a, bool_decide (a ≠ "?"%char)) path → Forall plain_pair kvs →
  get_queries (path +:+ "?" +:+ render_queries kvs)
  = foldl (λ q kv, <[kv.1 := kv.2]> q) ∅ kvs.
Proof.
  intros Hp Hk. unfold get_queries.
  change ("?" +:+ render_queries kvs) with (String "?"%char (render_queries kvs)).
  rewrite split_first_app by done. rewrite words_render by done. by apply foldl_add_queries.
Qed.

Lemma plain_to_string z : str_forall plain_value (to_string z).
Proof.
  apply to_string_chars; [by vm_compute|]. intros a Ha. unfold plain_value.
  apply andb_True. split.
  - by rewrite is_digit_not_space.
  - apply bool_decide_spec. by apply (is_digit_neq a "&"%char).
Qed.

Lemma strtol_printed z : long_min ≤ z ≤ long_max → strtol (to_string z) = z.
Proof. intros. rewrite <-(str_app_nil_r (to_string z)). by apply strtol_to_string. Qed.

Lemma is_int32_long z : is_int32 z → long_min ≤ z ≤ long_max.
Proof. unfold is_int32, long_min, long_max. lia. Qed.

Lemma join_pieces_counter ps info id_ :
  is_int32 id_ → is_int32 (join_pieces ps info id_).2.
Proof.
  revert info id_. induction ps as [|p ps IH]; intros info id_ Hid; cbn [join_pieces].
  - destruct info; [done|]. apply to_int32_range.
  - destruct (is_partial p); [by apply IH|]. unfold getShardId.
    pose proof (IH [] (to_int32 (id_ + 1)) (to_int32_range _)) as H.
    by destruct (join_pieces ps [] (to_int32 (id_ + 1))).
Qed.

(** What the set-up of a job leaves alone, and the shard counter it sets. *)
Record set_up (w w' : World) : Prop := {
  su_rid : m_rid (master w') = m_rid (master w);
  su_fail : m_until_fail (master w') = m_until_fail (master w);
  su_clients : m_Clients (master w') = m_Clients (master w);
  su_map : m_ClientMap (master w') = m_ClientMap (master w);
  su_heap p : is_Some (heap w !! p) → is_Some (heap w' !! p);
  su_counter : request_counter w' = request_counter w;
  su_shard : is_int32 (shard_counter w) → is_int32 (shard_counter w')
}.

(** The parameters of a job. *)
Definition job_request (m : Master) : Z * Z * string := (m_nmappers m, m_nreducers m, m_containername m).

#[export] Instance set_up_preorder : PreOrder set_up.
Proof.
  split; [by intros w; split|]. intros w1 w2 w3 [] []. split; [congruence..|auto|congruence|auto].
Qed.

Lemma create_sharding_data_frame items w w' :
  create_sharding_data items w = Ret (Some w') →
  set_up w w' ∧ job_request (master w') = job_request (master w).
Proof.
  unfold create_sharding_data. simpl. destruct (m_dbConnection (master w)); [|by intros [= <-]].
  destruct (calc_shard_sz _ _) as [sz| | |]; try done. cbn [obind].
  destruct (make_shards _ _ _) as [ps|]; [|done]. cbn [getShardId].
  pose proof (join_pieces_counter ps [] (-1) ltac:(unfold is_int32; lia)) as Hid.
  destruct (join_pieces ps [] (-1)) as [shards id_]. by intros [= <-].
Qed.

Lemma start_repl_clt_thd_frame zk w w' :
  start_repl_clt_thd zk w = Ret w' → set_up w w' ∧ job_request (master w') = job_request (master w) ∧
  m_shards (master w') = m_shards (master w) ∧ m_dbConnection (master w') = m_dbConnection (master w).
Proof.
  unfold start_repl_clt_thd. destruct (doesReplMasterExists zk (master w)) as [[]| | |]; try done; cbn [obind].
  - destruct (repl_clt_thd (master w)); [done|]. by intros [= <-].
  - by intros [= <-].
Qed.

(** The job [process_job] leaves behind, whether or not it throws. *)
Lemma process_job_params zk storage items events h w :
  let w' := (process_job zk storage items events h w).1 in
  set_up w w' ∧ job_request (master w')
    = (to_int32 (strtol (rh_mappers h)), to_int32 (strtol (rh_reducers h)), rh_container h).
Proof.
  unfold process_job, set_num_mappers, set_num_reducers, create_container.
  generalize (to_int32 (strtol (rh_mappers h))) as a, (to_int32 (strtol (rh_reducers h))) as b.
  intros a b. cbn zeta beta iota. set (m := (master w) <| m_nreducers := b |> <| m_nmappers := a |> <| m_containername := _ |>).
  assert (set_up w (w <| master := m |>)) as H0 by done.
  destruct (match m_dbConnection m with Some _ => _ | None => _ end); try done.
  destruct items as [items| | |]; cbn [obind]; try done.
  destruct (create_sharding_data items (w <| master := m |>)) as [[w2|]| | |] eqn:Hs; try done.
  apply create_sharding_data_frame in Hs as [H1 H2].
  assert (set_up w w2) as H3 by (by etrans).
  destruct (start_repl_clt_thd zk w2) as [w3| | |] eqn:Ht; try done.
  apply start_repl_clt_thd_frame in Ht as (H4 & H5 & _). cbn [fst]. split; [|etrans; [exact H5|exact H2]].
  do 2 (etrans; [eassumption|]). split; try done. intros p. apply get_worker_addresses_heap.
Qed.

(** The world when the workers are looked for. *)
Definition requested (w : World) : World := w <| request_counter := to_int32 (request_counter w + 1) |>.

Lemma process_setup_listed zk junk storage items events h w wu :
  update_workers zk junk (requested w) = Ret wu →
  process_setup zk junk storage items events h w
  = process_job zk storage items events h
      (wu <| master := (master wu) <| m_rid := to_int32 (request_counter w + 1) |> |>).
Proof.
  intros Hu. unfold process_setup, request_id, set_requestid. cbn zeta beta iota.
  unfold requested in Hu. by rewrite Hu.
Qed.

Lemma process_setup_unlisted zk junk storage items events h w :
  (∀ wu, update_workers zk junk (requested w) ≠ Ret wu) →
  process_setup zk junk storage items events h w
  = (requested w, ovoid (update_workers zk junk (requested w))).
Proof.
  intros Hu. unfold process_setup, request_id, set_requestid. cbn zeta beta iota.
  unfold requested in *. destruct (update_workers _ _ _) as [wu| | |]; [by destruct (Hu wu)|done..].
Qed.

Lemma process_setup_storage_error zk junk storage items events h w wu e :
  update_workers zk junk (requested w) = Ret wu →
  m_dbConnection (master w) ≠ None → storage (rh_container h) = Raise e →
  (process_setup zk junk storage items events h w).2 = Raise e.
Proof.
  intros Hu Hdb Hst. rewrite (process_setup_listed _ _ _ _ _ _ _ wu Hu).
  destruct (update_workers_shape _ _ _ _ Hu) as (cs & cm & hp & -> & _).
  unfold process_job, create_container. cbn -[to_int32 strtol].
  destruct (m_dbConnection (master w)); [|done]. by rewrite Hst.
Qed.

Lemma f32_div_zero x : ceil_to_size (f32_div x (f32_of_Z 0)) = Undef.
Proof. by destruct x. Qed.

(** ** Properties *)

(** C29: [get_queries] inverts the rendering of a query: for keys and values
    without separators, each key is bound to its last value. *)
Theorem get_queries_render path kvs :
  str_forall (λ a, bool_decide (a ≠ "?"%char)) path → Forall plain_pair kvs →
  get_queries (path +:+ "?" +:+ render_queries kvs)
  = foldl (λ q kv, <[kv.1 := kv.2]> q) ∅ kvs ∧
  (NoDup kvs.*1 → get_queries (path +:+ "?" +:+ render_queries kvs) = list_to_map kvs).
Proof.
  intros Hp Hk. rewrite get_queries_spec by done. split; [done|]. intros Hnd.
  clear Hp Hk. induction kvs as [|[k v] kvs IH] using rev_ind; [done|].
  rewrite fmap_app in Hnd. apply NoDup_app in Hnd as (Hnd & Hd & _).
  rewrite foldl_app, IH by done. cbn [foldl fst snd]. rewrite list_to_map_snoc; [done|].
  intros Hin. apply (Hd k Hin). apply list_elem_of_here.
Qed.

(** C30: a job request reaches the master: once the workers are listed
    ([update_workers], which [set_requestid] calls first), the container and the
    numbers of mappers and reducers it names are the master's parameters, the
    request has the next id and the clients are those of the listing, whether or
    not what follows throws; if ZooKeeper throws something else than a
    [std::exception] when the workers are listed, it leaves [process] and only the
    request counter has changed. *)
Theorem upload_request_params zk junk storage items events c m r w :
  str_forall plain_value c → is_int32 m → is_int32 r → is_int32 (request_counter w + 1) →
  let dest := "/upload?" +:+ render_queries [("container", c); ("m", to_string m); ("r", to_string r)] in
  let w1 := w <| request_counter := request_counter w + 1 |> in
  let res := process_setup zk junk storage items events (req_handler_new (mkRequest "POST" dest)) w in
  request_counter res.1 = request_counter w + 1 ∧
  (∀ wu, update_workers zk junk w1 = Ret wu →
     m_containername (master res.1) = c ∧ m_nmappers (master res.1) = m ∧ m_nreducers (master res.1) = r ∧
     m_rid (master res.1) = request_counter w + 1 ∧
     m_Clients (master res.1) = m_Clients (master wu) ∧
     m_ClientMap (master res.1) = m_ClientMap (master wu)) ∧
  (∀ e, m_has_failed (master w) = false → zk_children zk "/workers" = Raise e →
     std_exception e = false → res = (w1, Raise e)).
Proof.
  intros Hc Hm Hr Hid dest w1 res. subst res.
  set (h := req_handler_new (mkRequest "POST" dest)).
  assert (h = mkReqHandler c (to_string m) (to_string r)) as ->.
  { unfold h, req_handler_new. cbn [req_destination].
    assert (str_contains "/upload" dest = true) as -> by done.
    change dest with ("/upload" +:+ "?" +:+ render_queries
      [("container", c); ("m", to_string m); ("r", to_string r)]).
    rewrite get_queries_spec; [|by vm_compute|].
    - cbn [foldl fst snd]. f_equal; by simplify_map_eq.
    - repeat apply Forall_cons_2; [..|by apply Forall_nil]; split; cbn [fst snd];
        try done; try apply plain_to_string; by vm_compute. }
  assert (requested w = w1) as Hw1 by (unfold requested; by rewrite to_int32_id).
  set (h' := mkReqHandler c (to_string m) (to_string r)).
  assert (∀ wu, update_workers zk junk w1 = Ret wu →
    let w' := (process_setup zk junk storage items events h' w).1 in
    set_up (wu <| master := (master wu) <| m_rid := request_counter w + 1 |> |>) w' ∧
    job_request (master w') = (m, r, c)) as Hlisted.
  { intros wu Hu. rewrite <-Hw1 in Hu.
    rewrite (process_setup_listed _ _ _ _ _ _ _ wu Hu), (to_int32_id _ Hid).
    match goal with |- context [process_job _ _ _ _ _ ?w0] =>
      destruct (process_job_params zk storage items events h' w0) as [H1 H2] end.
    split; [done|]. etrans; [exact H2|]. cbn [rh_mappers rh_reducers rh_container h'].
    rewrite !strtol_printed by (by apply is_int32_long). by rewrite !to_int32_id. }
  assert (∀ wu, update_workers zk junk w1 = Ret wu → request_counter wu = request_counter w + 1) as Hcnt.
  { by intros wu (_ & _ & ->)%update_workers_frame. }
  split; [|split].
  - destruct (update_workers zk junk w1) as [wu| | |] eqn:Hu.
    { destruct (Hlisted wu eq_refl) as [[] _]. etrans; [eassumption|]. exact (Hcnt wu eq_refl). }
    all: rewrite process_setup_unlisted by (rewrite Hw1, Hu; by intros); cbn [fst]; by rewrite Hw1.
  - intros wu Hu. destruct (Hlisted wu Hu) as [[Hrid _ Hcl Hmap _ _ _] [= Hn Hred Hcont]].
    exact (conj Hcont (conj Hn (conj Hred (conj Hrid (conj Hcl Hmap))))).
  - intros e Hf Hz He. assert (update_workers zk junk w1 = Raise e) as Hu.
    { unfold update_workers. change (m_has_failed (master w1)) with (m_has_failed (master w)).
      rewrite Hf, Hz. cbn [catch_std]. by rewrite He. }
    rewrite process_setup_unlisted by (rewrite Hw1, Hu; by intros). by rewrite Hw1, Hu.
Qed.

(** the number of mappers is read exactly if it is an [int]; a larger one
    wraps around modulo 2^32 without an error. *)
Theorem set_num_mappers_exact z m :
  long_min ≤ z ≤ long_max →
  (m_nmappers (set_num_mappers (to_string z) m) = z ↔ is_int32 z) ∧
  (m_nmappers (set_num_mappers (to_string z) m) - z) mod 2 ^ 32 = 0.
Proof.
  intros Hz. simpl. rewrite strtol_printed by done. split.
  - split; [|by apply to_int32_id]. intros <-. apply to_int32_range.
  - unfold to_int32. pose proof (Z.div_mod (z + 2 ^ 31) (2 ^ 32)).
    replace ((z + 2 ^ 31) mod 2 ^ 32 - 2 ^ 31 - z) with (- ((z + 2 ^ 31) / 2 ^ 32) * 2 ^ 32) by lia.
    apply Z_mod_mult.
Qed.

(** a request without a number of mappers (the form [workshop8.md] gives)
    has undefined behaviour for every container listing: the shard size is a
    division by zero, converted to [size_t]. No response is defined. *)
Theorem upload_without_mappers what took zk junk storage items events c w wu :
  str_forall plain_value c → m_dbConnection (master w) ≠ None →
  update_workers zk junk (requested w) = Ret wu → storage c = Ret tt →
  let req := mkRequest "POST" ("/upload?" +:+ render_queries [("container", c)]) in
  (connection_handler what took (process_setup zk junk storage (Ret items) events) req w).2 = None ∧
  (process_setup zk junk storage (Ret items) events (req_handler_new req) w).2 = Undef.
Proof.
  intros Hc Hdb Hu Hst.
  set (dest := "/upload?" +:+ render_queries [("container", c)]).
  assert (req_handler_new (mkRequest "POST" dest) = mkReqHandler c "" "") as Hh.
  { unfold req_handler_new. cbn [req_destination].
    assert (str_contains "/upload" dest = true) as -> by done.
    change dest with ("/upload" +:+ "?" +:+ render_queries [("container", c)]).
    rewrite get_queries_spec; [|by vm_compute|].
    - cbn [foldl fst snd]. f_equal; by simplify_map_eq.
    - apply Forall_singleton. split; [by vm_compute|done]. }
  assert ((process_setup zk junk storage (Ret items) events (mkReqHandler c "" "") w).2 = Undef) as Hp.
  { rewrite (process_setup_listed _ _ _ _ _ _ _ wu Hu).
    destruct (update_workers_shape _ _ _ _ Hu) as (cs & cm & hp & -> & _).
    unfold process_job, create_container. simpl.
    destruct (m_dbConnection (master w)) as [conn|] eqn:Hconn; [|done].
    rewrite Hst. unfold create_sharding_data. simpl. rewrite Hconn. unfold calc_shard_sz.
    change (to_int32 (strtol "")) with 0. by rewrite f32_div_zero. }
  cbn zeta. rewrite Hh. split; [|done]. unfold connection_handler. rewrite decide_True by done.
  rewrite Hh. destruct (process_setup _ _ _ _ _ _ w) as [w' o]. simpl in *. by subst.
Qed.

(** a request that is not a POST to a path with /upload is refused with a
    400 and leaves the master as it was; a storage error while the container is
    made is answered with a 400 that carries its message. *)
Theorem connection_handler_errors what took zk junk storage items events req w wu :
  (req_method req ≠ "POST" ∨ str_contains "/upload" (req_destination req) = false →
   ∃ n, connection_handler what took (process_setup zk junk storage items events) req w
        = (w, Some (mkResponse http_bad_request n "Only path allowed is /upload"))) ∧
  (req_method req = "POST" → str_contains "/upload" (req_destination req) = true →
   update_workers zk junk (requested w) = Ret wu →
   m_dbConnection (master w) ≠ None → storage (rh_container (req_handler_new req)) = Raise StorageError →
   (connection_handler what took (process_setup zk junk storage items events) req w).2
   = Some (mkResponse http_bad_request (Z.of_nat (String.length (what StorageError))) (what StorageError))).
Proof.
  split.
  - intros H. eexists. unfold connection_handler. rewrite decide_False; [done|].
    destruct H as [?|Hf]; [naive_solver|rewrite Hf; naive_solver].
  - intros Hm Hd Hu Hdb Hst. unfold connection_handler. rewrite decide_True by done.
    pose proof (process_setup_storage_error zk junk storage items events _ w wu StorageError Hu Hdb Hst) as Hp.
    destruct (process_setup _ _ _ _ _ _ w) as [w' o]. cbn [snd] in *. by rewrite Hp.
Qed.

(** ** Concrete runs *)

Definition ex_http_world : World :=
  let w := World_new 0 in w <| master := create_connection "conn" (master w) |>.

Lemma get_queries_render_witness :
  get_queries ("/upload" +:+ "?" +:+ render_queries [("m", "4"); ("r", "2")])
  = list_to_map [("m", "4"); ("r", "2")].
Proof.
  refine (proj2 (get_queries_render "/upload" [("m", "4"); ("r", "2")] _ _) _).
  - vm_compute. exact I.
  - repeat constructor; vm_compute; exact I.
  - apply (bool_decide_unpack _). vm_compute. exact I.
Defined.

(** The first request of a master that finds two workers. *)
Definition ex_listed : World :=
  match update_workers ex_zk PING_CHECK (requested ex_http_world) with Ret w => w | _ => ex_http_world end.
Lemma ex_listed_eq :
  update_workers ex_zk PING_CHECK (requested ex_http_world) = Ret ex_listed ∧
  length (m_Clients (master ex_listed)) = 2%nat.
Proof. split; vm_compute; reflexivity. Qed.

Lemma upload_request_params_witness :
  let w' := (process_setup ex_zk PING_CHECK (λ _, Ret tt) (Ret []) []
    (req_handler_new (mkRequest "POST" ("/upload?" +:+ render_queries
       [("container", "c"); ("m", to_string 4); ("r", to_string 2)]))) ex_http_world).1 in
  m_nmappers (master w') = 4 ∧ m_rid (master w') = 0 ∧ length (m_Clients (master w')) = 2%nat.
Proof.
  destruct (upload_request_params ex_zk PING_CHECK (λ _, Ret tt) (Ret []) [] "c" 4 2 ex_http_world)
    as (_ & H & _).
  - vm_compute. exact I.
  - unfold is_int32. lia.
  - unfold is_int32. lia.
  - unfold is_int32. simpl. lia.
  - destruct (H ex_listed (proj1 ex_listed_eq)) as (_ & H1 & _ & H2 & H3 & _).
    exact (conj H1 (conj H2 (eq_trans (f_equal length H3) (proj2 ex_listed_eq)))).
Defined.

Lemma set_num_mappers_exact_witness :
  m_nmappers (set_num_mappers (to_string (2 ^ 32 + 3)) (Master_new 0)) ≠ 2 ^ 32 + 3.
Proof.
  intros H. apply (set_num_mappers_exact (2 ^ 32 + 3) (Master_new 0)) in H.
  - unfold is_int32 in H. lia.
  - unfold long_min, long_max. lia.
Defined.

Lemma upload_without_mappers_witness :
  (process_setup ex_zk PING_CHECK (λ _, Ret tt) (Ret [mk_blob_item true "in.txt" 100]) []
    (req_handler_new (mkRequest "POST" ("/upload?" +:+ render_queries [("container", "mr19container")])))
    ex_http_world).2 = Undef.
Proof.
  refine (proj2 (upload_without_mappers (λ _, "") "" ex_zk PING_CHECK (λ _, Ret tt) _ [] "mr19container"
    ex_http_world ex_listed _ _ (proj1 ex_listed_eq) _)).
  - vm_compute. exact I.
  - discriminate.
  - reflexivity.
Defined.

Lemma connection_handler_errors_witness :
  ∃ n, connection_handler (λ _, "") "" (process_setup ex_zk PING_CHECK (λ _, Ret tt) (Ret []) [])
         (mkRequest "GET" "/upload") ex_http_world
       = (ex_http_world, Some (mkResponse http_bad_request n "Only path allowed is /upload")).
Proof.
  apply (connection_handler_errors (λ _, "") "" ex_zk PING_CHECK (λ _, Ret tt) (Ret []) []
    (mkRequest "GET" "/upload") ex_http_world ex_http_world).
  left. discriminate.
Defined.

(** The replication client's thread is joined only when the master stops leading:
    with another master there, the second job a leader is sent assigns to the
    thread of the first, which ends the process. *)
Definition ex_two_masters : Zookeeper :=
  mkZookeeper (λ p, if decide (p = "/masters") then Ret ["master_0"; "master_1"] else Ret [])
    (λ _, "b:5050").
Definition ex_job_request (w : World) : World * outcome unit :=
  process_setup ex_two_masters PING_CHECK (λ _, Ret tt) (Ret [mk_blob_item true "in.txt" 100]) []
    (mkReqHandler "c" "2" "2") w.

Example second_job_terminates :
  (ex_job_request ex_http_world).2 = Ret tt ∧
  repl_clt_thd (master (ex_job_request ex_http_world).1) = true ∧
  (ex_job_request (ex_job_request ex_http_world).1).2 = Raise Terminate.
Proof. split; [|split]; vm_compute; reflexivity. Qed.
