(* ===== verification/WorkerText.v ===== *)
(** * The text of a shard piece ([WorkerDBConnection::fix_word_boundary])

    A worker downloads its piece and [EXTRA_LEN] bytes more, blanks the word the
    piece starts in and reads on to the end of the word the piece ends in.

    The theorems: the pieces of the shards the master makes keep every byte of
    the input exactly once, provided the shard size is at least [EXTRA_LEN] or no
    word is that long; with a longer word and a smaller shard size bytes are
    lost. *)

From S2P Require Export Sharding.

(** Bytes of a blob or a file. *)
Abbreviation bytes := (list ascii).

Definition EXTRA_LEN : Z := 16.

(** [c == ' ' || c == '.' || c == ','] *)
Definition is_delim (c : ascii) : bool :=
  bool_decide (c = " "%char ∨ c = "."%char ∨ c = ","%char).

(** The first loop: up to [n] bytes are blanked; [at] throws past the end. *)
Fixpoint blank_start (n : nat) (collection : bytes) : outcome bytes :=
  match n with
  | O => Ret collection
  | S n =>
      match collection with
      | [] => Raise OutOfRange
      | c :: rest =>
          if is_delim c then Ret collection
          else let! rest := blank_start n rest in Ret (" "%char :: rest)
      end
  end.

(** The second loop and [erase]: what is kept of the bytes from [endpos] on. *)
Fixpoint until_delim (l : bytes) : bytes :=
  match l with
  | [] => []
  | c :: l => if is_delim c then [] else c :: until_delim l
  end.

(** [WorkerDBConnection::fix_word_boundary]. With a negative [endpos] the loop
    does not run and [erase] gets an iterator before the first element. *)
Definition fix_word_boundary (b e : Z) (collection : bytes) : outcome bytes :=
  let! collection :=
    (if decide (b = 0) then Ret collection else blank_start (Z.to_nat EXTRA_LEN) collection) in
  let endpos := to_int32 (to_size (e - b)) in
  let eofpos := to_int32 (Z.of_nat (length collection)) in
  if decide (endpos < eofpos) then
    if decide (endpos < 0) then Undef
    else Ret (take (Z.to_nat endpos) collection ++ until_delim (drop (Z.to_nat endpos) collection))
  else Ret collection.

(** [WorkerDBConnection::add_suffix]; its calls are commented out. *)
Definition add_suffix (collection : bytes) : bytes :=
  collection ++ String.list_ascii_of_string " gatech".

(** ** Specification

    [run t p] counts the bytes from offset [p] of the text [t] to the next
    delimiter or the end. A piece boundary at [p] cuts the text there, at most
    [EXTRA_LEN] bytes on. *)

Definition slice (i j : nat) (t : bytes) : bytes := take (j - i) (drop i t).

Definition run (t : bytes) (p : nat) : nat := length (until_delim (drop p t)).

Definition cut (t : bytes) (p : nat) : nat :=
  if decide (p = 0%nat) then 0%nat else (p + 16 `min` run t p)%nat.

(** What the worker downloads for the piece [b, e). *)
Definition downloaded (t : bytes) (b e : nat) : bytes :=
  take (e - b + Z.to_nat EXTRA_LEN) (drop b t).

Definition blanks (n : nat) : bytes := replicate n " "%char.

(** The piece [b, e) keeps [part] of the text: what is left of the download is
    [part] after blanks, or an exception is thrown and nothing is left. *)
Definition keeps (t : bytes) (b e : nat) (part : bytes) : Prop :=
  (∃ k, fix_word_boundary (Z.of_nat b) (Z.of_nat e) (downloaded t b e) = Ret (blanks k ++ part)) ∨
  (fix_word_boundary (Z.of_nat b) (Z.of_nat e) (downloaded t b e) = Raise OutOfRange ∧ part = []).

(** A piece that is not in the middle of a blob, is long enough, or does not
    start in a run of [EXTRA_LEN] bytes without a delimiter. *)
Definition good_piece (t : bytes) (b e : nat) : Prop :=
  b = 0%nat ∨ (16 ≤ e - b)%nat ∨ e = length t ∨ (run t b < 16)%nat.

(** ** Lemmas *)

Lemma until_delim_length l : (length (until_delim l) ≤ length l)%nat.
Proof. induction l as [|c l IH]; simpl; [lia|]. destruct (is_delim c); simpl; lia. Qed.

Lemma until_delim_take l : until_delim l = take (length (until_delim l)) l.
Proof.
  induction l as [|c l IH]; [done|]. simpl. destruct (is_delim c); [done|]. simpl. by f_equal.
Qed.

Lemma until_delim_take_length n l :
  length (until_delim (take n l)) = (n `min` length (until_delim l))%nat.
Proof.
  revert l. induction n as [|n IH]; intros [|c l]; simpl; try done.
  destruct (is_delim c); [done|]. simpl. by rewrite IH.
Qed.

Lemma until_delim_app_stop k c l : is_delim c = true → until_delim (k ++ c :: l) = until_delim k.
Proof.
  intros Hc. induction k as [|x k IH]; simpl; [by rewrite Hc|].
  destruct (is_delim x); [done|]. by rewrite IH.
Qed.

Lemma until_delim_drop k l :
  (k ≤ length (until_delim l))%nat → until_delim (drop k l) = drop k (until_delim l).
Proof.
  revert l. induction k as [|k IH]; intros l Hk; [done|].
  destruct l as [|c l]; [done|]. simpl in *. destruct (is_delim c); [simpl in Hk; lia|].
  simpl in *. apply IH. lia.
Qed.

(** The two loops agree on where the cut is. *)
Lemma blank_start_spec n l :
  (n ≤ length l ∨ length (until_delim l) < length l)%nat →
  blank_start n l
  = Ret (blanks (n `min` length (until_delim l)) ++ drop (n `min` length (until_delim l)) l).
Proof.
  revert l. induction n as [|n IH]; intros l Hl; [done|].
  destruct l as [|c l]; [simpl in Hl; lia|]. simpl in *. destruct (is_delim c); [done|].
  rewrite IH by (simpl in Hl; lia). done.
Qed.

Lemma blank_start_short n l :
  (length l < n)%nat → length (until_delim l) = length l → blank_start n l = Raise OutOfRange.
Proof.
  revert l. induction n as [|n IH]; intros l Hn Hu; [lia|].
  destruct l as [|c l]; [done|]. simpl in *. destruct (is_delim c); [done|].
  rewrite IH by (simpl in *; lia). done.
Qed.

Lemma run_le t p : (run t p ≤ length t - p)%nat.
Proof. unfold run. rewrite <-length_drop. apply until_delim_length. Qed.

Lemma cut_ge t p : (p ≤ cut t p)%nat.
Proof. unfold cut. destruct (decide _); lia. Qed.

Lemma cut_le t p : (p ≤ length t)%nat → (cut t p ≤ length t)%nat.
Proof. pose proof (run_le t p). unfold cut. destruct (decide _); lia. Qed.

Lemma cut_end t : cut t (length t) = length t.
Proof. pose proof (run_le t (length t)). unfold cut. destruct (decide _); lia. Qed.

Lemma run_shift t b e : (b ≤ e ≤ b + run t b)%nat → run t e = (run t b - (e - b))%nat.
Proof.
  intros H. unfold run in *. replace e with (b + (e - b))%nat at 1 by lia.
  rewrite <-drop_drop, until_delim_drop, length_drop; lia.
Qed.

Lemma slice_app i j k (t : bytes) : (i ≤ j ≤ k)%nat → slice i j t ++ slice j k t = slice i k t.
Proof.
  intros H. unfold slice. replace (drop j t) with (drop (j - i) (drop i t)).
  2:{ rewrite drop_drop. f_equal. lia. }
  rewrite take_take_drop. f_equal. lia.
Qed.

Lemma slice_nil i (t : bytes) : slice i i t = [].
Proof. unfold slice. by rewrite Nat.sub_diag. Qed.

Lemma slice_all (t : bytes) : slice 0 (length t) t = t.
Proof. unfold slice. rewrite drop_0. apply take_ge. lia. Qed.

Lemma length_blanks n : length (blanks n) = n.
Proof. apply length_replicate. Qed.

Lemma slice_to_end i (t : bytes) : slice i (length t) t = drop i t.
Proof. unfold slice. apply take_ge. rewrite length_drop. lia. Qed.

Section Piece.
Context (t : bytes) (b e : nat).
Context (Hbe : (b ≤ e ≤ length t)%nat) (Ht : Z.of_nat (length t) < 2 ^ 31).

Lemma downloaded_length :
  length (downloaded t b e) = ((e - b + 16) `min` (length t - b))%nat.
Proof using. unfold downloaded. rewrite length_take, length_drop. done. Qed.

Lemma drop_downloaded k :
  (k ≤ e - b + 16)%nat → drop k (downloaded t b e) = take (e - b + 16 - k) (drop (b + k) t).
Proof using. intros Hk. unfold downloaded. change (Z.to_nat EXTRA_LEN) with 16%nat.
  rewrite skipn_firstn_comm, drop_drop. done.
Qed.

(** The first loop of the piece. *)
Definition started : outcome bytes :=
  if decide (Z.of_nat b = 0) then Ret (downloaded t b e)
  else blank_start (Z.to_nat EXTRA_LEN) (downloaded t b e).

Lemma started_spec :
  (started = Raise OutOfRange ∧ cut t b = length t) ∨
  started = Ret (blanks (cut t b - b) ++ drop (cut t b - b) (downloaded t b e)).
Proof using Hbe.
  unfold started, cut. destruct (decide (Z.of_nat b = 0)), (decide (b = 0%nat)); try lia.
  { right. by subst b. }
  assert (length (until_delim (downloaded t b e)) = ((e - b + 16) `min` run t b)%nat) as Hu.
  { unfold downloaded, run. by rewrite until_delim_take_length. }
  pose proof downloaded_length as Hd. pose proof (run_le t b) as Hr.
  change (Z.to_nat EXTRA_LEN) with 16%nat.
  destruct (decide (16 ≤ length (downloaded t b e) ∨
    length (until_delim (downloaded t b e)) < length (downloaded t b e))%nat) as [Hc|Hc].
  - right. rewrite blank_start_spec by done. rewrite Hu.
    replace (16 `min` ((e - b + 16) `min` run t b))%nat with (b + 16 `min` run t b - b)%nat by lia.
    done.
  - left. split; [apply blank_start_short|]; rewrite ?Hu, ?Hd in *; lia.
Qed.

Lemma fix_word_boundary_started :
  fix_word_boundary (Z.of_nat b) (Z.of_nat e) (downloaded t b e)
  = (let! c := started in
     if decide (e - b < length c)%nat
     then Ret (take (e - b) c ++ until_delim (drop (e - b) c)) else Ret c).
Proof using Hbe Ht.
  change (fix_word_boundary (Z.of_nat b) (Z.of_nat e) (downloaded t b e)) with
    (let! c := started in
     let endpos := to_int32 (to_size (Z.of_nat e - Z.of_nat b)) in
     if decide (endpos < to_int32 (Z.of_nat (length c))) then
       if decide (endpos < 0) then Undef
       else Ret (take (Z.to_nat endpos) c ++ until_delim (drop (Z.to_nat endpos) c))
     else Ret c).
  destruct started as [c| | |] eqn:Hs; try done. simpl.
  assert (length c = length (downloaded t b e)) as Hc.
  { destruct started_spec as [[Hr _]|Hr]; rewrite Hs in Hr; [done|]. injection Hr as ->.
    rewrite length_app, length_blanks, length_drop, downloaded_length.
    pose proof (run_le t b). unfold cut. destruct (decide (b = 0%nat)); lia. }
  rewrite (to_size_id (Z.of_nat e - Z.of_nat b)) by (unfold is_size; lia).
  rewrite downloaded_length in Hc.
  rewrite !to_int32_id by (unfold is_int32; lia).
  replace (Z.to_nat (Z.of_nat e - Z.of_nat b)) with (e - b)%nat by lia.
  destruct (decide (Z.of_nat e - Z.of_nat b < Z.of_nat (length c))),
    (decide (e - b < length c)%nat); try lia.
  { destruct (decide (Z.of_nat e - Z.of_nat b < 0)); [lia|done]. }
  done.
Qed.

Lemma piece_keeps :
  e ≠ 0%nat ∨ t = [] → good_piece t b e → keeps t b e (slice (cut t b) (cut t e) t).
Proof using Hbe Ht.
  intros He Hg. unfold keeps. rewrite fix_word_boundary_started.
  destruct started_spec as [[-> Hc]| ->].
  { right. split; [done|]. unfold slice. rewrite Hc, drop_all. apply take_nil. }
  left. simpl. pose proof (run_le t b) as Hr. pose proof downloaded_length as Hd.
  assert (cut t b - b ≤ 16 ∧ cut t b ≤ length t ∧ b ≤ cut t b)%nat as (Hk & Hcl & Hcb).
  { unfold cut. destruct (decide (b = 0%nat)); lia. }
  rewrite length_app, length_blanks, length_drop.
  replace (cut t b - b + (length (downloaded t b e) - (cut t b - b)))%nat
    with (length (downloaded t b e)) by lia.
  destruct (decide _) as [Hlt|Hge].
  - assert (e < length t)%nat as Het by lia.
    assert (cut t e = (e + 16 `min` run t e)%nat) as Hce.
    { unfold cut. destruct (decide (e = 0%nat)); [|done]. destruct He as [?| ->]; [done|simpl in *; lia]. }
    destruct (decide (cut t b ≤ e)%nat) as [Hin|Hout].
    + exists (cut t b - b)%nat. f_equal. rewrite take_app, length_blanks.
      rewrite (take_ge (blanks _)) by (rewrite length_blanks; lia).
      rewrite <-app_assoc. f_equal. rewrite drop_app, length_blanks.
      rewrite (drop_ge (blanks _)) by (rewrite length_blanks; lia). simpl.
      rewrite drop_drop, !drop_downloaded by lia. rewrite take_take.
      replace (b + (cut t b - b))%nat with (cut t b) by lia.
      replace ((e - b - (cut t b - b)) `min` (e - b + 16 - (cut t b - b)))%nat
        with (e - cut t b)%nat by lia.
      replace (b + (cut t b - b + (e - b - (cut t b - b))))%nat with e by lia.
      replace (e - b + 16 - (cut t b - b + (e - b - (cut t b - b))))%nat with 16%nat by lia.
      rewrite <-(slice_app (cut t b) e) by lia. f_equal. unfold slice.
      rewrite until_delim_take, take_take, until_delim_take_length, Hce. fold (run t e).
      f_equal. lia.
    + assert (b ≠ 0%nat ∧ cut t b = b + run t b)%nat as [Hb0 Hcr].
      { unfold good_piece, cut in *. destruct (decide (b = 0%nat)); lia. }
      exists (e - b)%nat. f_equal. rewrite (run_shift t b e) in Hce by lia.
      replace (cut t e) with (cut t b).
      2:{ rewrite Hce. unfold good_piece in Hg. lia. }
      rewrite slice_nil, take_app_le by (rewrite length_blanks; lia).
      rewrite drop_app_le by (rewrite length_blanks; lia).
      unfold blanks. rewrite take_replicate, drop_replicate.
      replace (cut t b - b - (e - b))%nat with (S (cut t b - e - 1)) by lia. simpl.
      f_equal. f_equal. lia.
  - exists (cut t b - b)%nat. assert (e = length t) as He' by lia.
    replace (cut t e) with (length t) by (by rewrite He', cut_end).
    rewrite slice_to_end, drop_downloaded by lia.
    replace (b + (cut t b - b))%nat with (cut t b) by lia.
    rewrite take_ge; [done|]. rewrite length_drop. lia.
Qed.
End Piece.

(** ** The pieces of a blob *)

(** No run of [EXTRA_LEN] bytes without a delimiter. *)
Definition short_words (t : bytes) : Prop := ∀ p, (run t p < 16)%nat.

(** The pieces cut from the blob [name] of [size] bytes, from offset [b] on: all
    but the first and the last have the length of a shard. *)
Fixpoint regular (name : string) (sz size b : Z) (ps : list shard_info) : Prop :=
  match ps with
  | [] => b = size
  | p :: ps =>
      blob_name p = name ∧ begin_offset p = b ∧ b ≤ end_offset p ≤ size ∧
      (0 < end_offset p ∨ size = 0) ∧
      (b = 0 ∨ end_offset p - b = sz ∨ end_offset p = size) ∧
      regular name sz size (end_offset p) ps
  end.

(** What the workers keep of a list of pieces, [content] being the text of the
    blob of that name. *)
Definition kept (content : string → bytes) (d : ShardData) (part : bytes) : Prop :=
  keeps (content (blobName_ d)) (Z.to_nat (begin_ d)) (Z.to_nat (end_ d)) part.

(** [i] is where a text is cut for the piece boundary [p]: at the start of the
    text for its first offset; else at the first delimiter from [p] on, if that is
    less than [EXTRA_LEN] bytes away, at the end of the text if that is, and
    otherwise [EXTRA_LEN] bytes on. *)
Definition word_cut (t : bytes) (p i : nat) : Prop :=
  (p = 0%nat ∧ i = 0%nat) ∨
  (p ≤ i ≤ p + 16)%nat ∧
  (∀ k c, (p ≤ k < i)%nat → t !! k = Some c → is_delim c = false) ∧
  (i = (p + 16)%nat ∨ i = length t ∨ ∃ c, t !! i = Some c ∧ is_delim c = true).

(** What the workers keep of a piece is the text between the cuts for its two
    ends. *)
Definition kept_words (content : string → bytes) (d : ShardData) (part : bytes) : Prop :=
  kept content d part ∧
  let t := content (blobName_ d) in
  ∃ i j, part = slice i j t ∧ word_cut t (Z.to_nat (begin_ d)) i ∧ word_cut t (Z.to_nat (end_ d)) j.

Lemma until_delim_lookup l k c :
  (k < length (until_delim l))%nat → l !! k = Some c → is_delim c = false.
Proof.
  revert k. induction l as [|a l IH]; intros k; [done|]. simpl.
  destruct (is_delim a) eqn:Ha; simpl; [lia|]. destruct k as [|k]; simpl; [by intros _ [= <-]|].
  intros Hk. apply IH. lia.
Qed.

(** Something read off a text that can be read off in parts, cut before a
    delimiter: what becomes of the words, for one. *)
Definition additive {X} (W : bytes → list X) : Prop :=
  W [] = [] ∧ ∀ l c k, is_delim c = true → W (l ++ c :: k) = W l ++ W (c :: k).

Lemma drop_run t p : drop (p + run t p) t = [] ∨ ∃ c l, drop (p + run t p) t = c :: l ∧ is_delim c = true.
Proof.
  rewrite <-drop_drop. unfold run. induction (drop p t) as [|c l IH]; [by left|]. simpl.
  destruct (is_delim c) eqn:Hc; [|done]. right. by exists c, l.
Qed.

Lemma cut_word_cut t p : (p ≤ length t)%nat → word_cut t p (cut t p).
Proof.
  intros Hp. unfold word_cut, cut. destruct (decide (p = 0%nat)) as [->|Hne]; [by left|right].
  pose proof (run_le t p) as Hr. split; [lia|]. split.
  - intros k c Hk Hc. apply (until_delim_lookup (drop p t) (k - p)).
    + fold (run t p). lia.
    + rewrite lookup_drop. by replace (p + (k - p))%nat with k by lia.
  - destruct (decide (16 ≤ run t p)%nat); [left; lia|right].
    replace (16 `min` run t p)%nat with (run t p) by lia.
    destruct (drop_run t p) as [Hd|(c & l & Hd & Hc)].
    + left. apply (f_equal length) in Hd. rewrite length_drop in Hd. simpl in Hd. lia.
    + right. exists c. split; [|done]. rewrite <-(Nat.add_0_r (p + run t p)), <-lookup_drop, Hd. done.
Qed.

(** A cut between short words is one a reading can be put together at. *)
Lemma additive_cut {X} (W : bytes → list X) t i p :
  additive W → short_words t → (i ≤ cut t p ≤ length t)%nat →
  W (slice i (cut t p) t) ++ W (slice (cut t p) (length t) t) = W (slice i (length t) t).
Proof.
  intros [Hnil Happ] Hs Hi. rewrite <-(slice_app i (cut t p) (length t)) by lia.
  rewrite slice_to_end. unfold cut in *. destruct (decide (p = 0%nat)) as [->|Hp].
  { replace i with 0%nat by lia. by rewrite slice_nil, Hnil. }
  specialize (Hs p). replace (16 `min` run t p)%nat with (run t p) in * by lia.
  destruct (drop_run t p) as [->|(c & l & -> & Hc)]; [by rewrite Hnil, !app_nil_r|].
  by rewrite Happ.
Qed.

Lemma regular_keeps content name sz b ps :
  let t := content name in
  Z.of_nat (length t) < 2 ^ 31 → 16 ≤ sz ∨ short_words t → 0 ≤ b →
  regular name sz (Z.of_nat (length t)) b ps →
  ∃ parts, concat parts = slice (cut t (Z.to_nat b)) (length t) t ∧
    (short_words t → ∀ X (W : bytes → list X), additive W →
       concat (W <$> parts) = W (slice (cut t (Z.to_nat b)) (length t) t)) ∧
    Forall2 (kept_words content) (to_ShardData <$> ps) parts.
Proof.
  intros t Ht Hsz. revert b. induction ps as [|p ps IH]; intros b Hb Hreg; simpl in Hreg.
  { exists []. subst b. rewrite Nat2Z.id, cut_end, slice_nil. split; [done|]. split; [|constructor].
    by intros _ X W [-> _]. }
  destruct Hreg as (Hn & Hpb & Hpe & Hne & Hgood & Hreg).
  destruct (IH (end_offset p) ltac:(lia) Hreg) as (parts & Hcat & Hadd & Hparts).
  set (bn := Z.to_nat b) in *. set (en := Z.to_nat (end_offset p)) in *.
  assert (bn ≤ en ≤ length t)%nat as Hbe by lia.
  assert (cut t bn ≤ cut t en ≤ length t)%nat as Hcut.
  { split; [|apply cut_le; lia].
    unfold cut. destruct (decide (bn = 0%nat)), (decide (en = 0%nat)); try lia.
    destruct (decide (en ≤ bn + run t bn)%nat) as [Hr|]; [|lia].
    rewrite (run_shift t bn en) by lia. lia. }
  exists (slice (cut t bn) (cut t en) t :: parts). split; [|split].
  - simpl. rewrite Hcat. by apply slice_app.
  - intros Hs X W HW. rewrite fmap_cons. cbn [concat]. rewrite (Hadd Hs X W HW). by apply additive_cut.
  - rewrite fmap_cons. constructor; [|done]. unfold kept_words, kept. simpl. rewrite Hn, Hpb. split.
    2:{ exists (cut t bn), (cut t en). split; [done|]. split; apply cut_word_cut; lia. }
    apply piece_keeps; [done|done| |].
    + destruct Hne as [?|Hz]; [left; lia|]. right. fold t. destruct t; [done|simpl in Hz; lia].
    + unfold good_piece. fold t bn en. destruct Hsz as [?|Hw]; [lia|]. by do 3 right.
Qed.

(** The loop of [make_shards] over one blob makes regular pieces. *)
Lemma shard_loop_regular fuel name sz size b e rem b' e' rem' ps :
  0 < sz → 0 ≤ b < e → e - b = sz ∨ b = 0 → b ≤ size → size + sz < 2 ^ 64 →
  shard_loop fuel name sz size b e rem = Some (b', e', rem', ps) →
  0 ≤ b' ∧ (e' = size ∨ size < e' ∧ b' ≤ size) ∧
  ∀ qs, (if decide (e' = size) then qs = [] else regular name sz size b' qs) →
    regular name sz size b (ps ++ qs).
Proof.
  intros Hsz. revert b e rem b' e' rem' ps.
  induction fuel as [|f IH]; intros b e rem b' e' rem' ps Hbe Hlen Hb Hov; [done|].
  cbn [shard_loop].
  destruct (decide (e ≤ size)) as [Hle|Hgt].
  2:{ intros [= <- <- <- <-]. split; [lia|]. split; [lia|]. intros qs.
      destruct (decide (e = size)); [lia|]. done. }
  destruct (decide (e = size)) as [He|He].
  { intros [= <- <- <- <-]. split; [lia|]. split; [by left|]. intros qs.
    rewrite decide_True by done. intros ->. simpl. repeat split; lia. }
  rewrite to_size_id by (unfold is_size; lia).
  destruct (decide (size < e + sz)) as [Hlt|Hlt].
  { intros [= <- <- <- <-]. split; [lia|]. split; [lia|]. intros qs.
    rewrite decide_False by lia. intros Hq. simpl. repeat split; first [done|lia]. }
  destruct (shard_loop f name sz size e (e + sz) sz) as [[[[b1 e1] r1] ps1]|] eqn:Hl; [|done].
  simpl. intros [= <- <- <- <-].
  destruct (IH e (e + sz) sz _ _ _ _ ltac:(lia) ltac:(lia) ltac:(lia) Hov Hl) as (? & ? & Hq).
  split; [done|]. split; [done|]. intros qs Hqs. simpl. repeat split; first [by apply Hq|lia].
Qed.

Lemma shard_blob_regular fuel sz rem it rem' ps :
  0 < rem ≤ sz → fits sz it → shard_blob fuel sz rem it = Some (rem', ps) →
  regular (item_name it) sz (item_size it) 0 ps.
Proof.
  intros Hrem [Hsz Hov]. unfold shard_blob.
  destruct (shard_loop _ _ _ _ _ _ _) as [[[[b' e'] r'] ps']|] eqn:Hl; [|done]. simpl.
  apply shard_loop_regular in Hl as (Hb' & Hend & Hq); [|lia..].
  destruct (decide (item_size it < e')); intros [= <- <-].
  - apply Hq. rewrite decide_False by lia. simpl. repeat split; lia.
  - rewrite <-(app_nil_r ps'). apply Hq. rewrite decide_True by lia. done.
Qed.

(** The size the storage service lists for a blob is the length of its text. *)
Definition lists (content : string → bytes) (it : blob_item) : Prop :=
  item_size it = Z.of_nat (length (content (item_name it))) ∧ item_size it < 2 ^ 31.

(** All words of the blobs are short. *)
Definition all_short (content : string → bytes) (items : list blob_item) : Prop :=
  Forall (λ it, short_words (content (item_name it))) (blobs items).

Lemma make_shards_go_keeps content fuel sz rem items ps :
  0 < rem ≤ sz → Forall (fits sz) (blobs items) → (shard_fuel sz items ≤ fuel)%nat →
  Forall (lists content) (blobs items) → 16 ≤ sz ∨ all_short content items →
  make_shards_go fuel sz rem items = Some ps →
  ∃ parts, concat parts = concat ((λ it, content (item_name it)) <$> blobs items) ∧
    (all_short content items → ∀ X (W : bytes → list X), additive W →
       concat (W <$> parts) = concat ((λ it, W (content (item_name it))) <$> blobs items)) ∧
    Forall2 (kept_words content) (to_ShardData <$> ps) parts.
Proof.
  unfold all_short. revert rem ps.
  induction items as [|it items IH]; intros rem ps Hrem Hfit Hf Hls Hsz; simpl.
  { intros [= <-]. by exists []. }
  change (shard_fuel sz (it :: items)) with (blob_fuel sz it `max` shard_fuel sz items)%nat in Hf.
  rewrite blobs_cons in *. destruct (item_is_blob it) eqn:Hblob; [|by apply IH; [..|lia| |]].
  apply Forall_cons in Hfit as [Hit Hfit]. apply Forall_cons in Hls as [[Hls1 Hls2] Hls].
  rewrite Forall_cons in Hsz.
  destruct (shard_blob_spec fuel sz rem it) as (rem' & qs & Hb & Hrem' & _); [done|done|lia|].
  rewrite Hb. simpl. apply shard_blob_regular in Hb; [|done..].
  destruct (make_shards_go fuel sz rem' items) as [ps'|] eqn:Hgo; [|done]. simpl. intros [= <-].
  destruct (IH rem' ps') as (parts' & Hcat' & Hadd' & Hk'); [done|done|lia|done|tauto|done|].
  rewrite Hls1 in Hb.
  destruct (regular_keeps content (item_name it) sz 0 qs) as (parts & Hcat & Hadd & Hk);
    [lia|tauto|lia|done|].
  rewrite slice_all in Hcat, Hadd.
  exists (parts ++ parts'). rewrite concat_app, Hcat, Hcat', fmap_app. split; [done|]. split.
  - intros [Hs Hs']%Forall_cons X W HW. rewrite fmap_app, concat_app, Hadd, Hadd' by done. done.
  - by apply Forall2_app.
Qed.

Lemma workers_read_spec content items w conn sz w' :
  m_dbConnection (master w) = Some conn →
  calc_shard_sz items (m_nmappers (master w)) = Ret sz →
  0 < sz → Forall (fits sz) (blobs items) → Forall (lists content) (blobs items) →
  16 ≤ sz ∨ all_short content items →
  create_sharding_data items w = Ret (Some w') →
  ∃ parts, concat parts = concat ((λ it, content (item_name it)) <$> blobs items) ∧
    (all_short content items → ∀ X (W : bytes → list X), additive W →
       concat (W <$> parts) = concat ((λ it, W (content (item_name it))) <$> blobs items)) ∧
    Forall2 (kept_words content) (concat (sets_ <$> m_shards (master w'))) parts.
Proof.
  intros Hconn Hcalc Hpos Hfit Hls Hsz. unfold create_sharding_data. simpl. rewrite Hconn, Hcalc. simpl.
  unfold make_shards.
  destruct (make_shards_go_spec (shard_fuel sz items) sz sz items)
    as (rem' & pss & Hgo & _ & _ & Hcut & _); [lia|done|done|].
  rewrite Hgo. destruct (join_pieces (concat pss) [] (-1)) as [shards id] eqn:Hj. simpl.
  intros [= <-]. simpl.
  rewrite Z.sub_diag in Hcut.
  pose proof (join_pieces_spec sz (concat pss) [] (-1) _ Hcut) as Hs. rewrite Hj in Hs. simpl in Hs.
  destruct Hs as (_ & -> & _). simpl.
  by apply (make_shards_go_keeps content (shard_fuel sz items) sz sz items).
Qed.

(** ** Properties *)

(** C13: The workers read every byte of the input once: the shards
    [create_sharding_data] makes of the blobs are such that what
    [fix_word_boundary] leaves of the pieces, blanks aside, is the text of the
    blobs in order, and each piece keeps the text between the cuts for its two
    ends ([word_cut]): at the first delimiter from the boundary on, if there is one
    less than [EXTRA_LEN] bytes away, so that no word is cut there. The shard size
    is at least [EXTRA_LEN], or no word is that long; the blobs are below 2 GiB. *)
Theorem workers_read_once content items w conn sz w' :
  m_dbConnection (master w) = Some conn →
  calc_shard_sz items (m_nmappers (master w)) = Ret sz →
  0 < sz → Forall (fits sz) (blobs items) → Forall (lists content) (blobs items) →
  16 ≤ sz ∨ Forall (λ it, short_words (content (item_name it))) (blobs items) →
  create_sharding_data items w = Ret (Some w') →
  ∃ parts, concat parts = concat ((λ it, content (item_name it)) <$> blobs items) ∧
    Forall2 (kept_words content) (concat (sets_ <$> m_shards (master w'))) parts.
Proof.
  intros Hconn Hcalc Hpos Hfit Hls Hsz Hw.
  destruct (workers_read_spec content items w conn sz w' Hconn Hcalc Hpos Hfit Hls Hsz Hw)
    as (parts & ? & _ & ?). by exists parts.
Qed.

Definition ex_content (name : string) : bytes :=
  String.list_ascii_of_string
    (if decide (name = "a.txt") then "the quick brown fox jumps over it"
     else "lazy dogs, all of them.").

Definition ex_texts : list blob_item :=
  [mk_blob_item true "a.txt" 33; mk_blob_item true "b.txt" 23].

Lemma workers_read_once_witness :
  ∃ parts, concat parts = concat ((λ it, ex_content (item_name it)) <$> blobs ex_texts) ∧
    Forall2 (kept_words ex_content)
      (concat (sets_ <$> m_shards (master (sharded ex_texts (ex_leader 3))))) parts.
Proof.
  apply (workers_read_once ex_content ex_texts (ex_leader 3) "conn" 19).
  - reflexivity.
  - vm_compute. reflexivity.
  - reflexivity.
  - ex_fits.
  - repeat (constructor; [split; vm_compute; reflexivity|]). constructor.
  - left. lia.
  - vm_compute. reflexivity.
Defined.

(** What the workers keep there. *)
Example ex_kept :
  (λ d, fix_word_boundary (begin_ d) (end_ d)
          (downloaded (ex_content (blobName_ d)) (Z.to_nat (begin_ d)) (Z.to_nat (end_ d))))
    <$> concat (sets_ <$> m_shards (master (sharded ex_texts (ex_leader 3))))
  = (λ s, Ret (String.list_ascii_of_string s)) <$>
    ["the quick brown fox"; " jumps over it"; "lazy dogs";
     "    , all of them."].
Proof. vm_compute. reflexivity. Qed.

(** With pieces of two bytes and a word of twenty-four, the bytes from
    offset 18 on are kept by no piece: the piece that starts at 2 blanks 16 bytes
    and ends where it begins to keep, the next one blanks two bytes more. *)
Theorem long_word_lost :
  let t := String.list_ascii_of_string "abcdefghijklmnopqrstuvwx" in
  let piece b e := fix_word_boundary (Z.of_nat b) (Z.of_nat e) (downloaded t b e) in
  piece 0%nat 2%nat = Ret (String.list_ascii_of_string "abcdefghijklmnopqr") ∧
  Forall (λ i, piece (2 * i)%nat (2 * i + 2)%nat = Ret (blanks 2) ∨
               piece (2 * i)%nat (2 * i + 2)%nat = Raise OutOfRange) (seq 1 11).
Proof.
  split; [vm_compute; reflexivity|].
  repeat (constructor; [first [left; vm_compute; reflexivity|right; vm_compute; reflexivity]|]).
  constructor.
Qed.
