(* ===== verification/Worker.v ===== *)
(** * The worker ([worker/worker.h], [worker/workerimpl.cc], the [do_work]
    handlers of [worker/mrservice.h])

    A worker's state, its local files and the blob storage it reads and writes;
    the map task, the reduce task and the address exchange as the RPC handlers
    run them.

    The blob storage is the interface [Storage] with the laws [StorageLaws], and
    [gmap_storage] is an implementation. The Python functions and
    [std::hash<std::string>] are parameters.

    The theorems: what a map task leaves in the storage and replies, every pair
    in exactly one blob; what a reduce task leaves and replies; that the names of
    the blobs carry the reducer's number; that a worker set to fail fails at the
    task of that number; which port a local worker listens on; that unreadable
    input is treated as empty. *)

From S2P Require Export WorkerText ReducePhase.

(** ** Blob storage *)

Class Storage (S : Type) : Type := {
  st_parse : string → outcome unit;                   (* cloud_storage_account::parse *)
  st_container : string → S → outcome S;              (* create_if_not_exists *)
  st_upload : string → string → bytes → S → outcome S;
  st_download : string → string → S → outcome bytes;
  st_download_range : string → string → Z → Z → S → outcome bytes
}.

(** Blob [b] of container [c] has the contents [t]. *)
Definition stored {S} `{Storage S} (c b : string) (t : bytes) (s : S) : Prop :=
  st_download c b s = Ret t.

Class StorageLaws (S : Type) `{Storage S} : Prop := {
  st_upload_same c b t s s' : st_upload c b t s = Ret s' → stored c b t s';
  st_upload_other c b t s s' c' b' t' :
    st_upload c b t s = Ret s' → (c', b') ≠ (c, b) → stored c' b' t' s → stored c' b' t' s';
  st_container_frame c s s' c' b' t' : st_container c s = Ret s' → stored c' b' t' s → stored c' b' t' s';
  st_range c b t s i len : stored c b t s → 0 ≤ i < Z.of_nat (length t) → 0 ≤ len →
    st_download_range c b i len s = Ret (take (Z.to_nat len) (drop (Z.to_nat i) t))
}.

(** ** State *)

(** A container reference is [None] while it is default-constructed. *)
Record WorkerDBConnection : Type := mkWorkerDBConnection {
  dc_connection : string;
  m_mstrcontainername : string;
  m_wrkrcontainername : string;
  m_mstrcontainer : option string;
  m_wrkrcontainer : option string
}.

#[export] Instance eta_WorkerDBConnection : EtaRecord WorkerDBConnection := λ r,
  mkWorkerDBConnection (dc_connection r) (m_mstrcontainername r) (m_wrkrcontainername r)
    (m_mstrcontainer r) (m_wrkrcontainer r).

Record Worker : Type := mkWorker {
  m_port : Z;
  m_ip : string;
  m_full_address : string;
  w_nodepath : string;
  w_dbConnection : option WorkerDBConnection;
  w_server : bool;                   (* the gRPC server is running *)
  w_has_failed : bool;
  w_will_fail : bool;
  w_until_fail : Z;
  w_nreducers : Z;
  m_outfile : string;
  m_outstream : option string;       (* the file the stream writes to *)
  m_inter_files : list string
}.

#[export] Instance eta_Worker : EtaRecord Worker := λ r,
  mkWorker (m_port r) (m_ip r) (m_full_address r) (w_nodepath r) (w_dbConnection r) (w_server r)
    (w_has_failed r) (w_will_fail r) (w_until_fail r) (w_nreducers r) (m_outfile r)
    (m_outstream r) (m_inter_files r).

(** [Worker::Worker]. *)
Definition Worker_new (fail_after : Z) : Worker :=
  {| m_port := 0; m_ip := ""; m_full_address := ""; w_nodepath := "";
     w_dbConnection := None; w_server := false;
     w_has_failed := false;
     w_will_fail := if decide (fail_after ≤ 0) then false else true;
     w_until_fail := if decide (fail_after ≤ 0) then 0 else fail_after;
     w_nreducers := 0; m_outfile := ""; m_outstream := None; m_inter_files := [] |}.

(** The local files and the storage next to it. *)
Record WState (S : Type) : Type := mkWState {
  wk : Worker;
  files : gmap string bytes;
  store : S
}.
Arguments mkWState {S} wk files store.
Arguments wk {S} w.
Arguments files {S} w.
Arguments store {S} w.

#[export] Instance eta_WState {S} : EtaRecord (WState S) := λ r, mkWState (wk r) (files r) (store r).

Definition is_alive (w : Worker) : bool := negb (w_has_failed w).

(** ** Failure injection *)

(** [Worker::enter_fail_state]: the state in which the thread then sleeps. *)
Definition worker_enter_fail_state (w : Worker) : Worker :=
  w <| w_has_failed := true |> <| w_server := false |>.

(** [Worker::task_assigned_check_fail]: the new state and whether the thread
    entered the fail state. *)
Definition worker_check_fail (w : Worker) : Worker * bool :=
  if w_will_fail w then
    let w := w <| w_until_fail := w_until_fail w - 1 |> in
    if decide (w_until_fail w ≤ 0) then (worker_enter_fail_state w, true) else (w, false)
  else (w, false).

(** A check that does not enter the fail state only counts. *)
Lemma worker_check_fail_keeps w w' :
  worker_check_fail w = (w', false) →
  w_dbConnection w' = w_dbConnection w ∧ m_inter_files w' = m_inter_files w ∧
  m_full_address w' = m_full_address w ∧ m_outstream w' = m_outstream w.
Proof.
  unfold worker_check_fail. destruct (w_will_fail w); [|by intros [= <-]].
  destruct (decide _); [done|]. by intros [= <-].
Qed.

(** ** Address *)

(** [Worker::choose_local_port]: [npos] becomes -1 in [idx]. *)
Definition choose_local_port (nodepath : string) : Z :=
  let id := match find_first "_" nodepath with
            | Some i => str_drop (S i) nodepath
            | None => nodepath
            end in
  to_int32 (50050 + strtol id).

(** [Worker::set_address_info]: [pod_ip] is the variable MY_POD_IP, [local] the
    build option LOCAL. *)
Definition set_address_info (local : bool) (pod_ip : string) (w : Worker) : Worker :=
  let ip := if local then "localhost" else pod_ip in
  let port := if local then choose_local_port (w_nodepath w) else 50051 in
  w <| m_ip := ip |> <| m_port := port |> <| m_full_address := ip +:+ ":" +:+ to_string port |>.

(** ** Files *)

(** Opening with [trunc], and writing at the end. *)
Definition open_trunc (name : string) (fs : gmap string bytes) : gmap string bytes :=
  <[name := []]> fs.
Definition append_file (name : string) (data : bytes) (fs : gmap string bytes) : gmap string bytes :=
  <[name := default [] (fs !! name) ++ data]> fs.

Definition newline : ascii := ascii_of_nat 10.

(** [word << ':' << std::to_string(val) << std::endl] *)
Definition pair_line (kv : string * Z) : bytes :=
  String.list_ascii_of_string (kv.1 +:+ ":" +:+ to_string kv.2) ++ [newline].

(** The local file and the blob of one reducer's part of one piece. *)
Definition int_name (addr : string) (sid spid i : Z) : string :=
  "int_" +:+ addr +:+ "_" +:+ to_string sid +:+ "_" +:+ to_string spid +:+ "_" +:+ to_string i.

(** The local copy of a piece. *)
Definition shard_file (b e : Z) (addr : string) : string :=
  "sh-" +:+ to_string b +:+ "-" +:+ to_string e +:+ "-" +:+ addr.

(** ** The user's functions *)

(** What calling the Python function of a script comes to: the module cannot be
    imported, has no such attribute, the attribute is not callable, the file name
    is not valid, the call raises, or it returns a dict, in iteration order (any
    other value iterates as an empty one). *)
Inductive py_result : Type :=
  | PyNoModule
  | PyNoAttr
  | PyNotCallable
  | PyBadName
  | PyRaised
  | PyDict (items : list (string * Z)).

(** The pairs streamed. *)
Definition py_items (r : py_result) : list (string * Z) :=
  match r with PyDict items => items | _ => [] end.

Section WorkerOps.
Context {S : Type} {HS : Storage S}.

(** The Python function of a script on a file, given the file's name and its
    contents if it exists; and [std::hash<std::string>]. *)
Context (py : string → string → option bytes → py_result) (hash : string → Z).

(** ** [WorkerDBConnection] *)

(** [init]: the references are set one after the other, and an exception, which
    is caught and logged, leaves the rest as it was. *)
Definition WorkerDBConnection_init (db : WorkerDBConnection) (s : S)
    : outcome (WorkerDBConnection * S) :=
  let caught {A} (db : WorkerDBConnection) (s : S) (o : outcome A)
      (k : A → outcome (WorkerDBConnection * S)) :=
    match o with
    | Raise e => if std_exception e then Ret (db, s) else Raise e
    | _ => obind k o
    end in
  caught db s (st_parse (dc_connection db)) (λ _,
  let name := m_mstrcontainername db in
  let db := db <| m_mstrcontainer := Some name |> in
  caught db s (st_container name s) (λ s,
  let wrkr := name +:+ "int" in
  let db := db <| m_wrkrcontainername := wrkr |> <| m_wrkrcontainer := Some wrkr |> in
  caught db s (st_container wrkr s) (λ s, Ret (db, s)))).

(** The constructor. *)
Definition WorkerDBConnection_new (conn name : string) (s : S) : outcome (WorkerDBConnection * S) :=
  WorkerDBConnection_init (mkWorkerDBConnection conn name "" None None) s.

Definition worker_create_connection (conn name : string) (ws : WState S) : outcome (WState S) :=
  let! (db, s) := WorkerDBConnection_new conn name (store ws) in
  Ret (ws <| wk := (wk ws) <| w_dbConnection := Some db |> |> <| store := s |>).

(** The bytes of a piece as [write_partial_data_to_local_file] reads them. *)
Definition read_piece (c blob : string) (b e : Z) (s : S) : outcome bytes :=
  let! raw := st_download_range c blob b (to_size (to_size (e - b) + EXTRA_LEN)) s in
  fix_word_boundary b e raw.

(** [write_partial_data_to_local_file]: the return value, [outfile_name] and the
    files afterwards; every [std::exception] is caught. *)
Definition write_partial_data_to_local_file (db : WorkerDBConnection) (blobname : string) (b e : Z)
    (address : string) (s : S) (fs : gmap string bytes)
    : outcome (bool * string * gmap string bytes) :=
  match m_mstrcontainer db with
  | None => Undef
  | Some c =>
      catch_std (λ _, Ret (false, "", fs))
        (let! data := read_piece c blobname b e s in
         let outfile_name := shard_file b e address in
         Ret (true, outfile_name, append_file outfile_name data (open_trunc outfile_name fs)))
  end.

(** [write_full_data_to_local_file], appending to the stream's file. *)
Definition write_full_data_to_local_file (containername blob tmp_file : string) (s : S)
    (fs : gmap string bytes) : outcome (bool * S * gmap string bytes) :=
  catch_std (λ _, Ret (false, s, fs))
    (let! s := st_container containername s in
     catch_std (λ _, Ret (false, s, fs))
       (let! data := st_download containername blob s in
        Ret (true, s, append_file tmp_file data fs))).

(** Opening a local file for an upload and uploading it. *)
Definition upload_file (c blob file : string) (ws : WState S) : outcome (WState S) :=
  match files ws !! file with
  | None => Raise StorageError
  | Some data => let! s := st_upload c blob data (store ws) in Ret (ws <| store := s |>)
  end.

(** [add_intermediate_blob]: [containername] and [bloblst] afterwards too. *)
Definition add_intermediate_blob (db : WorkerDBConnection) (reducer_id : Z) (address : string)
    (sid spid : Z) (bloblst : list string) (ws : WState S) : outcome (string * list string * WState S) :=
  let blobname := int_name address sid spid reducer_id in
  match m_wrkrcontainer db with
  | None => Undef
  | Some c =>
      let! ws := upload_file c blobname blobname ws in
      Ret (m_wrkrcontainername db, bloblst ++ [blobname], ws)
  end.

(** [append_to_blob]; no caller reaches it. *)
Definition append_to_blob (db : WorkerDBConnection) (blob_id : Z) (ws : WState S) : outcome (WState S) :=
  let outfile_name := "int_" +:+ to_string blob_id in
  match m_wrkrcontainer db with
  | None => Undef
  | Some c => upload_file c outfile_name outfile_name ws
  end.

(** [add_out_blob]: [blob] and [containername] afterwards too. *)
Definition add_out_blob (db : WorkerDBConnection) (outfile_name : string) (ws : WState S)
    : outcome (string * string * WState S) :=
  let containername := m_mstrcontainername db +:+ "out" in
  let! s := st_container containername (store ws) in
  let! ws := upload_file containername outfile_name outfile_name (ws <| store := s |>) in
  Ret (outfile_name, containername, ws).

(** ** Calling the user's function *)

(** [Worker::stream_to_file]. A write to a stream that is not open does nothing. *)
Definition stream_to_file (ismap : bool) (kv : string * Z) (ws : WState S) : outcome (WState S) :=
  if ismap then
    if decide (w_nreducers (wk ws) = 0) then Undef
    else
      let file_num := to_int32 (hash kv.1 mod to_size (w_nreducers (wk ws))) in
      match vec_index (m_inter_files (wk ws)) file_num with
      | None => Undef
      | Some f => Ret (ws <| files := append_file f (pair_line kv) (files ws) |>)
      end
  else
    match m_outstream (wk ws) with
    | None => Ret ws
    | Some f => Ret (ws <| files := append_file f (pair_line kv) (files ws) |>)
    end.

(** The loop over the dict. *)
Fixpoint stream_items (ismap : bool) (items : list (string * Z)) (ws : WState S) : outcome (WState S) :=
  match items with
  | [] => Ret ws
  | kv :: items => let! ws := stream_to_file ismap kv ws in stream_items ismap items ws
  end.

(** [Worker::instantiate_py_func]. Without the attribute [Py_DECREF] gets a null
    pointer. *)
Definition instantiate_py_func (script filename : string) (ws : WState S) : outcome (WState S) :=
  match py script filename (files ws !! filename) with
  | PyNoAttr => Undef
  | r => stream_items (bool_decide (script = "map")) (py_items r) ws
  end.

Definition instantiate_map_function : string → WState S → outcome (WState S) :=
  instantiate_py_func "map".
Definition instantiate_reduce_function : string → WState S → outcome (WState S) :=
  instantiate_py_func "reduce".

(** ** The map task *)

(** [Worker::create_r_intermediate_files]. *)
Definition create_r_intermediate_files (sid spid : Z) (ws : WState S) : WState S :=
  let names := (λ i, int_name (m_full_address (wk ws)) sid spid (Z.of_nat i))
                 <$> seq 0 (Z.to_nat (w_nreducers (wk ws))) in
  ws <| files := foldl (λ fs n, open_trunc n fs) (files ws) names |>
     <| wk := (wk ws) <| m_inter_files := m_inter_files (wk ws) ++ names |> |>.

(** [Worker::close_r_intermediate_files]: indexing past the end is undefined. *)
Definition close_r_intermediate_files (ws : WState S) : outcome (WState S) :=
  if decide (w_nreducers (wk ws) ≤ Z.of_nat (length (m_inter_files (wk ws))))
  then Ret (ws <| wk := (wk ws) <| m_inter_files := [] |> |>) else Undef.

(** [Worker::add_intermediate_file_to_blob]: the loop over the numbers [ids] of
    the reducers. *)
Fixpoint add_intermediate_files (db : WorkerDBConnection) (sid spid : Z) (ids : list Z)
    (container : string) (bloblst : list string) (ws : WState S)
    : outcome (string * list string * WState S) :=
  match ids with
  | [] => Ret (container, bloblst, ws)
  | i :: ids =>
      let! (container, bloblst, ws) :=
        add_intermediate_blob db i (m_full_address (wk ws)) sid spid bloblst ws in
      add_intermediate_files db sid spid ids container bloblst ws
  end.
Definition add_intermediate_file_to_blob (db : WorkerDBConnection) (sid spid : Z) (container : string)
    (bloblst : list string) (ws : WState S) : outcome (string * list string * WState S) :=
  add_intermediate_files db sid spid (Z.of_nat <$> seq 0 (Z.to_nat (w_nreducers (wk ws))))
    container bloblst ws.

(** [Worker::append_intermediate_file_to_blob]; no caller. *)
Fixpoint append_intermediate_files (db : WorkerDBConnection) (ids : list Z) (ws : WState S)
    : outcome (WState S) :=
  match ids with
  | [] => Ret ws
  | i :: ids => let! ws := append_to_blob db i ws in append_intermediate_files db ids ws
  end.
Definition append_intermediate_file_to_blob (db : WorkerDBConnection) (ws : WState S)
    : outcome (WState S) :=
  append_intermediate_files db (Z.of_nat <$> seq 0 (Z.to_nat (w_nreducers (wk ws)))) ws.

(** [Worker::map_shard]: the results are [out_container] and [bloblst]. *)
Definition map_shard (blobname : string) (b e nReducers sid spid : Z) (container : string)
    (bloblst : list string) (ws : WState S) : outcome (string * list string * WState S) :=
  let ws := ws <| wk := (wk ws) <| w_nreducers := nReducers |> |> in
  let ws := create_r_intermediate_files sid spid ws in
  match w_dbConnection (wk ws) with
  | None => Undef
  | Some db =>
      let! (_, outfile, fs) := write_partial_data_to_local_file db blobname b e
                                 (m_full_address (wk ws)) (store ws) (files ws) in
      let! ws := instantiate_map_function outfile (ws <| files := fs |>) in
      let! ws := close_r_intermediate_files ws in
      add_intermediate_file_to_blob db sid spid container bloblst ws
  end.

(** The loop of [MapCallData::do_work]: [piece_id] counts up. *)
Fixpoint map_pieces (nReducers sid piece_id : Z) (pieces : list ShardTuple) (container : string)
    (bloblst : list string) (ws : WState S) : outcome (string * list string * WState S) :=
  match pieces with
  | [] => Ret (container, bloblst, ws)
  | p :: pieces =>
      let! (container, bloblst, ws) :=
        map_shard (st_blobname p) (to_size (startoffset p)) (to_size (endoffset p))
          nReducers sid piece_id container bloblst ws in
      map_pieces nReducers sid (piece_id + 1) pieces container bloblst ws
  end.

(** [MapCallData::do_work]. *)
Definition map_do_work (request : MapperInput) (ws : WState S)
    : outcome (IntermediateResult * WState S) :=
  let '(w, parked) := worker_check_fail (wk ws) in
  if parked then Parked
  else
    let! (container, blobs, ws) :=
      map_pieces (npartition request) (mi_shard_id request) 0 (stuples request) "" []
        (ws <| wk := w |>) in
    Ret (mkIntermediateResult container blobs, ws).

(** ** The reduce task *)

(** [Worker::create_output_file]; opening an open stream fails and leaves it. *)
Definition create_output_file (reducer_id : Z) (ws : WState S) : WState S :=
  let name := "out_" +:+ to_string reducer_id in
  let ws := ws <| wk := (wk ws) <| m_outfile := name |> |> in
  match m_outstream (wk ws) with
  | Some _ => ws
  | None => ws <| wk := (wk ws) <| m_outstream := Some name |> |>
              <| files := open_trunc name (files ws) |>
  end.
Definition close_output_file (ws : WState S) : WState S :=
  ws <| wk := (wk ws) <| m_outstream := None |> |>.

(** [Worker::reduce]: the results are [out_blob] and [out_container]. *)
Definition reduce (kvfilename : string) (reducer_id : Z) (ws : WState S)
    : outcome (string * string * WState S) :=
  let ws := create_output_file reducer_id ws in
  let! ws := instantiate_reduce_function kvfilename ws in
  let ws := close_output_file ws in
  match w_dbConnection (wk ws) with
  | None => Undef
  | Some db => add_out_blob db (m_outfile (wk ws)) ws
  end.

(** [Worker::prepare_data] for every blob of the request. A call through a null
    [m_dbConnection] reads its blob client. *)
Definition prepare_data (container blob tmp_file : string) (ws : WState S) : outcome (WState S) :=
  match w_dbConnection (wk ws) with
  | None => Undef
  | Some _ =>
      let! (_, s, fs) := write_full_data_to_local_file container blob tmp_file (store ws) (files ws) in
      Ret (ws <| store := s |> <| files := fs |>)
  end.
Fixpoint prepare_all (container : string) (blobs : list string) (tmp_file : string) (ws : WState S)
    : outcome (WState S) :=
  match blobs with
  | [] => Ret ws
  | b :: blobs =>
      let! ws := prepare_data container b tmp_file ws in prepare_all container blobs tmp_file ws
  end.

(** The local file a reducer's input is collected in. *)
Definition kv_file (addr : string) (rid : Z) : string := "kv-" +:+ addr +:+ "-" +:+ to_string rid.

(** [ReduceCallData::do_work]: the reply's [blobname] is not set. *)
Definition reduce_do_work (request : ReducerInput) (ws : WState S)
    : outcome (FinalResult * WState S) :=
  let tmp_filename := kv_file (m_full_address (wk ws)) (reducer_id request) in
  let ws := ws <| files := open_trunc tmp_filename (files ws) |> in
  let '(w, parked) := worker_check_fail (wk ws) in
  if parked then Parked
  else
    let! ws := prepare_all (Types.ri_containername request) (Types.ri_blobs request) tmp_filename
                 (ws <| wk := w |>) in
    let! (_, container, ws) := reduce tmp_filename (reducer_id request) ws in
    Ret (mkFinalResult "" container, ws).

(** ** The other requests *)

(** [ExchangeInfoCallData::do_work], [parent] being set: the reply's message. *)
Definition exchange_do_work (request : MasterInfo) (ws : WState S) : outcome (string * WState S) :=
  let! ws := worker_create_connection (mi_connectionstring request) (mi_containername request) ws in
  Ret (m_full_address (wk ws), ws).

(** [PingCallData::HandleRequest]. *)
Definition ping_do_work (ws : WState S) : outcome (unit * WState S) := Ret (tt, ws).

(** ** Specification of the map task *)

(** The pairs of reducer [i] out of [n], and the blob that holds them. *)
Definition part (n i : Z) (items : list (string * Z)) : list (string * Z) :=
  filter (λ kv, hash kv.1 mod n = i) items.
Definition part_file (n i : Z) (items : list (string * Z)) : bytes := part n i items ≫= pair_line.

Definition piece_names (addr : string) (sid n spid : Z) : list string :=
  (λ i, int_name addr sid spid (Z.of_nat i)) <$> seq 0 (Z.to_nat n).

Fixpoint reply_names (addr : string) (sid n spid : Z) (pieces : list ShardTuple) : list string :=
  match pieces with
  | [] => []
  | _ :: pieces => piece_names addr sid n spid ++ reply_names addr sid n (spid + 1) pieces
  end.

(** The pairs the user's function makes of what is read of a piece; if reading
    throws, of no file. *)
Definition pairs_of (addr : string) (b e : Z) (r : outcome bytes) : list (string * Z) :=
  match r with
  | Ret data => py_items (py "map" (shard_file b e addr) (Some data))
  | _ => py_items (py "map" "" None)
  end.

(** ** Lemmas: names *)

Definition not_underscore (a : ascii) : bool := bool_decide (a ≠ "_"%char).

Lemma to_string_plain z : str_forall not_underscore (to_string z).
Proof.
  apply to_string_chars; [done|]. intros a Ha. unfold not_underscore.
  apply bool_decide_spec. by apply (is_digit_neq a).
Qed.

Lemma int_name_after_last addr sid spid i : after_last "_" (int_name addr sid spid i) = to_string i.
Proof.
  unfold int_name.
  replace ("int_" +:+ addr +:+ "_" +:+ to_string sid +:+ "_" +:+ to_string spid +:+ "_" +:+ to_string i)
    with (("int_" +:+ addr +:+ "_" +:+ to_string sid +:+ "_" +:+ to_string spid)
            +:+ String "_" (to_string i)) by (by rewrite !str_app_assoc).
  apply after_last_app, to_string_plain.
Qed.

Lemma str_app_inj_l (a s t : string) : a +:+ s = a +:+ t → s = t.
Proof. induction a as [|x a IH]; [done|]. cbn. intros [= H]. by apply IH. Qed.

Lemma str_app_inj_r (t a b : string) : a +:+ t = b +:+ t → a = b.
Proof.
  intros H. pose proof (f_equal String.length H) as Hl. rewrite !str_length_app in Hl.
  rewrite <-(str_take_app a t), <-(str_take_app b t), H. f_equal. lia.
Qed.

(** A number at the end of a name can be read off it. *)
Lemma suffix_inj (a b : string) (i j : Z) :
  a +:+ String "_" (to_string i) = b +:+ String "_" (to_string j) → a = b ∧ i = j.
Proof.
  intros H. assert (i = j) as ->.
  { apply to_string_inj. rewrite <-(after_last_app "_" a (to_string i)) by apply to_string_plain.
    by rewrite H, after_last_app by apply to_string_plain. }
  split; [|done]. by eapply str_app_inj_r.
Qed.

Lemma int_name_inj_full addr sid p i addr' sid' p' i' :
  int_name addr sid p i = int_name addr' sid' p' i' → addr = addr' ∧ sid = sid' ∧ p = p' ∧ i = i'.
Proof.
  assert (∀ a s q k, int_name a s q k
    = ((("int_" +:+ a) +:+ String "_" (to_string s)) +:+ String "_" (to_string q))
        +:+ String "_" (to_string k)) as Hn.
  { intros. unfold int_name. by rewrite !str_app_assoc. }
  rewrite !Hn. intros [[[H%str_app_inj_l ->]%suffix_inj ->]%suffix_inj ->]%suffix_inj. done.
Qed.

Lemma int_name_inj addr sid p i p' i' :
  int_name addr sid p i = int_name addr sid p' i' → p = p' ∧ i = i'.
Proof. by intros (_ & _ & ? & ?)%int_name_inj_full. Qed.

Lemma NoDup_piece_names addr sid n spid : NoDup (piece_names addr sid n spid).
Proof.
  apply NoDup_fmap_2; [|apply NoDup_seq]. intros i j [_ H]%int_name_inj. lia.
Qed.

Lemma elem_of_piece_names addr sid n spid f :
  f ∈ piece_names addr sid n spid ↔ ∃ i, 0 ≤ i < n ∧ f = int_name addr sid spid i.
Proof.
  unfold piece_names. rewrite list_elem_of_fmap. split.
  - intros (i & -> & Hi%elem_of_seq). exists (Z.of_nat i). split; [lia|done].
  - intros (i & Hi & ->). exists (Z.to_nat i). rewrite Z2Nat.id by lia. split; [done|].
    apply elem_of_seq. lia.
Qed.

Lemma shard_file_not_int b e a addr sid spid i : shard_file b e a ≠ int_name addr sid spid i.
Proof. done. Qed.

(** ** Lemmas: streaming *)

Context (Hhash : ∀ s, 0 ≤ hash s).

Lemma part_cons n i kv items :
  part_file n i (kv :: items)
  = (if decide (hash kv.1 mod n = i) then pair_line kv else []) ++ part_file n i items.
Proof. unfold part_file, part. rewrite filter_cons. by destruct (decide _). Qed.

(** Every pair goes to the file of its key's hash. *)
Lemma stream_items_map n names items ws :
  0 < n < 2 ^ 31 → w_nreducers (wk ws) = n → m_inter_files (wk ws) = names →
  length names = Z.to_nat n → NoDup names →
  ∃ fs', stream_items true items ws = Ret (ws <| files := fs' |>) ∧
    (∀ i f c, names !! i = Some f → files ws !! f = Some c →
       fs' !! f = Some (c ++ part_file n (Z.of_nat i) items)) ∧
    (∀ f, f ∉ names → fs' !! f = files ws !! f).
Proof.
  intros Hn Hnr Hnames Hlen Hnd. revert ws Hnr Hnames. induction items as [|kv items IH]; intros ws Hnr Hnames.
  { exists (files ws). split; [by destruct ws|]. split; [|done]. intros i f c _ ->. by rewrite app_nil_r. }
  cbn [stream_items]. unfold stream_to_file. rewrite Hnr, decide_False by lia.
  rewrite (to_size_id n) by (unfold is_size; lia).
  pose proof (Z.mod_pos_bound (hash kv.1) n ltac:(lia)) as Hm.
  rewrite to_int32_id by (unfold is_int32; lia). unfold vec_index.
  rewrite decide_True, Hnames by lia.
  destruct (lookup_lt_is_Some_2 names (Z.to_nat (hash kv.1 mod n))) as [f Hf]; [lia|].
  rewrite Hf. cbn [obind].
  destruct (IH (ws <| files := append_file f (pair_line kv) (files ws) |>)) as (fs' & -> & Hin & Hout);
    [done|done|]. cbn [files field_update] in Hin, Hout.
  exists fs'. split; [done|]. split.
  - intros i g c Hi Hg. rewrite part_cons. destruct (decide (hash kv.1 mod n = Z.of_nat i)) as [He|He].
    + assert (i = Z.to_nat (hash kv.1 mod n)) as -> by lia. rewrite Hf in Hi. injection Hi as ->.
      rewrite (Hin _ _ (c ++ pair_line kv) Hf); [by rewrite <-app_assoc|].
      unfold append_file. by rewrite lookup_insert_eq, Hg.
    + apply (Hin i); [done|]. unfold append_file. rewrite lookup_insert_ne; [done|].
      intros ->. apply He. rewrite (NoDup_lookup _ _ _ _ Hnd Hi Hf). lia.
  - intros g Hg. rewrite Hout by done. unfold append_file. rewrite lookup_insert_ne; [done|].
    intros ->. apply Hg. by eapply list_elem_of_lookup_2.
Qed.

Lemma foldl_open_trunc names fs f :
  foldl (λ fs n, open_trunc n fs) fs names !! f = if decide (f ∈ names) then Some [] else fs !! f.
Proof.
  revert fs. induction names as [|g names IH]; intros fs; [done|]. cbn [foldl]. rewrite IH.
  unfold open_trunc. destruct (decide (f ∈ names)) as [Hf|Hf].
  - rewrite decide_True by set_solver. done.
  - destruct (decide (f = g)) as [->|Hne].
    + rewrite decide_True by set_solver. by rewrite lookup_insert_eq.
    + rewrite decide_False by set_solver. by rewrite lookup_insert_ne.
Qed.

(** ** Lemmas: the map task *)

Context {HL : StorageLaws S}.

(** The blobs that are not among [names] of [c] are kept. *)
Definition keeps_others (c : string) (names : list string) (s s' : S) : Prop :=
  ∀ c' b' t', c' ≠ c ∨ b' ∉ names → stored c' b' t' s → stored c' b' t' s'.

Lemma add_intermediate_files_spec db c sid spid ids cont bl ws :
  m_wrkrcontainer db = Some c → (∀ b t s, ∃ s', st_upload c b t s = Ret s') →
  NoDup ids → (∀ i, i ∈ ids → is_Some (files ws !! int_name (m_full_address (wk ws)) sid spid i)) →
  ∃ s', add_intermediate_files db sid spid ids cont bl ws
        = Ret (match ids with [] => cont | _ => m_wrkrcontainername db end,
               bl ++ (int_name (m_full_address (wk ws)) sid spid <$> ids), ws <| store := s' |>) ∧
    (∀ i t, i ∈ ids → files ws !! int_name (m_full_address (wk ws)) sid spid i = Some t →
       stored c (int_name (m_full_address (wk ws)) sid spid i) t s') ∧
    keeps_others c (int_name (m_full_address (wk ws)) sid spid <$> ids) (store ws) s'.
Proof.
  intros Hc Hup. revert cont bl ws. induction ids as [|i ids IH]; intros cont bl ws Hnd Hfiles.
  { exists (store ws). rewrite app_nil_r. split; [by destruct ws|].
    split; [by intros ? ? ?%elem_of_nil|by intros ????]. }
  apply NoDup_cons in Hnd as [Hi Hnd]. cbn [add_intermediate_files].
  unfold add_intermediate_blob, upload_file. rewrite Hc.
  destruct (Hfiles i) as [t Ht]; [set_solver|]. rewrite Ht.
  destruct (Hup (int_name (m_full_address (wk ws)) sid spid i) t (store ws)) as [s1 Hs1].
  rewrite Hs1. cbn [obind].
  destruct (IH (m_wrkrcontainername db) (bl ++ [int_name (m_full_address (wk ws)) sid spid i])
              (ws <| store := s1 |>)) as (s' & -> & Hin & Hout); [done|set_solver|].
  cbn [wk files store field_update] in *. exists s'. split.
  { rewrite <-app_assoc. by destruct ids. }
  assert (∀ j, j ∈ ids → j ≠ i) as Hne by set_solver. split.
  - intros j u [->|Hj]%elem_of_cons Hu; [|by apply Hin].
    rewrite Ht in Hu. injection Hu as ->. apply Hout; [|by eapply st_upload_same].
    right. intros (j & Hj & Hj')%list_elem_of_fmap. apply int_name_inj in Hj as [_ ->]. done.
  - intros c' b' t' Hcb Hst. apply Hout; [set_solver|].
    eapply st_upload_other; [done| |done]. rewrite fmap_cons in Hcb.
    intros [= -> ->]. set_solver.
Qed.

(** A worker ready for a map task: connected, between two tasks, its working
    container open for uploads; the user's script has its function. *)
Record map_ready (db : WorkerDBConnection) (cm cw : string) (ws : WState S) : Prop := {
  mr_db : w_dbConnection (wk ws) = Some db;
  mr_mstr : m_mstrcontainer db = Some cm;
  mr_wrkr : m_wrkrcontainer db = Some cw;
  mr_files : m_inter_files (wk ws) = [];
  mr_noname : files ws !! "" = None;
  mr_upload : ∀ b t s, ∃ s', st_upload cw b t s = Ret s';
  mr_py : ∀ f data, py "map" f data ≠ PyNoAttr
}.

Lemma write_partial_spec db cm b e blob addr s fs :
  m_mstrcontainer db = Some cm →
  handled (read_piece cm blob b e s) →
  ∃ ok f fs', write_partial_data_to_local_file db blob b e addr s fs = Ret (ok, f, fs') ∧
    (∀ g, g ≠ shard_file b e addr → fs' !! g = fs !! g) ∧
    (fs !! "" = None →
     py_items (py "map" f (fs' !! f)) = pairs_of addr b e (read_piece cm blob b e s)).
Proof using.
  intros Hcm Hr. unfold write_partial_data_to_local_file. rewrite Hcm.
  destruct (read_piece cm blob b e s) as [data|x| |]; try done; cbn [obind catch_std].
  - eexists true, _, _. split; [done|]. split.
    + intros g Hg. unfold append_file, open_trunc. by rewrite !lookup_insert_ne.
    + intros _. unfold append_file, open_trunc. by rewrite !lookup_insert_eq.
  - cbn in Hr. rewrite Hr. eexists false, "", fs. split; [done|]. split; [done|]. intros ->. done.
Qed.

Lemma instantiate_map_spec f ws :
  (∀ g data, py "map" g data ≠ PyNoAttr) →
  instantiate_map_function f ws = stream_items true (py_items (py "map" f (files ws !! f))) ws.
Proof using.
  intros Hpy. unfold instantiate_map_function, instantiate_py_func.
  specialize (Hpy f (files ws !! f)). by destruct (py _ _ _).
Qed.

Lemma length_piece_names addr sid n spid : length (piece_names addr sid n spid) = Z.to_nat n.
Proof using. unfold piece_names. by rewrite length_fmap, length_seq. Qed.

Lemma lookup_piece_names addr sid n spid i :
  i ∈ Z.of_nat <$> seq 0 (Z.to_nat n) →
  0 ≤ i < n ∧ piece_names addr sid n spid !! Z.to_nat i = Some (int_name addr sid spid i).
Proof using.
  intros (k & -> & Hk%elem_of_seq)%list_elem_of_fmap. rewrite Nat2Z.id. split; [lia|].
  unfold piece_names. rewrite list_lookup_fmap, lookup_seq_lt by lia. done.
Qed.

Lemma piece_names_ids addr sid n spid :
  int_name addr sid spid <$> (Z.of_nat <$> seq 0 (Z.to_nat n)) = piece_names addr sid n spid.
Proof using. unfold piece_names. by rewrite <-list_fmap_compose. Qed.

(** What a map task leaves of the worker. *)
Definition same_worker (w w' : Worker) : Prop :=
  m_full_address w' = m_full_address w ∧ m_outstream w' = m_outstream w.

Lemma map_shard_spec db cm cw blob b e n sid spid cont bl ws :
  map_ready db cm cw ws → 0 < n < 2 ^ 31 →
  handled (read_piece cm blob b e (store ws)) →
  let addr := m_full_address (wk ws) in
  let names := piece_names addr sid n spid in
  ∃ ws', map_shard blob b e n sid spid cont bl ws = Ret (m_wrkrcontainername db, bl ++ names, ws') ∧
    map_ready db cm cw ws' ∧ same_worker (wk ws) (wk ws') ∧
    (∀ i, 0 ≤ i < n → stored cw (int_name addr sid spid i)
       (part_file n i (pairs_of addr b e (read_piece cm blob b e (store ws)))) (store ws')) ∧
    keeps_others cw names (store ws) (store ws').
Proof.
  intros Hready Hn Hread addr names. pose proof Hready as [Hdb Hcm Hcw Hif Hno Hup Hpy].
  unfold map_shard, create_r_intermediate_files.
  cbn [wk files store field_update w_nreducers m_inter_files m_full_address w_dbConnection].
  rewrite Hdb, Hif. fold addr. fold (piece_names addr sid n spid). fold names.
  set (fs0 := foldl _ (files ws) names).
  assert (∀ g, fs0 !! g = if decide (g ∈ names) then Some [] else files ws !! g) as Hfs0
    by (intros; apply foldl_open_trunc).
  assert ("" ∉ names) as Hne by (by intros (i & _ & ?)%elem_of_piece_names).
  destruct (write_partial_spec db cm b e blob addr (store ws) fs0) as (ok & f & fs1 & -> & Hfs1 & Hpairs);
    [done|done|]. cbn [obind].
  specialize (Hpairs ltac:(by rewrite Hfs0, decide_False)).
  rewrite instantiate_map_spec by done. cbn [wk files store field_update].
  rewrite Hpairs. set (items := pairs_of _ _ _ _). 
  match goal with |- context [stream_items true items ?w] => set (ws1 := w) end.
  destruct (stream_items_map n names items ws1) as (fs2 & -> & Hin & Hout);
    [done|done|done|by unfold names; apply length_piece_names
    |apply NoDup_piece_names|]. cbn [obind].
  unfold close_r_intermediate_files.
  cbn [wk files store field_update w_nreducers m_inter_files ws1 app].
  rewrite decide_True by (unfold names; rewrite length_piece_names; lia).
  cbn [obind]. unfold add_intermediate_file_to_blob.
  match goal with |- context [add_intermediate_files _ _ _ _ _ _ ?w] => set (ws2 := w) end.
  destruct (add_intermediate_files_spec db cw sid spid (Z.of_nat <$> seq 0 (Z.to_nat n)) cont bl ws2)
    as (s' & Hadd & Hst & Hkeep); [done|done|apply NoDup_fmap_2; [apply _|apply NoDup_seq]| |].
  { intros i Hi. destruct (lookup_piece_names addr sid n spid i) as [Hi' Hl]; [done|].
    eexists. apply (Hin (Z.to_nat i)); [done|]. rewrite Hfs1, Hfs0 by done.
    rewrite decide_True; [done|]. by eapply list_elem_of_lookup_2. }
  cbn [wk files store field_update m_full_address w_nreducers ws2 ws1] in *.
  fold addr in Hadd, Hst, Hkeep. rewrite piece_names_ids in Hadd, Hkeep. rewrite Hadd.
  eexists. split; [|split; [|split; [|split]]].
  - f_equal. f_equal. f_equal. destruct (Z.to_nat n) eqn:Hz; [lia|done].
  - split; try done. cbn. rewrite Hout, Hfs1, Hfs0, decide_False by done. done.
  - done.
  - intros i Hi. assert (i ∈ Z.of_nat <$> seq 0 (Z.to_nat n)) as Hin'.
    { apply list_elem_of_fmap. exists (Z.to_nat i). rewrite elem_of_seq. lia. }
    apply Hst; [done|]. destruct (lookup_piece_names addr sid n spid i Hin') as [_ Hl].
    pose proof (Hin _ _ [] Hl) as Hf. rewrite Z2Nat.id in Hf by lia. apply Hf.
    rewrite Hfs1, Hfs0, decide_True by (done || by eapply list_elem_of_lookup_2). done.
  - done.
Qed.

(** The bytes and the pairs of a piece of a request, [text] being the blobs'
    contents. *)
Definition piece_data (text : string → bytes) (p : ShardTuple) : outcome bytes :=
  fix_word_boundary (startoffset p) (endoffset p)
    (downloaded (text (st_blobname p)) (Z.to_nat (startoffset p)) (Z.to_nat (endoffset p))).
Definition piece_pairs (addr : string) (text : string → bytes) (p : ShardTuple)
    : list (string * Z) :=
  pairs_of addr (startoffset p) (endoffset p) (piece_data text p).

(** A piece that starts inside its blob. *)
Definition piece_ok (cm : string) (text : string → bytes) (s : S) (p : ShardTuple) : Prop :=
  stored cm (st_blobname p) (text (st_blobname p)) s ∧
  0 ≤ startoffset p < Z.of_nat (length (text (st_blobname p))) ∧
  startoffset p ≤ endoffset p < 2 ^ 31.

Lemma fix_word_boundary_total b e l :
  0 ≤ e - b < 2 ^ 31 → handled (fix_word_boundary b e l).
Proof using.
  intros Hbe. assert (∀ n k, handled (blank_start n k)) as Hb.
  { intros n. induction n as [|n IH]; intros k; simpl; [done|].
    destruct k as [|c k]; [done|]. destruct (is_delim c); [done|].
    specialize (IH k). by destruct (blank_start n k). }
  unfold fix_word_boundary.
  assert (to_int32 (to_size (e - b)) = e - b) as ->.
  { rewrite to_size_id by (unfold is_size; lia). apply to_int32_id. unfold is_int32. lia. }
  assert (∀ c : bytes, handled (if decide (e - b < to_int32 (Z.of_nat (length c))) then
     if decide (e - b < 0) then Undef
     else Ret (take (Z.to_nat (e - b)) c ++ until_delim (drop (Z.to_nat (e - b)) c))
   else Ret c)) as Hend.
  { intros c. destruct (decide (e - b < to_int32 (Z.of_nat (length c)))); [|done].
    by rewrite decide_False by lia. }
  destruct (decide (b = 0)); [apply Hend|].
  specialize (Hb (Z.to_nat EXTRA_LEN) l).
  destruct (blank_start _ l); [apply Hend|exact Hb|done..].
Qed.

Lemma read_piece_ok cm text s p :
  piece_ok cm text s p →
  read_piece cm (st_blobname p) (to_size (startoffset p)) (to_size (endoffset p)) s
  = piece_data text p ∧
  handled (piece_data text p).
Proof using HL.
  intros (Hst & Hb & He). split; [|apply fix_word_boundary_total; lia].
  unfold read_piece, piece_data, EXTRA_LEN.
  rewrite (to_size_id (startoffset p)), (to_size_id (endoffset p)),
    (to_size_id (endoffset p - startoffset p)), to_size_id by (unfold is_size; lia).
  rewrite (st_range _ _ _ _ _ _ Hst) by lia. cbn [obind]. f_equal. unfold downloaded. f_equal.
  unfold EXTRA_LEN. lia.
Qed.

Lemma keeps_others_mono c names names' s s' :
  names ⊆ names' → keeps_others c names s s' → keeps_others c names' s s'.
Proof using. intros Hsub H c' b t Hc. apply H.
  destruct Hc as [|Hc]; [by left|]. right. intros Hin. by apply Hc, Hsub.
Qed.

Lemma keeps_others_trans c names s1 s2 s3 :
  keeps_others c names s1 s2 → keeps_others c names s2 s3 → keeps_others c names s1 s3.
Proof using. intros H1 H2 c' b t Hc Hst. apply H2; [done|]. by apply H1. Qed.

Lemma elem_of_reply_names addr sid n spid pieces f :
  f ∈ reply_names addr sid n spid pieces →
  ∃ k p i, pieces !! k = Some p ∧ 0 ≤ i < n ∧ f = int_name addr sid (spid + Z.of_nat k) i.
Proof using.
  revert spid. induction pieces as [|p pieces IH]; intros spid; cbn [reply_names];
    [by intros ?%elem_of_nil|].
  rewrite elem_of_app, elem_of_piece_names. intros [(i & Hi & ->)|(k & q & i & Hk & Hi & ->)%IH].
  - exists 0%nat, p, i. by rewrite Z.add_0_r.
  - exists (Datatypes.S k), q, i. split; [done|]. split; [done|]. f_equal. lia.
Qed.

Lemma elem_of_reply_names_2 addr sid n spid pieces k p i :
  pieces !! k = Some p → 0 ≤ i < n →
  int_name addr sid (spid + Z.of_nat k) i ∈ reply_names addr sid n spid pieces.
Proof using.
  intros Hk Hi. revert spid k Hk. induction pieces as [|q pieces IH]; intros spid k Hk; [done|].
  cbn [reply_names]. apply elem_of_app. destruct k as [|k].
  - left. apply elem_of_piece_names. exists i. by rewrite Z.add_0_r.
  - right. replace (spid + Z.of_nat (Datatypes.S k)) with (spid + 1 + Z.of_nat k) by lia. by apply IH.
Qed.

Lemma map_pieces_spec db cm cw text n sid spid pieces cont bl ws :
  map_ready db cm cw ws → cm ≠ cw → 0 < n < 2 ^ 31 →
  Forall (piece_ok cm text (store ws)) pieces →
  let addr := m_full_address (wk ws) in
  ∃ ws', map_pieces n sid spid pieces cont bl ws
      = Ret (match pieces with [] => cont | _ => m_wrkrcontainername db end,
             bl ++ reply_names addr sid n spid pieces, ws') ∧
    map_ready db cm cw ws' ∧ same_worker (wk ws) (wk ws') ∧
    (∀ k p i, pieces !! k = Some p → 0 ≤ i < n →
       stored cw (int_name addr sid (spid + Z.of_nat k) i)
         (part_file n i (piece_pairs addr text p)) (store ws')) ∧
    keeps_others cw (reply_names addr sid n spid pieces) (store ws) (store ws').
Proof.
  intros Hready Hcm Hn Hps. revert spid cont bl ws Hready Hps.
  induction pieces as [|p pieces IH]; intros spid cont bl ws Hready Hps; cbn zeta.
  { exists ws. rewrite app_nil_r. repeat (split; [done|]). by intros ????. }
  apply Forall_cons in Hps as [Hp Hps]. cbn [map_pieces].
  destruct (read_piece_ok cm text (store ws) p Hp) as [Hread Htot].
  destruct (map_shard_spec db cm cw (st_blobname p) (to_size (startoffset p)) (to_size (endoffset p))
    n sid spid cont bl ws) as (ws1 & -> & Hready1 & [Haddr Hout] & Hst1 & Hk1); [done|done|by rewrite Hread|].
  rewrite Hread in Hst1. set (addr := m_full_address (wk ws)) in *. cbn [obind].
  destruct (IH (spid + 1) (m_wrkrcontainername db) (bl ++ piece_names addr sid n spid) ws1)
    as (ws' & -> & Hready' & [Haddr' Hout'] & Hst' & Hk'); [done| |].
  { eapply Forall_impl; [exact Hps|]. intros q (Hq & ?). split; [|done]. apply Hk1; [by left|done]. }
  rewrite Haddr in *. exists ws'. split; [|split; [done|split; [|split]]].
  - cbn [reply_names]. rewrite <-app_assoc. by destruct pieces.
  - split; [done|by rewrite Hout'].
  - intros [|k] q i Hq Hi.
    + injection Hq as <-. rewrite Z.add_0_r. apply Hk'.
      * right. intros (k & q & j & _ & _ & [? ?]%int_name_inj)%elem_of_reply_names. lia.
      * destruct Hp as (_ & ? & ?). specialize (Hst1 i Hi). unfold piece_pairs.
        by rewrite !to_size_id in Hst1 by (unfold is_size; lia).
    + replace (spid + Z.of_nat (Datatypes.S k)) with (spid + 1 + Z.of_nat k) by lia. by apply Hst'.
  - cbn [reply_names]. eapply keeps_others_trans; (eapply keeps_others_mono; [|done]); set_solver.
Qed.

Lemma map_task_spec db cm cw text request ws w' :
  map_ready db cm cw ws → cm ≠ cw → worker_check_fail (wk ws) = (w', false) →
  0 < npartition request < 2 ^ 31 → stuples request ≠ [] →
  Forall (piece_ok cm text (store ws)) (stuples request) →
  let n := npartition request in
  let addr := m_full_address (wk ws) in
  let names := reply_names addr (mi_shard_id request) n 0 (stuples request) in
  ∃ ws', map_do_work request ws = Ret (mkIntermediateResult (m_wrkrcontainername db) names, ws') ∧
    map_ready db cm cw ws' ∧ same_worker (wk ws) (wk ws') ∧
    (∀ k p i, stuples request !! k = Some p → 0 ≤ i < n →
       stored cw (int_name addr (mi_shard_id request) (Z.of_nat k) i)
         (part_file n i (piece_pairs addr text p)) (store ws')) ∧
    keeps_others cw names (store ws) (store ws').
Proof.
  intros Hready Hne Hfail Hn Hnil Hps. cbn zeta. unfold map_do_work. rewrite Hfail.
  destruct (worker_check_fail_keeps _ _ Hfail) as (Hdb & Hif & Haddr & Hout).
  destruct (map_pieces_spec db cm cw text (npartition request) (mi_shard_id request) 0
    (stuples request) "" [] (ws <| wk := w' |>)) as (ws' & Hrun & Hready' & [Haddr' Hout'] & Hst & Hk);
    [|done|done|done|].
  { destruct Hready. split; try done; [by rewrite <-mr_db0|by rewrite <-mr_files0]. }
  change (m_full_address (wk _)) with (m_full_address w') in Hrun, Hst, Hk. rewrite Haddr in *.
  exists ws'. rewrite Hrun. cbn [obind]. split; [by destruct (stuples request)|].
  split; [done|]. split; [|done]. split; [by rewrite Haddr'|by rewrite Hout'].
Qed.

(** ** Lemmas: the reduce task *)

(** The input of a reducer: the blobs that can be read, one after the other. *)
Definition fetched (c : string) (s : S) (b : string) : bytes :=
  match st_download c b s with Ret t => t | _ => [] end.

(** A worker ready for a reduce task on container [ci]; its output goes to the
    container [co]. *)
Record reduce_ready_worker (db : WorkerDBConnection) (ci : string) (ws : WState S) : Prop := {
  rr_db : w_dbConnection (wk ws) = Some db;
  rr_out : m_outstream (wk ws) = None;
  rr_in : st_container ci (store ws) = Ret (store ws);
  rr_read : ∀ b, handled (st_download ci b (store ws));
  rr_co : ∀ s, ∃ s', st_container (m_mstrcontainername db +:+ "out") s = Ret s';
  rr_up : ∀ b t s, ∃ s', st_upload (m_mstrcontainername db +:+ "out") b t s = Ret s';
  rr_py : ∀ f data, py "reduce" f data ≠ PyNoAttr
}.

Lemma prepare_all_spec db ci blobs f c ws :
  w_dbConnection (wk ws) = Some db → st_container ci (store ws) = Ret (store ws) →
  (∀ b, handled (st_download ci b (store ws))) →
  files ws !! f = Some c →
  ∃ fs', prepare_all ci blobs f ws = Ret (ws <| files := fs' |>) ∧
    fs' !! f = Some (c ++ (blobs ≫= fetched ci (store ws))).
Proof using.
  intros Hdb Hci Hread. revert c ws Hdb Hci Hread. induction blobs as [|b blobs IH];
    intros c ws Hdb Hci Hread Hf.
  { exists (files ws). rewrite app_nil_r. by destruct ws. }
  cbn [prepare_all]. unfold prepare_data, write_full_data_to_local_file. rewrite Hdb, Hci.
  rewrite bind_cons, app_assoc. unfold fetched at 1. specialize (Hread b) as Hb. cbn [obind].
  destruct (st_download ci b (store ws)) as [t|x| |]; [| |done|done]; cbn [obind catch_std].
  - match goal with |- context [prepare_all _ _ _ ?w] =>
      apply (IH (c ++ t) w); [done..|] end.
    cbn. unfold append_file. by rewrite lookup_insert_eq, Hf.
  - cbn in Hb. rewrite Hb, app_nil_r. cbn [catch_std obind].
    match goal with |- context [prepare_all _ _ _ ?w] => apply (IH c w); [done..|] end. done.
Qed.

Lemma stream_items_reduce f c items ws :
  m_outstream (wk ws) = Some f → files ws !! f = Some c →
  ∃ fs', stream_items false items ws = Ret (ws <| files := fs' |>) ∧
    fs' !! f = Some (c ++ (items ≫= pair_line)) ∧ ∀ g, g ≠ f → fs' !! g = files ws !! g.
Proof using.
  revert c ws. induction items as [|kv items IH]; intros c ws Ho Hf.
  { exists (files ws). rewrite app_nil_r. split; [by destruct ws|done]. }
  cbn [stream_items]. unfold stream_to_file. rewrite Ho. cbn [obind].
  rewrite bind_cons, app_assoc.
  match goal with |- context [stream_items _ _ ?w] =>
    destruct (IH (c ++ pair_line kv) w) as (fs' & Hrun & Hfs & Hg); [done| |] end.
  { cbn. unfold append_file. by rewrite lookup_insert_eq, Hf. }
  exists fs'. split; [exact Hrun|]. split; [done|]. intros g Hne. rewrite Hg by done. cbn.
  unfold append_file. by rewrite lookup_insert_ne.
Qed.

Lemma reduce_spec db f rid data ws :
  w_dbConnection (wk ws) = Some db → m_outstream (wk ws) = None →
  (∀ s, ∃ s', st_container (m_mstrcontainername db +:+ "out") s = Ret s') →
  (∀ b t s, ∃ s', st_upload (m_mstrcontainername db +:+ "out") b t s = Ret s') →
  (∀ g d, py "reduce" g d ≠ PyNoAttr) →
  files ws !! f = Some data → f ≠ "out_" +:+ to_string rid →
  let co := m_mstrcontainername db +:+ "out" in
  let out := "out_" +:+ to_string rid in
  ∃ ws', reduce f rid ws = Ret (out, co, ws') ∧ wk ws' = (wk ws) <| m_outfile := out |> ∧
    (∀ g, g ≠ out → files ws' !! g = files ws !! g) ∧
    stored co out (py_items (py "reduce" f (Some data)) ≫= pair_line) (store ws') ∧
    (∀ c b t, c ≠ co ∨ b ≠ out → stored c b t (store ws) → stored c b t (store ws')).
Proof using HL.
  intros Hdb Ho Hco Hup Hpy Hf Hne co out. fold co in Hco, Hup. unfold reduce, create_output_file. fold out.
  fold out in Hne. clearbody out.
  cbn [wk field_update m_outstream]. rewrite Ho.
  unfold instantiate_reduce_function, instantiate_py_func. cbn [files field_update].
  assert (open_trunc out (files ws) !! f = Some data) as ->
    by (unfold open_trunc; by rewrite lookup_insert_ne).
  match goal with |- context [stream_items _ _ ?w] => set (ws1 := w) end.
  destruct (stream_items_reduce out [] (py_items (py "reduce" f (Some data))) ws1)
    as (fs' & Hs & Hout & Hg); [done|unfold ws1; cbn; unfold open_trunc; by rewrite lookup_insert_eq|].
  replace (bool_decide ("reduce" = "map")) with false by done.
  replace (match py "reduce" f (Some data) with PyNoAttr => Undef | _ => _ end)
    with (Ret (ws1 <| files := fs' |>)).
  2:{ rewrite <-Hs. specialize (Hpy f (Some data)). by destruct (py _ _ _). }
  cbn [obind]. unfold close_output_file, add_out_blob. cbn [wk field_update w_dbConnection ws1].
  rewrite Hdb. fold co.
  match goal with |- context [st_container co ?s] => change s with (store ws) end.
  destruct (Hco (store ws)) as [s1 Hs1]. rewrite Hs1.
  cbn [obind]. unfold upload_file. cbn.
  rewrite Hout.
  destruct (Hup out (py_items (py "reduce" f (Some data)) ≫= pair_line) s1) as [s2 Hs2].
  cbn [app]. rewrite Hs2. cbn [obind]. eexists. split; [done|].
  split; [by destruct (wk ws); cbn in *; subst|].
  split; [intros g Hgne; cbn; rewrite Hg by done; cbn; unfold open_trunc; by rewrite lookup_insert_ne|].
  split; [by eapply st_upload_same|].
  intros c b t Hcb Hst. eapply st_upload_other; [done|naive_solver|].
  by eapply st_container_frame.
Qed.

(** The same task when its blobs are there, on a storage that can change. *)
Lemma prepare_all_stored db ci blobs ts f c ws :
  w_dbConnection (wk ws) = Some db → (∀ s, ∃ s', st_container ci s = Ret s') →
  Forall2 (λ b t, stored ci b t (store ws)) blobs ts → files ws !! f = Some c →
  ∃ ws', prepare_all ci blobs f ws = Ret ws' ∧ wk ws' = wk ws ∧
    files ws' !! f = Some (c ++ concat ts) ∧ (∀ g, g ≠ f → files ws' !! g = files ws !! g) ∧
    ∀ c' b t, stored c' b t (store ws) → stored c' b t (store ws').
Proof using HL.
  intros Hdb Hci Hts. remember (store ws) as s0 eqn:Hs0.
  assert (∀ c' b t, stored c' b t s0 → stored c' b t (store ws)) as Hk by (by subst s0).
  clear Hs0. revert c ws Hdb Hk. induction Hts as [|b t blobs ts Hb _ IH]; intros c ws Hdb Hk Hf.
  { exists ws. by rewrite app_nil_r. }
  cbn [prepare_all]. unfold prepare_data, write_full_data_to_local_file. rewrite Hdb.
  destruct (Hci (store ws)) as [s1 Hs1]. rewrite Hs1. cbn [obind].
  assert (∀ c' b t, stored c' b t (store ws) → stored c' b t s1) as Hk1
    by (intros; by eapply st_container_frame).
  assert (stored ci b t s1) as Hb1 by (by apply Hk1, Hk). unfold stored in Hb1.
  rewrite Hb1. cbn [obind catch_std concat].
  set (ws1 := ws <| store := s1 |> <| files := append_file f t (files ws) |>).
  destruct (IH (c ++ t) ws1) as (ws' & Hrun & Hwk & Hfs & Hg & Hst); [done|by intros; apply Hk1, Hk| |].
  { cbn. unfold append_file. by rewrite lookup_insert_eq, Hf. }
  exists ws'. split; [exact Hrun|]. split; [exact Hwk|]. rewrite app_assoc. split; [exact Hfs|].
  split; [|exact Hst]. intros g Hne. rewrite Hg by done. cbn. unfold append_file.
  by rewrite lookup_insert_ne.
Qed.

Lemma reduce_task_stored db request ws w' ts :
  let ci := Types.ri_containername request in
  let co := m_mstrcontainername db +:+ "out" in
  let out := "out_" +:+ to_string (reducer_id request) in
  let kv := kv_file (m_full_address (wk ws)) (reducer_id request) in
  w_dbConnection (wk ws) = Some db → m_outstream (wk ws) = None →
  (∀ d s, ∃ s', st_container d s = Ret s') → (∀ d b t s, ∃ s', st_upload d b t s = Ret s') →
  (∀ f data, py "reduce" f data ≠ PyNoAttr) →
  Forall2 (λ b t, stored ci b t (store ws)) (Types.ri_blobs request) ts →
  worker_check_fail (wk ws) = (w', false) →
  ∃ ws', reduce_do_work request ws = Ret (mkFinalResult "" co, ws') ∧
    stored co out (py_items (py "reduce" kv (Some (concat ts))) ≫= pair_line) (store ws') ∧
    w_dbConnection (wk ws') = Some db ∧ m_inter_files (wk ws') = m_inter_files (wk ws) ∧
    m_outstream (wk ws') = None ∧
    (∀ g, g ≠ kv → g ≠ out → files ws' !! g = files ws !! g) ∧
    (∀ c b t, c ≠ co ∨ b ≠ out → stored c b t (store ws) → stored c b t (store ws')).
Proof using HL.
  intros ci co out kv Hdb Ho Hco Hup Hpy Hts Hfail. unfold reduce_do_work. fold kv.
  change (wk (ws <| files := open_trunc kv (files ws) |>)) with (wk ws). rewrite Hfail.
  destruct (worker_check_fail_keeps _ _ Hfail) as (Hdb' & Hif' & _ & Ho').
  rewrite Hdb in Hdb'. rewrite Ho in Ho'.
  match goal with |- context [prepare_all _ _ _ ?w] => set (ws1 := w) end.
  destruct (prepare_all_stored db ci (Types.ri_blobs request) ts kv [] ws1)
    as (ws2 & Hprep & Hwk2 & Hkv & Hg2 & Hk2); [done|auto|done|unfold ws1; cbn; apply lookup_insert_eq|].
  fold ci. rewrite Hprep. cbn [obind app] in *.
  destruct (reduce_spec db kv (reducer_id request) (concat ts) ws2)
    as (ws' & Hrun & Hwk & Hg & Hst & Hk); [by rewrite Hwk2|by rewrite Hwk2|auto|auto|done|done|done|].
  rewrite Hrun. cbn [obind]. exists ws'. split; [done|]. split; [exact Hst|].
  rewrite Hwk. cbn [w_dbConnection m_inter_files m_outstream field_update]. rewrite Hwk2.
  split; [exact Hdb'|]. split; [exact Hif'|]. split; [exact Ho'|]. split.
  - intros g Hne Hne'. rewrite Hg, Hg2 by done. cbn. unfold open_trunc. by rewrite lookup_insert_ne.
  - intros c b t Hcb Hb. apply Hk; [done|]. by apply Hk2.
Qed.

(** ** Properties *)

(** C6: A map task that is not the one the worker fails at replies the working
    container and, for every piece and every reducer [i] of [n], the name of one
    blob; that blob holds, a line each in the order of the dict, exactly the
    pairs of the user's function on the piece whose key hashes to [i] modulo [n].
    No other blob of any container changes, and the worker is ready for the next
    task. *)
Theorem map_task_correct db cm cw text request ws w' :
  map_ready db cm cw ws → cm ≠ cw → worker_check_fail (wk ws) = (w', false) →
  0 < npartition request < 2 ^ 31 → stuples request ≠ [] →
  Forall (piece_ok cm text (store ws)) (stuples request) →
  let n := npartition request in
  let addr := m_full_address (wk ws) in
  let names := reply_names addr (mi_shard_id request) n 0 (stuples request) in
  ∃ ws', map_do_work request ws = Ret (mkIntermediateResult (m_wrkrcontainername db) names, ws') ∧
    map_ready db cm cw ws' ∧
    (∀ k p i, stuples request !! k = Some p → 0 ≤ i < n →
       stored cw (int_name addr (mi_shard_id request) (Z.of_nat k) i)
         (part_file n i (piece_pairs addr text p)) (store ws')) ∧
    keeps_others cw names (store ws) (store ws').
Proof.
  intros Hready Hne Hfail Hn Hnil Hps. cbn zeta.
  destruct (map_task_spec db cm cw text request ws w' Hready Hne Hfail Hn Hnil Hps)
    as (ws' & ? & ? & _ & ? & ?). by exists ws'.
Qed.

(** the reducers' parts of a dict together are the dict: every pair is in
    exactly one reducer's part. *)
Theorem part_partition n items :
  0 < n → (Z.of_nat <$> seq 0 (Z.to_nat n)) ≫= (λ i, part n i items) ≡ₚ items.
Proof.
  intros Hn.
  etrans; [|apply (partition_perm (λ kv : string * Z, Some (hash kv.1 mod n)) items (Z.to_nat n))].
  - induction (Z.of_nat <$> seq 0 (Z.to_nat n)) as [|i ids IH]; [done|].
    rewrite !bind_cons. apply Permutation_app; [|exact IH]. unfold part.
    erewrite filter_agree; [done|]. intros kv _. naive_solver.
  - apply Forall_forall. intros kv _. eexists. split; [done|].
    rewrite Z2Nat.id by lia. apply Z.mod_pos_bound. lia.
Qed.

(** C7: A reduce task that is not the one the worker fails at replies the output
    container and no blob name; the blob named by the reducer's number then
    holds, a line each, the pairs of the user's function on the blobs of the
    request one after the other, without those that cannot be read. *)
Theorem reduce_task_correct db request ws w' :
  reduce_ready_worker db (Types.ri_containername request) ws →
  worker_check_fail (wk ws) = (w', false) →
  let addr := m_full_address (wk ws) in
  let co := m_mstrcontainername db +:+ "out" in
  let out := "out_" +:+ to_string (reducer_id request) in
  let input := Types.ri_blobs request ≫= fetched (Types.ri_containername request) (store ws) in
  let pairs := py_items (py "reduce" (kv_file addr (reducer_id request)) (Some input)) in
  ∃ ws', reduce_do_work request ws = Ret (mkFinalResult "" co, ws') ∧
    stored co out (pairs ≫= pair_line) (store ws') ∧
    m_outstream (wk ws') = None ∧
    (∀ c b t, c ≠ co ∨ b ≠ out → stored c b t (store ws) → stored c b t (store ws')).
Proof.
  intros [Hdb Ho Hci Hread Hco Hup Hpy] Hfail. cbn zeta. unfold reduce_do_work.
  set (kv := kv_file _ _).
  change (wk (ws <| files := open_trunc kv (files ws) |>)) with (wk ws). rewrite Hfail.
  destruct (worker_check_fail_keeps _ _ Hfail) as (Hdb' & _ & _ & Ho').
  rewrite Hdb in Hdb'. rewrite Ho in Ho'.
  match goal with |- context [prepare_all _ _ _ ?w] => set (ws1 := w) end.
  destruct (prepare_all_spec db (Types.ri_containername request) (Types.ri_blobs request) kv [] ws1)
    as (fs' & Hprep & Hkv); [done|done|done|unfold ws1; cbn; apply lookup_insert_eq|].
  rewrite Hprep. cbn [obind app] in *.
  destruct (reduce_spec db kv (reducer_id request)
    (Types.ri_blobs request ≫= fetched (Types.ri_containername request) (store ws))
    (ws1 <| files := fs' |>)) as (ws' & -> & Hwk & _ & Hst & Hk); [done..|].
  cbn [obind]. exists ws'. split; [done|]. split; [done|]. split; [|exact Hk].
  rewrite Hwk. exact Ho'.
Qed.

(** C39: Unreadable input is reported as done: when reading the only piece of a
    task throws a [std::exception], the reply is the one of a task done, the blob
    of every reducer holds its part of the pairs of the user's function on a file
    that does not exist (none if the function raises for it), and the worker is
    ready for the next task. *)
Theorem unreadable_piece_reported_done db cm cw request p ws x :
  map_ready db cm cw ws → w_will_fail (wk ws) = false →
  0 < npartition request < 2 ^ 31 → stuples request = [p] →
  read_piece cm (st_blobname p) (to_size (startoffset p)) (to_size (endoffset p)) (store ws) = Raise x →
  std_exception x = true →
  let addr := m_full_address (wk ws) in
  let n := npartition request in
  ∃ ws', map_do_work request ws
      = Ret (mkIntermediateResult (m_wrkrcontainername db) (piece_names addr (mi_shard_id request) n 0), ws') ∧
    map_ready db cm cw ws' ∧
    ∀ i, 0 ≤ i < n →
      stored cw (int_name addr (mi_shard_id request) 0 i) (part_file n i (py_items (py "map" "" None)))
        (store ws') ∧
      (py "map" "" None = PyRaised →
       stored cw (int_name addr (mi_shard_id request) 0 i) [] (store ws')).
Proof.
  intros Hready Hwf Hn Hp Hread Hx. cbn zeta. unfold map_do_work, worker_check_fail.
  rewrite Hwf, Hp. cbn [map_pieces].
  replace (ws <| wk := wk ws |>) with ws by (by destruct ws).
  destruct (map_shard_spec db cm cw (st_blobname p) (to_size (startoffset p)) (to_size (endoffset p))
    (npartition request) (mi_shard_id request) 0 "" [] ws) as (ws' & -> & Hready' & _ & Hst & _);
    [done|done|by rewrite Hread|].
  cbn [obind]. exists ws'. split; [done|]. split; [done|]. intros i Hi.
  specialize (Hst i Hi). rewrite Hread in Hst. split; [exact Hst|].
  intros Hpy. unfold pairs_of in Hst. by rewrite Hpy in Hst.
Qed.

Lemma WorkerDBConnection_new_ok conn name s s1 s2 :
  st_parse conn = Ret tt → st_container name s = Ret s1 → st_container (name +:+ "int") s1 = Ret s2 →
  WorkerDBConnection_new conn name s
    = Ret (mkWorkerDBConnection conn name (name +:+ "int") (Some name) (Some (name +:+ "int")), s2).
Proof.
  intros Hp H1 H2. unfold WorkerDBConnection_new, WorkerDBConnection_init. cbn -[String.append].
  rewrite Hp. cbn -[String.append]. rewrite H1. cbn -[String.append]. by rewrite H2.
Qed.

(** After an address exchange for a container the storage lets it open, the
    worker answers its address and is ready for map tasks on that container. *)
Theorem exchange_makes_ready conn name s s1 s2 w fs mname :
  st_parse conn = Ret tt → st_container name s = Ret s1 → st_container (name +:+ "int") s1 = Ret s2 →
  m_inter_files w = [] → fs !! "" = None →
  (∀ b t s, ∃ s', st_upload (name +:+ "int") b t s = Ret s') →
  (∀ f data, py "map" f data ≠ PyNoAttr) →
  ∃ db ws', exchange_do_work (mkMasterInfo mname conn name) (mkWState w fs s)
      = Ret (m_full_address w, ws') ∧
    m_mstrcontainername db = name ∧ m_wrkrcontainername db = name +:+ "int" ∧
    store ws' = s2 ∧ wk ws' = w <| w_dbConnection := Some db |> ∧
    map_ready db name (name +:+ "int") ws'.
Proof.
  intros Hp H1 H2 Hif Hno Hup Hpy.
  exists (mkWorkerDBConnection conn name (name +:+ "int") (Some name) (Some (name +:+ "int"))).
  unfold exchange_do_work, worker_create_connection. cbn [mi_connectionstring mi_containername store].
  rewrite (WorkerDBConnection_new_ok conn name _ s1 s2 Hp H1 H2). cbn [obind].
  eexists. split; [done|]. repeat (split; [done|]). by split.
Qed.
End WorkerOps.

(** ** Failure injection *)

(** [k] tasks one after the other, as far as [worker_check_fail] goes. *)
Fixpoint checks (k : nat) (w : Worker) : Worker * bool :=
  match k with
  | O => (w, false)
  | S k => let '(w, parked) := checks k w in if parked then (w, true) else worker_check_fail w
  end.

Lemma checks_new n k :
  Z.of_nat k < n → checks k (Worker_new n) = ((Worker_new n) <| w_until_fail := n - Z.of_nat k |>, false).
Proof.
  induction k as [|k IH]; intros Hk.
  - cbn [checks]. replace (n - Z.of_nat 0) with n by lia. unfold Worker_new.
    by rewrite !(decide_False (P:=n ≤ 0)) by lia.
  - cbn [checks]. rewrite IH by lia. unfold worker_check_fail, Worker_new.
    rewrite !(decide_False (P:=n ≤ 0)) by lia. cbn [w_will_fail w_until_fail field_update].
    rewrite decide_False by lia.
    by replace (n - Z.of_nat (S k)) with (n - Z.of_nat k - 1) by lia.
Qed.

(** A worker set to fail after [n] tasks parks at the start of the [n]th one,
    so that it completes [n - 1]; set to a number that is not positive it never
    does. *)
Theorem worker_fails_at_task n k :
  (checks k (Worker_new n)).2 = bool_decide (0 < n ≤ Z.of_nat k).
Proof.
  destruct (decide (0 < n)) as [Hn|Hn].
  - destruct (decide (n ≤ Z.of_nat k)) as [Hk|Hk].
    + rewrite bool_decide_eq_true_2 by lia. induction k as [|k IH]; [lia|]. cbn [checks].
      destruct (decide (n ≤ Z.of_nat k)) as [Hk'|Hk'].
      * specialize (IH Hk'). by destruct (checks k (Worker_new n)) as [w []].
      * rewrite checks_new by lia. unfold worker_check_fail, Worker_new.
        rewrite !(decide_False (P:=n ≤ 0)) by lia. cbn [w_will_fail w_until_fail field_update].
        by rewrite decide_True by lia.
    + rewrite bool_decide_eq_false_2 by lia. by rewrite checks_new by lia.
  - rewrite bool_decide_eq_false_2 by lia.
    assert (checks k (Worker_new n) = (Worker_new n, false)) as ->; [|done].
    induction k as [|k IH]; [done|]. cbn [checks]. rewrite IH. unfold worker_check_fail, Worker_new.
    by rewrite !(decide_True (P:=n ≤ 0)) by lia.
Qed.

(** ** Ports *)

Definition zeros (k : nat) : string := String.string_of_list_ascii (replicate k "0"%char).

Lemma read_digits_zeros k s o :
  default 0 o = 0 →
  read_digits (zeros k +:+ s) o = read_digits s (if decide (k = 0%nat) then o else Some 0).
Proof.
  revert o. induction k as [|k IH]; intros o Ho; [done|].
  change (zeros (S k) +:+ s) with (String "0" (zeros k +:+ s)). cbn [read_digits].
  change (digit_value "0") with (Some 0). rewrite Ho. cbn. rewrite IH by done.
  by destruct (decide (k = 0%nat)).
Qed.

Lemma read_digits_zero z o : 0 ≤ z → default 0 o = 0 → read_digits (digits z) o = Some z.
Proof.
  intros Hz Ho. unfold digits.
  destruct (digits_go_read (S (Z.to_nat (Z.log2 z))) z "") as [k ->];
    [split; [done|by apply digits_fuel_enough]|lia|]. by rewrite Ho.
Qed.

(** The port of a local worker is 50050 plus the number ZooKeeper put at the
    end of its node's path, padded with zeros as it is. *)
Theorem local_port_of_sequence k n :
  0 ≤ n < 2 ^ 31 - 50050 → choose_local_port ("/workers/worker_" +:+ zeros k +:+ to_string n) = 50050 + n.
Proof.
  intros Hn. unfold choose_local_port.
  change ("/workers/worker_" +:+ zeros k +:+ to_string n)
    with ("/workers/worker" +:+ String "_" (zeros k +:+ to_string n)).
  rewrite find_first_app by done.
  replace (str_drop _ _) with (zeros k +:+ to_string n) by done.
  assert (strtol (zeros k +:+ to_string n) = n) as ->.
  2:{ apply to_int32_id. unfold is_int32. lia. }
  destruct k as [|k].
  { change (zeros 0 +:+ to_string n) with (to_string n). rewrite <-(str_app_nil_r (to_string n)).
    apply strtol_to_string; [|done]. unfold long_min, long_max. lia. }
  unfold strtol, read_number. change (zeros (S k) +:+ to_string n) with (String "0" (zeros k +:+ to_string n)).
  cbn [skip_spaces]. change (is_space "0") with false. cbn iota.
  rewrite !decide_False by done.
  change (String "0" (zeros k +:+ to_string n)) with (zeros (S k) +:+ to_string n).
  rewrite read_digits_zeros by done. unfold to_string. rewrite decide_False by lia.
  rewrite read_digits_zero; [|lia|by destruct (decide _)]. cbn. unfold long_min, long_max in *. try lia.
Qed.

(** ** The names of the blobs *)

Lemma reducer_of_int_name addr sid p i :
  is_int32 i → reducer_of (int_name addr sid p i) = Some i.
Proof.
  intros Hi. unfold reducer_of. rewrite int_name_after_last, <-(str_app_nil_r (to_string i)).
  rewrite stol_to_string; [|unfold is_int32, long_min, long_max in *; lia|done].
  by rewrite to_int32_id.
Qed.

Lemma piece_names_reducer addr sid n p j :
  0 ≤ j < n → n < 2 ^ 31 → reducer_blobs (piece_names addr sid n p) j = [int_name addr sid p j].
Proof.
  intros Hj Hn. unfold piece_names, reducer_blobs.
  replace (Z.to_nat n) with (Z.to_nat j + (1 + (Z.to_nat n - Z.to_nat j - 1)))%nat by lia.
  rewrite !seq_app, !fmap_app, !filter_app. cbn [seq fmap list_fmap Nat.add].
  assert (∀ l, Forall (λ i, (Z.of_nat i < n ∧ Z.of_nat i ≠ j)) l →
    filter (λ b, reducer_of b = Some j) ((λ i, int_name addr sid p (Z.of_nat i)) <$> l) = []) as Hnil.
  { induction 1 as [|i l [Hi Hne] _ IH]; [done|]. rewrite fmap_cons, filter_cons_False; [done|].
    rewrite reducer_of_int_name by (unfold is_int32; lia). by intros [= ?]. }
  rewrite !Hnil by (apply Forall_forall; intros i Hi%elem_of_seq; lia).
  rewrite Z2Nat.id by lia. rewrite filter_cons_True; [done|].
  rewrite reducer_of_int_name; [done|]. unfold is_int32. lia.
Qed.

Lemma reply_names_numbered addr sid n p pieces :
  n < 2 ^ 31 → Forall (λ b, ∃ k, reducer_of b = Some k ∧ 0 ≤ k < n) (reply_names addr sid n p pieces).
Proof.
  intros Hn. revert p. induction pieces as [|q pieces IH]; intros p; [constructor|].
  cbn [reply_names]. apply Forall_app. split; [|apply IH]. apply Forall_forall.
  intros b (i & Hi & ->)%elem_of_piece_names. exists i. split; [|done].
  apply reducer_of_int_name. unfold is_int32. lia.
Qed.

Lemma reply_names_reducer addr sid n p j pieces :
  0 ≤ j < n → n < 2 ^ 31 →
  reducer_blobs (reply_names addr sid n p pieces) j
  = (λ k, int_name addr sid (p + Z.of_nat k) j) <$> seq 0 (length pieces).
Proof.
  intros Hj Hn. revert p. induction pieces as [|q pieces IH]; intros p; [done|].
  cbn [reply_names length seq]. unfold reducer_blobs in *. rewrite filter_app, IH.
  fold (reducer_blobs (piece_names addr sid n p) j). rewrite piece_names_reducer by done.
  rewrite fmap_cons, Z.add_0_r. cbn [app]. f_equal. rewrite <-fmap_S_seq, <-list_fmap_compose.
  apply list_fmap_ext. intros _ k _. unfold compose. f_equal. lia.
Qed.

(** The names of the map replies the master collects: who answered, for which
    shard, and its pieces. *)
Definition all_replies (n : Z) (replies : list (string * Z * list ShardTuple)) : list string :=
  replies ≫= λ r, reply_names r.1.1 r.1.2 n 0 r.2.

Lemma replies_reach_reducers_spec n j replies :
  0 ≤ j < n → n < 2 ^ 31 →
  reduce_blobs (all_replies n replies) j
  = Ret (replies ≫= λ r, (λ k, int_name r.1.1 r.1.2 (Z.of_nat k) j) <$> seq 0 (length r.2)).
Proof.
  intros Hj Hn. rewrite reduce_blobs_spec.
  - f_equal. unfold all_replies, reducer_blobs. induction replies as [|[[addr sid] pieces] replies IH]; [done|].
    rewrite !bind_cons, filter_app, IH. f_equal. cbn [fst snd].
    fold (reducer_blobs (reply_names addr sid n 0 pieces) j). by rewrite reply_names_reducer.
  - unfold all_replies. apply Forall_bind, Forall_forall. intros [[addr sid] pieces] _.
    eapply Forall_impl; [by apply reply_names_numbered|]. intros b (k & -> & _). done.
Qed.

(** C24: The names of the map phase are read back by the reduce phase: out of the
    blobs of any replies of workers for [n] reducers, the master gives reducer
    [j] exactly the blob numbered [j] of every piece. *)
Theorem replies_reach_reducers n j replies :
  0 ≤ j < n → n < 2 ^ 31 →
  reduce_blobs (all_replies n replies) j
  = Ret (replies ≫= λ r, (λ k, int_name r.1.1 r.1.2 (Z.of_nat k) j) <$> seq 0 (length r.2)).
Proof. apply replies_reach_reducers_spec. Qed.

(** ** A storage *)

(** Blobs by container and name; containers need not be created. *)
#[export] Instance gmap_storage : Storage (gmap (string * string) bytes) := {|
  st_parse _ := Ret tt;
  st_container _ s := Ret s;
  st_upload c b t s := Ret (<[(c, b) := t]> s);
  st_download c b s := match s !! (c, b) with Some t => Ret t | None => Raise StorageError end;
  st_download_range c b i len s :=
    match s !! (c, b) with
    | Some t => if decide (0 ≤ i < Z.of_nat (length t))
                then Ret (take (Z.to_nat len) (drop (Z.to_nat i) t)) else Raise StorageError
    | None => Raise StorageError
    end
|}.

#[export] Instance gmap_storage_laws : StorageLaws (gmap (string * string) bytes).
Proof.
  split; unfold stored; cbn.
  - intros c b t s s' [= <-]. by rewrite lookup_insert_eq.
  - intros c b t s s' c' b' t' [= <-] Hne. by rewrite lookup_insert_ne.
  - by intros c s s' c' b' t' [= <-].
  - intros c b t s i len Hst Hi _. destruct (s !! (c, b)) as [u|]; [|done]. injection Hst as ->.
    by rewrite decide_True.
Qed.

(** ** Witnesses *)

(** A user's function that returns the words of the file, each with the number
    of its letters. *)
Definition ex_py (script filename : string) (data : option bytes) : py_result :=
  match data with
  | None => PyRaised
  | Some t => PyDict ((λ w, (w, Z.of_nat (String.length w)))
                        <$> words (String.string_of_list_ascii t))
  end.
Definition ex_hash (s : string) : Z := Z.of_nat (String.length s).

Definition ex_db : WorkerDBConnection :=
  mkWorkerDBConnection "conn" "c" "cint" (Some "c") (Some "cint").
Definition ex_text (name : string) : bytes :=
  String.list_ascii_of_string "a bb ccc. dddd a bb ccc eeeee".
Definition ex_ws : WState (gmap (string * string) bytes) :=
  mkWState ((Worker_new 0) <| m_full_address := "10.0.0.1:50051" |> <| w_dbConnection := Some ex_db |>)
    ∅ {[ ("c", "a.txt") := ex_text "a.txt" ]}.
Definition ex_request : MapperInput :=
  mkMapperInput 2 7 [mkShardTuple "a.txt" 0 10; mkShardTuple "a.txt" 10 29] "0".

Lemma ex_hash_pos s : 0 ≤ ex_hash s.
Proof. unfold ex_hash. lia. Qed.

Lemma ex_py_attr script f data : ex_py script f data ≠ PyNoAttr.
Proof. by destruct data. Qed.

Lemma ex_upload (c b : string) (t : bytes) (s : gmap (string * string) bytes) :
  ∃ s', st_upload c b t s = Ret s'.
Proof. by eexists. Qed.

Lemma ex_worker_ready : map_ready ex_py ex_db "c" "cint" ex_ws.
Proof. split; try done; intros; [apply ex_upload|apply ex_py_attr]. Qed.

Lemma map_task_correct_witness :
  ∃ ws', map_do_work ex_py ex_hash ex_request ex_ws
      = Ret (mkIntermediateResult "cint"
               ["int_10.0.0.1:50051_7_0_0"; "int_10.0.0.1:50051_7_0_1";
                "int_10.0.0.1:50051_7_1_0"; "int_10.0.0.1:50051_7_1_1"], ws') ∧
    map_ready ex_py ex_db "c" "cint" ws' ∧
    (∀ k p i, stuples ex_request !! k = Some p → 0 ≤ i < 2 →
       stored "cint" (int_name "10.0.0.1:50051" 7 (Z.of_nat k) i)
         (part_file ex_hash 2 i (piece_pairs ex_py "10.0.0.1:50051" ex_text p)) (store ws')) ∧
    keeps_others "cint" (reply_names "10.0.0.1:50051" 7 2 0 (stuples ex_request))
      (store ex_ws) (store ws').
Proof.
  apply (map_task_correct ex_py ex_hash ex_hash_pos ex_db "c" "cint" ex_text ex_request ex_ws (wk ex_ws)).
  - exact ex_worker_ready.
  - discriminate.
  - reflexivity.
  - cbn. lia.
  - discriminate.
  - repeat constructor; cbn; lia.
Defined.

(** What that task leaves in the storage. *)
Example ex_map_blobs :
  (λ r, (λ b, String.string_of_list_ascii (fetched "cint" (store r.2) b)) <$> ir_blobs r.1)
    <$> match map_do_work ex_py ex_hash ex_request ex_ws with Ret r => [r] | _ => [] end
  = [[ "bb:2" +:+ String newline ("ccc.:4" +:+ String newline ("dddd:4" +:+ String newline ""));
       "a:1" +:+ String newline "";
       "bb:2" +:+ String newline "";
       "a:1" +:+ String newline ("ccc:3" +:+ String newline ("eeeee:5" +:+ String newline ""))]].
Proof. vm_compute. reflexivity. Qed.

Lemma part_partition_witness :
  (Z.of_nat <$> seq 0 (Z.to_nat 3)) ≫= (λ i, part ex_hash 3 i [("a", 1); ("bb", 2); ("a", 3)])
  ≡ₚ [("a", 1); ("bb", 2); ("a", 3)].
Proof. apply part_partition. lia. Defined.

Definition ex_reduce_ws : WState (gmap (string * string) bytes) :=
  ex_ws <| store := {[ ("cint", "int_a_0_0_1") := String.list_ascii_of_string "a:1 " ;
                       ("cint", "int_b_1_0_1") := String.list_ascii_of_string "bb:2" ]} |>.
Definition ex_reduce_request : ReducerInput :=
  mkReducerInput "0" "cint" 1 ["int_a_0_0_1"; "int_none_0_0_1"; "int_b_1_0_1"].

Lemma reduce_task_correct_witness :
  ∃ ws', reduce_do_work ex_py ex_hash ex_reduce_request ex_reduce_ws
      = Ret (mkFinalResult "" "cout", ws') ∧
    stored "cout" "out_1"
      (py_items (ex_py "reduce" "kv-10.0.0.1:50051-1"
        (Some (Types.ri_blobs ex_reduce_request ≫= fetched "cint" (store ex_reduce_ws))))
       ≫= pair_line) (store ws') ∧
    m_outstream (wk ws') = None ∧
    (∀ c b t, c ≠ "cout" ∨ b ≠ "out_1" → stored c b t (store ex_reduce_ws) → stored c b t (store ws')).
Proof.
  apply (reduce_task_correct ex_py ex_hash ex_db ex_reduce_request ex_reduce_ws (wk ex_reduce_ws)).
  - split; try done; intros; [|by eexists|apply ex_upload|apply ex_py_attr].
    cbn. by destruct (_ !! _).
  - reflexivity.
Defined.

(** The input it collects: the second blob does not exist. *)
Example ex_reduce_input :
  Types.ri_blobs ex_reduce_request ≫= fetched "cint" (store ex_reduce_ws)
  = String.list_ascii_of_string "a:1 bb:2".
Proof. vm_compute. reflexivity. Qed.

Lemma unreadable_piece_reported_done_witness :
  ∃ ws', map_do_work ex_py ex_hash (mkMapperInput 2 7 [mkShardTuple "no.txt" 0 10] "0") ex_ws
      = Ret (mkIntermediateResult "cint"
               ["int_10.0.0.1:50051_7_0_0"; "int_10.0.0.1:50051_7_0_1"], ws') ∧
    stored "cint" (int_name "10.0.0.1:50051" 7 0 1) [] (store ws').
Proof.
  destruct (unreadable_piece_reported_done ex_py ex_hash ex_hash_pos ex_db "c" "cint"
    (mkMapperInput 2 7 [mkShardTuple "no.txt" 0 10] "0") (mkShardTuple "no.txt" 0 10) ex_ws StorageError)
    as (ws' & H1 & _ & H2).
  - exact ex_worker_ready.
  - reflexivity.
  - cbn. lia.
  - reflexivity.
  - vm_compute. reflexivity.
  - reflexivity.
  - exact (ex_intro _ ws' (conj H1 (proj2 (H2 1 ltac:(cbn; lia)) eq_refl))).
Defined.

Lemma exchange_makes_ready_witness :
  ∃ db ws', exchange_do_work (mkMasterInfo "m" "conn" "c")
      (mkWState ((Worker_new 0) <| m_full_address := "10.0.0.1:50051" |>) ∅ (store ex_ws))
      = Ret ("10.0.0.1:50051", ws') ∧
    m_mstrcontainername db = "c" ∧ m_wrkrcontainername db = "cint" ∧
    store ws' = store ex_ws ∧
    wk ws' = (Worker_new 0) <| m_full_address := "10.0.0.1:50051" |> <| w_dbConnection := Some db |> ∧
    map_ready ex_py db "c" "cint" ws'.
Proof.
  exact (exchange_makes_ready ex_py "conn" "c" (store ex_ws) (store ex_ws) (store ex_ws)
    ((Worker_new 0) <| m_full_address := "10.0.0.1:50051" |>) ∅ "m" eq_refl eq_refl eq_refl eq_refl
    eq_refl (ex_upload "cint") (ex_py_attr "map")).
Defined.

Lemma local_port_of_sequence_witness :
  choose_local_port "/workers/worker_0000000012" = 50062.
Proof. apply (local_port_of_sequence 8 12). lia. Defined.

Lemma replies_reach_reducers_witness :
  reduce_blobs (all_replies 2 [("a:1", 0, stuples ex_request); ("b:1", 1, [mkShardTuple "a.txt" 0 10])]) 1
  = Ret ["int_a:1_0_0_1"; "int_a:1_0_1_1"; "int_b:1_1_0_1"].
Proof.
  apply (replies_reach_reducers 2 1
    [("a:1", 0, stuples ex_request); ("b:1", 1, [mkShardTuple "a.txt" 0 10])]); lia.
Defined.
