(* ===== verification/WorkerRpc.v ===== *)
(** * The worker's RPC server ([worker/mrservice.h])

    The server keeps one call object per request it waits for or answers. An
    object registers for a request when it is made; the event of the request
    makes it register a successor, do the work and send the reply; the event of
    the reply deletes it. One thread takes the events from the completion queue.

    The theorems: one object of each kind always waits, so that every kind of
    request can be received; the requests are handled one at a time in the order
    of their events and each is answered once, as a plain loop over the requests
    would; one event that is not ok ends the server. *)

From S2P Require Export Worker.

(** ** [getWorkerStatus] *)

Inductive WorkStatus : Type :=
  | W_IDLE | W_MAP_RUNNING | W_REDUCE_RUNNING | W_MAP_DONE | W_REDUCE_DONE.

Definition WRKR_AVAILABLE : Z := 0.
Definition WRKR_BUSY : Z := 1.
Definition WRKR_DONE : Z := 2.

Definition getWorkerStatus (status_ : WorkStatus) : Z :=
  match status_ with
  | W_IDLE => WRKR_AVAILABLE
  | W_MAP_RUNNING | W_REDUCE_RUNNING => WRKR_BUSY
  | W_MAP_DONE | W_REDUCE_DONE => WRKR_DONE
  end.

(** ** Requests, replies and call objects *)

Inductive rpc_kind : Type := KExchange | KPing | KMap | KReduce.

#[export] Instance rpc_kind_eq_dec : EqDecision rpc_kind.
Proof. solve_decision. Defined.

Inductive rpc_request : Type :=
  | ReqExchange (m : MasterInfo)
  | ReqPing
  | ReqMap (m : MapperInput)
  | ReqReduce (r : ReducerInput).

Inductive rpc_reply : Type :=
  | RepExchange (message : string)
  | RepPing
  | RepMap (r : IntermediateResult)
  | RepReduce (r : FinalResult).

Definition kind_of (r : rpc_request) : rpc_kind :=
  match r with
  | ReqExchange _ => KExchange
  | ReqPing => KPing
  | ReqMap _ => KMap
  | ReqReduce _ => KReduce
  end.

Inductive CallStatus : Type := CREATE | PROCESS | FINISH.

#[export] Instance CallStatus_eq_dec : EqDecision CallStatus.
Proof. solve_decision. Defined.

Record CallData : Type := mkCallData { cd_kind : rpc_kind; cd_status : CallStatus }.

(** The thread in [handleRpcs]: in its loop; returned; parked in a task; ended by
    an exception no one catches, or by undefined behaviour. *)
Inductive server_pc : Type := SLoop | SReturned | SParked | STerminated (e : exn) | SUndef.

Section Rpc.
Context {S : Type} {HS : Storage S}.
Context (py : string → string → option bytes → py_result) (hash : string → Z).

(** The tags are the addresses of the objects; [answered] is what was sent. *)
Record Server : Type := mkServer {
  calls : gmap nat CallData;
  next_tag : nat;
  answered : list (rpc_request * rpc_reply);
  sws : WState S;
  spc : server_pc
}.

#[export] Instance eta_Server : EtaRecord Server := λ r,
  mkServer (calls r) (next_tag r) (answered r) (sws r) (spc r).

(** [HandleRequest] of the four kinds. *)
Definition HandleRequest (r : rpc_request) (ws : WState S) : outcome (rpc_reply * WState S) :=
  match r with
  | ReqExchange m => let! (message, ws) := exchange_do_work m ws in Ret (RepExchange message, ws)
  | ReqPing => let! (_, ws) := ping_do_work ws in Ret (RepPing, ws)
  | ReqMap m => let! (r, ws) := map_do_work py hash m ws in Ret (RepMap r, ws)
  | ReqReduce m => let! (r, ws) := reduce_do_work py hash m ws in Ret (RepReduce r, ws)
  end.

(** A new object: the constructor calls [Proceed], which registers it with
    [WaitForRequest]. *)
Definition new_call (k : rpc_kind) (s : Server) : Server :=
  s <| calls := <[next_tag s := mkCallData k PROCESS]> (calls s) |>
    <| next_tag := (1 + next_tag s)%nat |>.

(** [CommonCallData::Proceed] on the object [tag] whose request, if it has one,
    is [r]. *)
Definition Proceed (tag : nat) (c : CallData) (r : option rpc_request) (s : Server) : Server :=
  match cd_status c, r with
  | CREATE, _ => s <| calls := <[tag := mkCallData (cd_kind c) PROCESS]> (calls s) |>
  | PROCESS, Some r =>
      let s := new_call (cd_kind c) s in
      match HandleRequest r (sws s) with
      | Ret (reply, ws) =>
          s <| calls := <[tag := mkCallData (cd_kind c) FINISH]> (calls s) |>
            <| answered := answered s ++ [(r, reply)] |> <| sws := ws |>
      | Raise e => s <| spc := STerminated e |>
      | Undef => s <| spc := SUndef |>
      | Parked => s <| spc := SParked |>
      end
  | PROCESS, None => s
  | FINISH, _ => s <| calls := delete tag (calls s) |>
  end.

(** The server as [handleRpcs] enters its loop. *)
Definition handleRpcs_start (ws : WState S) : Server :=
  new_call KReduce (new_call KMap (new_call KPing (new_call KExchange (mkServer ∅ 0 [] ws SLoop)))).

(** An event of the completion queue: the tag, [ok], and the request a waiting
    object got. *)
Record cq_event : Type := mkEvent { ev_tag : nat; ev_ok : bool; ev_request : option rpc_request }.

(** The events the queue can deliver: of an object that waits for a request of
    its kind, or of one whose reply was handed over. *)
Definition deliverable (ev : cq_event) (s : Server) : option CallData :=
  match calls s !! ev_tag ev with
  | Some c =>
      match cd_status c, ev_ok ev, ev_request ev with
      | PROCESS, true, Some r => if decide (kind_of r = cd_kind c) then Some c else None
      | PROCESS, false, None => Some c
      | FINISH, _, None => Some c
      | _, _, _ => None
      end
  | None => None
  end.

(** One round of the loop. *)
Definition handleRpcs_step (ev : cq_event) (s : Server) : option Server :=
  match spc s, deliverable ev s with
  | SLoop, Some c =>
      if ev_ok ev then Some (Proceed (ev_tag ev) c (ev_request ev) s)
      else Some (s <| spc := SReturned |>)
  | _, _ => None
  end.

Fixpoint handleRpcs (evs : list cq_event) (s : Server) : option Server :=
  match evs with
  | [] => Some s
  | ev :: evs => s ← handleRpcs_step ev s; handleRpcs evs s
  end.

(** ** Specification: a loop over the requests *)

Fixpoint serve (rs : list rpc_request) (ws : WState S)
    : outcome (list (rpc_request * rpc_reply) * WState S) :=
  match rs with
  | [] => Ret ([], ws)
  | r :: rs =>
      let! (reply, ws) := HandleRequest r ws in
      let! (log, ws) := serve rs ws in
      Ret ((r, reply) :: log, ws)
  end.

(** The requests of the events. *)
Definition accepted (evs : list cq_event) : list rpc_request := omap ev_request evs.

(** The waiting objects, and those whose reply is on its way. *)
Definition waiting_kinds (s : Server) : list rpc_kind :=
  cd_kind <$> filter (λ c, cd_status c = PROCESS) (map_to_list (calls s)).*2.
Definition sending (s : Server) : nat :=
  length (filter (λ c, cd_status c = FINISH) (map_to_list (calls s)).*2).

Record server_inv (s : Server) : Prop := {
  sv_fresh : ∀ tag, is_Some (calls s !! tag) → (tag < next_tag s)%nat;
  sv_waiting : waiting_kinds s ≡ₚ [KExchange; KPing; KMap; KReduce];
  sv_created : ∀ tag c, calls s !! tag = Some c → cd_status c ≠ CREATE
}.

(** ** Lemmas *)

Lemma new_call_fresh k s :
  (∀ tag, is_Some (calls s !! tag) → (tag < next_tag s)%nat) →
  calls s !! next_tag s = None ∧
  (∀ tag, is_Some (calls (new_call k s) !! tag) → (tag < next_tag (new_call k s))%nat).
Proof using.
  intros Hf. assert (calls s !! next_tag s = None) as Hn.
  { destruct (calls s !! next_tag s) eqn:E; [|done].
    specialize (Hf (next_tag s) ltac:(by eexists)). lia. }
  split; [done|]. intros tag. cbn. destruct (decide (tag = next_tag s)) as [->|Hne]; [lia|].
  rewrite lookup_insert_ne by done. intros H%Hf. lia.
Qed.

Lemma calls_insert (m : gmap nat CallData) tag c :
  m !! tag = None → (map_to_list (<[tag := c]> m)).*2 ≡ₚ c :: (map_to_list m).*2.
Proof using. intros Hm. by rewrite (map_to_list_insert m tag c Hm). Qed.

(** Only the objects' kinds in a state matter to the counts. *)
Lemma waiting_kinds_insert (m : gmap nat CallData) tag k st :
  m !! tag = None →
  cd_kind <$> filter (λ c, cd_status c = PROCESS) (map_to_list (<[tag := mkCallData k st]> m)).*2
  ≡ₚ (if decide (st = PROCESS) then [k] else [])
     ++ (cd_kind <$> filter (λ c, cd_status c = PROCESS) (map_to_list m).*2).
Proof using.
  intros Hm. rewrite (calls_insert m tag _ Hm), filter_cons. by destruct (decide _).
Qed.

Lemma waiting_kinds_lookup (m : gmap nat CallData) tag c :
  m !! tag = Some c →
  cd_kind <$> filter (λ c, cd_status c = PROCESS) (map_to_list m).*2
  ≡ₚ (if decide (cd_status c = PROCESS) then [cd_kind c] else [])
     ++ (cd_kind <$> filter (λ c, cd_status c = PROCESS) (map_to_list (delete tag m)).*2).
Proof using.
  intros Hm. rewrite <-(insert_delete_id m tag c Hm) at 1. destruct c as [k st].
  apply waiting_kinds_insert. apply lookup_delete_eq.
Qed.

(** The waiting kinds when an object turns from waiting to sending. *)
Lemma waiting_kinds_finish (m : gmap nat CallData) tag c :
  m !! tag = Some c → cd_status c = PROCESS →
  cd_kind <$> filter (λ c, cd_status c = PROCESS) (map_to_list m).*2
  ≡ₚ cd_kind c ::
     (cd_kind <$> filter (λ c, cd_status c = PROCESS)
        (map_to_list (<[tag := mkCallData (cd_kind c) FINISH]> m)).*2).
Proof using.
  intros Hm Hc. rewrite (waiting_kinds_lookup m tag c Hm), decide_True by done.
  rewrite <-insert_delete_eq, (waiting_kinds_insert (delete tag m)) by apply lookup_delete_eq.
  done.
Qed.

Lemma deliverable_spec ev s c :
  deliverable ev s = Some c →
  calls s !! ev_tag ev = Some c ∧ (ev_ok ev = false → ev_request ev = None) ∧
  (ev_ok ev = true →
     (∃ r, cd_status c = PROCESS ∧ ev_request ev = Some r ∧ kind_of r = cd_kind c) ∨
     (cd_status c = FINISH ∧ ev_request ev = None)).
Proof using.
  unfold deliverable. destruct (calls s !! ev_tag ev) as [c'|]; [|done].
  destruct (cd_status c') eqn:Hc, (ev_ok ev) eqn:Hok, (ev_request ev) as [r|]; try done.
  { destruct (decide (kind_of r = cd_kind c')); [|done]. intros [= <-]. repeat (split; [done|]).
    intros _. left. eauto. }
  all: intros [= <-]; repeat (split; [done|]); intros ?; first [done|by right].
Qed.

Lemma server_step_inv ev s s' :
  server_inv s → handleRpcs_step ev s = Some s' → spc s' = SLoop → server_inv s'.
Proof using.
  intros [Hf Hw Hcr]. unfold handleRpcs_step. destruct (spc s) eqn:Hpc; try done.
  destruct (deliverable ev s) as [c|] eqn:Hd; [|done].
  apply deliverable_spec in Hd as (Hl & _ & Hok). destruct (ev_ok ev); [|by intros [= <-]].
  intros [= <-]. unfold Proceed. destruct (Hok eq_refl) as [(r & Hc & -> & Hr)|[Hc ->]]; rewrite Hc.
  - destruct (HandleRequest r _) as [[reply ws]| | |]; try done. intros _.
    destruct (new_call_fresh (cd_kind c) s Hf) as [Hn Hf'].
    assert (ev_tag ev ≠ next_tag s) as Hne.
    { intros Heq. rewrite Heq in Hl. congruence. }
    split.
    + intros tag. cbn. destruct (decide (tag = ev_tag ev)) as [->|Hne'].
      * intros _. assert (ev_tag ev < next_tag s)%nat; [|lia]. apply Hf. by eexists.
      * rewrite lookup_insert_ne by done. apply Hf'.
    + unfold waiting_kinds. cbn. apply (Permutation_cons_inv (a := cd_kind c)).
      rewrite <-(waiting_kinds_finish (<[next_tag s := mkCallData (cd_kind c) PROCESS]> (calls s))
        (ev_tag ev) c) by (try done; by rewrite lookup_insert_ne).
      rewrite waiting_kinds_insert by done. cbn. by apply Permutation_skip.
    + intros tag c' . cbn. rewrite lookup_insert_Some, lookup_insert_Some.
      intros [[_ <-]|[_ [[_ <-]|[_ ?]]]]; [done|done|eauto].
  - intros _. split.
    + intros tag. cbn. destruct (decide (tag = ev_tag ev)) as [->|Hne'].
      * rewrite lookup_delete_eq. by intros [? ?].
      * rewrite lookup_delete_ne by done. apply Hf.
    + unfold waiting_kinds in *. cbn. rewrite <-Hw, (waiting_kinds_lookup (calls s) _ _ Hl), Hc.
      done.
    + intros tag c'. cbn. rewrite lookup_delete_Some. intros [_ ?]. eauto.
Qed.
Lemma server_start_inv ws : server_inv (handleRpcs_start ws).
Proof using.
  split.
  - intros tag. cbn. rewrite !lookup_insert_is_Some, lookup_empty. intros H. destruct H as [?|[_ H]]; [lia|].
    destruct H as [?|[_ H]]; [lia|]. destruct H as [?|[_ H]]; [lia|].
    destruct H as [?|[_ H]]; [lia|]. by destruct H.
  - unfold waiting_kinds, handleRpcs_start, new_call. cbn.
    rewrite !waiting_kinds_insert by reflexivity. rewrite !(decide_True (P:=PROCESS = PROCESS)), map_to_list_empty by done. cbn. perm_solve.
  - intros tag c. cbn. rewrite !lookup_insert_Some, lookup_empty.
    intros H Hc. destruct H as [[_ <-]|[_ H]]; [done|]. destruct H as [[_ <-]|[_ H]]; [done|].
    destruct H as [[_ <-]|[_ H]]; [done|]. destruct H as [[_ <-]|[_ H]]; done.
Qed.

Lemma handleRpcs_loop evs s s' :
  handleRpcs evs s = Some s' → spc s' = SLoop → spc s = SLoop.
Proof using.
  destruct evs as [|ev evs]; simpl; [by intros [= ->]|].
  unfold handleRpcs_step. by destruct (spc s).
Qed.

Lemma server_run_inv evs s s' :
  server_inv s → handleRpcs evs s = Some s' → spc s' = SLoop → server_inv s'.
Proof using.
  revert s. induction evs as [|ev evs IH]; intros s Hi; simpl; [by intros [= <-]|].
  destruct (handleRpcs_step ev s) as [s1|] eqn:Hs; [|done]. simpl. intros Hrun Hpc.
  apply (IH s1); [|done|done]. eapply server_step_inv; [done|done|]. by eapply handleRpcs_loop.
Qed.

(** What the events say of the plain loop. *)
Definition server_outcome (s : Server) : outcome (list (rpc_request * rpc_reply) * WState S) :=
  match spc s with
  | SLoop | SReturned => Ret (answered s, sws s)
  | SParked => Parked
  | STerminated e => Raise e
  | SUndef => Undef
  end.

Definition with_log (l : list (rpc_request * rpc_reply))
    (o : outcome (list (rpc_request * rpc_reply) * WState S))
    : outcome (list (rpc_request * rpc_reply) * WState S) :=
  let! (log, ws) := o in Ret (l ++ log, ws).

Lemma handleRpcs_done evs s s' :
  spc s ≠ SLoop → handleRpcs evs s = Some s' → evs = [] ∧ s' = s.
Proof using.
  intros Hpc. destruct evs as [|ev evs]; simpl; [by intros [= <-]|].
  unfold handleRpcs_step. by destruct (spc s).
Qed.

Lemma server_run_serve evs s s' :
  spc s = SLoop → handleRpcs evs s = Some s' →
  with_log (answered s) (serve (accepted evs) (sws s)) = server_outcome s'.
Proof using.
  revert s. induction evs as [|ev evs IH]; intros s Hpc; simpl.
  { intros [= <-]. unfold server_outcome. by rewrite Hpc, app_nil_r. }
  destruct (handleRpcs_step ev s) as [s1|] eqn:Hs; [|done]. simpl. intros Hrun.
  unfold handleRpcs_step in Hs. rewrite Hpc in Hs.
  destruct (deliverable ev s) as [c|] eqn:Hd; [|done].
  apply deliverable_spec in Hd as (_ & Hno & Hok). unfold accepted in *. cbn [omap list_omap].
  destruct (ev_ok ev).
  2:{ injection Hs as <-. rewrite Hno by done. apply handleRpcs_done in Hrun as [-> ->]; [|done].
      unfold server_outcome. cbn. by rewrite app_nil_r. }
  injection Hs as <-. unfold Proceed in Hrun. destruct (Hok eq_refl) as [(r & Hc & Hr & _)|[Hc Hr]].
  - rewrite Hc, Hr in Hrun. rewrite Hr. cbn [serve]. cbn [sws new_call field_update] in Hrun.
    destruct (HandleRequest r (sws s)) as [[reply ws]|e| |]; cbn [obind].
    2-4: by apply handleRpcs_done in Hrun as [-> ->].
    apply IH in Hrun; [|done]. rewrite <-Hrun. cbn. unfold with_log.
    destruct (serve _ ws) as [[log ws']| | |]; [|done..]. cbn. by rewrite <-app_assoc.
  - rewrite Hc in Hrun. rewrite Hr. apply IH in Hrun; [|done]. done.
Qed.

(** ** Properties *)

(** C25: While the server is in its loop it waits for exactly one request of each
    kind, so that a request of any kind can be received. *)
Theorem server_always_listening evs ws s r :
  handleRpcs evs (handleRpcs_start ws) = Some s → spc s = SLoop →
  waiting_kinds s ≡ₚ [KExchange; KPing; KMap; KReduce] ∧
  ∃ tag, is_Some (handleRpcs_step (mkEvent tag true (Some r)) s).
Proof using.
  intros Hrun Hpc. pose proof (server_run_inv _ _ _ (server_start_inv ws) Hrun Hpc) as [_ Hw _].
  split; [done|].
  assert (kind_of r ∈ waiting_kinds s) as Hin.
  { rewrite Hw. destruct (kind_of r); set_solver. }
  unfold waiting_kinds in Hin. apply list_elem_of_fmap in Hin as (c & Hk & Hc).
  apply list_elem_of_filter in Hc as [Hc ([tag c'] & -> & Htag%elem_of_map_to_list)%list_elem_of_fmap].
  exists tag. unfold handleRpcs_step, deliverable. cbn in *. rewrite Hpc, Htag, Hc, decide_True by done.
  by eexists.
Qed.

(** C10: The server is the plain loop over the requests in the order their events
    are taken: its replies and its state are those of handling them one after the
    other, and it parks, ends with an exception or is undefined when that does. *)
Theorem server_refines_loop evs ws s :
  handleRpcs evs (handleRpcs_start ws) = Some s →
  serve (accepted evs) ws = server_outcome s.
Proof using.
  intros Hrun. apply server_run_serve in Hrun; [|done]. cbn in Hrun. rewrite <-Hrun.
  unfold with_log. by destruct (serve _ _) as [[log ws']| | |].
Qed.

(** C40: One event that is not ok is the server's last: it returns from its loop
    and takes no further event, whatever waits. *)
Theorem not_ok_ends_server evs ev evs' ws s :
  handleRpcs (evs ++ ev :: evs') (handleRpcs_start ws) = Some s → ev_ok ev = false →
  evs' = [] ∧ spc s = SReturned ∧ ∀ ev, handleRpcs_step ev s = None.
Proof using.
  generalize (handleRpcs_start ws). intros s0 Hrun Hok. revert s0 Hrun.
  induction evs as [|e evs IH]; intros s0; simpl.
  - destruct (handleRpcs_step ev s0) as [s1|] eqn:Hs; [|done]. simpl. intros Hrun.
    unfold handleRpcs_step in Hs. destruct (spc s0); try done.
    destruct (deliverable ev s0); [|done]. rewrite Hok in Hs. injection Hs as <-.
    apply handleRpcs_done in Hrun as [-> ->]; done.
  - destruct (handleRpcs_step e s0) as [s1|]; [|done]. simpl. apply IH.
Qed.
End Rpc.

(** ** Witnesses *)

(** An exchange, two pings and a reply; the first ping's reply is sent before the
    second ping's event. *)
Definition ex_events : list cq_event :=
  [mkEvent 0 true (Some (ReqExchange (mkMasterInfo "m" "conn" "c")));
   mkEvent 1 true (Some ReqPing); mkEvent 1 true None;
   mkEvent 5 true (Some ReqPing); mkEvent 0 true None].

Definition ex_server (evs : list cq_event) : Server :=
  default (handleRpcs_start ex_ws) (handleRpcs ex_py ex_hash evs (handleRpcs_start ex_ws)).

Lemma server_always_listening_witness :
  waiting_kinds (ex_server ex_events) ≡ₚ [KExchange; KPing; KMap; KReduce] ∧
  ∃ tag, is_Some (handleRpcs_step ex_py ex_hash (mkEvent tag true (Some ReqPing)) (ex_server ex_events)).
Proof.
  apply (server_always_listening ex_py ex_hash ex_events ex_ws (ex_server ex_events) ReqPing);
    vm_compute; reflexivity.
Defined.

Lemma server_refines_loop_witness :
  serve ex_py ex_hash (accepted ex_events) ex_ws = server_outcome (ex_server ex_events).
Proof. apply server_refines_loop. vm_compute. reflexivity. Defined.

(** The deadline of a call passes before its reply is sent: the worker stops
    serving. *)
Definition ex_late : list cq_event := [mkEvent 1 true (Some ReqPing)].

Lemma not_ok_ends_server_witness :
  @nil cq_event = [] ∧ spc (ex_server (ex_late ++ [mkEvent 1 false None])) = SReturned ∧
  ∀ ev, handleRpcs_step ex_py ex_hash ev (ex_server (ex_late ++ [mkEvent 1 false None])) = None.
Proof.
  apply (not_ok_ends_server ex_py ex_hash ex_late (mkEvent 1 false None) [] ex_ws);
    [vm_compute|]; reflexivity.
Defined.
