(* ===== verification/Job.v ===== *)
(** * A whole job: the map phase, the workers' replies and the reduce phase
    ([req_handler::process] after the set-up)

    The phases are put together through what they promise each other: a worker
    names the blobs of a map task after the shard, the piece and the reducer
    ([Worker]), the map phase collects the names ([MapPhase]), the reduce phase
    reads the reducer back out of a name ([ReducePhase]).

    The theorem: once the map phase has returned, every reducer is given exactly
    its blob of every piece of every shard, no name makes the reduce phase throw,
    and once the reduce phase has returned there is one output for each
    reducer. *)

From S2P Require Export MapPhase Worker.

(** ** Runs in which the map replies come from workers *)

(** The reply of a worker of address [addr] to a map request, as
    [map_do_work] makes it. *)
Definition worker_reply (q : MapperInput) (reply : IntermediateResult) : Prop :=
  ∃ addr, ir_blobs reply = reply_names addr (mi_shard_id q) (npartition q) 0 (stuples q).

(** A step of the master in which a reply it gets is [ok] for its request. *)
Definition answer_ok (ok : MapperInput → IntermediateResult → Prop) (a : map_action) (c : MapConf) : Prop :=
  match a with
  | CComplete pos (RpcOk reply) => ∀ call, cq c !! pos = Some call → ok (mc_query call) reply
  | _ => True
  end.

Definition worker_step (c c' : MapConf) : Prop :=
  ∃ a, map_exec a c = Some c' ∧ answer_ok worker_reply a c.

(** [req_handler::process] from the end of the map phase on: the reduce phase,
    then [stop_ping]. *)
Definition process_reduce (c : MapConf) : RedConf := runReducer_start (mw c).
Definition process_end (d : RedConf) : World := (rw d) <| master := stop_ping (rmaster d) |>.

(** ** What a worker replies is such a reply *)

Section Reply.
Context {S : Type} {HS : Storage S}.
Context (py : string → string → option bytes → py_result) (hash : string → Z).
Implicit Types ws : WState S.

Lemma stream_items_wk ismap items ws ws' :
  stream_items hash ismap items ws = Ret ws' → wk ws' = wk ws.
Proof.
  revert ws. induction items as [|kv items IH]; intros ws; simpl; [by intros [= ->]|].
  destruct (stream_to_file hash ismap kv ws) as [ws1| | |] eqn:Hs; try done. simpl. intros ->%IH.
  unfold stream_to_file in Hs. repeat case_match; by simplify_eq.
Qed.

Lemma instantiate_wk script f ws ws' :
  instantiate_py_func py hash script f ws = Ret ws' → wk ws' = wk ws.
Proof. unfold instantiate_py_func. destruct (py _ _ _); try done; apply stream_items_wk. Qed.

Lemma add_intermediate_files_reply db sid spid ids cont bl ws cont' bl' ws' :
  add_intermediate_files db sid spid ids cont bl ws = Ret (cont', bl', ws') →
  bl' = bl ++ (int_name (m_full_address (wk ws)) sid spid <$> ids) ∧ wk ws' = wk ws.
Proof.
  revert cont bl ws. induction ids as [|i ids IH]; intros cont bl ws; simpl.
  { intros [= -> -> ->]. by rewrite app_nil_r. }
  unfold add_intermediate_blob, upload_file. destruct (m_wrkrcontainer db); [|done].
  destruct (files ws !! _); [|done]. destruct (st_upload _ _ _ _); try done. simpl.
  intros [-> ->]%IH. simpl. by rewrite <-app_assoc.
Qed.

Lemma map_shard_reply blob b e n sid spid cont bl ws cont' bl' ws' :
  map_shard py hash blob b e n sid spid cont bl ws = Ret (cont', bl', ws') →
  bl' = bl ++ piece_names (m_full_address (wk ws)) sid n spid ∧
  m_full_address (wk ws') = m_full_address (wk ws).
Proof.
  unfold map_shard. intros H. destruct (w_dbConnection _) as [db|]; [|done].
  destruct (write_partial_data_to_local_file _ _ _ _ _ _ _) as [[[ok f] fs]| | |]; try done. simpl in H.
  destruct (instantiate_map_function py hash f _) as [ws1| | |] eqn:Hi; try done. simpl in H.
  apply instantiate_wk in Hi. unfold close_r_intermediate_files in H.
  destruct (decide _); [|done]. simpl in H. apply add_intermediate_files_reply in H as [-> Hwk].
  rewrite Hwk. cbn. rewrite Hi. cbn. by rewrite piece_names_ids.
Qed.

Lemma map_pieces_reply n sid spid pieces cont bl ws cont' bl' ws' :
  map_pieces py hash n sid spid pieces cont bl ws = Ret (cont', bl', ws') →
  bl' = bl ++ reply_names (m_full_address (wk ws)) sid n spid pieces.
Proof.
  revert spid cont bl ws. induction pieces as [|p pieces IH]; intros spid cont bl ws; simpl.
  { intros [= -> -> ->]. by rewrite app_nil_r. }
  destruct (map_shard _ _ _ _ _ _ _ _ _ _ _) as [[[cont1 bl1] ws1]| | |] eqn:Hm; try done. simpl.
  apply map_shard_reply in Hm as [-> Ha]. intros ->%IH. by rewrite Ha, <-app_assoc.
Qed.

Lemma map_do_work_reply q ws reply ws' :
  map_do_work py hash q ws = Ret (reply, ws') → worker_reply q reply.
Proof.
  unfold map_do_work. destruct (worker_check_fail (wk ws)) as [w []]; [done|].
  destruct (map_pieces _ _ _ _ _ _ _ _ _) as [[[cont bl] ws1]| | |] eqn:Hm; try done. simpl.
  intros [= <- <-]. apply map_pieces_reply in Hm. eexists. exact Hm.
Qed.
End Reply.

(** ** Lemmas *)

Lemma worker_step_map c c' : worker_step c c' → map_step c c'.
Proof. intros (a & Ha & _). by exists a. Qed.

Lemma worker_rtc_map c c' : rtc worker_step c c' → rtc map_step c c'.
Proof. intros Hr. induction Hr; [done|]. eapply rtc_l; [by apply worker_step_map|done]. Qed.

(** The responses and the results of a configuration. *)
Definition known (c : MapConf) : list MapperResult := responseList c ++ result_list (map_results c).

Definition delivered (call : AsyncClientMapCall) (res : rpc_result IntermediateResult) : MapperResult :=
  match res with RpcOk reply => map_success call reply | RpcError code => map_failure call code end.

Lemma known_keep c c' r :
  responseList c' = responseList c → map_results c' = map_results c → r ∈ known c' → r ∈ known c.
Proof. unfold known. by intros -> ->. Qed.

Lemma known_start c i p r : r ∈ known (start_map_call c i p) → r ∈ known c.
Proof.
  apply known_keep; unfold start_map_call;
    by destruct (vec_index _ _), (heap (mw c) !! p).
Qed.

Lemma known_count c r : r ∈ known (count_map_call c) → r ∈ known c.
Proof.
  unfold count_map_call. destruct (task_assigned_check_fail (mmaster c)) as [m parked] eqn:Hf.
  apply task_assigned_check_fail_spec in Hf as (_ & Hm & _). apply known_keep; [done|exact Hm].
Qed.

Lemma known_process c res rest r :
  responseList c = res :: rest → r ∈ known (process_map_response c res rest) → r ∈ known c.
Proof.
  intros Hres. unfold process_map_response, known, map_results. rewrite Hres.
  destruct (decide (status res = SUCCESS)); cbn; [|set_solver].
  destruct (m_IntermediateResultMap (mmaster c) !! shardId res) eqn:Hm; cbn; [set_solver|].
  unfold result_list. rewrite (map_vals_insert _ _ res Hm). set_solver.
Qed.

Lemma known_check c r : r ∈ known (check_map_done c) → r ∈ known c.
Proof.
  unfold check_map_done, known, map_results. destruct (decide _); cbn; [|done]. set_solver.
Qed.

Lemma known_complete c pos call res r :
  r ∈ known (complete_map_call (c <| cq := delete pos (cq c) |>) call res) →
  r ∈ known c ∨ r = delivered call res.
Proof. unfold complete_map_call, known, map_results. destruct res; cbn; set_solver. Qed.

(** A step learns a response only by a delivery. *)
Lemma known_step a c c' r :
  map_exec a c = Some c' → r ∈ known c' →
  r ∈ known c ∨ ∃ pos res call, a = CComplete pos res ∧ cq c !! pos = Some call ∧ r = delivered call res.
Proof.
  intros Ha Hr. destruct a; simpl in Ha; destruct (mpc c) eqn:Hpc, (cpc c) eqn:Hcpc;
    try discriminate Ha; repeat case_match; simplify_eq;
    try (left; first [by eapply known_keep|by eapply known_start|by apply known_count
      |by eapply known_process|by apply known_check]).
  all: apply known_complete in Hr as [?| ->]; [by left|right; eauto 6].
Qed.

(** ** From the results to the replies *)

(** The replies for the shards [l], answered at [addrs]. *)
Definition replies_for (addrs : list string) (l : list FileShard)
    : list (string * Z * list ShardTuple) :=
  zip_with (λ addr s, (addr, shardId_ s, to_ShardTuple <$> sets_ s)) addrs l.

Lemma result_list_lookup (m : gmap Z MapperResult) : result_list m = omap (m !!.) (map_to_list m).*1.
Proof.
  unfold result_list. assert (∀ l : list (Z * MapperResult), (∀ i r, (i, r) ∈ l → m !! i = Some r) →
    l.*2 = omap (m !!.) l.*1) as H.
  { induction l as [|[i r] l IH]; intros Hl; [done|]. rewrite !fmap_cons. cbn [omap list_omap fst snd].
    rewrite (Hl i r) by set_solver. f_equal. apply IH. intros j q Hj. apply Hl. set_solver. }
  apply H. intros i r. apply elem_of_map_to_list.
Qed.

Lemma replies_exist (R : FileShard → IntermediateResult → Prop) (m : gmap Z MapperResult) l k :
  (∀ i s, l !! i = Some s → ∃ r reply, m !! Z.of_nat (k + i) = Some r ∧ R s reply ∧
     blobList r = ir_blobs reply) →
  ∃ replies, Forall2 R l replies ∧
    (omap (m !!.) (Z.of_nat <$> seq k (length l))) ≫= blobList = replies ≫= ir_blobs.
Proof.
  revert k. induction l as [|s l IH]; intros k Hl; [by exists []|].
  destruct (Hl 0%nat s eq_refl) as (r & reply & Hr & HR & Hb). rewrite Nat.add_0_r in Hr.
  destruct (IH (S k)) as (replies & Hall & Heq).
  { intros i s' Hi. destruct (Hl (S i) s' Hi) as (r' & reply' & Hr' & Hb'). exists r', reply'.
    replace (S k + i)%nat with (k + S i)%nat by lia. done. }
  exists (reply :: replies). split; [by constructor|].
  cbn [length seq]. rewrite fmap_cons. cbn [omap list_omap]. rewrite Hr.
  by rewrite !bind_cons, Heq, Hb.
Qed.

(** ** The results of a run *)

Section Run.
Context (w : World) (Hready : job_ready w) (Hint : is_int32 (m_nreducers (master w))).
Context (Hids : Z.of_nat (length (m_shards (master w))) < 2 ^ 31).

(** The request of a shard. *)
Definition map_request (s : FileShard) : MapperInput :=
  mkMapperInput (m_nreducers (master w)) (shardId_ s) (to_ShardTuple <$> sets_ s)
    (to_string (m_rid (master w))).

Section Answered.
Context (ok : MapperInput → IntermediateResult → Prop).

(** A result that carries a reply that is [ok] for its shard. *)
Definition answered (r : MapperResult) : Prop :=
  status r = SUCCESS → ∃ s reply, vec_index (m_shards (master w)) (shardId r) = Some s ∧
    ok (map_request s) reply ∧ blobList r = ir_blobs reply ∧ cname r = ir_containername reply.

(** The container of the intermediate blobs is that of a result. *)
Definition container_ok (c : MapConf) : Prop :=
  map_results c = ∅ ∨
  ∃ i r, map_results c !! i = Some r ∧ m_intcontainer (mmaster c) = cname r.

Lemma vec_index_shard i s :
  vec_index (m_shards (master w)) i = Some s → is_int32 i ∧ shardId_ s = i.
Proof using Hids Hready.
  unfold vec_index, is_int32. destruct (decide (0 ≤ i)); [|done]. intros H.
  split; [apply lookup_lt_Some in H; lia|]. apply (jr_ids w Hready) in H. lia.
Qed.

Lemma container_ok_keep c c' :
  map_results c' = map_results c → m_intcontainer (mmaster c') = m_intcontainer (mmaster c) →
  container_ok c → container_ok c'.
Proof using. unfold container_ok. by intros -> ->. Qed.

Lemma container_ok_start_call c i p : container_ok c → container_ok (start_map_call c i p).
Proof using.
  apply container_ok_keep; unfold start_map_call;
    destruct (vec_index _ _); destruct (heap (mw c) !! p); done.
Qed.

Lemma container_ok_count c : container_ok c → container_ok (count_map_call c).
Proof using.
  unfold count_map_call. destruct (task_assigned_check_fail (mmaster c)) as [m parked] eqn:Hf.
  apply container_ok_keep; [by apply task_assigned_check_fail_spec in Hf as (_ & Hm & _)|].
  by apply task_assigned_check_fail_data in Hf as [Hc _].
Qed.

Lemma container_ok_process c res rest :
  container_ok c → container_ok (process_map_response c res rest).
Proof using.
  unfold process_map_response. destruct (decide _) as [Hs|]; [|by apply container_ok_keep]. cbn.
  destruct (m_IntermediateResultMap (mmaster c) !! _) eqn:Hm; [by apply container_ok_keep|].
  intros _. right. eexists _, _. split; [apply lookup_insert_eq|done].
Qed.

Lemma container_ok_check c : container_ok c → container_ok (check_map_done c).
Proof using. unfold check_map_done. destruct (decide _); by apply container_ok_keep. Qed.

Lemma container_ok_step a c c' :
  map_exec a c = Some c' → container_ok c → container_ok c'.
Proof using.
  intros Ha. destruct a; simpl in Ha; destruct (mpc c) eqn:Hpc, (cpc c) eqn:Hcpc;
    try discriminate Ha; repeat case_match; simplify_eq;
    first [by apply container_ok_keep|by apply container_ok_start_call|by apply container_ok_count
      |by apply container_ok_process|by apply container_ok_check
      |unfold complete_map_call; case_match; by apply container_ok_keep].
Qed.

Lemma answered_step a c c' :
  map_inv (cleared w) (shard_ids (master w)) c → Forall answered (known c) →
  map_exec a c = Some c' → answer_ok ok a c → Forall answered (known c').
Proof using Hint Hids Hready.
  intros Hi Hn Ha Hw. rewrite Forall_forall in Hn |- *. intros r Hr.
  destruct (known_step a c c' r Ha Hr) as [Hk|(pos & res & call & -> & Hpos & ->)]; [by apply Hn|].
  destruct res as [reply|code]; simpl in *.
  2:{ unfold answered, map_failure. simpl. by destruct (decide (code = 4)). }
  intros _. specialize (Hw call Hpos).
  destruct (mi_calls _ _ _ Hi call) as (s & Hs & Hq); [by eapply list_elem_of_lookup_2|].
  exists s, reply. split; [done|]. split; [|done].
  destruct (vec_index_shard _ _ Hs) as [Hsid Heq]. rewrite Hq in Hw. simpl in Hw.
  rewrite (to_int32_id (m_nreducers _)), to_int32_id in Hw by done. unfold map_request. by rewrite Heq.
Qed.

Lemma answered_start : Forall answered (known (runMapper_start w)) ∧ container_ok (runMapper_start w).
Proof using.
  unfold known, map_results. simpl. unfold result_list. rewrite map_to_list_empty.
  split; [constructor|by left].
Qed.

(** When the phase has returned, the master's list is that of one reply for each
    shard. *)
Lemma answered_replies c :
  rtc map_step (runMapper_start w) c → Forall answered (known c) → container_ok c → mpc c = MReturn →
  to_size (m_nmappers (master w)) = Z.of_nat (length (m_shards (master w))) →
  ∃ replies, Forall2 (λ s reply, ok (map_request s) reply) (m_shards (master w)) replies ∧
    m_IntblobList (mmaster c) ≡ₚ replies ≫= ir_blobs ∧
    (m_shards (master w) ≠ [] →
     ∃ s reply, s ∈ m_shards (master w) ∧ ok (map_request s) reply ∧
       m_intcontainer (mmaster c) = ir_containername reply).
Proof using Hready Hint Hids.
  intros Hr Hans Hcont Hpc Hn.
  assert (map_inv (cleared w) (shard_ids (master w)) c) as Hi.
  { rewrite <-map_ids_runMapper. by apply map_reach_inv; [apply runMapper_start_ok|]. }
  destruct (runMapper_complete_spec w c Hready Hr Hpc Hn) as (Hall & Hsize & Hblobs & _).
  assert (∀ i r, map_results c !! i = Some r → ∃ s reply,
    vec_index (m_shards (master w)) (shardId r) = Some s ∧
    ok (map_request s) reply ∧ blobList r = ir_blobs reply ∧ cname r = ir_containername reply) as Hres.
  { intros i r Hir. rewrite Forall_forall in Hans. apply Hans; [|by apply (mi_results _ _ _ Hi i)].
    unfold known. apply elem_of_app. right. apply elem_of_map_vals. eauto. }
  destruct (replies_exist (λ s reply, ok (map_request s) reply) (map_results c)
    (m_shards (master w)) 0) as (replies & Hrep & Heq).
  { intros i s Hs. destruct (Hall i s Hs) as (r & Hir & _ & Hid).
    destruct (Hres _ _ Hir) as (s' & reply & Hs' & Hok & Hb & _). exists r, reply.
    rewrite Hid, (jr_ids w Hready i s Hs) in Hs'. unfold vec_index in Hs'.
    rewrite decide_True, Nat2Z.id, Hs in Hs' by lia. by injection Hs' as <-. }
  exists replies. split; [done|]. split.
  - rewrite <-Heq, Hblobs. unfold result_blobs.
    rewrite result_list_lookup. apply bind_Permutation, omap_Permutation.
    pose proof (mi_tokens _ _ _ Hi) as Htok.
    assert (map_waiting c = []) as Hw.
    { apply Permutation_length in Htok. rewrite length_app, length_fmap, length_map_to_list, Hsize in Htok.
      unfold shard_ids in Htok. rewrite length_fmap, length_seq in Htok.
      by destruct (map_waiting c); [|simpl in Htok; lia]. }
    rewrite Hw in Htok. exact Htok.
  - intros Hne. destruct Hcont as [He|(i & r & Hir & ->)].
    { rewrite He, map_size_empty in Hsize. by destruct (m_shards (master w)). }
    destruct (Hres _ _ Hir) as (s & reply & Hs & Hok & _ & ->). exists s, reply.
    split; [|done]. unfold vec_index in Hs. destruct (decide _); [|done]. by eapply list_elem_of_lookup_2.
Qed.
End Answered.

Lemma map_reach c :
  rtc map_step (runMapper_start w) c → map_inv (cleared w) (shard_ids (master w)) c.
Proof using Hready.
  intros Hr. rewrite <-map_ids_runMapper. by apply map_reach_inv; [apply runMapper_start_ok|].
Qed.

Lemma map_inv_step c c' :
  map_inv (cleared w) (shard_ids (master w)) c → map_step c c' →
  map_inv (cleared w) (shard_ids (master w)) c'.
Proof using Hready.
  intros Hx Hs. eapply map_inv_rtc; [|done|by apply rtc_once].
  pose proof (ms_nodup _ _ (runMapper_start_ok w Hready)) as Hnd. simpl in Hnd.
  by rewrite map_to_list_empty, app_nil_r in Hnd.
Qed.

Lemma map_run_reduce_ready c :
  rtc map_step (runMapper_start w) c → reduce_ready (mw c) ∧
  m_nreducers (mmaster c) = m_nreducers (master w).
Proof using Hready Hint.
  intros Hi%map_reach. pose proof (mi_params _ _ _ Hi) as Hp. unfold job_params in Hp.
  injection Hp as _ _ Hnr _ _ Hcl. split; [|done].
  split; [|by rewrite Hnr]. intros p. rewrite Hcl. apply (mi_clients _ _ _ Hi).
Qed.

(** *** With replies that name blobs as a worker does *)

Lemma worker_run_answered c :
  rtc worker_step (runMapper_start w) c → Forall (answered worker_reply) (known c) ∧ container_ok c.
Proof using Hready Hint Hids.
  intros Hr. pose proof (map_reach _ (rtc_refl map_step _)) as Hi0.
  refine (rtc_invariant_under worker_step (map_inv (cleared w) (shard_ids (master w)))
    (λ c, Forall (answered worker_reply) (known c) ∧ container_ok c) _ _ _ _ Hi0 _ Hr).
  - intros x y Hx Hs. eapply map_inv_step; [done|by apply worker_step_map].
  - intros x y Hx [Hn Hc] (a & Ha & Hok). split; [by eapply answered_step|by eapply container_ok_step].
  - apply answered_start.
Qed.

Lemma worker_replies_names l replies :
  Forall2 (λ s reply, worker_reply (map_request s) reply) l replies →
  ∃ addrs, length addrs = length l ∧
    replies ≫= ir_blobs = all_replies (m_nreducers (master w)) (replies_for addrs l).
Proof using.
  induction 1 as [|s reply l replies (addr & Hb) _ (addrs & Hlen & Heq)]; [by exists []|].
  exists (addr :: addrs). split; [simpl; lia|]. unfold all_replies, replies_for in *. cbn [zip_with].
  by rewrite !bind_cons, Heq, Hb.
Qed.

Lemma worker_run_replies c :
  rtc worker_step (runMapper_start w) c → mpc c = MReturn →
  to_size (m_nmappers (master w)) = Z.of_nat (length (m_shards (master w))) →
  ∃ addrs, length addrs = length (m_shards (master w)) ∧
    m_IntblobList (mmaster c)
    ≡ₚ all_replies (m_nreducers (master w)) (replies_for addrs (m_shards (master w))).
Proof using Hready Hint Hids.
  intros Hr Hpc Hn. destruct (worker_run_answered c Hr) as [Hans Hcont].
  destruct (answered_replies worker_reply c (worker_rtc_map _ _ Hr) Hans Hcont Hpc Hn)
    as (replies & Hrep & Hblobs & _).
  destruct (worker_replies_names _ _ Hrep) as (addrs & Hlen & Heq). exists addrs. by rewrite <-Heq.
Qed.
End Run.

(** Names that all carry a number never make the reduce phase throw. *)
Lemma reduce_no_throw w d e :
  reduce_ready w → Forall (λ b, is_Some (reducer_of b)) (m_IntblobList (master w)) →
  rtc reduce_step (runReducer_start w) d → rpc d ≠ RThrown e.
Proof.
  intros Hw Hb Hr. pose proof (reducer_ids_length _ (rr_int w Hw)) as Hlen.
  refine (rtc_invariant_under reduce_step (reduce_inv w (reducer_ids (master w)))
    (λ d, rpc d ≠ RThrown e) _ _ _ _ (reduce_start_inv w _ (rr_clients w Hw)) _ Hr); [..|done].
  - intros x y Hx Hs. eapply reduce_inv_rtc; [done|exact Hx|by apply rtc_once].
  - intros x y Hx Hne [j q bl p Hpc Hq Hn Hbl Hp|j q x' Hpc Hq Hn Hbl|Hpc|j q bl Hpc Hq Hn Hbl Hp|Hpc Hg|Hpc Hq
      |Hpc Hg|pos res Hpc Hg|pos Hpc|pos Hpc Hg|Hpc Hd Hn|Hpc Hd|pos call res Hpc Hpos| |ev|]%reduce_step_rule;
      try done.
    + unfold start_reduce_call. by destruct (heap (rw x) !! p).
    + rewrite (ri_blobs _ _ _ Hx), reduce_blobs_spec in Hbl by done. done.
    + unfold count_reduce_call. by destruct (task_assigned_check_fail (rmaster x)) as [m []].
    + unfold process_reduce_response. by destruct (decide _).
    + unfold check_reduce_done. by destruct (rjob_q x).
    + by destruct res.
Qed.

(** What the reduce phase reads out of the names of the replies. *)
Lemma replies_reduce_blobs n l replies :
  0 < n < 2 ^ 31 → l ≡ₚ all_replies n replies →
  Forall (λ b, is_Some (reducer_of b)) l ∧
  ∀ j, 0 ≤ j < n → ∃ bl, reduce_blobs l j = Ret bl ∧
    bl ≡ₚ replies ≫= λ r, (λ k, int_name r.1.1 r.1.2 (Z.of_nat k) j) <$> seq 0 (length r.2).
Proof.
  intros Hn Hperm.
  assert (Forall (λ b, is_Some (reducer_of b)) l) as Hb.
  { rewrite Hperm. unfold all_replies. apply Forall_bind, Forall_forall. intros [[addr sid] pieces] _.
    eapply Forall_impl; [apply reply_names_numbered; lia|]. intros b (k & -> & _). done. }
  split; [done|]. intros j Hj. exists (reducer_blobs l j). split; [by apply reduce_blobs_spec|].
  unfold reducer_blobs. rewrite Hperm.
  pose proof (replies_reach_reducers_spec n j replies Hj ltac:(lia)) as Hrb.
  rewrite reduce_blobs_spec in Hrb by (by rewrite <-Hperm). by injection Hrb as <-.
Qed.

(** ** Property *)

(** C3: A job, from the shards to the outputs, when the map replies come from
    workers, the shards are numbered in order and the clients exist ([job_ready]),
    there are fewer than 2^31 shards and reducers and at least one reducer, and
    there are as many shards as mappers (with more shards some are dropped,
    [MapPhase.map_return_drops]): once the map phase has returned, the
    master's list of blobs is, up to order, that of one worker's reply for each
    shard, and reducer [j] is given, up to order, exactly the blob numbered [j] of
    every piece of every shard; no state of the reduce phase that follows has
    thrown, and in a state where it has returned there is an output for each
    reducer and no other. *)
Theorem job_complete w c :
  job_ready w → 0 < m_nreducers (master w) < 2 ^ 31 →
  Z.of_nat (length (m_shards (master w))) < 2 ^ 31 →
  to_size (m_nmappers (master w)) = Z.of_nat (length (m_shards (master w))) →
  rtc worker_step (runMapper_start w) c → mpc c = MReturn →
  ∃ addrs, length addrs = length (m_shards (master w)) ∧
    m_IntblobList (mmaster c)
      ≡ₚ all_replies (m_nreducers (master w)) (replies_for addrs (m_shards (master w))) ∧
    (∀ j, 0 ≤ j < m_nreducers (master w) →
       ∃ bl, reduce_blobs (m_IntblobList (mmaster c)) j = Ret bl ∧
         bl ≡ₚ replies_for addrs (m_shards (master w))
               ≫= λ r, (λ k, int_name r.1.1 r.1.2 (Z.of_nat k) j) <$> seq 0 (length r.2)) ∧
    ∀ d, rtc reduce_step (process_reduce c) d →
      (∀ e, rpc d ≠ RThrown e) ∧
      (rpc d = RReturn →
         ∀ j, is_Some (m_OutputResultMap (master (process_end d)) !! j)
              ↔ 0 ≤ j < m_nreducers (master w)).
Proof.
  intros Hready Hn Hids Hnm Hr Hpc.
  assert (is_int32 (m_nreducers (master w))) as Hint by (unfold is_int32; lia).
  destruct (worker_run_replies w Hready Hint Hids c Hr Hpc Hnm) as (addrs & Hlen & Hperm).
  destruct (map_run_reduce_ready w Hready Hint c (worker_rtc_map _ _ Hr)) as [Hrr Hnr].
  destruct (replies_reduce_blobs _ _ _ Hn Hperm) as [Hb Hbl].
  exists addrs. split; [done|]. split; [done|]. split; [exact Hbl|].
  intros d Hd. split; [intros e; by eapply reduce_no_throw|]. intros Hret.
  destruct (runReducer_complete_spec (mw c) d Hrr Hd Hret) as (Hall & Hsome & _).
  rewrite Hnr in Hall, Hsome. intros j. split; [apply Hsome|].
  intros Hj. destruct (Hall j Hj) as (r & _ & _ & _ & Ho). by eexists.
Qed.

(** ** Witness *)

(** An action that answers nothing, or the reply of a worker at [addr]. *)
Inductive worker_event : Type :=
  | WAct (a : map_action)
  | WReply (pos : nat) (addr cn : string).

Definition worker_exec (ev : worker_event) (c : MapConf) : option MapConf :=
  match ev with
  | WAct (CComplete _ (RpcOk _)) => None
  | WAct a => map_exec a c
  | WReply pos addr cn =>
      call ← cq c !! pos;
      let q := mc_query call in
      map_exec (CComplete pos (RpcOk (mkIntermediateResult cn
        (reply_names addr (mi_shard_id q) (npartition q) 0 (stuples q))))) c
  end.

Fixpoint worker_run (tr : list worker_event) (c : MapConf) : option MapConf :=
  match tr with
  | [] => Some c
  | ev :: tr => c' ← worker_exec ev c; worker_run tr c'
  end.

Lemma worker_run_rtc tr c c' : worker_run tr c = Some c' → rtc worker_step c c'.
Proof.
  revert c. induction tr as [|ev tr IH]; intros c; simpl; [by intros [= ->]|].
  destruct (worker_exec ev c) as [c1|] eqn:He; [|done]. simpl. intros Hrun.
  eapply rtc_l; [|by apply IH]. destruct ev as [a|pos addr cn]; unfold worker_exec in He.
  - exists a. destruct a as [| | | | | | | | | | |pos res| | | |]; try done. by destruct res.
  - destruct (cq c !! pos) as [call|] eqn:Hc; [|done]. eexists. split; [exact He|].
    intros call'. rewrite Hc. intros [= <-]. by exists addr.
Qed.

(** Two shards on one client that answers from two addresses. *)
Definition ex_job_events : list worker_event :=
  [WAct ADispatch; WAct AStarted; WAct ADispatch; WAct AStarted; WAct ADispatched;
   WAct CEnter; WReply 1 "b:1" "cint"; WAct CPublished;
   WAct ASpin; WAct AProcess; WAct ACount; WAct ACheck; WAct ADispatched;
   WAct CEnter; WReply 0 "a:1" "cint"; WAct CPublished;
   WAct ASpin; WAct AProcess; WAct ACount; WAct ACheck].
Definition ex_job : MapConf :=
  default (runMapper_start (ex_map_world 2 2))
    (worker_run ex_job_events (runMapper_start (ex_map_world 2 2))).

Lemma ex_job_run : worker_run ex_job_events (runMapper_start (ex_map_world 2 2)) = Some ex_job.
Proof. vm_compute. reflexivity. Qed.

Lemma job_complete_witness :
  ∃ addrs, length addrs = length (m_shards (master (ex_map_world 2 2))) ∧
    m_IntblobList (mmaster ex_job)
      ≡ₚ all_replies (m_nreducers (master (ex_map_world 2 2)))
           (replies_for addrs (m_shards (master (ex_map_world 2 2)))).
Proof.
  destruct (job_complete (ex_map_world 2 2) ex_job (ex_map_ready 2 2)) as (addrs & H1 & H2 & _).
  - cbn. lia.
  - cbn. lia.
  - reflexivity.
  - exact (worker_run_rtc _ _ _ ex_job_run).
  - reflexivity.
  - exact (ex_intro _ addrs (conj H1 H2)).
Defined.
