(* ===== verification/Scripts.v ===== *)
(** * The user's functions of the repository ([python/map.py], [python/reduce.py])

    The two Python scripts a job of the repository is run with, on contents in
    ASCII, and the conversion of their dicts by [Worker::instantiate_py_func]:
    the key as its [repr], the value by [PyLong_AsLong]. What they make of other
    contents is a parameter.

    The specification is word counting: [words_of] are the maximal runs of letters
    and digits of a text in lower case, [group_sum] adds up the numbers of each
    key. The theorems: [mapfunc] counts the words of a text, [reducefunc] adds up
    the numbers of each word of its lines. *)

From S2P Require Export KeySums Worker.

(** ** Python strings *)

Definition code (a : ascii) : Z := Z.of_nat (nat_of_ascii a).

(** [str.isspace], [string.punctuation], [str.lower] on ASCII. *)
Definition py_space (a : ascii) : bool :=
  bool_decide (9 ≤ code a ≤ 13 ∨ 28 ≤ code a ≤ 32).
Definition py_punct (a : ascii) : bool :=
  bool_decide (33 ≤ code a ≤ 47 ∨ 58 ≤ code a ≤ 64 ∨ 91 ≤ code a ≤ 96 ∨ 123 ≤ code a ≤ 126).
Definition py_lower (a : ascii) : ascii :=
  if decide (65 ≤ code a ≤ 90) then ascii_of_nat (nat_of_ascii a + 32) else a.

Definition return_char : ascii := ascii_of_nat 13.

(** Reading in text mode: universal newlines. *)
Fixpoint text_mode (l : bytes) : bytes :=
  match l with
  | [] => []
  | c :: l =>
      if decide (c = return_char) then
        newline :: match l with
                   | c' :: l' => if decide (c' = newline) then text_mode l' else text_mode l
                   | [] => []
                   end
      else c :: text_mode l
  end.

(** [l] cut before each element of [P]: [str.split(sep)] when [P] is [sep]. *)
Fixpoint split_by (P : ascii → bool) (l : bytes) : list bytes :=
  match l with
  | [] => [[]]
  | c :: l =>
      if P c then [] :: split_by P l
      else match split_by P l with
           | w :: ws => (c :: w) :: ws
           | [] => [[c]]
           end
  end.
Definition is_char (c a : ascii) : bool := bool_decide (a = c).

(** The lines of a file, each with its newline. *)
Fixpoint readlines (l : bytes) : list bytes :=
  match l with
  | [] => []
  | c :: l =>
      if decide (c = newline) then [c] :: readlines l
      else match readlines l with
           | line :: lines => (c :: line) :: lines
           | [] => [[c]]
           end
  end.

Fixpoint lstrip (l : bytes) : bytes :=
  match l with
  | [] => []
  | c :: l => if py_space c then lstrip l else c :: l
  end.
Definition strip (l : bytes) : bytes := reverse (lstrip (reverse (lstrip l))).

(** [int(s)]: white space, a sign, digits, single underscores between digits. *)
Fixpoint int_digits (l : bytes) (n : Z) : option Z :=
  match l with
  | [] => Some n
  | c :: l =>
      match digit_value c with
      | Some d => int_digits l (n * 10 + d)
      | None =>
          if decide (c = "_"%char) then
            match l with
            | c' :: l' => d ← digit_value c'; int_digits l' (n * 10 + d)
            | [] => None
            end
          else None
      end
  end.
Definition int_unsigned (l : bytes) : option Z :=
  match l with
  | c :: l => d ← digit_value c; int_digits l d
  | [] => None
  end.
Definition py_int (l : bytes) : option Z :=
  match strip l with
  | c :: l =>
      if decide (c = "-"%char) then Z.opp <$> int_unsigned l
      else if decide (c = "+"%char) then int_unsigned l
      else int_unsigned (c :: l)
  | [] => None
  end.

(** [repr] of a string. *)
Definition hex_char (n : nat) : ascii := ascii_of_nat (if decide (n < 10)%nat then 48 + n else 87 + n).
Definition repr_char (q a : ascii) : bytes :=
  let back := "\"%char in
  if decide (a = q ∨ a = back) then [back; a]
  else if decide (code a = 9) then [back; "t"%char]
  else if decide (code a = 10) then [back; "n"%char]
  else if decide (code a = 13) then [back; "r"%char]
  else if decide (code a < 32 ∨ code a = 127)
    then [back; "x"%char; hex_char (nat_of_ascii a / 16); hex_char (nat_of_ascii a mod 16)]
  else [a].
Definition double_quote : ascii := ascii_of_nat 34.
Definition py_repr (k : bytes) : string :=
  let q := if decide ("'"%char ∈ k ∧ double_quote ∉ k) then double_quote else "'"%char in
  String.string_of_list_ascii ([q] ++ (k ≫= repr_char q) ++ [q]).

(** ** Dicts, in insertion order *)

(** [if k in d: d[k] = d[k] + n else: d[k] = n] *)
Fixpoint dict_add (k : bytes) (n : Z) (d : list (bytes * Z)) : list (bytes * Z) :=
  match d with
  | [] => [(k, n)]
  | (k', n') :: d => if decide (k = k') then (k', n' + n) :: d else (k', n') :: dict_add k n d
  end.

(** ** [map.py] *)

Definition map_line_words (line : bytes) : list bytes :=
  filter (λ w, w ≠ [])
    (split_by (is_char " ")
       ((λ a, if py_punct a then " "%char else a) <$> (py_lower <$> strip line))).

Definition mapfunc (data : bytes) : list (bytes * Z) :=
  foldl (λ d line, foldl (λ d w, dict_add w 1 d) d (map_line_words line)) []
    (readlines (text_mode data)).

(** ** [reduce.py] *)

Fixpoint bytes_leb (l k : bytes) : bool :=
  match l, k with
  | [], _ => true
  | _, [] => false
  | a :: l, b :: k => if decide (a = b) then bytes_leb l k else bool_decide (code a < code b)
  end.
Definition bytes_le (l k : bytes) : Prop := bytes_leb l k.
#[export] Instance bytes_le_dec : RelDecision bytes_le := λ l k, decide (Is_true (bytes_leb l k)).

(** One round of the loop; [None] when it raises. *)
Definition reduce_line (d : list (bytes * Z)) (line : bytes) : option (list (bytes * Z)) :=
  match split_by (is_char ":") line with
  | [key; value] =>
      let key := filter (λ a, negb (py_punct a)) key in
      n ← py_int value; Some (dict_add key n d)
  | _ => None
  end.

Fixpoint reduce_lines (lines : list bytes) (d : list (bytes * Z)) : option (list (bytes * Z)) :=
  match lines with
  | [] => Some d
  | line :: lines => d ← reduce_line d line; reduce_lines lines d
  end.

Definition reducefunc (data : bytes) : option (list (bytes * Z)) :=
  reduce_lines (merge_sort bytes_le (readlines (text_mode data))) [].

(** ** Calling them *)

Definition is_ascii (a : ascii) : bool := bool_decide (code a < 128).

(** [PyLong_AsLong]: -1 when the value does not fit. *)
Definition as_long (n : Z) : Z := if decide (long_min ≤ n ≤ long_max) then n else -1.
Definition as_items (d : list (bytes * Z)) : list (string * Z) :=
  (λ kv, (py_repr kv.1, as_long kv.2)) <$> d.

(** [unicode] is what the functions make of contents that are not ASCII; [None]
    is an exception, as that of [open] when there is no file. *)
Definition script_dict (unicode : string → bytes → option (list (string * Z))) (script : string)
    (l : bytes) : option (list (string * Z)) :=
  if forallb is_ascii l then
    if decide (script = "map") then Some (as_items (mapfunc l)) else as_items <$> reducefunc l
  else unicode script l.

Definition scripts (unicode : string → bytes → option (list (string * Z))) (script filename : string)
    (data : option bytes) : py_result :=
  if decide (script = "map" ∨ script = "reduce") then
    match data ≫= script_dict unicode script with
    | Some items => PyDict items
    | None => PyRaised
    end
  else PyNoModule.

Definition to_bytes (s : string) : bytes := String.list_ascii_of_string s.

(** ** Specification *)

Definition is_alnum (a : ascii) : bool :=
  bool_decide (48 ≤ code a ≤ 57 ∨ 65 ≤ code a ≤ 90 ∨ 97 ≤ code a ≤ 122).

(** What is between the elements of [P], without the empty ones. *)
Definition tokens (P : ascii → bool) (l : bytes) : list bytes := filter (λ w, w ≠ []) (split_by P l).

(** The words of a text. *)
Definition words_of (text : bytes) : list bytes :=
  tokens (λ a, negb (is_alnum a)) (py_lower <$> text).

Definition ones (ws : list bytes) : list (bytes * Z) := (λ w, (w, 1)) <$> ws.
Definition word_count (ws : list bytes) : list (bytes * Z) := group_sum (ones ws).

(** Printable ASCII and newlines. *)
Definition is_plain (a : ascii) : bool := bool_decide (32 ≤ code a ≤ 126 ∨ a = newline).
Definition plain (text : bytes) : Prop := Forall is_plain text.

(** A word [map.py] can make of such a text. *)
Definition is_word_char (a : ascii) : bool := is_alnum a && bool_decide (py_lower a = a).
Definition is_word (w : bytes) : Prop := w ≠ [] ∧ Forall is_word_char w.

(** ** Lemmas: characters *)

Ltac by_ascii a :=
  destruct a as [[] [] [] [] [] [] [] []]; vm_compute; intros; repeat split; first [done|congruence].

(** What [map.py] makes of a character of a line. *)
Definition map_char (a : ascii) : ascii :=
  let a := py_lower a in if py_punct a then " "%char else a.

Lemma map_char_sep a :
  is_plain a → a ≠ newline → is_char " " (map_char a) = negb (is_alnum (py_lower a)).
Proof. unfold newline. by_ascii a. Qed.

Lemma map_char_word a :
  is_plain a → is_char " " (map_char a) = false → map_char a = py_lower a.
Proof. by_ascii a. Qed.

Lemma space_not_alnum a : py_space a → is_alnum (py_lower a) = false.
Proof. by_ascii a. Qed.

Lemma delim_not_alnum a : is_delim a = true → is_alnum (py_lower a) = false.
Proof. by_ascii a. Qed.

Lemma plain_ascii a : is_plain a → is_ascii a.
Proof. by_ascii a. Qed.

Lemma plain_not_return a : is_plain a → a ≠ return_char.
Proof. unfold return_char. by_ascii a. Qed.

Lemma lower_word_char a : is_alnum (py_lower a) → is_word_char (py_lower a).
Proof. by_ascii a. Qed.

Lemma word_char_plain a : is_word_char a → is_plain a ∧ a ≠ newline.
Proof. unfold newline. by_ascii a. Qed.

Lemma word_char_kept a :
  is_word_char a → py_punct a = false ∧ is_char ":" a = false ∧ a ≠ "'"%char ∧ repr_char "'" a = [a].
Proof. by_ascii a. Qed.

(** ** Lemmas: cutting *)

Section Tokens.
Context (P : ascii → bool).
Implicit Types l k : bytes.

Lemma split_by_cons l : ∃ w ws, split_by P l = w :: ws.
Proof. induction l as [|c l (w & ws & IH)]; simpl; [by eexists _, _|]. rewrite IH. by destruct (P c); eexists _, _. Qed.

Lemma split_by_app l c k : P c = true → split_by P (l ++ c :: k) = split_by P l ++ split_by P k.
Proof.
  intros Hc. induction l as [|a l IH]; simpl; [by rewrite Hc|].
  destruct (P a); [by rewrite IH|]. rewrite IH. by destruct (split_by_cons l) as (w & ws & ->).
Qed.

Lemma split_by_none l : Forall (λ a, P a = false) l → split_by P l = [l].
Proof. induction 1 as [|a l Ha _ IH]; [done|]. simpl. by rewrite Ha, IH. Qed.

Lemma tokens_nil : tokens P [] = [].
Proof. done. Qed.

Lemma tokens_app l c k : P c = true → tokens P (l ++ c :: k) = tokens P l ++ tokens P k.
Proof. intros Hc. unfold tokens. by rewrite split_by_app, filter_app. Qed.

Lemma tokens_cons c k : P c = true → tokens P (c :: k) = tokens P k.
Proof. apply (tokens_app []). Qed.

(** Separators around a text do not matter. *)
Lemma tokens_seps_l l k : Forall (λ a, P a = true) l → tokens P (l ++ k) = tokens P k.
Proof. induction 1 as [|c l Hc _ IH]; [done|]. cbn [app]. by rewrite tokens_cons. Qed.

Lemma tokens_seps l : Forall (λ a, P a = true) l → tokens P l = [].
Proof. intros H. rewrite <-(app_nil_r l). by rewrite tokens_seps_l. Qed.

Lemma tokens_seps_r l k : Forall (λ a, P a = true) k → tokens P (l ++ k) = tokens P l.
Proof.
  intros Hk. destruct Hk as [|c k Hc Hk]; [by rewrite app_nil_r|].
  by rewrite tokens_app, (tokens_seps k), app_nil_r.
Qed.

Lemma tokens_chars l w : w ∈ tokens P l → w ≠ [] ∧ Forall (λ a, a ∈ l ∧ P a = false) w.
Proof.
  unfold tokens. rewrite list_elem_of_filter. intros [Hw Hin]. split; [done|]. clear Hw. revert w Hin.
  induction l as [|c l IH]; intros w; simpl.
  { intros ->%list_elem_of_singleton. constructor. }
  assert (∀ w, w ∈ split_by P l → Forall (λ a, a ∈ c :: l ∧ P a = false) w) as Hl.
  { intros u Hu. eapply Forall_impl; [by apply IH|]. set_solver. }
  destruct (P c) eqn:Hc.
  { intros [->|?]%elem_of_cons; [constructor|by apply Hl]. }
  destruct (split_by_cons l) as (u & us & Hu). rewrite Hu in *.
  intros [->|?]%elem_of_cons; [|apply Hl; set_solver]. constructor; [set_solver|]. apply Hl. set_solver.
Qed.
End Tokens.

Lemma tokens_map (P P' : ascii → bool) (f f' : ascii → ascii) (l : bytes) :
  Forall (λ a, P (f a) = P' (f' a) ∧ (P (f a) = false → f a = f' a)) l →
  tokens P (f <$> l) = tokens P' (f' <$> l).
Proof.
  intros Hl. unfold tokens. f_equal. induction Hl as [|a l [Ha Hf] _ IH]; [done|].
  rewrite !fmap_cons. simpl. rewrite IH, Ha. destruct (P' (f' a)) eqn:Hp; [done|]. by rewrite Hf.
Qed.

(** ** Lemmas: [strip] and [readlines] *)

Lemma lstrip_spec l : ∃ pre, l = pre ++ lstrip l ∧ Forall py_space pre.
Proof.
  induction l as [|c l (pre & Heq & Hpre)]; simpl; [by exists []|].
  destruct (py_space c) eqn:Hc; [|by exists []]. exists (c :: pre). split; [by rewrite Heq at 1|].
  constructor; [by rewrite Hc|done].
Qed.

Lemma strip_spec l : ∃ pre post, l = pre ++ strip l ++ post ∧ Forall py_space pre ∧ Forall py_space post.
Proof.
  destruct (lstrip_spec l) as (pre & Hl & Hpre). unfold strip.
  destruct (lstrip_spec (reverse (lstrip l))) as (post & Hr & Hpost).
  exists pre, (reverse post). rewrite <-reverse_app, <-Hr, reverse_involutive. by rewrite Forall_reverse.
Qed.

Lemma lstrip_snoc l c : py_space c → lstrip (l ++ [c]) = match lstrip l with [] => [] | k => k ++ [c] end.
Proof.
  intros Hc. induction l as [|a l IH]; simpl; [by destruct (py_space c)|]. by destruct (py_space a).
Qed.

(** The newline at the end of a line goes. *)
Lemma strip_snoc l c : py_space c → strip (l ++ [c]) = strip l.
Proof.
  intros Hc. unfold strip. rewrite lstrip_snoc by done. destruct (lstrip l) as [|a k]; [done|].
  rewrite reverse_snoc. simpl. by destruct (py_space c).
Qed.

Lemma strip_none l : Forall (λ a, py_space a = false) l → strip l = l.
Proof.
  intros Hl. unfold strip. assert (∀ k, Forall (λ a, py_space a = false) k → lstrip k = k) as H.
  { intros k [|a k' Ha _]; [done|]. simpl. by rewrite Ha. }
  rewrite (H l), H by (by rewrite ?Forall_reverse). apply reverse_involutive.
Qed.

Lemma elem_of_strip a l : a ∈ strip l → a ∈ l.
Proof. destruct (strip_spec l) as (pre & post & Heq & _). rewrite Heq at 2. set_solver. Qed.

Lemma readlines_line b l : newline ∉ b → readlines (b ++ newline :: l) = (b ++ [newline]) :: readlines l.
Proof.
  induction b as [|c b IH]; intros Hb; cbn [app readlines]; [by rewrite decide_True|].
  rewrite not_elem_of_cons in Hb. rewrite decide_False by naive_solver. by rewrite IH by naive_solver.
Qed.

Lemma readlines_last b : newline ∉ b → b ≠ [] → readlines b = [b].
Proof.
  induction b as [|c b IH]; intros Hb Hne; [done|]. cbn [readlines]. rewrite not_elem_of_cons in Hb.
  rewrite decide_False by naive_solver. destruct b as [|c' b]; [done|]. by rewrite IH by naive_solver.
Qed.

(** A file is a list of lines. *)
Lemma lines_ind (Q : bytes → Prop) :
  Q [] → (∀ b, newline ∉ b → b ≠ [] → Q b) →
  (∀ b l, newline ∉ b → Q l → Q (b ++ newline :: l)) → ∀ l, Q l.
Proof.
  intros H0 H1 H2 l. assert (∀ n l, (length l ≤ n)%nat → Q l) as H; [|by apply (H (length l))].
  clear l. induction n as [|n IH]; intros l Hl.
  { by destruct l; [|simpl in Hl; lia]. }
  destruct (decide (newline ∈ l)) as [Hin|Hin].
  - apply list_elem_of_split_l in Hin as (b & k & -> & Hb). apply H2; [done|]. apply IH.
    rewrite length_app in Hl. simpl in Hl. lia.
  - destruct l; [done|]. by apply H1.
Qed.

Lemma text_mode_id l : return_char ∉ l → text_mode l = l.
Proof.
  induction l as [|c l IH]; intros Hl; [done|]. cbn [text_mode]. rewrite not_elem_of_cons in Hl.
  rewrite decide_False by naive_solver. by rewrite IH by naive_solver.
Qed.

(** ** Lemmas: the words of a text *)

Lemma plain_app l k : plain (l ++ k) ↔ plain l ∧ plain k.
Proof. apply Forall_app. Qed.

Lemma words_of_app_sep l c k :
  is_alnum (py_lower c) = false → words_of (l ++ c :: k) = words_of l ++ words_of k.
Proof. intros Hc. unfold words_of. rewrite fmap_app, fmap_cons. apply tokens_app. by rewrite Hc. Qed.

Lemma words_of_delim l c k :
  is_delim c = true → words_of (l ++ c :: k) = words_of l ++ words_of (c :: k).
Proof.
  intros Hc%delim_not_alnum. rewrite words_of_app_sep by done.
  f_equal. symmetry. by apply (words_of_app_sep [] c k).
Qed.

Lemma seps_words (l : bytes) :
  Forall (λ a, is_alnum (py_lower a) = false) l → Forall (λ a, negb (is_alnum a) = true) (py_lower <$> l).
Proof. intros Hl. apply Forall_fmap. eapply Forall_impl; [done|]. intros a Ha. simpl. by rewrite Ha. Qed.

Lemma words_of_blanks n l : words_of (blanks n ++ l) = words_of l.
Proof.
  unfold words_of. rewrite fmap_app. apply tokens_seps_l, seps_words, Forall_forall.
  intros a [-> _]%elem_of_replicate. done.
Qed.

Lemma words_of_strip l : words_of (strip l) = words_of l.
Proof.
  destruct (strip_spec l) as (pre & post & Heq & Hpre & Hpost). rewrite Heq at 2. unfold words_of.
  assert (∀ k, Forall py_space k → Forall (λ a, negb (is_alnum a) = true) (py_lower <$> k)) as H.
  { intros k Hk. apply seps_words. eapply Forall_impl; [exact Hk|]. apply space_not_alnum. }
  rewrite !fmap_app, tokens_seps_l, tokens_seps_r by (by apply H). done.
Qed.

Lemma words_of_word text w : w ∈ words_of text → is_word w.
Proof.
  intros [Hw Hc]%tokens_chars. split; [done|]. eapply Forall_impl; [exact Hc|].
  intros a [(b & -> & _)%list_elem_of_fmap Ha%negb_false_iff]. apply lower_word_char. by rewrite Ha.
Qed.

(** ** Lemmas: [mapfunc] *)

Definition dict_of (items : list (bytes * Z)) : list (bytes * Z) :=
  foldl (λ d kv, dict_add kv.1 kv.2 d) [] items.

Lemma dict_add_keys k n d :
  (dict_add k n d).*1 = if decide (k ∈ d.*1) then d.*1 else d.*1 ++ [k].
Proof.
  induction d as [|[k' n'] d IH]; [done|]. cbn [dict_add]. destruct (decide (k = k')) as [->|Hne].
  - rewrite decide_True; [done|]. rewrite fmap_cons. apply list_elem_of_here.
  - rewrite !fmap_cons, IH. cbn [fst]. destruct (decide (k ∈ d.*1)) as [Hin|Hin].
    + rewrite decide_True by set_solver. done.
    + rewrite decide_False by set_solver. done.
Qed.

Lemma dict_add_total k n d k' :
  key_total k' (dict_add k n d) = (if decide (k = k') then n else 0) + key_total k' d.
Proof.
  induction d as [|[k1 n1] d IH]; [done|]. cbn [dict_add]. destruct (decide (k = k1)) as [->|Hne].
  - rewrite !key_total_cons. cbn [fst snd]. destruct (decide (k1 = k')); lia.
  - rewrite !key_total_cons, IH. cbn [fst snd]. lia.
Qed.

Lemma dict_of_go items d :
  NoDup d.*1 →
  NoDup (foldl (λ d kv, dict_add kv.1 kv.2 d) d items).*1 ∧
  (∀ k, k ∈ (foldl (λ d kv, dict_add kv.1 kv.2 d) d items).*1 ↔ k ∈ d.*1 ∨ k ∈ items.*1) ∧
  ∀ k, key_total k (foldl (λ d kv, dict_add kv.1 kv.2 d) d items) = key_total k d + key_total k items.
Proof.
  revert d. induction items as [|[k n] items IH]; intros d Hd; cbn [foldl fst snd].
  { split; [done|]. split; [set_solver|]. intros k. simpl. lia. }
  destruct (IH (dict_add k n d)) as (Hnd & Hk & Ht).
  { rewrite dict_add_keys. destruct (decide _) as [|Hn]; [done|]. apply NoDup_app.
    split; [done|]. split; [set_solver|]. apply NoDup_singleton. }
  split; [done|]. split.
  - intros k'. rewrite Hk, dict_add_keys. destruct (decide _); set_solver.
  - intros k'. rewrite Ht, dict_add_total, key_total_cons. cbn [fst snd]. lia.
Qed.

Lemma dict_of_sums items : dict_of items ≡ₚ group_sum items.
Proof.
  destruct (dict_of_go items []) as (Hnd & Hk & Ht); [constructor|].
  apply group_sum_unique; [done| |done]. intros k. rewrite Hk. set_solver.
Qed.

Lemma map_line_words_spec b : plain b → newline ∉ b →
  map_line_words b = words_of b ∧ map_line_words (b ++ [newline]) = words_of b.
Proof.
  intros Hb Hn. assert (map_line_words b = words_of b) as Heq.
  { rewrite <-words_of_strip. unfold map_line_words. rewrite <-list_fmap_compose.
    apply (tokens_map (is_char " ") (λ a, negb (is_alnum a)) map_char py_lower).
    apply Forall_forall. intros a Ha%elem_of_strip. unfold plain in Hb. rewrite Forall_forall in Hb.
    split; [apply map_char_sep; [by apply Hb|by intros ->]|apply map_char_word; by apply Hb]. }
  split; [done|]. rewrite <-Heq. unfold map_line_words. by rewrite strip_snoc.
Qed.

Lemma map_lines_spec text d : plain text →
  foldl (λ d line, foldl (λ d w, dict_add w 1 d) d (map_line_words line)) d (readlines text)
  = foldl (λ d kv, dict_add kv.1 kv.2 d) d (ones (words_of text)).
Proof.
  assert (∀ ws d, foldl (λ d w, dict_add w 1 d) d ws
    = foldl (λ d kv, dict_add kv.1 kv.2 d) d (ones ws)) as Hones.
  { induction ws as [|w ws IH]; intros d'; [done|]. simpl. by rewrite IH. }
  revert d. induction text as [|b Hb Hne|b l Hb IH] using lines_ind; intros d Hp; [done| |].
  - rewrite readlines_last by done. cbn [foldl].
    destruct (map_line_words_spec b) as [-> _]; [done|done|]. apply Hones.
  - apply plain_app in Hp as [Hpb Hpl]. apply Forall_cons in Hpl as [_ Hpl].
    rewrite readlines_line by done. cbn [foldl].
    destruct (map_line_words_spec b) as [_ ->]; [done|done|]. rewrite Hones, IH by done.
    rewrite words_of_app_sep by done. unfold ones. by rewrite fmap_app, foldl_app.
Qed.

Lemma plain_text_mode text : plain text → text_mode text = text.
Proof.
  intros Hp. apply text_mode_id. intros Hin. unfold plain in Hp. rewrite Forall_forall in Hp.
  by apply (plain_not_return return_char); [apply Hp|].
Qed.

Lemma mapfunc_spec text : plain text → mapfunc text ≡ₚ word_count (words_of text).
Proof.
  intros Hp. unfold mapfunc, word_count. rewrite plain_text_mode, map_lines_spec by done.
  apply dict_of_sums.
Qed.

(** ** Lemmas: [reducefunc] *)

Lemma to_bytes_app s t : to_bytes (s +:+ t) = to_bytes s ++ to_bytes t.
Proof. unfold to_bytes. induction s as [|a s IH]; [done|]. cbn. by rewrite IH. Qed.

Lemma str_forall_bytes P s : str_forall P s ↔ Forall P (to_bytes s).
Proof.
  unfold to_bytes. induction s as [|a s IH]; [done|]. rewrite str_forall_cons, andb_True, IH. cbn.
  by rewrite Forall_cons.
Qed.

Lemma is_word_alt w : is_word w → w ≠ [] ∧ ∀ a, a ∈ w → is_word_char a.
Proof. unfold is_word. by rewrite Forall_forall. Qed.

Lemma py_repr_word k : is_word k → to_bytes (py_repr k) = ("'"%char :: k) ++ ["'"%char].
Proof.
  intros [_ Hk]%is_word_alt. unfold py_repr, to_bytes. rewrite decide_False.
  2:{ intros [Hq _]. by apply Hk, word_char_kept in Hq as (_ & _ & ? & _). }
  rewrite String.list_ascii_of_string_of_list_ascii. cbn [app]. do 2 f_equal.
  induction k as [|a k IH]; [done|]. rewrite bind_cons, IH by set_solver.
  assert (is_word_char a) as Ha by set_solver. by apply word_char_kept in Ha as (_ & _ & _ & ->).
Qed.

Lemma py_repr_inj k k' : is_word k → is_word k' → py_repr k = py_repr k' → k = k'.
Proof.
  intros Hk Hk' H%(f_equal to_bytes). rewrite !py_repr_word in H by done. by simplify_list_eq.
Qed.

(** What a line of a word and a number is. *)
Definition word_line (k : bytes) (n : Z) : bytes :=
  (("'"%char :: k) ++ ["'"%char]) ++ ":"%char :: to_bytes (to_string n).

Lemma pair_line_word k n : is_word k → pair_line (py_repr k, n) = word_line k n ++ [newline].
Proof.
  intros Hk. unfold pair_line. cbn [fst snd].
  change (String.list_ascii_of_string ?s) with (to_bytes s).
  rewrite !to_bytes_app, py_repr_word by done. unfold word_line. by rewrite <-!app_assoc.
Qed.

Definition number_char (a : ascii) : bool := is_digit a || bool_decide (a = "-"%char).

Lemma number_char_kept a :
  number_char a → is_plain a ∧ a ≠ newline ∧ py_space a = false ∧ is_char ":" a = false.
Proof. unfold newline. by_ascii a. Qed.

Lemma number_chars n : Forall number_char (to_bytes (to_string n)).
Proof.
  apply str_forall_bytes, to_string_chars; [done|]. intros a Ha. unfold number_char. by rewrite orb_True; left.
Qed.

Lemma word_line_plain k n : is_word k → Forall (λ a, is_plain a ∧ a ≠ newline) (word_line k n).
Proof.
  intros [_ Hk]. unfold word_line. rewrite !Forall_app. repeat split.
  - constructor; [done|]. eapply Forall_impl; [exact Hk|]. apply word_char_plain.
  - by repeat constructor.
  - constructor; [done|]. eapply Forall_impl; [apply number_chars|]. by intros a (? & ? & _)%number_char_kept.
Qed.

Lemma int_digits_read s n : str_forall is_digit s → int_digits (to_bytes s) n = read_digits s (Some n).
Proof.
  unfold to_bytes. revert n. induction s as [|a s IH]; intros n; [done|]. rewrite str_forall_cons, andb_True.
  cbn [String.list_ascii_of_string int_digits read_digits]. intros [Ha Hs]. unfold is_digit in Ha.
  apply bool_decide_spec in Ha as [d ->]. by rewrite IH.
Qed.

Lemma int_unsigned_digits z : 0 ≤ z → int_unsigned (to_bytes (digits z)) = Some z.
Proof.
  intros Hz. pose proof (read_digits_digits z "" Hz I) as Hr. rewrite str_app_nil_r in Hr.
  pose proof (digits_all_digits z Hz) as Hd.
  destruct (digits z) as [|a s]; [done|]. rewrite str_forall_cons, andb_True in Hd. destruct Hd as [Ha Hs].
  unfold to_bytes. cbn [String.list_ascii_of_string int_unsigned read_digits] in *.
  unfold is_digit in Ha. apply bool_decide_spec in Ha as [d Ha]. rewrite Ha in *. cbn [mbind option_bind].
  change (String.list_ascii_of_string s) with (to_bytes s). by rewrite int_digits_read.
Qed.

Lemma py_int_to_string n : py_int (to_bytes (to_string n) ++ [newline]) = Some n.
Proof.
  unfold py_int. rewrite strip_snoc by done. rewrite strip_none.
  2:{ eapply Forall_impl; [apply number_chars|]. by intros a (_ & _ & ? & _)%number_char_kept. }
  unfold to_string. destruct (decide (n < 0)).
  - unfold to_bytes. cbn [String.list_ascii_of_string]. rewrite decide_True by done.
    change (String.list_ascii_of_string ?s) with (to_bytes s).
    rewrite int_unsigned_digits by lia. cbn. f_equal. lia.
  - pose proof (int_unsigned_digits n ltac:(lia)) as Hi. pose proof (digits_all_digits n ltac:(lia)) as Hd.
    destruct (digits n) as [|a s]; [done|]. rewrite str_forall_cons, andb_True in Hd. destruct Hd as [Ha _].
    unfold to_bytes in *. cbn [String.list_ascii_of_string] in *.
    rewrite !decide_False by (by apply is_digit_neq). done.
Qed.

(** Deleting the punctuation leaves the word of its [repr]. *)
Lemma filter_quoted k :
  is_word k → filter (λ a, Is_true (negb (py_punct a))) ("'"%char :: k ++ ["'"%char]) = k.
Proof.
  intros [_ Hk]. rewrite filter_cons_False by (vm_compute; tauto). rewrite filter_app.
  rewrite (filter_cons_False _ "'"%char) by (vm_compute; tauto). rewrite app_nil_r.
  induction Hk as [|a k Ha _ IH]; [done|]. rewrite filter_cons_True, IH; [done|].
  by apply word_char_kept in Ha as [-> _].
Qed.

Lemma reduce_line_word d k n :
  is_word k → reduce_line d (word_line k n ++ [newline]) = Some (dict_add k n d).
Proof.
  intros Hk. pose proof Hk as [_ Hc]%is_word_alt.
  assert (∀ a, a ∈ k → py_punct a = false ∧ is_char ":" a = false) as Hkept.
  { intros a Ha. by destruct (word_char_kept a) as (? & ? & _); [apply Hc|]. }
  unfold reduce_line, word_line. rewrite <-(app_assoc _ (_ :: _)). cbn [app].
  rewrite app_comm_cons, split_by_app by done. rewrite !split_by_none.
  - cbn [app]. by rewrite py_int_to_string, filter_quoted.
  - apply Forall_app. split; [|by repeat constructor]. eapply Forall_impl; [apply number_chars|].
    by intros a (_ & _ & _ & ?)%number_char_kept.
  - constructor; [done|]. apply Forall_app. split; [|by repeat constructor]. apply Forall_forall.
    intros a Ha. by apply Hkept.
Qed.

Definition word_items (l : list (bytes * Z)) : Prop := Forall (λ kv, is_word kv.1) l.

(** The file of some pairs. *)
Definition reprs (l : list (bytes * Z)) : list (string * Z) := (λ kv, (py_repr kv.1, kv.2)) <$> l.

Lemma lines_of_items l : word_items l →
  plain (reprs l ≫= pair_line) ∧
  readlines (reprs l ≫= pair_line) = (λ kv, word_line kv.1 kv.2 ++ [newline]) <$> l.
Proof.
  induction 1 as [|[k n] l Hk _ [IHp IHl]]; [by split; [constructor|]|]. unfold reprs in *. cbn [fst] in Hk.
  rewrite fmap_cons, bind_cons. cbn [fst snd]. rewrite pair_line_word by done.
  pose proof (word_line_plain k n Hk) as Hpl. split.
  - apply plain_app. split; [|done]. apply plain_app. split; [|by repeat constructor].
    eapply Forall_impl; [exact Hpl|]. by intros a [? _].
  - rewrite <-app_assoc. cbn [app]. rewrite readlines_line, IHl; [done|].
    rewrite Forall_forall in Hpl. intros Hin. by apply Hpl in Hin as [_ ?].
Qed.

Lemma reduce_lines_words l d : word_items l →
  reduce_lines ((λ kv, word_line kv.1 kv.2 ++ [newline]) <$> l) d
  = Some (foldl (λ d kv, dict_add kv.1 kv.2 d) d l).
Proof.
  intros Hl. revert d. induction Hl as [|[k n] l Hk _ IH]; intros d; [done|].
  rewrite fmap_cons. cbn [reduce_lines foldl fst snd] in *. rewrite reduce_line_word by done. apply IH.
Qed.

Lemma reducefunc_spec l : word_items l →
  ∃ d, reducefunc (reprs l ≫= pair_line) = Some d ∧ d ≡ₚ group_sum l.
Proof.
  intros Hl. destruct (lines_of_items l Hl) as [Hp Hr]. unfold reducefunc.
  rewrite plain_text_mode, Hr by done.
  pose proof (merge_sort_Permutation bytes_le ((λ kv, word_line kv.1 kv.2 ++ [newline]) <$> l)) as Hs.
  apply Permutation_map_inv in Hs as (l' & -> & Hl').
  change (map ?f l') with (f <$> l'). rewrite reduce_lines_words.
  2:{ unfold word_items in *. by rewrite <-Hl'. }
  eexists. split; [done|]. rewrite Hl'. apply dict_of_sums.
Qed.

(** ** Lemmas: the calls *)

Lemma as_items_reprs d :
  Forall (λ kv, long_min ≤ kv.2 ≤ long_max) d → as_items d = reprs d.
Proof.
  intros Hd. unfold as_items, reprs. apply list_fmap_ext. intros i kv Hi%list_elem_of_lookup_2.
  rewrite Forall_forall in Hd. unfold as_long. by rewrite decide_True by (by apply Hd).
Qed.

#[export] Instance reprs_proper : Proper ((≡ₚ) ==> (≡ₚ)) reprs.
Proof. intros l l' Hl. unfold reprs. by rewrite Hl. Qed.

Lemma plain_forallb text : plain text → forallb is_ascii text = true.
Proof.
  intros Hp. apply forallb_forall. intros a Ha. unfold plain in Hp. rewrite Forall_forall in Hp.
  apply Is_true_true, plain_ascii, Hp. by apply list_elem_of_In.
Qed.

Lemma tokens_length P l : (length (tokens P l) ≤ S (length l))%nat.
Proof.
  unfold tokens. etrans; [apply length_filter|].
  induction l as [|c l IH]; simpl; [done|]. destruct (P c); simpl; [lia|].
  destruct (split_by P l) as [|w ws]; simpl in *; lia.
Qed.

Lemma ones_bounds ws k : 0 ≤ key_total k (ones ws) ≤ Z.of_nat (length ws).
Proof.
  induction ws as [|w ws IH]; [simpl; lia|]. unfold ones in *. rewrite fmap_cons, key_total_cons.
  cbn [fst snd length]. destruct (decide (w = k)); lia.
Qed.

Lemma word_count_bounds ws :
  Forall (λ kv, 0 ≤ kv.2 ≤ Z.of_nat (length ws)) (word_count ws).
Proof. apply Forall_fmap, Forall_forall. intros k _. apply ones_bounds. Qed.

Lemma word_count_words text : word_items (word_count (words_of text)).
Proof.
  unfold word_items, word_count, group_sum. apply Forall_fmap, Forall_forall. intros k Hk. simpl.
  rewrite elem_of_remove_dups in Hk. unfold ones in Hk. rewrite <-list_fmap_compose in Hk.
  apply list_elem_of_fmap in Hk as (w & -> & Hw). by apply words_of_word in Hw.
Qed.

(** The scripts have their functions. *)
Lemma scripts_attr unicode script f data : scripts unicode script f data ≠ PyNoAttr.
Proof. unfold scripts. by repeat case_match. Qed.

Section Calls.
Context (unicode : string → bytes → option (list (string * Z))).

Lemma scripts_map text f :
  plain text → Z.of_nat (length text) < 2 ^ 62 →
  ∃ items, scripts unicode "map" f (Some text) = PyDict items ∧
    items ≡ₚ reprs (word_count (words_of text)).
Proof.
  intros Hp Hlen. unfold scripts, script_dict. cbn [mbind option_bind].
  rewrite plain_forallb by done. rewrite !decide_True by auto.
  eexists. split; [done|]. rewrite as_items_reprs; [by rewrite mapfunc_spec|].
  rewrite mapfunc_spec by done. eapply Forall_impl; [apply word_count_bounds|]. simpl. intros kv Hkv.
  pose proof (tokens_length (λ a, negb (is_alnum a)) (py_lower <$> text)) as Hw. rewrite length_fmap in Hw.
  unfold words_of in Hkv. unfold long_min, long_max. lia.
Qed.

Lemma scripts_reduce l f :
  word_items l → Forall (λ kv, long_min ≤ kv.2 ≤ long_max) (group_sum l) →
  ∃ items, scripts unicode "reduce" f (Some (reprs l ≫= pair_line)) = PyDict items ∧
    items ≡ₚ reprs (group_sum l).
Proof.
  intros Hl Hb. destruct (reducefunc_spec l Hl) as (d & Hd & Hperm).
  destruct (lines_of_items l Hl) as [Hp _]. unfold scripts, script_dict. cbn [mbind option_bind].
  rewrite plain_forallb, Hd by done. rewrite decide_True by auto. cbn. eexists. split; [done|].
  rewrite as_items_reprs by (by rewrite Hperm). by rewrite Hperm.
Qed.

(** ** Properties *)

(** C14: [map.py] on a text of printable ASCII characters and newlines returns,
    in some order, every word of the text once with the number of times it
    occurs: the words are the maximal runs of letters and digits, in lower case;
    the worker streams them in quotes. *)
Theorem map_script_counts text f :
  plain text → Z.of_nat (length text) < 2 ^ 62 →
  ∃ items, scripts unicode "map" f (Some text) = PyDict items ∧
    items ≡ₚ reprs (word_count (words_of text)).
Proof. apply scripts_map. Qed.

(** C15: [reduce.py] on the lines the worker writes for words and numbers, in
    whatever order and however often a word occurs, returns every word once with
    the sum of its numbers. *)
Theorem reduce_script_sums l f :
  word_items l → Forall (λ kv, long_min ≤ kv.2 ≤ long_max) (group_sum l) →
  ∃ items, scripts unicode "reduce" f (Some (reprs l ≫= pair_line)) = PyDict items ∧
    items ≡ₚ reprs (group_sum l).
Proof. apply scripts_reduce. Qed.
End Calls.

(** ** Witnesses *)

Definition show (d : list (bytes * Z)) : list (string * Z) :=
  (λ kv, (String.string_of_list_ascii kv.1, kv.2)) <$> d.

Example ex_mapfunc :
  show (mapfunc (to_bytes "The cat, the dog. A dog's cat-nap"))
  = [("the", 2); ("cat", 2); ("dog", 2); ("a", 1); ("s", 1); ("nap", 1)].
Proof. vm_compute. reflexivity. Qed.
Example ex_reducefunc :
  show <$> reducefunc (to_bytes ("'cat':2" +:+ String newline ("'a':1" +:+ String newline ("'cat':3" +:+ String newline ""))))
  = Some [("a", 1); ("cat", 5)].
Proof. vm_compute. reflexivity. Qed.
Example ex_repr : py_repr (to_bytes "it's") = String double_quote ("it's" +:+ String double_quote "").
Proof. vm_compute. reflexivity. Qed.

Definition ex_unicode (script : string) (data : bytes) : option (list (string * Z)) := None.

Lemma map_script_counts_witness :
  ∃ items, scripts ex_unicode "map" "f" (Some (to_bytes "A cat, a dog.")) = PyDict items ∧
    items ≡ₚ reprs (word_count (words_of (to_bytes "A cat, a dog."))).
Proof.
  apply (map_script_counts ex_unicode (to_bytes "A cat, a dog.") "f").
  - repeat constructor.
  - reflexivity.
Defined.

Example ex_word_count :
  show (word_count (words_of (to_bytes "A cat, a dog."))) = [("cat", 1); ("a", 2); ("dog", 1)].
Proof. vm_compute. reflexivity. Qed.

Definition ex_items : list (bytes * Z) := [(to_bytes "cat", 2); (to_bytes "a", 1); (to_bytes "cat", 5)].

Lemma reduce_script_sums_witness :
  ∃ items, scripts ex_unicode "reduce" "f" (Some (reprs ex_items ≫= pair_line)) = PyDict items ∧
    items ≡ₚ reprs (group_sum ex_items).
Proof.
  apply (reduce_script_sums ex_unicode ex_items "f").
  - repeat constructor; discriminate.
  - repeat constructor; discriminate.
Defined.

(** Without [plain]: a tab at the end of a line is taken off, in the middle it
    stays in the word, so that the counts depend on where a text is cut. *)
Definition tab : string := String (ascii_of_nat 9) "".
Example ex_tab :
  (show (mapfunc (to_bytes ("a" +:+ tab +:+ " b"))), show (mapfunc (to_bytes ("a" +:+ tab))))
  = ([("a" +:+ tab, 1); ("b", 1)], [("a", 1)]).
Proof. vm_compute. reflexivity. Qed.
