(* ===== verification/Cluster.v ===== *)
(** * The workers and the storage they share

    A cluster is the blob storage, the workers with their local files, and the
    tasks they have answered. Its actions are whole tasks of one worker (a worker
    serves one request at a time, [WorkerRpc]; two workers never write the same
    intermediate blob), the address exchange, and workers that come and go. A
    task may be executed at any time, more than once and on several workers: what
    the master's deadlines, retries and failovers can bring about.

    The invariant: the input is intact, every answered map task's blobs are in
    the storage with their contents and stay there whatever is executed again,
    and the output of every answered reduce task is that of its blobs. *)

From S2P Require Export Job.

Record WorkerCluster (S : Type) : Type := mkWorkerCluster {
  cl_store : S;
  cl_workers : list (Worker * gmap string bytes);
  cl_map : list (string * MapperInput * IntermediateResult);   (* who, request, reply *)
  cl_red : list (string * ReducerInput * FinalResult)
}.
Arguments mkWorkerCluster {S} cl_store cl_workers cl_map cl_red.
Arguments cl_store {S} w.
Arguments cl_workers {S} w.
Arguments cl_map {S} w.
Arguments cl_red {S} w.

#[export] Instance eta_WorkerCluster {S} : EtaRecord (WorkerCluster S) := λ r,
  mkWorkerCluster (cl_store r) (cl_workers r) (cl_map r) (cl_red r).

Inductive workers_action : Type :=
  | TMap (i : nat) (q : MapperInput)
  | TReduce (i : nat) (q : ReducerInput)
  | TExchange (i : nat) (m : MasterInfo)
  | TJoin (w : Worker) (fs : gmap string bytes)
  | TLeave (i : nat).

Section Cluster.
Context {S : Type} {HS : Storage S}.
Context (py : string → string → option bytes → py_result) (hash : string → Z).
Implicit Types cl : WorkerCluster S.

(** The worker [i] with the storage, and what it leaves. *)
Definition cl_wstate cl (i : nat) : option (WState S) :=
  (λ wf, mkWState wf.1 wf.2 (cl_store cl)) <$> cl_workers cl !! i.
Definition cl_put (i : nat) (ws : WState S) cl : WorkerCluster S :=
  cl <| cl_store := store ws |> <| cl_workers := <[i := (wk ws, files ws)]> (cl_workers cl) |>.

(** A task that parks, throws or is undefined is answered by nobody. *)
Definition workers_exec (a : workers_action) cl : option (WorkerCluster S) :=
  match a with
  | TMap i q =>
      ws ← cl_wstate cl i;
      match map_do_work py hash q ws with
      | Ret (reply, ws') =>
          Some (cl_put i ws' cl <| cl_map := (m_full_address (wk ws), q, reply) :: cl_map cl |>)
      | _ => None
      end
  | TReduce i q =>
      ws ← cl_wstate cl i;
      match reduce_do_work py hash q ws with
      | Ret (reply, ws') =>
          Some (cl_put i ws' cl <| cl_red := (m_full_address (wk ws), q, reply) :: cl_red cl |>)
      | _ => None
      end
  | TExchange i m =>
      ws ← cl_wstate cl i;
      match exchange_do_work m ws with
      | Ret (_, ws') => Some (cl_put i ws' cl)
      | _ => None
      end
  | TJoin w fs => Some (cl <| cl_workers := cl_workers cl ++ [(w, fs)] |>)
  | TLeave i => Some (cl <| cl_workers := delete i (cl_workers cl) |>)
  end.

Fixpoint workers_run (tr : list workers_action) cl : option (WorkerCluster S) :=
  match tr with
  | [] => Some cl
  | a :: tr => cl' ← workers_exec a cl; workers_run tr cl'
  end.

Lemma workers_exec_logs a cl cl' :
  workers_exec a cl = Some cl' → cl_map cl ⊆ cl_map cl' ∧ cl_red cl ⊆ cl_red cl'.
Proof using.
  intros Ha. destruct a; unfold workers_exec in Ha; repeat case_match; simplify_option_eq;
    repeat case_match; simplify_eq; cbn; split; set_solver.
Qed.

(** ** A job on a cluster

    [c] is the container of the job, [text] the contents of its blobs, [mapq] the
    map requests of the job. *)

Context {HL : StorageLaws S} (conn c : string) (text : string → bytes) (mapq : MapperInput → Prop).

Definition int_container : string := c +:+ "int".
Definition out_container : string := c +:+ "out".

Definition job_db : WorkerDBConnection := mkWorkerDBConnection conn c int_container (Some c) (Some int_container).

(** A worker between two tasks, connected to nothing or to the job's containers. *)
Record worker_ok (wf : Worker * gmap string bytes) : Prop := {
  wo_db : w_dbConnection wf.1 = None ∨ w_dbConnection wf.1 = Some job_db;
  wo_files : m_inter_files wf.1 = [];
  wo_out : m_outstream wf.1 = None;
  wo_noname : wf.2 !! "" = None
}.

Definition fresh_worker (w : Worker) (fs : gmap string bytes) : Prop :=
  w_dbConnection w = None ∧ m_inter_files w = [] ∧ m_outstream w = None ∧ fs !! "" = None.

(** The actions of the job, [redq] being its reduce requests. *)
Definition job_action (redq : ReducerInput → Prop) (a : workers_action) : Prop :=
  match a with
  | TMap _ q => mapq q
  | TReduce _ q => redq q
  | TExchange _ m => mi_connectionstring m = conn ∧ mi_containername m = c
  | TJoin w fs => fresh_worker w fs
  | TLeave _ => True
  end.

Definition workers_step (redq : ReducerInput → Prop) cl cl' : Prop :=
  ∃ a, workers_exec a cl = Some cl' ∧ job_action redq a.

(** ** The invariant *)

(** Blob [b] was answered with the contents [t]. *)
Definition blob_of (log : list (string * MapperInput * IntermediateResult)) (b : string) (t : bytes)
    : Prop :=
  ∃ addr q reply k p i, (addr, q, reply) ∈ log ∧ stuples q !! k = Some p ∧ 0 ≤ i < npartition q ∧
    b = int_name addr (mi_shard_id q) (Z.of_nat k) i ∧
    t = part_file hash (npartition q) i (piece_pairs py addr text p).

(** The output of reducer [rid] of a worker on an input. *)
Definition reduce_out (addr : string) (rid : Z) (input : bytes) : bytes :=
  py_items (py "reduce" (kv_file addr rid) (Some input)) ≫= pair_line.
Definition out_name (rid : Z) : string := "out_" +:+ to_string rid.

Record workers_inv (redq : ReducerInput → Prop) cl : Prop := {
  ci_workers : Forall worker_ok (cl_workers cl);
  ci_text : ∀ q p, mapq q → p ∈ stuples q → stored c (st_blobname p) (text (st_blobname p)) (cl_store cl);
  ci_map : ∀ addr q reply, (addr, q, reply) ∈ cl_map cl → mapq q ∧
    reply = mkIntermediateResult int_container (reply_names addr (mi_shard_id q) (npartition q) 0 (stuples q));
  ci_blobs : ∀ b t, blob_of (cl_map cl) b t → stored int_container b t (cl_store cl);
  ci_req : ∀ q, redq q → ∃ ts, Forall2 (blob_of (cl_map cl)) (Types.ri_blobs q) ts;
  ci_red : ∀ addr q reply, (addr, q, reply) ∈ cl_red cl → redq q ∧ reply = mkFinalResult "" out_container;
  ci_outs : ∀ addr q reply, (addr, q, reply) ∈ cl_red cl → ∃ addr' ts,
    Forall2 (blob_of (cl_map cl)) (Types.ri_blobs q) ts ∧
    stored out_container (out_name (reducer_id q)) (reduce_out addr' (reducer_id q) (concat ts)) (cl_store cl)
}.

(** ** What is relied on *)

(** Operations of the storage succeed; the scripts have their functions. *)
Record storage_ok : Prop := {
  so_parse : st_parse conn = Ret tt;
  so_container : ∀ d s, ∃ s', st_container d s = Ret s';
  so_upload : ∀ d b t s, ∃ s', st_upload d b t s = Ret s'
}.
Context (Hst : storage_ok) (Hhash : ∀ s, 0 ≤ hash s).
Context (Hpy : ∀ f data, py "map" f data ≠ PyNoAttr ∧ py "reduce" f data ≠ PyNoAttr).

(** A map request of the job: its pieces start inside their blobs, and its shard
    number tells it. *)
Record requests_ok : Prop := {
  ro_parts q : mapq q → 0 < npartition q < 2 ^ 31;
  ro_pieces q : mapq q → stuples q ≠ [];
  ro_inside q p : mapq q → p ∈ stuples q →
    0 ≤ startoffset p < Z.of_nat (length (text (st_blobname p))) ∧
    startoffset p ≤ endoffset p < 2 ^ 31;
  ro_unique q q' : mapq q → mapq q' → mi_shard_id q = mi_shard_id q' → q = q'
}.
Context (Hreq : requests_ok).

(** ** Lemmas *)

Lemma containers_differ :
  c ≠ int_container ∧ int_container ≠ out_container ∧ c ≠ out_container.
Proof using.
  unfold int_container, out_container.
  assert (∀ s, String.length s = 3%nat → c ≠ c +:+ s) as H.
  { intros s Hs Heq%(f_equal String.length). rewrite str_length_app in Heq. lia. }
  split; [by apply H|]. split; [|by apply H]. by intros ?%str_app_inj_l.
Qed.

Lemma blob_of_mono log log' b t : log ⊆ log' → blob_of log b t → blob_of log' b t.
Proof using. intros Hl (addr & q & reply & k & p & i & Hin & Hb). exists addr, q, reply, k, p, i. auto. Qed.

Lemma blobs_of_mono log log' bl ts :
  log ⊆ log' → Forall2 (blob_of log) bl ts → Forall2 (blob_of log') bl ts.
Proof using. intros Hl H. eapply Forall2_impl; [exact H|]. intros b t. by apply blob_of_mono. Qed.

Lemma ready_of_ok w fs s :
  worker_ok (w, fs) → w_dbConnection w = Some job_db →
  map_ready py job_db c int_container (mkWState w fs s).
Proof using Hst Hpy.
  intros [_ Hf Ho Hn] Hdb. split; try done; [apply so_upload, Hst|by intros; apply Hpy].
Qed.

(** A worker that is not connected answers no task. *)
Lemma map_unconnected w fs s q reply ws' :
  w_dbConnection w = None → stuples q ≠ [] →
  map_do_work py hash q (mkWState w fs s) ≠ Ret (reply, ws').
Proof using.
  intros Hdb Hne. unfold map_do_work. cbn [wk]. destruct (worker_check_fail w) as [w1 parked] eqn:Hf.
  destruct parked; [done|]. destruct (stuples q) as [|p ps]; [done|]. cbn [map_pieces].
  destruct (worker_check_fail_keeps _ _ Hf) as (Hdb1 & _). rewrite Hdb in Hdb1.
  unfold map_shard, create_r_intermediate_files. cbn. by rewrite Hdb1.
Qed.

Lemma reduce_unconnected w fs s q reply ws' :
  w_dbConnection w = None →
  reduce_do_work py hash q (mkWState w fs s) ≠ Ret (reply, ws').
Proof using.
  intros Hdb. unfold reduce_do_work. cbn [wk field_update].
  destruct (worker_check_fail w) as [w1 parked] eqn:Hf.
  destruct parked; [done|].
  destruct (worker_check_fail_keeps _ _ Hf) as (Hdb1 & _). rewrite Hdb in Hdb1.
  destruct (Types.ri_blobs q) as [|b bl]; cbn [prepare_all].
  2:{ unfold prepare_data. cbn. by rewrite Hdb1. }
  cbn [obind]. unfold reduce.
  match goal with |- context [instantiate_reduce_function py hash ?f ?w] => set (ws0 := w) end.
  destruct (instantiate_reduce_function _ _ _ ws0) as [ws1| | |] eqn:Hi; try done. cbn [obind].
  apply instantiate_wk in Hi. unfold close_output_file. cbn [wk field_update w_dbConnection]. rewrite Hi.
  unfold ws0, create_output_file. cbn. destruct (m_outstream w1); cbn; by rewrite Hdb1.
Qed.

(** An executed task was one of a connected worker that did not fail. *)
Lemma map_executed wf s q reply ws' :
  worker_ok wf → mapq q → map_do_work py hash q (mkWState wf.1 wf.2 s) = Ret (reply, ws') →
  w_dbConnection wf.1 = Some job_db ∧ ∃ w', worker_check_fail wf.1 = (w', false).
Proof using Hreq.
  intros [[Hdb|Hdb] _ _ _] Hq Hrun.
  { apply map_unconnected in Hrun; [done..|by apply Hreq]. }
  split; [done|]. unfold map_do_work in Hrun. cbn [wk] in Hrun.
  destruct (worker_check_fail wf.1) as [w' []]; [done|by exists w'].
Qed.

Lemma reduce_executed wf s q reply ws' :
  worker_ok wf → reduce_do_work py hash q (mkWState wf.1 wf.2 s) = Ret (reply, ws') →
  w_dbConnection wf.1 = Some job_db ∧ ∃ w', worker_check_fail wf.1 = (w', false).
Proof using.
  intros [[Hdb|Hdb] _ _ _] Hrun.
  { by apply reduce_unconnected in Hrun. }
  split; [done|]. unfold reduce_do_work in Hrun. cbn [wk field_update] in Hrun.
  destruct (worker_check_fail wf.1) as [w' []]; [done|by exists w'].
Qed.

(** A blob has one content. *)
Lemma blob_of_fun log b t t' :
  (∀ a q r, (a, q, r) ∈ log → mapq q) → blob_of log b t → blob_of log b t' → t = t'.
Proof using Hreq.
  intros Hlog (a & q & r & k & p & i & Hin & Hk & Hi & -> & ->)
    (a' & q' & r' & k' & p' & i' & Hin' & Hk' & Hi' & Hb & ->).
  apply int_name_inj_full in Hb as (<- & Hsid & Hkk & <-).
  assert (q' = q) as -> by (apply (ro_unique Hreq); [by eapply Hlog..|done]).
  replace k' with k in Hk' by lia. rewrite Hk in Hk'. by injection Hk' as <-.
Qed.

Lemma blobs_of_fun log bl ts ts' :
  (∀ a q r, (a, q, r) ∈ log → mapq q) → Forall2 (blob_of log) bl ts → Forall2 (blob_of log) bl ts' →
  ts = ts'.
Proof using Hreq.
  intros Hlog Hts. revert ts'. induction Hts as [|b t bl ts Hb _ IH]; intros ts' Hts'.
  - by inversion Hts'.
  - inversion Hts' as [|? t' ? ts1 Hb' Ht']; subst. f_equal; [by eapply blob_of_fun|by apply IH].
Qed.

Section Steps.
Context (redq : ReducerInput → Prop).

Lemma map_action_inv cl i wf q reply ws' :
  workers_inv redq cl → cl_workers cl !! i = Some wf → mapq q →
  map_do_work py hash q (mkWState wf.1 wf.2 (cl_store cl)) = Ret (reply, ws') →
  workers_inv redq (cl_put i ws' cl <| cl_map := (m_full_address wf.1, q, reply) :: cl_map cl |>).
Proof using Hst Hhash Hpy Hreq HL.
  intros Hi Hwf Hq Hrun. pose proof (ci_workers _ _ Hi) as Hws. rewrite Forall_lookup in Hws.
  pose proof (Hws _ _ Hwf) as Hok. destruct (map_executed _ _ _ _ _ Hok Hq Hrun) as (Hdb & w' & Hcf).
  destruct wf as [w fs]. cbn [fst snd] in *. destruct containers_differ as (Hne & Hne' & _).
  destruct (map_task_spec py hash Hhash job_db c int_container text q (mkWState w fs (cl_store cl)) w')
    as (ws1 & Hrun1 & Hready & [Haddr Hout] & Hblobs & Hkeep);
    [by apply ready_of_ok|done|done|by apply Hreq|by apply Hreq| |].
  { apply Forall_forall. intros p Hp. split; [by eapply (ci_text _ _ Hi)|by eapply (ro_inside Hreq)]. }
  rewrite Hrun1 in Hrun. injection Hrun as <- <-. cbn [wk store] in *.
  set (addr := m_full_address w) in *. set (names := reply_names _ _ _ _ _) in *.
  assert (∀ b t, blob_of ((addr, q, mkIntermediateResult int_container names) :: cl_map cl) b t →
    stored int_container b t (store ws1)) as Hall.
  { intros b t (a & q' & r & k & p & j & Hin & Hk & Hj & -> & ->).
    destruct (decide (int_name a (mi_shard_id q') (Z.of_nat k) j ∈ names)) as [Hn|Hn].
    - apply elem_of_reply_names in Hn as (k' & p' & j' & Hk' & Hj' & Heq).
      rewrite Z.add_0_l in Heq. rewrite Heq. apply int_name_inj_full in Heq as (-> & Hsid & Hkk & ->).
      assert (q' = q) as ->.
      { apply elem_of_cons in Hin as [[= -> _]|Hin]; [done|].
        apply (ro_unique Hreq); [by eapply (ci_map _ _ Hi)|done..]. }
      replace k with k' in Hk by lia. rewrite Hk' in Hk. injection Hk as ->. by apply Hblobs.
    - apply Hkeep; [by right|]. apply elem_of_cons in Hin as [[= -> -> ->]|Hin].
      + exfalso. apply Hn. by apply (elem_of_reply_names_2 addr _ (npartition q) 0 _ k p).
      + apply (ci_blobs _ _ Hi). by exists a, q', r, k, p, j. }
  split; cbn [cl_store cl_workers cl_map cl_red cl_put field_update].
  - apply Forall_insert; [apply (ci_workers _ _ Hi)|]. destruct Hready, Hok. split; cbn; try done.
    + by right.
    + by rewrite Hout.
  - intros q' p Hq' Hp. apply Hkeep; [by left|]. by eapply (ci_text _ _ Hi).
  - intros a q' r [[= -> -> ->]|Hin]%elem_of_cons; [done|by eapply (ci_map _ _ Hi)].
  - exact Hall.
  - intros r Hr. destruct (ci_req _ _ Hi r Hr) as (ts & Hts). exists ts.
    eapply blobs_of_mono; [|exact Hts]. set_solver.
  - apply (ci_red _ _ Hi).
  - intros a r fr Hr. destruct (ci_outs _ _ Hi a r fr Hr) as (a' & ts & Hts & Ho). exists a', ts.
    split; [eapply blobs_of_mono; [|exact Hts]; set_solver|]. apply Hkeep; [by left|done].
Qed.

Lemma exchange_action_inv cl i wf m reply ws' :
  workers_inv redq cl → cl_workers cl !! i = Some wf →
  mi_connectionstring m = conn → mi_containername m = c →
  exchange_do_work m (mkWState wf.1 wf.2 (cl_store cl)) = Ret (reply, ws') →
  workers_inv redq (cl_put i ws' cl).
Proof using Hst HL.
  intros Hi Hwf Hconn Hc. pose proof (ci_workers _ _ Hi) as Hws. rewrite Forall_lookup in Hws.
  pose proof (Hws _ _ Hwf) as Hok.
  destruct (so_container Hst c (cl_store cl)) as [s1 Hs1].
  destruct (so_container Hst int_container s1) as [s2 Hs2].
  unfold exchange_do_work, worker_create_connection. rewrite Hconn, Hc. cbn [store].
  rewrite (WorkerDBConnection_new_ok conn c _ s1 s2 (so_parse Hst) Hs1 Hs2). cbn [obind].
  intros [= <- <-]. cbn.
  assert (∀ c' b t, stored c' b t (cl_store cl) → stored c' b t s2) as Hkeep.
  { intros c' b t Hb. eapply st_container_frame; [exact Hs2|]. by eapply st_container_frame. }
  destruct Hi. split; cbn [cl_store cl_workers cl_map cl_red cl_put field_update store]; auto.
  - apply Forall_insert; [done|]. destruct Hok. split; cbn; try done. by right.
  - intros q p Hq Hp. apply Hkeep. eauto.
  - intros a q r Hin. destruct (ci_outs0 a q r Hin) as (a' & ts & ? & ?). exists a', ts. auto.
Qed.

(** A reduce request of the job: its reducer tells it. *)
Context (Hred_container : ∀ q, redq q → Types.ri_containername q = int_container).
Context (Hred_unique : ∀ q q', redq q → redq q' → reducer_id q = reducer_id q' → q = q').

Lemma reduce_action_inv cl i wf q reply ws' :
  workers_inv redq cl → cl_workers cl !! i = Some wf → redq q →
  reduce_do_work py hash q (mkWState wf.1 wf.2 (cl_store cl)) = Ret (reply, ws') →
  workers_inv redq (cl_put i ws' cl <| cl_red := (m_full_address wf.1, q, reply) :: cl_red cl |>).
Proof using Hst Hpy HL Hred_container Hred_unique.
  intros Hi Hwf Hq Hrun. pose proof (ci_workers _ _ Hi) as Hws. rewrite Forall_lookup in Hws.
  pose proof (Hws _ _ Hwf) as Hok. destruct (reduce_executed _ _ _ _ _ Hok Hrun) as (Hdb & w' & Hcf).
  destruct wf as [w fs]. cbn [fst snd] in *. destruct containers_differ as (Hne & Hne' & Hne3).
  destruct (ci_req _ _ Hi q Hq) as (ts & Hts).
  destruct (reduce_task_stored py hash job_db q (mkWState w fs (cl_store cl)) w' ts)
    as (ws1 & Hrun1 & Hout & Hdb1 & Hif1 & Ho1 & Hfs & Hkeep);
    [done|by apply Hok|apply so_container, Hst|apply so_upload, Hst|by intros; apply Hpy| |done|].
  { rewrite Hred_container by done. eapply Forall2_impl; [exact Hts|]. apply (ci_blobs _ _ Hi). }
  rewrite Hrun1 in Hrun. injection Hrun as <- <-. cbn [wk files store] in *.
  split; cbn [cl_store cl_workers cl_map cl_red cl_put field_update].
  - apply Forall_insert; [apply (ci_workers _ _ Hi)|]. destruct Hok. split; cbn in *; try done.
    + by right.
    + by rewrite Hif1.
    + by rewrite Hfs.
  - intros q' p Hq' Hp. apply Hkeep; [by left|]. by eapply (ci_text _ _ Hi).
  - apply (ci_map _ _ Hi).
  - intros b t Hb. apply Hkeep; [by left|]. by apply (ci_blobs _ _ Hi).
  - apply (ci_req _ _ Hi).
  - intros a q' r [[= -> -> ->]|Hin]%elem_of_cons; [done|by eapply (ci_red _ _ Hi)].
  - intros a q' r Hin. destruct (decide (reducer_id q' = reducer_id q)) as [Hid|Hid].
    + assert (q' = q) as ->.
      { apply elem_of_cons in Hin as [[= _ -> _]|Hin]; [done|].
        apply Hred_unique; [by eapply (ci_red _ _ Hi)|done..]. }
      by exists (m_full_address w), ts.
    + apply elem_of_cons in Hin as [[= -> -> ->]|Hin]; [done|].
      destruct (ci_outs _ _ Hi a q' r Hin) as (a' & ts' & Hts' & Ho). exists a', ts'. split; [done|].
      apply Hkeep; [|done]. right. unfold out_name. by intros ?%str_app_inj_l%to_string_inj.
Qed.

Lemma workers_step_inv cl cl' : workers_inv redq cl → workers_step redq cl cl' → workers_inv redq cl'.
Proof using Hst Hhash Hpy Hreq HL Hred_container Hred_unique.
  intros Hi ([i q|i q|i m|w fs|i] & Ha & Hj); unfold workers_exec, cl_wstate in Ha; cbn in Hj.
  - destruct (cl_workers cl !! i) as [wf|] eqn:Hwf; [|done]. cbn in Ha.
    destruct (map_do_work _ _ _ _) as [[reply ws']| | |] eqn:Hrun; try done. injection Ha as <-.
    by apply (map_action_inv cl i wf).
  - destruct (cl_workers cl !! i) as [wf|] eqn:Hwf; [|done]. cbn in Ha.
    destruct (reduce_do_work _ _ _ _) as [[reply ws']| | |] eqn:Hrun; try done. injection Ha as <-.
    by apply (reduce_action_inv cl i wf).
  - destruct (cl_workers cl !! i) as [wf|] eqn:Hwf; [|done]. cbn in Ha.
    destruct (exchange_do_work _ _) as [[reply ws']| | |] eqn:Hrun; try done. injection Ha as <-.
    destruct Hj. by eapply (exchange_action_inv cl i wf m).
  - injection Ha as <-. destruct Hi. split; try done. cbn. apply Forall_app. split; [done|].
    destruct Hj as (? & ? & ? & ?). constructor; [|done]. split; cbn; auto.
  - injection Ha as <-. destruct Hi. split; try done. cbn. by apply Forall_delete.
Qed.
End Steps.
End Cluster.
