(* ===== verification/System.v ===== *)
(** * The whole system: a master, the workers and the storage through a job

    A state is the master's configuration ([MapPhase], [ReducePhase]) and the
    cluster ([Cluster]); a step is one of the master's or one of the cluster's. A
    reply that reaches the master is one that a worker has given to that request.
    Workers may execute a request before, after or without its reply reaching the
    master, and join and leave at any time.

    The theorem: once the job has returned, the output blob of every reducer holds
    what the user's function makes of exactly the pairs of its class of all pieces
    of all shards. *)

From S2P Require Export Cluster.

(** A step of the master with its action, or one of the cluster. *)
Inductive sys_action (A : Type) : Type :=
  | SMaster (a : A)
  | SWorker (a : workers_action).
Arguments SMaster {A} a.
Arguments SWorker {A} a.

Section System.
Context {S : Type} {HS : Storage S}.
Context (py : string → string → option bytes → py_result) (hash : string → Z).
Context (conn c : string).

(** ** Steps *)

(** Somebody has given this reply. *)
Definition logged {A B} (log : list (string * A * B)) (q : A) (reply : B) : Prop :=
  ∃ addr, (addr, q, reply) ∈ log.

(** The map requests of the job of [w]. *)
Definition map_requests (w : World) (q : MapperInput) : Prop :=
  ∃ s, s ∈ m_shards (master w) ∧ q = map_request w s.

Definition map_sys_exec (a : sys_action map_action) (x : MapConf * WorkerCluster S)
    : option (MapConf * WorkerCluster S) :=
  match a with
  | SMaster a => m ← map_exec a x.1; Some (m, x.2)
  | SWorker a => cl ← workers_exec py hash a x.2; Some (x.1, cl)
  end.
Definition map_sys_ok (w : World) (a : sys_action map_action) (x : MapConf * WorkerCluster S) : Prop :=
  match a with
  | SMaster a => answer_ok (logged (cl_map x.2)) a x.1
  | SWorker a => job_action conn c (map_requests w) (λ _, False) a
  end.
Definition map_sys_step (w : World) (x y : MapConf * WorkerCluster S) : Prop :=
  ∃ a, map_sys_exec a x = Some y ∧ map_sys_ok w a x.

(** The reduce requests of the world [w] the reduce phase enters with. *)
Definition reduce_requests (w : World) (q : ReducerInput) : Prop :=
  ∃ j bl, 0 ≤ j < m_nreducers (master w) ∧ reduce_blobs (m_IntblobList (master w)) j = Ret bl ∧
    q = mkReducerInput (to_string (m_rid (master w))) (m_intcontainer (master w)) j bl.

Definition reduce_answer_ok (ok : ReducerInput → FinalResult → Prop) (a : reduce_action) (d : RedConf)
    : Prop :=
  match a with
  | BComplete pos (RpcOk reply) => ∀ call, rcq d !! pos = Some call → ok (rc_query call) reply
  | _ => True
  end.

Definition red_sys_exec (a : sys_action reduce_action) (x : RedConf * WorkerCluster S)
    : option (RedConf * WorkerCluster S) :=
  match a with
  | SMaster a => d ← reduce_exec a x.1; Some (d, x.2)
  | SWorker a => cl ← workers_exec py hash a x.2; Some (x.1, cl)
  end.

(** [w] is the world the job started with, [w1] the one of its reduce phase. *)
Definition red_sys_ok (w w1 : World) (a : sys_action reduce_action) (x : RedConf * WorkerCluster S) : Prop :=
  match a with
  | SMaster a => reduce_answer_ok (logged (cl_red x.2)) a x.1
  | SWorker a => job_action conn c (map_requests w) (reduce_requests w1) a
  end.
Definition red_sys_step (w w1 : World) (x y : RedConf * WorkerCluster S) : Prop :=
  ∃ a, red_sys_exec a x = Some y ∧ red_sys_ok w w1 a x.

Fixpoint sys_run {A X} (exec : A → X → option X) (tr : list A) (x : X) : option X :=
  match tr with
  | [] => Some x
  | a :: tr => y ← exec a x; sys_run exec tr y
  end.

(** ** What a job starts with *)

Context (text : string → bytes).

(** The shards of the world are made of pieces that start inside their blobs. *)
Definition shards_ok (w : World) : Prop :=
  ∀ s, s ∈ m_shards (master w) → sets_ s ≠ [] ∧
    ∀ d, d ∈ sets_ s →
      0 ≤ begin_ d < Z.of_nat (length (text (blobName_ d))) ∧ begin_ d ≤ end_ d < 2 ^ 31.

Record workers_start (w : World) (cl : WorkerCluster S) : Prop := {
  cs_workers : Forall (worker_ok conn c) (cl_workers cl);
  cs_text : ∀ s d, s ∈ m_shards (master w) → d ∈ sets_ s →
    stored c (blobName_ d) (text (blobName_ d)) (cl_store cl);
  cs_map : cl_map cl = [];
  cs_red : cl_red cl = []
}.

(** The pairs of reducer [j]: its class of the pairs of all pieces of all shards,
    [addrs] being who answered for them. *)
Definition shard_pairs (addr : string) (s : FileShard) : list (string * Z) :=
  (to_ShardTuple <$> sets_ s) ≫= piece_pairs py addr text.
Definition reducer_pairs (n j : Z) (addrs : list string) (shards : list FileShard)
    : list (string * Z) :=
  part hash n j (concat (zip_with shard_pairs addrs shards)).

(** ** Lemmas: the responses of the reduce phase *)

Definition rdelivered (call : AsyncClientReduceCall) (res : rpc_result FinalResult) : ReduceResult :=
  match res with RpcOk reply => reduce_success call reply | RpcError code => reduce_failure call code end.

Lemma rresponses_keep d d' r : rresponses d' = rresponses d → r ∈ rresponses d' → r ∈ rresponses d.
Proof. by intros ->. Qed.

Lemma rresponses_start d j bl p r : r ∈ rresponses (start_reduce_call d j bl p) → r ∈ rresponses d.
Proof. apply rresponses_keep. unfold start_reduce_call. by destruct (heap (rw d) !! p). Qed.

Lemma rresponses_count d r : r ∈ rresponses (count_reduce_call d) → r ∈ rresponses d.
Proof.
  apply rresponses_keep. unfold count_reduce_call. by destruct (task_assigned_check_fail (rmaster d)) as [m []].
Qed.

Lemma rresponses_process d pos res r :
  r ∈ rresponses (process_reduce_response d pos res) → r ∈ rresponses d.
Proof.
  unfold process_reduce_response. destruct (decide _); [done|]. cbn. rewrite delete_take_drop, elem_of_app.
  intros [H|H]; [by apply elem_of_take in H as (? & ? & _); eapply list_elem_of_lookup_2|].
  apply list_elem_of_lookup in H as [k Hk]. rewrite lookup_drop in Hk. by eapply list_elem_of_lookup_2.
Qed.

Lemma rresponses_check d r : r ∈ rresponses (check_reduce_done d) → r ∈ rresponses d.
Proof. apply rresponses_keep. unfold check_reduce_done. by destruct (rjob_q d). Qed.

(** A step learns a response only by a delivery. *)
Lemma rresponses_step a d d' r :
  reduce_exec a d = Some d' → r ∈ rresponses d' →
  r ∈ rresponses d ∨
  ∃ pos res call, a = BComplete pos res ∧ rcq d !! pos = Some call ∧ r = rdelivered call res.
Proof.
  intros Ha Hr. destruct a as [| | | | | | | | | | | |pos res| | |]; simpl in Ha;
    destruct (rpc d) eqn:Hpc, (rcpc d) eqn:Hcpc; try discriminate Ha;
    repeat case_match; simplify_option_eq;
    try (left; first [by eapply rresponses_keep|by eapply rresponses_start|by apply rresponses_count
      |by eapply rresponses_process|by apply rresponses_check]).
  all: assert (r ∈ rresponses d ∨ r = rdelivered a res) as [?| ->];
    [destruct res; cbn in Hr; set_solver|by left|right; eauto 6].
Qed.

Lemma red_sys_log w w1 x y : rtc (red_sys_step w w1) x y → cl_map x.2 ⊆ cl_map y.2.
Proof.
  intros Hr. induction Hr as [|x y z ([a|a] & Ha & _) _ IH]; [done| |]; cbn in Ha.
  - destruct (reduce_exec a x.1); [|done]. by injection Ha as <-.
  - destruct (workers_exec py hash a x.2) as [cl|] eqn:Hc; [|done]. injection Ha as <-.
    apply workers_exec_logs in Hc as [Hc _]. cbn in IH. by etrans.
Qed.

(** ** Lemmas: what the blobs of a reducer hold *)

Lemma part_app n i l k : part hash n i (l ++ k) = part hash n i l ++ part hash n i k.
Proof. apply filter_app. Qed.

(** The blobs of one shard for reducer [j], with their pairs. *)
Lemma shard_blobs n j addr sid pieces k0 :
  ∃ L : list (string * list (string * Z)),
    L.*1 = (λ k, int_name addr sid (Z.of_nat k) j) <$> seq k0 (length pieces) ∧
    (∀ x, x ∈ L → ∃ k p, pieces !! k = Some p ∧
       x = (int_name addr sid (Z.of_nat (k0 + k)) j, part hash n j (piece_pairs py addr text p))) ∧
    L ≫= snd = part hash n j (pieces ≫= piece_pairs py addr text).
Proof.
  revert k0. induction pieces as [|p pieces IH]; intros k0.
  { exists []. split; [done|]. split; [|done]. by intros x ?%elem_of_nil. }
  destruct (IH (Datatypes.S k0)) as (L & Hfst & HL & Hsnd).
  exists ((int_name addr sid (Z.of_nat k0) j, part hash n j (piece_pairs py addr text p)) :: L).
  split; [|split].
  - rewrite fmap_cons. cbn [length seq fst]. by rewrite fmap_cons, Hfst.
  - intros x [->|Hx]%elem_of_cons; [exists 0%nat, p; by rewrite Nat.add_0_r|].
    destruct (HL x Hx) as (k & q & Hk & ->). exists (Datatypes.S k), q. split; [done|].
    by rewrite Nat.add_succ_comm.
  - rewrite !bind_cons, part_app, Hsnd. done.
Qed.

Lemma reducer_contents log n j addrs shards (q : FileShard → MapperInput) :
  (∀ s, mi_shard_id (q s) = shardId_ s ∧ npartition (q s) = n ∧ stuples (q s) = to_ShardTuple <$> sets_ s) →
  0 ≤ j < n → Forall2 (λ addr s, ∃ reply, (addr, q s, reply) ∈ log) addrs shards →
  ∃ L : list (string * list (string * Z)),
    L.*1 = (replies_for addrs shards
              ≫= λ r, (λ k, int_name r.1.1 r.1.2 (Z.of_nat k) j) <$> seq 0 (length r.2)) ∧
    Forall (λ x, blob_of py hash text log x.1 (x.2 ≫= pair_line)) L ∧
    L ≫= snd = reducer_pairs n j addrs shards.
Proof.
  intros Hq Hj. unfold reducer_pairs, replies_for.
  induction 1 as [|addr s addrs shards [reply Ha] _ (L & Hfst & Hall & Hsnd)].
  { exists []. split; [done|]. split; [constructor|done]. }
  destruct (Hq s) as (Hsid & Hnp & Htup).
  destruct (shard_blobs n j addr (shardId_ s) (to_ShardTuple <$> sets_ s) 0) as (L1 & Hfst1 & HL1 & Hsnd1).
  exists (L1 ++ L). cbn [zip_with concat]. split; [|split].
  - by rewrite fmap_app, bind_cons, Hfst, Hfst1.
  - apply Forall_app. split; [|done]. apply Forall_forall. intros x Hx.
    destruct (HL1 x Hx) as (k & p & Hk & ->). exists addr, (q s), reply, k, p, j.
    rewrite Hsid, Hnp, Htup. done.
  - by rewrite bind_app, Hsnd, Hsnd1, part_app.
Qed.

(** The input of a reducer, from its blobs in any order. *)
Lemma reducer_input_of log bl (L : list (string * list (string * Z))) :
  bl ≡ₚ L.*1 → Forall (λ x, blob_of py hash text log x.1 (x.2 ≫= pair_line)) L →
  ∃ ts items, Forall2 (blob_of py hash text log) bl ts ∧ items ≡ₚ L ≫= snd ∧
    concat ts = items ≫= pair_line.
Proof.
  intros Hbl HL. apply Permutation_map_inv in Hbl as (L' & -> & HL').
  change (map fst L') with (L'.*1). rewrite HL' in HL.
  exists ((λ x, x.2 ≫= pair_line) <$> L'), (L' ≫= snd). split; [|split].
  - clear HL'. induction HL as [|x L' Hx _ IH]; constructor; done.
  - by rewrite HL'.
  - clear HL HL'. induction L' as [|x L' IH]; [done|]. rewrite fmap_cons, bind_cons. cbn [concat].
    by rewrite bind_app, IH.
Qed.

(** ** Lemmas: the map phase *)

Lemma map_requests_ok w :
  job_ready w → 0 < m_nreducers (master w) < 2 ^ 31 → shards_ok w → requests_ok text (map_requests w).
Proof using.
  intros Hready Hn Hsh. split.
  - by intros q (s & _ & ->).
  - intros q (s & Hs & ->). cbn. destruct (Hsh s Hs) as [Hne _]. by destruct (sets_ s).
  - intros q p (s & Hs & ->). cbn. intros (d & -> & Hd)%list_elem_of_fmap. destruct (Hsh s Hs) as [_ Hd'].
    specialize (Hd' d Hd). cbn. rewrite !to_int32_id by (unfold is_int32; lia). done.
  - intros q q' (s & Hs & ->) (s' & Hs' & ->). cbn.
    apply list_elem_of_lookup in Hs as [i Hi]. apply list_elem_of_lookup in Hs' as [i' Hi'].
    rewrite (jr_ids w Hready i s Hi), (jr_ids w Hready i' s' Hi'). intros ->%(inj Z.of_nat). congruence.
Qed.

Lemma workers_start_inv w cl :
  workers_start w cl → workers_inv py hash conn c text (map_requests w) (λ _, False) cl.
Proof using.
  intros [Hws Htext Hm Hr]. split; rewrite ?Hm, ?Hr; try done; try (by intros ??? ?%elem_of_nil).
  - intros q p (s & Hs & ->). cbn. intros (d & -> & Hd)%list_elem_of_fmap. by apply (Htext s).
  - intros b t (a & q & r & k & p & i & Hin & _). by apply elem_of_nil in Hin.
Qed.

Lemma logged_mono {A B} (log log' : list (string * A * B)) q reply :
  log ⊆ log' → logged log q reply → logged log' q reply.
Proof using. intros Hl [addr Ha]. exists addr. by apply Hl. Qed.

Lemma answered_mono w ok ok' r :
  (∀ q reply, ok q reply → ok' q reply) → answered w ok r → answered w ok' r.
Proof using. intros Hok Hr Hs. destruct (Hr Hs) as (s & reply & ? & ? & ?). exists s, reply. auto. Qed.

Context {HL : StorageLaws S} (Hst : storage_ok (S:=S) conn) (Hhash : ∀ s, 0 ≤ hash s).
Context (Hpy : ∀ f data, py "map" f data ≠ PyNoAttr ∧ py "reduce" f data ≠ PyNoAttr).
Context (w : World) (Hready : job_ready w) (Hn : 0 < m_nreducers (master w) < 2 ^ 31).
Context (Hids : Z.of_nat (length (m_shards (master w))) < 2 ^ 31) (Hsh : shards_ok w).

Record map_sys_inv (x : MapConf * WorkerCluster S) : Prop := {
  ms_map : rtc map_step (runMapper_start w) x.1;
  ms_answered : Forall (answered w (logged (cl_map x.2))) (known x.1);
  ms_container : container_ok x.1;
  ms_cluster : workers_inv py hash conn c text (map_requests w) (λ _, False) x.2
}.

Lemma int32_nreducers : is_int32 (m_nreducers (master w)).
Proof using Hn. unfold is_int32. lia. Qed.

Lemma map_sys_step_inv x y : map_sys_inv x → map_sys_step w x y → map_sys_inv y.
Proof using HL Hst Hhash Hpy Hready Hn Hids Hsh.
  intros [Hmap Hans Hcont Hcl] ([a|a] & Ha & Hok); cbn in Ha, Hok.
  - destruct (map_exec a x.1) as [m|] eqn:Hm; [|done]. injection Ha as <-.
    split; cbn [fst snd]; [|..|done].
    + eapply rtc_r; [exact Hmap|]. by exists a.
    + eapply answered_step; [done|apply int32_nreducers|done|by apply map_reach|exact Hans|done|done].
    + by eapply container_ok_step.
  - destruct (workers_exec py hash a x.2) as [cl|] eqn:Hc; [|done]. injection Ha as <-.
    split; cbn [fst snd]; [done| |done|].
    + eapply Forall_impl; [exact Hans|]. intros r. apply answered_mono. intros q reply.
      apply logged_mono. by eapply workers_exec_logs.
    + eapply (workers_step_inv py hash conn c text (map_requests w)); [done..| | | |exact Hcl|by exists a];
        [by apply map_requests_ok|done|done].
Qed.

Lemma map_sys_reach cl x :
  workers_start w cl → rtc (map_sys_step w) (runMapper_start w, cl) x → map_sys_inv x.
Proof using HL Hst Hhash Hpy Hready Hn Hids Hsh.
  intros Hcs. apply rtc_invariant; [apply map_sys_step_inv|].
  destruct (answered_start w (logged (cl_map cl))) as [Ha Hc].
  split; cbn; [apply rtc_refl|done|done|by apply workers_start_inv].
Qed.

(** Who answered for each shard, once the phase has returned. *)
Lemma map_sys_done x :
  map_sys_inv x → mpc x.1 = MReturn → m_shards (master w) ≠ [] →
  to_size (m_nmappers (master w)) = Z.of_nat (length (m_shards (master w))) →
  ∃ addrs, Forall2 (λ addr s, ∃ reply, (addr, map_request w s, reply) ∈ cl_map x.2)
             addrs (m_shards (master w)) ∧
    m_IntblobList (mmaster x.1)
    ≡ₚ all_replies (m_nreducers (master w)) (replies_for addrs (m_shards (master w))) ∧
    m_intcontainer (mmaster x.1) = int_container c.
Proof using HL Hst Hhash Hpy Hready Hn Hids Hsh.
  intros [Hmap Hans Hcont Hcl] Hpc Hne Hnm.
  destruct (answered_replies w Hready int32_nreducers Hids (logged (cl_map x.2)) x.1 Hmap Hans Hcont Hpc Hnm)
    as (replies & Hrep & Hblobs & Hc).
  assert (∀ l rs, Forall2 (λ s reply, logged (cl_map x.2) (map_request w s) reply) l rs →
    ∃ addrs, Forall2 (λ addr s, ∃ reply, (addr, map_request w s, reply) ∈ cl_map x.2) addrs l ∧
      rs ≫= ir_blobs = all_replies (m_nreducers (master w)) (replies_for addrs l)) as Haddrs.
  { induction 1 as [|s reply l rs [addr Ha] _ (addrs & Hall & Heq)]; [by exists []|].
    exists (addr :: addrs). split; [constructor; [by exists reply|done]|].
    unfold all_replies, replies_for in *. cbn [zip_with]. rewrite !bind_cons, Heq. f_equal.
    by destruct (ci_map _ _ _ _ _ _ _ _ Hcl _ _ _ Ha) as [_ ->]. }
  destruct (Haddrs _ _ Hrep) as (addrs & Hall & Heq). exists addrs. split; [done|].
  split; [by rewrite <-Heq|]. destruct (Hc Hne) as (s & reply & _ & [addr Ha] & ->).
  by destruct (ci_map _ _ _ _ _ _ _ _ Hcl _ _ _ Ha) as [_ ->].
Qed.

(** ** Lemmas: the reduce phase *)

Section Reduce.
Context (w1 : World) (Hw1 : reduce_ready w1) (Hn1 : m_nreducers (master w1) = m_nreducers (master w)).
Context (Hc1 : m_intcontainer (master w1) = int_container c).

Lemma reduce_requests_container q : reduce_requests w1 q → Types.ri_containername q = int_container c.
Proof using Hc1. by intros (j & bl & _ & _ & ->). Qed.

Lemma reduce_requests_unique q q' :
  reduce_requests w1 q → reduce_requests w1 q' → reducer_id q = reducer_id q' → q = q'.
Proof using.
  intros (j & bl & _ & Hbl & ->) (j' & bl' & _ & Hbl' & ->). cbn. intros <-.
  rewrite Hbl in Hbl'. by injection Hbl' as <-.
Qed.

Record red_sys_inv (x : RedConf * WorkerCluster S) : Prop := {
  rs_red : rtc reduce_step (runReducer_start w1) x.1;
  rs_results : ∀ r, r ∈ rresponses x.1 → r_status r = SUCCESS → ∃ q reply,
    reduce_requests w1 q ∧ reducer_id q = r_jobid r ∧ logged (cl_red x.2) q reply;
  rs_cluster : workers_inv py hash conn c text (map_requests w) (reduce_requests w1) x.2
}.

(** A call in flight carries a request of the job. *)
Lemma call_requests d call :
  rtc reduce_step (runReducer_start w1) d → call ∈ rcq d →
  reduce_requests w1 (rc_query call) ∧ reducer_id (rc_query call) = rc_jobid call.
Proof using Hw1 Hn Hn1.
  intros Hr Hcall. pose proof (runReducer_inv w1 d Hw1 Hr) as Hi.
  destruct (ri_calls _ _ _ Hi call Hcall) as (bl & Hbl & ->).
  assert (rc_jobid call ∈ reducer_ids (master w1)) as Hj.
  { rewrite <-(ri_tokens _ _ _ Hi), !elem_of_app. right. left. by apply list_elem_of_fmap_2. }
  unfold reducer_ids in Hj. apply list_elem_of_fmap in Hj as (k & Hk & Hk'%elem_of_seq).
  cbn. rewrite to_int32_id by (unfold is_int32; lia).
  split; [|done]. exists (rc_jobid call), bl. split; [lia|done].
Qed.

Lemma red_sys_step_inv x y : red_sys_inv x → red_sys_step w w1 x y → red_sys_inv y.
Proof using HL Hst Hhash Hpy Hready Hn Hsh Hw1 Hn1 Hc1.
  intros [Hred Hres Hcl] ([a|a] & Ha & Hok); cbn in Ha, Hok.
  - destruct (reduce_exec a x.1) as [d|] eqn:Hd; [|done]. injection Ha as <-.
    split; cbn [fst snd]; [| |done].
    + eapply rtc_r; [exact Hred|]. by exists a.
    + intros r Hr Hs. destruct (rresponses_step a _ _ r Hd Hr) as [?|(pos & res & call & -> & Hpos & ->)];
        [by apply Hres|]. destruct res as [reply|code]; cbn in *.
      2:{ unfold reduce_failure in Hs. cbn in Hs. by destruct (decide (code = 4)). }
      destruct (call_requests _ call Hred) as [Hq Hid]; [by eapply list_elem_of_lookup_2|].
      exists (rc_query call), reply. auto.
  - destruct (workers_exec py hash a x.2) as [cl|] eqn:Hc; [|done]. injection Ha as <-.
    split; cbn [fst snd]; [done| |].
    + intros r Hr Hs. destruct (Hres r Hr Hs) as (q & reply & ? & ? & Hl). exists q, reply.
      split; [done|]. split; [done|]. eapply logged_mono; [|exact Hl]. by eapply workers_exec_logs.
    + eapply (workers_step_inv py hash conn c text (map_requests w)); [done..| | | |exact Hcl|by exists a];
        [by apply map_requests_ok|apply reduce_requests_container|apply reduce_requests_unique].
Qed.
End Reduce.

(** ** The whole job *)

(** The state the reduce phase starts from. *)
Lemma red_sys_start x addrs :
  map_sys_inv x →
  Forall2 (λ addr s, ∃ reply, (addr, map_request w s, reply) ∈ cl_map x.2) addrs (m_shards (master w)) →
  m_IntblobList (mmaster x.1)
    ≡ₚ all_replies (m_nreducers (master w)) (replies_for addrs (m_shards (master w))) →
  m_nreducers (mmaster x.1) = m_nreducers (master w) →
  red_sys_inv (mw x.1) (process_reduce x.1, x.2) ∧
  ∀ j, 0 ≤ j < m_nreducers (master w) → ∃ bl ts items,
    reduce_requests (mw x.1)
      (mkReducerInput (to_string (m_rid (mmaster x.1))) (m_intcontainer (mmaster x.1)) j bl) ∧
    Forall2 (blob_of py hash text (cl_map x.2)) bl ts ∧
    items ≡ₚ reducer_pairs (m_nreducers (master w)) j addrs (m_shards (master w)) ∧
    concat ts = items ≫= pair_line.
Proof using Hn.
  intros [_ _ _ Hcl] Haddrs Hblobs Hnr. set (n := m_nreducers (master w)) in *.
  destruct (replies_reduce_blobs n _ _ Hn Hblobs) as [_ Hbl].
  assert (∀ j, 0 ≤ j < n → ∃ bl ts items, reduce_blobs (m_IntblobList (mmaster x.1)) j = Ret bl ∧
    Forall2 (blob_of py hash text (cl_map x.2)) bl ts ∧
    items ≡ₚ reducer_pairs n j addrs (m_shards (master w)) ∧
    concat ts = items ≫= pair_line) as Hj.
  { intros j Hj. destruct (Hbl j Hj) as (bl & Hrb & Hperm).
    destruct (reducer_contents (cl_map x.2) n j addrs (m_shards (master w)) (map_request w))
      as (L & Hfst & Hall & Hsnd); [by intros s|done|done|].
    rewrite <-Hfst in Hperm. destruct (reducer_input_of _ _ _ Hperm Hall) as (ts & items & ? & Hit & ?).
    rewrite Hsnd in Hit. by exists bl, ts, items. }
  split.
  - assert (∀ addr q reply, (addr, q, reply) ∉ cl_red x.2) as Hnone.
    { intros addr q reply Hin. by destruct (ci_red _ _ _ _ _ _ _ _ Hcl _ _ _ Hin). }
    split; cbn; [apply rtc_refl|by intros r ?%elem_of_nil|]. split; try apply Hcl.
    + intros q (j & bl & Hj' & Hrb & ->). cbn. rewrite Hnr in Hj'.
      destruct (Hj j Hj') as (bl' & ts & items & Hrb' & Hts & _). rewrite Hrb in Hrb'.
      injection Hrb' as <-. by exists ts.
    + by intros addr q reply Hin%Hnone.
  - intros j Hj'. destruct (Hj j Hj') as (bl & ts & items & Hrb & Hts & Hit & Hcat).
    exists bl, ts, items. split; [|done]. exists j, bl. by rewrite Hnr.
Qed.

Lemma job_outputs_spec cl x d :
  workers_start w cl → m_shards (master w) ≠ [] →
  to_size (m_nmappers (master w)) = Z.of_nat (length (m_shards (master w))) →
  rtc (map_sys_step w) (runMapper_start w, cl) x → mpc x.1 = MReturn →
  rtc (red_sys_step w (mw x.1)) (process_reduce x.1, x.2) d → rpc d.1 = RReturn →
  ∃ addrs, length addrs = length (m_shards (master w)) ∧
    ∀ j, 0 ≤ j < m_nreducers (master w) → ∃ addr items,
      items ≡ₚ reducer_pairs (m_nreducers (master w)) j addrs (m_shards (master w)) ∧
      stored (out_container c) (out_name j) (reduce_out py addr j (items ≫= pair_line)) (cl_store d.2).
Proof using HL Hst Hhash Hpy Hready Hn Hids Hsh.
  intros Hcs Hne Hnm Hr1 Hpc1 Hr2 Hpc2. pose proof (map_sys_reach cl x Hcs Hr1) as Hi1.
  destruct (map_sys_done x Hi1 Hpc1 Hne Hnm) as (addrs & Haddrs & Hblobs & Hcont).
  destruct (map_run_reduce_ready w Hready int32_nreducers x.1 (ms_map x Hi1)) as [Hrr Hnr].
  destruct (red_sys_start x addrs Hi1 Haddrs Hblobs Hnr) as [Hi2 Hj].
  assert (red_sys_inv (mw x.1) d) as Hid
    by (eapply rtc_invariant; [by apply red_sys_step_inv|exact Hi2|exact Hr2]).
  exists addrs. split; [by apply Forall2_length in Haddrs|]. intros j Hjn.
  destruct (Hj j Hjn) as (bl & ts & items & Hq & Hts & Hit & Hcat).
  destruct (runReducer_complete_spec (mw x.1) d.1 Hrr (rs_red _ _ Hid) Hpc2) as (Hall & _).
  destruct (Hall j) as (r & Hr & Hs & Hrj & _); [by rewrite Hnr|].
  destruct (rs_results _ _ Hid r Hr Hs) as (q & reply & Hq' & Hqj & addr & Hlog).
  rewrite Hrj in Hqj.
  assert (q = mkReducerInput (to_string (m_rid (mmaster x.1))) (m_intcontainer (mmaster x.1)) j bl) as ->
    by (by apply (reduce_requests_unique (mw x.1))).
  destruct (ci_outs _ _ _ _ _ _ _ _ (rs_cluster _ _ Hid) _ _ _ Hlog) as (addr' & ts' & Hts' & Hout).
  exists addr', items. split; [done|]. cbn in Hts', Hout. rewrite <-Hcat.
  assert (ts = ts') as ->; [|done].
  eapply (blobs_of_fun py hash text (map_requests w)); [by apply map_requests_ok| | |exact Hts'].
  - intros a q' r' Hin. by eapply (ci_map _ _ _ _ _ _ _ _ (rs_cluster _ _ Hid)).
  - eapply blobs_of_mono; [exact (red_sys_log _ _ _ _ Hr2)|exact Hts].
Qed.

(** C2: What a whole job leaves in the storage. The master runs against the
    cluster: replies that reach it are ones workers gave to its requests, workers
    execute requests at any time, more than once and late, and come and go. There
    are as many shards as mappers, at least one of each and of the reducers and
    fewer than 2^31, the shards are numbered in order and the clients exist
    ([job_ready]), their pieces start inside their blobs and end below 2 GiB, the
    storage holds the blobs and performs every operation of the workers
    ([storage_ok]), the user's scripts have their functions, [std::hash] is not
    negative, and the workers are idle, connected to nothing or to this job, and
    have answered nothing yet. Once both phases have returned there are workers,
    one for each shard, such that the output blob of every reducer holds what the user's reduce function makes
    of a file of exactly the pairs, in some order, of the reducer's class that the
    user's map function makes of all pieces of all shards. *)
Theorem job_outputs cl x d :
  workers_start w cl → m_shards (master w) ≠ [] →
  to_size (m_nmappers (master w)) = Z.of_nat (length (m_shards (master w))) →
  rtc (map_sys_step w) (runMapper_start w, cl) x → mpc x.1 = MReturn →
  rtc (red_sys_step w (mw x.1)) (process_reduce x.1, x.2) d → rpc d.1 = RReturn →
  ∃ addrs, length addrs = length (m_shards (master w)) ∧
    ∀ j, 0 ≤ j < m_nreducers (master w) → ∃ addr items,
      items ≡ₚ reducer_pairs (m_nreducers (master w)) j addrs (m_shards (master w)) ∧
      stored (out_container c) (out_name j) (reduce_out py addr j (items ≫= pair_line)) (cl_store d.2).
Proof using HL Hst Hhash Hpy Hready Hn Hids Hsh. apply job_outputs_spec. Qed.
End System.

(** ** Runs by events

    An event is an action of the master, a task of worker [i], or the delivery of
    the [k]th reply of the log to the call at [pos]; it fails where the step is
    not one of the system. *)

#[export] Instance ShardTuple_eq_dec : EqDecision ShardTuple.
Proof. solve_decision. Defined.
#[export] Instance MapperInput_eq_dec : EqDecision MapperInput.
Proof. solve_decision. Defined.
#[export] Instance ReducerInput_eq_dec : EqDecision ReducerInput.
Proof. solve_decision. Defined.

Inductive sys_event (A : Type) : Type :=
  | EvMaster (a : A)
  | EvTask (i t : nat)              (* worker [i] executes the task of shard or reducer [t] *)
  | EvReply (pos k : nat).
Arguments EvMaster {A} a.
Arguments EvTask {A} i t.
Arguments EvReply {A} pos k.

Section Events.
Context {S : Type} {HS : Storage S}.
Context (py : string → string → option bytes → py_result) (hash : string → Z) (conn c : string).
Context (w : World).

Definition is_map_reply (a : map_action) : bool :=
  match a with CComplete _ (RpcOk _) => true | _ => false end.
Definition is_reduce_reply (a : reduce_action) : bool :=
  match a with BComplete _ (RpcOk _) => true | _ => false end.

Definition map_event (x : MapConf * WorkerCluster S) (ev : sys_event map_action)
    : option (sys_action map_action) :=
  match ev with
  | EvMaster a => if is_map_reply a then None else Some (SMaster a)
  | EvTask i t => s ← m_shards (master w) !! t; Some (SWorker (TMap i (map_request w s)))
  | EvReply pos k =>
      call ← cq x.1 !! pos; '(_, q, reply) ← cl_map x.2 !! k;
      if decide (q = mc_query call) then Some (SMaster (CComplete pos (RpcOk reply))) else None
  end.

Definition red_event (w1 : World) (x : RedConf * WorkerCluster S) (ev : sys_event reduce_action)
    : option (sys_action reduce_action) :=
  match ev with
  | EvMaster a => if is_reduce_reply a then None else Some (SMaster a)
  | EvTask i t =>
      if decide (Z.of_nat t < m_nreducers (master w1)) then
        match reduce_blobs (m_IntblobList (master w1)) (Z.of_nat t) with
        | Ret bl => Some (SWorker (TReduce i (mkReducerInput (to_string (m_rid (master w1)))
                      (m_intcontainer (master w1)) (Z.of_nat t) bl)))
        | _ => None
        end
      else None
  | EvReply pos k =>
      call ← rcq x.1 !! pos; '(_, q, reply) ← cl_red x.2 !! k;
      if decide (q = rc_query call) then Some (SMaster (BComplete pos (RpcOk reply))) else None
  end.

Definition map_sys_run : list (sys_event map_action) → MapConf * WorkerCluster S → option (MapConf * WorkerCluster S) :=
  sys_run (λ ev x, a ← map_event x ev; map_sys_exec py hash a x).
Definition red_sys_run (w1 : World)
    : list (sys_event reduce_action) → RedConf * WorkerCluster S → option (RedConf * WorkerCluster S) :=
  sys_run (λ ev x, a ← red_event w1 x ev; red_sys_exec py hash a x).

Lemma sys_run_rtc {A X} (exec : A → X → option X) (step : X → X → Prop) tr x y :
  (∀ a x y, exec a x = Some y → step x y) → sys_run exec tr x = Some y → rtc step x y.
Proof.
  intros Hs. revert x. induction tr as [|a tr IH]; intros x; simpl; [by intros [= ->]|].
  destruct (exec a x) as [z|] eqn:Ha; [|done]. intros Hr. eapply rtc_l; [by eapply Hs|by apply IH].
Qed.

Lemma map_sys_run_rtc tr x y : map_sys_run tr x = Some y → rtc (map_sys_step py hash conn c w) x y.
Proof.
  apply sys_run_rtc. clear. intros ev x y. destruct (map_event x ev) as [a|] eqn:Hev; [|done].
  intros Ha. exists a. split; [exact Ha|]. destruct ev as [a'|i t|pos k]; cbn in Hev.
  - destruct (is_map_reply a') eqn:Hm; [done|]. injection Hev as <-. cbn.
    destruct a'; try done. cbn in *. by destruct res.
  - destruct (m_shards (master w) !! t) as [s|] eqn:Hs; [|done]. injection Hev as <-.
    exists s. split; [by eapply list_elem_of_lookup_2|done].
  - destruct (cq x.1 !! pos) as [call|] eqn:Hc; [|done]. cbn in Hev.
    destruct (cl_map x.2 !! k) as [[[addr q] reply]|] eqn:Hk; [|done]. cbn in Hev.
    destruct (decide (q = mc_query call)) as [->|]; [|done]. injection Hev as <-. cbn.
    intros call'. rewrite Hc. intros [= <-]. exists addr. by eapply list_elem_of_lookup_2.
Qed.

Lemma red_sys_run_rtc w1 tr x y :
  red_sys_run w1 tr x = Some y → rtc (red_sys_step py hash conn c w w1) x y.
Proof.
  apply sys_run_rtc. clear. intros ev x y. destruct (red_event w1 x ev) as [a|] eqn:Hev; [|done].
  intros Ha. exists a. split; [exact Ha|]. destruct ev as [a'|i t|pos k]; cbn in Hev.
  - destruct (is_reduce_reply a') eqn:Hm; [done|]. injection Hev as <-. cbn.
    destruct a'; try done. cbn in *. by destruct res.
  - destruct (decide _); [|done]. destruct (reduce_blobs _ _) as [bl| | |] eqn:Hb; try done.
    injection Hev as <-. exists (Z.of_nat t), bl. split; [lia|done].
  - destruct (rcq x.1 !! pos) as [call|] eqn:Hc; [|done]. cbn in Hev.
    destruct (cl_red x.2 !! k) as [[[addr q] reply]|] eqn:Hk; [|done]. cbn in Hev.
    destruct (decide (q = rc_query call)) as [->|]; [|done]. injection Hev as <-. cbn.
    intros call'. rewrite Hc. intros [= <-]. exists addr. by eapply list_elem_of_lookup_2.
Qed.
End Events.
