(* ===== verification/Election.v ===== *)
(** * Leader election and the life of a master ([Master::run],
    [wait_until_leader], [elect_leader], [run_as_leader], the ZooKeeper watchers
    of [masterimpl.cc])

    ZooKeeper is an environment: its answers are arguments of the steps, and a
    cluster of masters shares one list of znodes with the sequence numbers it
    gives out.

    The theorems: [elect_leader] is true exactly for the smallest znode; no two
    live masters of a cluster have been elected; a master returns from
    [wait_until_leader] only as leader; a follower whose watch fires and whose
    znode is smallest takes over with the last checkpoint it received; a master
    that has to try again while there is no leader never gets out. *)

From S2P Require Export Replication Http.

(** ** ZooKeeper codes

    The values its C interface documents. *)

Definition ZOK : Z := 0.
Definition ZNONODE : Z := -101.
Definition ZOO_EXPIRED_SESSION_STATE : Z := -112.
Definition ZOO_AUTH_FAILED_STATE : Z := -113.
Definition ZOO_CONNECTING_STATE : Z := 1.
Definition ZOO_ASSOCIATING_STATE : Z := 2.
Definition ZOO_CONNECTED_STATE : Z := 3.

Definition state2String (state : Z) : string :=
  if decide (state = 0) then "CLOSED_STATE"
  else if decide (state = ZOO_CONNECTING_STATE) then "CONNECTING_STATE"
  else if decide (state = ZOO_ASSOCIATING_STATE) then "ASSOCIATING_STATE"
  else if decide (state = ZOO_CONNECTED_STATE) then "CONNECTED_STATE"
  else if decide (state = ZOO_EXPIRED_SESSION_STATE) then "EXPIRED_SESSION_STATE"
  else if decide (state = ZOO_AUTH_FAILED_STATE) then "AUTH_FAILED_STATE"
  else "INVALID_STATE".

(** A change the code asks ZooKeeper for. *)
Inductive zk_write : Type :=
  | ZCreate (path : string)
  | ZCreateSequence (prefix data : string)       (* ephemeral and numbered *)
  | ZCreateEphemeral (path : string)
  | ZSetData (path data : string).

(** ** Watchers *)

(** [exists_watcher_fn], [ret] being what [checkExists] answers. *)
Definition exists_watcher_fn (ret : Z) (w : World) : World :=
  if decide (ret = ZOK) then w else w <| watchTriggered := true |>.

(** [get_watcher_fn]: whether the watch is set again; the answer is tested as a
    truth value. *)
Definition get_watcher_fn (ret : Z) : bool := bool_decide (ret ≠ 0).

(** ** Election *)

Definition sort_children (children : list string) : list string :=
  if decide (1 < length children)%nat then merge_sort String.le children else children.

(** [Master::elect_leader]: the result, what it asks ZooKeeper to write, and the
    world. The data of the smallest znode is only logged, and the codes that
    [create] and [setData] answer are dropped: the result is the same whatever
    they are. *)
Definition elect_leader (zk : Zookeeper) (w : World) : outcome (bool * list zk_write * World) :=
  if m_has_failed (master w) then Ret (false, [], w)
  else
    let w := w <| watchTriggered := false |> in
    let! children := zk_children zk "/masters" in
    match sort_children children with
    | [] => Raise OutOfRange
    | child :: _ =>
        if decide ("/masters/" +:+ child = m_nodepath (master w))
        then Ret (true, [ZCreateEphemeral "/leader"; ZSetData "/leader" child], w)
        else Ret (false, [], w)
    end.

(** ** Waiting for leadership *)

(** At the label [tryAgain]; before reading /leader; before the test that
    follows the two seconds; in the loop of a follower; returned; left by an
    exception. *)
Inductive wait_pc : Type :=
  | WTry | WData | WRetry | WFollow | WReturn | WThrown (e : exn).

Record WaitConf : Type := mkWaitConf {
  ww : World;
  isLeader : bool;
  existLeader : bool;
  repl_srv : bool;                 (* the replication server runs *)
  writes : list zk_write;
  wpc : wait_pc
}.

#[export] Instance eta_WaitConf : EtaRecord WaitConf := λ r,
  mkWaitConf (ww r) (isLeader r) (existLeader r) (repl_srv r) (writes r) (wpc r).

Abbreviation wmaster c := (master (ww c)).

(** The entry of [wait_until_leader]; [ret] is what [checkExists] answers. *)
Definition wait_start (ret : Z) (w : World) : WaitConf :=
  mkWaitConf w false (bool_decide (ret ≠ ZNONODE)) false [] WTry.

(** [isLeader = elect_leader()]. *)
Definition try_elect (zk : Zookeeper) (c : WaitConf) : WaitConf :=
  match elect_leader zk (ww c) with
  | Ret (won, ws, w) => c <| ww := w |> <| isLeader := won |> <| writes := writes c ++ ws |>
  | Raise e => c <| wpc := WThrown e |>
  | Undef | Parked => c
  end.

Definition set_follower_stop (b : bool) (c : WaitConf) : WaitConf :=
  c <| ww := (ww c) <| master := (wmaster c) <| m_stop_repl_as_follower := b |> |> |>.

(** From [tryAgain] to the test [!isLeader]. *)
Definition wait_try (zk : Zookeeper) (c : WaitConf) : WaitConf :=
  let c := if existLeader c then c else try_elect zk c in
  match wpc c with
  | WThrown _ => c
  | _ => let c := set_follower_stop false c in
         c <| wpc := if isLeader c then WReturn else WData |>
  end.

(** The name of the leader's znode as [getData] gives it. *)
Definition wait_data (leader_id : string) (c : WaitConf) : WaitConf :=
  if decide (leader_id = "" ∨ (30 < String.length leader_id)%nat) then c <| wpc := WRetry |>
  else c <| repl_srv := true |> <| wpc := WFollow |>.

(** [existLeader = checkExists()]: the code converts to [bool]. *)
Definition wait_retry (ret : Z) (c : WaitConf) : WaitConf :=
  c <| existLeader := bool_decide (ret ≠ 0) |> <| wpc := WTry |>.

(** One round of the follower's loop, and the clean-up after the last one. *)
Definition wait_follow (zk : Zookeeper) (c : WaitConf) : WaitConf :=
  let c := if watchTriggered (ww c) then try_elect zk c else c in
  match wpc c with
  | WThrown _ => c
  | _ => if isLeader c
         then (set_follower_stop true c) <| repl_srv := false |> <| wpc := WReturn |> else c
  end.

Inductive wait_action : Type :=
  | LTry (zk : Zookeeper) | LData (leader_id : string) | LRetry (ret : Z) | LLoop (zk : Zookeeper)
  | LWatch (ret : Z)                   (* exists_watcher_fn *)
  | LReceive (cp : CheckPointData).    (* a checkpoint for the replication server *)

Definition wait_exec (a : wait_action) (c : WaitConf) : option WaitConf :=
  match a, wpc c with
  | LTry zk, WTry => Some (wait_try zk c)
  | LData leader_id, WData => Some (wait_data leader_id c)
  | LRetry ret, WRetry => Some (wait_retry ret c)
  | LLoop zk, WFollow => Some (wait_follow zk c)
  | LWatch ret, _ => Some (c <| ww := exists_watcher_fn ret (ww c) |>)
  | LReceive cp, _ =>
      if repl_srv c
      then Some (c <| ww := (ww c) <| master := pushCheckPointData cp (wmaster c) |> |>) else None
  | _, _ => None
  end.

Fixpoint wait_run (tr : list wait_action) (c : WaitConf) : option WaitConf :=
  match tr with
  | [] => Some c
  | a :: tr => c' ← wait_exec a c; wait_run tr c'
  end.

Definition wait_step (c c' : WaitConf) : Prop := ∃ a, wait_exec a c = Some c'.

(** ** The life of a master *)

(** [Master::getSrvAddress]; [pod_ip] is MY_POD_IP. *)
Definition getSrvAddress (local : bool) (pod_ip : string) : string :=
  if local then "localhost" else pod_ip.

(** [Master::run] up to [wait_until_leader]: [conn] is AZURE_CONNECTION_STRING,
    [nodepath] the znode [register_with_zk] gets. *)
Definition run_setup (local : bool) (pod_ip conn nodepath : string) (zk : Zookeeper)
    (junk : PingStatus) (w : World) : outcome World :=
  let m := (master w) <| m_address := getSrvAddress local pod_ip +:+ ":5050" |> in
  let m := Http.create_connection conn m in
  update_workers zk junk (w <| master := m <| m_nodepath := nodepath |> |>).

(** [Master::run_as_leader] before the HTTP server's loop: the world, and whether
    it first resumes a job ([hasReplicationData]); and after it. *)
Definition hasReplicationData (m : Master) : bool := m_bReplicated m.
Definition run_as_leader_start (w : World) : World * bool :=
  let w := w <| master := (master w) <| m_stop_repl_as_leader := false |> <| m_server := true |> |> in
  (w, hasReplicationData (master w)).
(** [returned]: whether the replication client's thread, if there is one, comes to
    its end; [join] waits for it. *)
Definition run_as_leader_end (returned : bool) (w : World) : outcome World :=
  let w := w <| master := (master w) <| m_stop_repl_as_leader := true |> |> in
  if repl_clt_thd (master w) then
    if returned then Ret (w <| master := (master w) <| repl_clt_thd := false |> |>) else Parked
  else Ret w.

(** ** Specification: a cluster of masters *)

(** The name ZooKeeper gives the znode with number [n]: ten digits. *)
Fixpoint padded (k : nat) (n : Z) : string :=
  match k with
  | O => ""
  | S k => String (digit_char (n / 10 ^ Z.of_nat k)) (padded k (n mod 10 ^ Z.of_nat k))
  end.
Definition master_node (n : Z) : string := "master_" +:+ padded 10 n.

(** The numbers ten digits hold. *)
Definition seq_limit : Z := 10 ^ 10.

(** The live masters by number, the next number, and the masters for which
    [elect_leader] was true. *)
Record Cluster : Type := mkCluster {
  live : gmap Z World;
  next_seq : Z;
  elected : gset Z
}.

(** What a live master can be told of the children of /masters: the names of the
    live masters in any order. *)
Definition answers (zk : Zookeeper) (cl : Cluster) : Prop :=
  ∃ l, zk_children zk "/masters" = Ret l ∧ l ≡ₚ master_node <$> (map_to_list (live cl)).*1.

Inductive cluster_step (cl : Cluster) : Cluster → Prop :=
  | cl_join w : 0 ≤ next_seq cl < seq_limit →
      m_nodepath (master w) = "/masters/" +:+ master_node (next_seq cl) →
      cluster_step cl (mkCluster (<[next_seq cl := w]> (live cl)) (next_seq cl + 1) (elected cl))
  | cl_gone n :           (* the process or its session ends: its ephemeral znodes go *)
      cluster_step cl (mkCluster (delete n (live cl)) (next_seq cl) (elected cl ∖ {[n]}))
  | cl_elect n w zk won ws w' : live cl !! n = Some w → answers zk cl →
      elect_leader zk w = Ret (won, ws, w') →
      cluster_step cl (mkCluster (<[n := w']> (live cl)) (next_seq cl)
        (if won : bool then {[n]} ∪ elected cl else elected cl)).

Definition cluster_start : Cluster := mkCluster ∅ 0 ∅.

(** ** Lemmas *)

Lemma digit_char_compare a b :
  0 ≤ a < 10 → 0 ≤ b < 10 → Ascii.compare (digit_char a) (digit_char b) = (a ?= b)%Z.
Proof.
  intros Ha Hb. unfold Ascii.compare, digit_char, ascii_of_nat.
  rewrite !N_ascii_embedding by lia. rewrite !Nat2N.inj_add, !Z_nat_N.
  destruct (Z.compare_spec a b) as [->|H|H].
  - by apply N.compare_eq_iff.
  - apply N.compare_lt_iff. lia.
  - apply N.compare_gt_iff. lia.
Qed.

Lemma padded_compare k a b :
  0 ≤ a < 10 ^ Z.of_nat k → 0 ≤ b < 10 ^ Z.of_nat k →
  String.compare (padded k a) (padded k b) = (a ?= b)%Z.
Proof.
  revert a b. induction k as [|k IH]; intros a b Ha Hb.
  { change (10 ^ Z.of_nat 0) with 1 in *. replace a with 0 by lia. by replace b with 0 by lia. }
  rewrite Nat2Z.inj_succ, Z.pow_succ_r in Ha, Hb by lia.
  set (p := 10 ^ Z.of_nat k) in *. assert (0 < p) by (unfold p; apply Z.pow_pos_nonneg; lia).
  assert (0 ≤ a / p < 10 ∧ 0 ≤ b / p < 10) as [Hqa Hqb].
  { repeat split; try (apply Z.div_pos; lia); apply Z.div_lt_upper_bound; lia. }
  pose proof (Z.mod_pos_bound a p ltac:(lia)). pose proof (Z.mod_pos_bound b p ltac:(lia)).
  cbn [padded String.compare]. fold p. rewrite digit_char_compare by done.
  rewrite IH by done.
  pose proof (Z.div_mod a p ltac:(lia)). pose proof (Z.div_mod b p ltac:(lia)).
  destruct (Z.compare_spec (a / p) (b / p)) as [Heq|Hlt|Hgt].
  - destruct (Z.compare_spec (a mod p) (b mod p)); symmetry.
    + apply Z.compare_eq_iff. nia.
    + apply Z.compare_lt_iff. nia.
    + apply Z.compare_gt_iff. nia.
  - symmetry. apply Z.compare_lt_iff. nia.
  - symmetry. apply Z.compare_gt_iff. nia.
Qed.

#[local] Opaque seq_limit.

Lemma compare_app p s t : String.compare (p +:+ s) (p +:+ t) = String.compare s t.
Proof.
  induction p as [|c p IH]; [done|]. cbn. unfold Ascii.compare. by rewrite N.compare_refl.
Qed.

Lemma master_node_compare a b :
  0 ≤ a < seq_limit → 0 ≤ b < seq_limit →
  String.compare (master_node a) (master_node b) = (a ?= b)%Z.
Proof.
  intros Ha Hb. unfold master_node. rewrite compare_app.
  apply padded_compare; [exact Ha|exact Hb].
Qed.

Lemma master_node_le a b :
  0 ≤ a < seq_limit → 0 ≤ b < seq_limit → String.le (master_node a) (master_node b) ↔ a ≤ b.
Proof.
  intros Ha Hb. unfold String.le, String.leb.
  rewrite master_node_compare by assumption.
  destruct (Z.compare_spec a b); split; intros; try done; lia.
Qed.

Lemma master_node_inj a b :
  0 ≤ a < seq_limit → 0 ≤ b < seq_limit → master_node a = master_node b → a = b.
Proof.
  intros Ha Hb H. pose proof (master_node_compare a b Ha Hb) as Hc.
  rewrite H, master_node_compare, Z.compare_refl in Hc by assumption.
  symmetry in Hc. by apply Z.compare_eq_iff in Hc.
Qed.

#[local] Opaque master_node.

(** The first of the sorted children is the least. *)
Lemma sorted_head children :
  children ≠ [] →
  ∃ child l, merge_sort String.le children = child :: l ∧ child ∈ children ∧
    ∀ x, x ∈ children → String.le child x.
Proof.
  intros Hne. assert (merge_sort String.le children ≡ₚ children) as Hperm by apply merge_sort_Permutation.
  assert (StronglySorted String.le (merge_sort String.le children)) as Hsort
    by (apply StronglySorted_merge_sort; apply _).
  destruct (merge_sort String.le children) as [|child l].
  { symmetry in Hperm. by apply Permutation_nil_r in Hperm. }
  exists child, l. split; [done|]. split; [rewrite <-Hperm; apply list_elem_of_here|].
  intros x. rewrite <-Hperm. intros [->|Hx]%elem_of_cons; [reflexivity|].
  apply StronglySorted_inv in Hsort as [_ Hall]. rewrite Forall_forall in Hall. by apply Hall.
Qed.

(** The least of the masters' names is the one with the least number. *)
Lemma smallest_node ns children child n :
  (∀ m, m ∈ ns → 0 ≤ m < seq_limit) → children ≡ₚ master_node <$> ns →
  child ∈ children → (∀ x, x ∈ children → String.le child x) → n ∈ ns →
  child = master_node n ↔ Forall (Z.le n) ns.
Proof.
  intros Hr Hperm Hc Hmin Hn. setoid_rewrite Hperm in Hmin. rewrite Hperm in Hc.
  apply list_elem_of_fmap in Hc as (k & -> & Hk).
  assert (∀ m, m ∈ ns → k ≤ m) as Hkm.
  { intros m Hm. apply (proj1 (master_node_le k m (Hr k Hk) (Hr m Hm))), Hmin.
    apply list_elem_of_fmap. eauto. }
  split.
  - intros ->%master_node_inj; [by apply Forall_forall|by apply Hr..].
  - rewrite Forall_forall. intros Hall. f_equal. apply Z.le_antisymm; [by apply Hkm|by apply Hall].
Qed.

(** What [elect_leader] does, for children in any order. *)
Lemma elect_leader_spec zk w children :
  m_has_failed (master w) = false → zk_children zk "/masters" = Ret children → children ≠ [] →
  ∃ child, child ∈ children ∧ (∀ x, x ∈ children → String.le child x) ∧
    elect_leader zk w = Ret (if decide ("/masters/" +:+ child = m_nodepath (master w))
      then (true, [ZCreateEphemeral "/leader"; ZSetData "/leader" child], w <| watchTriggered := false |>)
      else (false, [], w <| watchTriggered := false |>)).
Proof.
  intros Hf Hc Hne. unfold elect_leader. rewrite Hf, Hc. cbn [obind].
  destruct (sorted_head children Hne) as (child & l & Hs & Hin & Hmin).
  assert (sort_children children = child :: l) as ->.
  { unfold sort_children. destruct (decide _) as [_|Hlen]; [done|].
    destruct children as [|x [|y k]]; [done| |simpl in Hlen; lia]. exact Hs. }
  exists child. split; [done|]. split; [done|]. by destruct (decide _).
Qed.

(** ** Lemmas: the cluster *)

Record cluster_inv (cl : Cluster) : Prop := {
  ci_seq : 0 ≤ next_seq cl ≤ seq_limit;
  ci_live : ∀ n, is_Some (live cl !! n) → 0 ≤ n < next_seq cl;
  ci_path : ∀ n w, live cl !! n = Some w → m_nodepath (master w) = "/masters/" +:+ master_node n;
  ci_elected : ∀ n, n ∈ elected cl → is_Some (live cl !! n) ∧ ∀ m, is_Some (live cl !! m) → n ≤ m
}.

(** In a cluster the result of [elect_leader] says whose number is smallest. *)
Lemma elect_in_cluster cl n w zk :
  cluster_inv cl → live cl !! n = Some w → answers zk cl → m_has_failed (master w) = false →
  ∃ ws, elect_leader zk w
        = Ret (bool_decide (Forall (Z.le n) (map_to_list (live cl)).*1), ws,
               w <| watchTriggered := false |>).
Proof.
  intros Hi Hn Hans Hf. pose proof Hans as (l & Hl & Hperm).
  assert (∀ m, is_Some (live cl !! m) → 0 ≤ m < seq_limit) as Hrange.
  { intros m Hm. pose proof (ci_live _ Hi m Hm). pose proof (ci_seq _ Hi). lia. }
  assert (n ∈ (map_to_list (live cl)).*1) as Hin by (apply elem_of_map_keys; by eexists).
  destruct (elect_leader_spec zk w l Hf Hl) as (child & Hc & Hmin & ->).
  { intros ->. symmetry in Hperm. apply Permutation_nil_r, fmap_nil_inv in Hperm.
    rewrite Hperm in Hin. by apply elem_of_nil in Hin. }
  rewrite (ci_path _ Hi n w Hn).
  pose proof (smallest_node _ l child n (λ m Hm, Hrange m (proj1 (elem_of_map_keys _ m) Hm)) Hperm Hc Hmin Hin)
    as Hsm.
  destruct (decide _) as [Heq|Hne]; eexists; repeat f_equal; symmetry.
  - apply bool_decide_eq_true_2, Hsm. by apply (inj (String.app _)) in Heq.
  - apply bool_decide_eq_false_2. intros ->%Hsm. by apply Hne.
Qed.

Lemma elect_leader_nodepath zk w won ws w' :
  elect_leader zk w = Ret (won, ws, w') →
  m_nodepath (master w') = m_nodepath (master w) ∧ (won = true → m_has_failed (master w) = false).
Proof.
  unfold elect_leader. destruct (m_has_failed (master w)); [by intros [= <- <- <-]|].
  destruct (zk_children zk "/masters") as [l| | |]; try done. cbn [obind].
  destruct (sort_children l); [done|]. by destruct (decide _); intros [= <- <- <-].
Qed.

Lemma cluster_step_inv cl cl' : cluster_inv cl → cluster_step cl cl' → cluster_inv cl'.
Proof.
  intros Hi Hs. pose proof Hi as [Hseq Hlive Hpath Hel]. destruct Hs as [w Hn Hp|n|n w zk won ws w' Hn Hans He].
  - split; cbn [live next_seq elected].
    + lia.
    + intros n. rewrite lookup_insert_is_Some'. intros [<-|Hl]; [lia|]. specialize (Hlive n Hl). lia.
    + intros n w'. rewrite lookup_insert_Some. intros [[<- <-]|[_ ?]]; eauto.
    + intros n Hn'. destruct (Hel n Hn') as [Hl Hmin]. split.
      * rewrite lookup_insert_is_Some'. by right.
      * intros m. rewrite lookup_insert_is_Some'. intros [<-|Hm]; [|by apply Hmin].
        specialize (Hlive n Hl). lia.
  - split; cbn [live next_seq elected].
    + done.
    + intros m [w Hm]. apply lookup_delete_Some in Hm as [_ Hm]. apply Hlive. by eexists.
    + intros m w. rewrite lookup_delete_Some. intros [_ ?]. eauto.
    + intros m [Hm Hne]%elem_of_difference. rewrite elem_of_singleton in Hne.
      destruct (Hel m Hm) as [Hl Hmin]. split; [by rewrite lookup_delete_ne|].
      intros k [w Hk]. apply lookup_delete_Some in Hk as [_ Hk]. apply Hmin. by eexists.
  - destruct (elect_leader_nodepath _ _ _ _ _ He) as [Hnp Hnf].
    assert (∀ m, is_Some (<[n := w']> (live cl) !! m) ↔ is_Some (live cl !! m)) as Hdom.
    { intros m. rewrite lookup_insert_is_Some'. split; [intros [<-|?]; [by eexists|done]|by right]. }
    split; cbn [live next_seq elected].
    + done.
    + intros m Hm%Hdom. by apply Hlive.
    + intros m u. rewrite lookup_insert_Some. intros [[<- <-]|[_ ?]]; [|eauto]. rewrite Hnp. eauto.
    + intros m Hm. setoid_rewrite Hdom. destruct won; [|by apply Hel].
      apply elem_of_union in Hm as [->%elem_of_singleton|Hm]; [|by apply Hel].
      split; [by eexists|]. specialize (Hnf eq_refl).
      destruct (elect_in_cluster cl n w zk Hi Hn Hans Hnf) as (ws' & He'). rewrite He in He'.
      injection He' as Hb _ _. symmetry in Hb. apply bool_decide_eq_true_1 in Hb.
      rewrite Forall_forall in Hb. intros k Hk. apply Hb. by apply elem_of_map_keys.
Qed.

(** ** Properties *)

(** C8: No two live masters have been elected: in every state a cluster can
    reach, whatever masters join, end and hold elections, at most one live
    master has been told by [elect_leader] that it leads, and it is the one with
    the smallest number. *)
Theorem at_most_one_leader cl a b :
  rtc cluster_step cluster_start cl → a ∈ elected cl → b ∈ elected cl →
  a = b ∧ is_Some (live cl !! a) ∧ ∀ m, is_Some (live cl !! m) → a ≤ m.
Proof.
  intros Hr Ha Hb. assert (cluster_inv cl) as Hi.
  { refine (rtc_invariant cluster_step cluster_inv _ _ cluster_step_inv _ Hr).
    split; cbn [live next_seq elected cluster_start]; [done| |done|done]. intros n. rewrite lookup_empty. by intros [? ?]. }
  destruct (ci_elected _ Hi a Ha) as [Hla Hma]. destruct (ci_elected _ Hi b Hb) as [Hlb Hmb].
  split; [|done]. apply Z.le_antisymm; [by apply Hma|by apply Hmb].
Qed.

(** C23: When a leader is gone its successor is elected: in every state a cluster
    can reach, the live master with the smallest number, unless it is in the fail
    state, is told that it leads, and writes its name to /leader; any other live
    master is told that it does not and writes nothing. *)
Theorem smallest_is_elected cl n w zk :
  rtc cluster_step cluster_start cl → live cl !! n = Some w → answers zk cl →
  m_has_failed (master w) = false →
  elect_leader zk w
  = Ret (if bool_decide (Forall (Z.le n) (map_to_list (live cl)).*1)
         then (true, [ZCreateEphemeral "/leader"; ZSetData "/leader" (master_node n)],
               w <| watchTriggered := false |>)
         else (false, [], w <| watchTriggered := false |>)).
Proof.
  intros Hr Hn Hans Hf. assert (cluster_inv cl) as Hi.
  { refine (rtc_invariant cluster_step cluster_inv _ _ cluster_step_inv _ Hr).
    split; cbn [live next_seq elected cluster_start]; [done| |done|done]. intros m. rewrite lookup_empty. by intros [? ?]. }
  destruct (elect_in_cluster cl n w zk Hi Hn Hans Hf) as (ws & He).
  pose proof Hans as (l & Hl & _).
  revert He. unfold elect_leader. rewrite Hf, Hl. cbn [obind]. destruct (sort_children l) as [|child k]; [done|].
  destruct (decide _) as [Heq|_]; intros [= Hb _].
  - rewrite <-Hb. cbn in Heq. rewrite (ci_path _ Hi n w Hn) in Heq.
    apply (inj (String.app "/masters/")) in Heq as ->. done.
  - by rewrite <-Hb.
Qed.

(** ** Lemmas: waiting *)

(** What holds while a master waits. *)
Record wait_inv (c : WaitConf) : Prop := {
  wi_leader : isLeader c = true ↔ wpc c = WReturn;
  wi_srv : repl_srv c = true → wpc c = WFollow ∨ ∃ e, wpc c = WThrown e;
  wi_writes : if isLeader c
              then ∃ child, writes c = [ZCreateEphemeral "/leader"; ZSetData "/leader" child]
              else writes c = []
}.

Lemma elect_leader_cases zk w :
  (∃ e, elect_leader zk w = Raise e) ∨ elect_leader zk w = Undef ∨ elect_leader zk w = Parked ∨
  (∃ w', elect_leader zk w = Ret (false, [], w')) ∨
  (∃ child w', elect_leader zk w
     = Ret (true, [ZCreateEphemeral "/leader"; ZSetData "/leader" child], w')).
Proof.
  unfold elect_leader. destruct (m_has_failed (master w)); [by eauto 6|].
  destruct (zk_children zk "/masters") as [l|e| |]; cbn [obind]; eauto.
  destruct (sort_children l) as [|child k]; [by eauto|]. destruct (decide _); eauto 8.
Qed.

Lemma wait_try_inv zk c : wait_inv c → wpc c = WTry → wait_inv (wait_try zk c).
Proof.
  intros [Hl Hs Hw] Hpc. assert (isLeader c = false) as Hf.
  { destruct (isLeader c); [|done]. destruct Hl as [Hl _]. rewrite (Hl eq_refl) in Hpc. done. }
  assert (repl_srv c = false) as Hr.
  { destruct (repl_srv c); [|done]. destruct (Hs eq_refl) as [H|[e H]]; by rewrite H in Hpc. }
  rewrite Hf in Hw. unfold wait_try, try_elect. destruct (existLeader c).
  { rewrite Hpc. split; cbn; rewrite Hf; [done|by rewrite Hr|done]. }
  destruct (elect_leader_cases zk (ww c)) as [[e ->]|[->|[->|[[w' ->]|(child & w' & ->)]]]]; cbn;
    rewrite ?Hpc; cbn.
  - split; cbn; rewrite ?Hf; [done|by rewrite Hr|done].
  - split; cbn; rewrite ?Hf; [done|by rewrite Hr|done].
  - split; cbn; rewrite ?Hf; [done|by rewrite Hr|done].
  - split; cbn; [done|by rewrite Hr|by rewrite Hw].
  - split; cbn; [done|by rewrite Hr|]. rewrite Hw. by exists child.
Qed.

Lemma wait_follow_inv zk c : wait_inv c → wpc c = WFollow → wait_inv (wait_follow zk c).
Proof.
  intros [Hl Hs Hw] Hpc. assert (isLeader c = false) as Hf.
  { destruct (isLeader c); [|done]. destruct Hl as [Hl _]. rewrite (Hl eq_refl) in Hpc. done. }
  rewrite Hf in Hw. unfold wait_follow, try_elect. destruct (watchTriggered (ww c)).
  2:{ rewrite Hpc, Hf. split; rewrite ?Hf, ?Hpc; [done|by left|done]. }
  destruct (elect_leader_cases zk (ww c)) as [[e ->]|[->|[->|[[w' ->]|(child & w' & ->)]]]]; cbn;
    rewrite ?Hpc; cbn; rewrite ?Hf.
  - split; cbn; rewrite ?Hf; [done|by right; eexists|done].
  - split; cbn; rewrite ?Hf, ?Hpc; [done|by left|done].
  - split; cbn; rewrite ?Hf, ?Hpc; [done|by left|done].
  - split; cbn; [by rewrite Hpc|by left|by rewrite Hw].
  - split; cbn; [done|done|]. rewrite Hw. by exists child.
Qed.

Lemma wait_step_inv c c' : wait_inv c → wait_step c c' → wait_inv c'.
Proof.
  intros Hi [a Ha]. pose proof Hi as [Hl Hs Hw]. unfold wait_exec in Ha.
  assert (wpc c ≠ WReturn → isLeader c = false) as Hf.
  { destruct (isLeader c); [|done]. intros H. by destruct H; apply Hl. }
  destruct a as [zk|id|ret|zk|ret|cp].
  - destruct (wpc c) eqn:Hpc; try done. injection Ha as <-. by apply wait_try_inv.
  - destruct (wpc c) eqn:Hpc; try done. injection Ha as <-. specialize (Hf ltac:(done)).
    rewrite Hf in Hw. unfold wait_data. destruct (decide _); split; cbn; rewrite ?Hf; try done.
    + intros H. destruct (Hs H) as [?|[??]]; congruence.
    + by left.
  - destruct (wpc c) eqn:Hpc; try done. injection Ha as <-. specialize (Hf ltac:(done)).
    rewrite Hf in Hw. split; cbn; rewrite ?Hf; try done.
    intros H. destruct (Hs H) as [?|[??]]; congruence.
  - destruct (wpc c) eqn:Hpc; try done. injection Ha as <-. by apply wait_follow_inv.
  - assert (c' = c <| ww := exists_watcher_fn ret (ww c) |>) as ->
      by (destruct (wpc c); by injection Ha). by split.
  - assert (c' = c <| ww := (ww c) <| master := pushCheckPointData cp (wmaster c) |> |>) as ->
      by (destruct (wpc c), (repl_srv c); try done; by injection Ha). by split.
Qed.

(** C32: A master returns from [wait_until_leader] only as leader: it has written
    its election to /leader once, and its replication server is down. *)
Theorem wait_returns_as_leader ret w c :
  rtc wait_step (wait_start ret w) c → wpc c = WReturn →
  isLeader c = true ∧ repl_srv c = false ∧
  ∃ child, writes c = [ZCreateEphemeral "/leader"; ZSetData "/leader" child].
Proof.
  intros Hr Hpc. assert (wait_inv c) as [Hl Hs Hw].
  { refine (rtc_invariant wait_step wait_inv _ _ wait_step_inv _ Hr). by split. }
  apply Hl in Hpc as Hlead. rewrite Hlead in Hw. split; [done|]. split; [|done].
  destruct (repl_srv c); [|done]. destruct (Hs eq_refl) as [?|[??]]; congruence.
Qed.

Lemma deserialize_data_frame cp m :
  m_has_failed (deserialize_data cp m) = m_has_failed m ∧
  m_nodepath (deserialize_data cp m) = m_nodepath m ∧ m_bReplicated (deserialize_data cp m) = true.
Proof.
  unfold deserialize_data. rewrite deserialize_reduce_jobs. cbn.
  assert (∀ l m, m_has_failed (foldl deserialize_job m l) = m_has_failed m ∧
    m_nodepath (foldl deserialize_job m l) = m_nodepath m) as H.
  { induction l as [|js l IH]; intros m'; [done|]. cbn [foldl]. by destruct (IH (deserialize_job m' js)) as [-> ->]. }
  by match goal with |- context [foldl deserialize_job ?m ?l] => destruct (H l m) as [-> ->] end.
Qed.

Lemma follower_frame f cps :
  m_has_failed (follower f cps) = m_has_failed f ∧ m_nodepath (follower f cps) = m_nodepath f ∧
  m_bReplicated (follower f cps) = (m_bReplicated f || bool_decide (cps ≠ [])).
Proof.
  unfold follower. revert f. induction cps as [|cp cps IH]; intros f; [by rewrite orb_false_r|].
  cbn [foldl]. destruct (IH (pushCheckPointData cp f)) as (-> & -> & ->).
  unfold pushCheckPointData, getData. destruct (deserialize_data_frame cp f) as (-> & -> & ->).
  split; [done|]. split; [done|].
  rewrite (bool_decide_eq_true_2 (cp :: cps ≠ [])) by done. by rewrite orb_true_r.
Qed.

Lemma wait_run_receive cps c tr :
  repl_srv c = true →
  wait_run ((LReceive <$> cps) ++ tr) c
  = wait_run tr (c <| ww := (ww c) <| master := follower (wmaster c) cps |> |>).
Proof.
  revert c. induction cps as [|cp cps IH]; intros c Hr.
  { by destruct c as [[] ? ? ? ? ?]. }
  rewrite fmap_cons. cbn [wait_run app].
  assert (wait_exec (LReceive cp) c
    = Some (c <| ww := (ww c) <| master := pushCheckPointData cp (wmaster c) |> |>)) as ->.
  { unfold wait_exec. rewrite Hr. by destruct (wpc c). }
  cbn [mbind option_bind].
  by rewrite (IH (c <| ww := (ww c) <| master := pushCheckPointData cp (wmaster c) |> |>)).
Qed.

(** C19: A follower takes over: when its watch fires and its znode is the smallest
    of those listed, a follower that received the checkpoints [cps] becomes
    leader at the next round of its loop, with the state the last of them left;
    it then resumes a job before it serves, if it received any. *)
Theorem follower_takes_over c cps ret zk l child :
  wpc c = WFollow → isLeader c = false → repl_srv c = true → m_has_failed (wmaster c) = false →
  ret ≠ ZOK → zk_children zk "/masters" = Ret l → child ∈ l → (∀ x, x ∈ l → String.le child x) →
  m_nodepath (wmaster c) = "/masters/" +:+ child →
  ∃ c', wait_run ((LReceive <$> cps) ++ [LWatch ret; LLoop zk]) c = Some c' ∧
    wpc c' = WReturn ∧ isLeader c' = true ∧ repl_srv c' = false ∧
    wmaster c' = (follower (wmaster c) cps) <| m_stop_repl_as_follower := true |> ∧
    (run_as_leader_start (ww c')).2 = (m_bReplicated (wmaster c) || bool_decide (cps ≠ [])).
Proof.
  intros Hpc Hf Hr Hhf Hret Hl Hc Hmin Hnp.
  rewrite (wait_run_receive cps c [LWatch ret; LLoop zk] Hr).
  destruct (follower_frame (wmaster c) cps) as (Hhf' & Hnp' & Hrep).
  set (f := follower (wmaster c) cps) in *. clearbody f.
  destruct c as [w il ex rs wr pc]. cbn [ww isLeader repl_srv wpc] in *. subst il rs pc.
  set (w1 := exists_watcher_fn ret (w <| master := f |>)).
  assert (watchTriggered w1 = true ∧ master w1 = f) as [Hwt Hm]
    by (unfold w1, exists_watcher_fn; by rewrite decide_False).
  destruct (elect_leader_spec zk w1 l) as (child' & Hc' & Hmin' & He);
    [by rewrite Hm, Hhf'|done|by intros ->; apply elem_of_nil in Hc|].
  assert (child' = child) as ->.
  { apply (anti_symm String.le); [by apply Hmin'|by apply Hmin]. }
  rewrite decide_True in He by (by rewrite Hm, Hnp', Hnp).
  change (wait_run [LWatch ret; LLoop zk] _) with (Some (wait_follow zk
    (mkWaitConf w1 false ex true wr WFollow))).
  eexists. split; [reflexivity|]. unfold wait_follow, try_elect. cbn [ww]. rewrite Hwt, He.
  cbn. rewrite Hm. by repeat (split; [done|]).
Qed.

(** The steps when there is no leader and every question is answered so: the data
    of /leader read as empty or as garbage, which the code tells by the length. *)
Definition no_leader_action (a : wait_action) : Prop :=
  match a with
  | LTry _ | LLoop _ | LWatch _ => True
  | LData leader_id => leader_id = "" ∨ (30 < String.length leader_id)%nat
  | LRetry ret => ret = ZNONODE
  | LReceive _ => False
  end.
Definition no_leader_step (c c' : WaitConf) : Prop :=
  ∃ a, no_leader_action a ∧ wait_exec a c = Some c'.

(** C37: A master that has to try again while there is no leader never leads: the
    test after the two seconds takes the code ZNONODE for true, so that it never
    calls [elect_leader], whatever its znode, whatever watch fires, and whether
    /leader reads as empty or as garbage of more than 30 bytes. *)
Theorem retry_without_leader_stuck c c' :
  wpc c = WRetry → isLeader c = false → rtc no_leader_step c c' →
  isLeader c' = false ∧ writes c' = writes c ∧
  (wpc c' = WTry ∨ wpc c' = WData ∨ wpc c' = WRetry).
Proof.
  intros Hpc Hf Hr.
  assert (isLeader c' = false ∧ writes c' = writes c ∧
    (wpc c' = WTry ∧ existLeader c' = true ∨ wpc c' = WData ∨ wpc c' = WRetry)) as (?&?&?); [|naive_solver].
  refine (rtc_invariant no_leader_step (λ x, isLeader x = false ∧ writes x = writes c ∧
    (wpc x = WTry ∧ existLeader x = true ∨ wpc x = WData ∨ wpc x = WRetry)) _ _ _ _ Hr); [|by auto].
  clear c' Hr. intros x y (Hxf & Hxw & Hx) (a & Hna & Ha). unfold wait_exec in Ha.
  destruct a as [zk|id|r|zk|r|cp]; simpl in Hna; try done.
  - destruct (wpc x) eqn:Hxp; try done. injection Ha as <-.
    destruct Hx as [[_ He]|[?|?]]; try done.
    unfold wait_try. rewrite He, Hxp. cbn. rewrite Hxf. auto.
  - destruct (wpc x) eqn:Hxp; try done. injection Ha as <-.
    unfold wait_data. rewrite decide_True by done. cbn. auto.
  - subst r. destruct (wpc x) eqn:Hxp; try done. injection Ha as <-. cbn. auto.
  - destruct Hx as [[Hx _]|[Hx|Hx]]; by rewrite Hx in Ha.
  - assert (y = x <| ww := exists_watcher_fn r (ww x) |>) as ->
      by (destruct (wpc x); by injection Ha). by cbn.
Qed.

(** ** Witnesses *)

Definition ex_master (n : Z) (f : Master → Master) : World :=
  let w := World_new 0 in
  w <| master := f ((master w) <| m_nodepath := "/masters/" +:+ master_node n |>) |>.

Definition zk_masters (l : list Z) : Zookeeper :=
  mkZookeeper (λ p, if decide (p = "/masters") then Ret (master_node <$> l) else Ret []) (λ _, "").

(** Two masters join, the first is elected, it ends, and the second is. *)
Definition ex_cluster1 : Cluster :=
  mkCluster (<[1 := ex_master 1 id]> (<[0 := ex_master 0 id]> ∅)) 2 ∅.

#[local] Transparent seq_limit master_node.

Lemma ex_cluster1_reach : rtc cluster_step cluster_start ex_cluster1.
Proof.
  eapply rtc_l; [apply (cl_join cluster_start (ex_master 0 id)); [split; [done|reflexivity]|reflexivity]|].
  eapply rtc_l; [apply (cl_join _ (ex_master 1 id)); [split; [done|reflexivity]|reflexivity]|].
  apply rtc_refl.
Qed.

Lemma ex_answers : answers (zk_masters [1; 0]) ex_cluster1.
Proof.
  exists (master_node <$> [1; 0]). split; [reflexivity|]. apply fmap_Permutation.
  apply (bool_decide_unpack _). vm_compute. reflexivity.
Qed.

Definition ex_cluster2 : Cluster :=
  mkCluster (<[0 := (ex_master 0 id) <| watchTriggered := false |>]> (live ex_cluster1)) 2
    ({[0]} ∪ ∅).

Lemma ex_cluster2_reach : rtc cluster_step cluster_start ex_cluster2.
Proof.
  eapply rtc_r; [exact ex_cluster1_reach|].
  refine (cl_elect ex_cluster1 0 (ex_master 0 id) (zk_masters [1; 0]) true _ _ _ ex_answers _);
    [reflexivity|]. vm_compute. reflexivity.
Qed.

Lemma at_most_one_leader_witness :
  0 ∈ elected ex_cluster2 ∧
  (0 = 0 ∧ is_Some (live ex_cluster2 !! 0) ∧ ∀ m, is_Some (live ex_cluster2 !! m) → 0 ≤ m).
Proof.
  assert (0 ∈ elected ex_cluster2) as H by (apply (bool_decide_unpack _); vm_compute; reflexivity).
  split; [exact H|]. exact (at_most_one_leader ex_cluster2 0 0 ex_cluster2_reach H H).
Defined.

Lemma smallest_is_elected_witness :
  elect_leader (zk_masters [1; 0]) (ex_master 1 id)
  = Ret (if bool_decide (Forall (Z.le 1) (map_to_list (live ex_cluster1)).*1)
         then (true, [ZCreateEphemeral "/leader"; ZSetData "/leader" (master_node 1)],
               (ex_master 1 id) <| watchTriggered := false |>)
         else (false, [], (ex_master 1 id) <| watchTriggered := false |>)).
Proof.
  apply (smallest_is_elected ex_cluster1 1 (ex_master 1 id) (zk_masters [1; 0]) ex_cluster1_reach);
    [reflexivity|exact ex_answers|reflexivity].
Defined.

(** A master that finds a leader, follows it, receives a checkpoint and takes
    over. *)
Definition ex_cp : CheckPointData := mkCheckPointData 3 1 1 "c" [] [] [].
Definition ex_follow_trace : list wait_action :=
  [LTry (zk_masters [0; 1]); LData "master_0000000000"].
Definition ex_follower : WaitConf :=
  default (wait_start ZOK (ex_master 1 id)) (wait_run ex_follow_trace (wait_start ZOK (ex_master 1 id))).
Definition ex_takeover_trace : list wait_action :=
  ex_follow_trace ++ [LReceive ex_cp; LWatch ZNONODE; LLoop (zk_masters [1])].
Definition ex_takeover : WaitConf :=
  default ex_follower (wait_run ex_takeover_trace (wait_start ZOK (ex_master 1 id))).

Lemma wait_run_rtc tr c c' : wait_run tr c = Some c' → rtc wait_step c c'.
Proof.
  revert c. induction tr as [|a tr IH]; intros c; simpl; [by intros [= ->]|].
  destruct (wait_exec a c) as [c1|] eqn:Ha; [|done]. simpl. intros Hr.
  eapply rtc_l; [by exists a|by apply IH].
Qed.

Lemma ex_takeover_run :
  wait_run ex_takeover_trace (wait_start ZOK (ex_master 1 id)) = Some ex_takeover.
Proof. vm_compute. reflexivity. Qed.

Lemma wait_returns_as_leader_witness :
  isLeader ex_takeover = true ∧ repl_srv ex_takeover = false ∧
  ∃ child, writes ex_takeover = [ZCreateEphemeral "/leader"; ZSetData "/leader" child].
Proof.
  apply (wait_returns_as_leader ZOK (ex_master 1 id) ex_takeover (wait_run_rtc _ _ _ ex_takeover_run)).
  vm_compute. reflexivity.
Defined.

Lemma follower_takes_over_witness :
  ∃ c', wait_run ((LReceive <$> [ex_cp]) ++ [LWatch ZNONODE; LLoop (zk_masters [1])]) ex_follower = Some c' ∧
    wpc c' = WReturn ∧ isLeader c' = true ∧ repl_srv c' = false ∧
    wmaster c' = (follower (wmaster ex_follower) [ex_cp]) <| m_stop_repl_as_follower := true |> ∧
    (run_as_leader_start (ww c')).2 = (m_bReplicated (wmaster ex_follower) || bool_decide ([ex_cp] ≠ [])).
Proof.
  apply (follower_takes_over ex_follower [ex_cp] ZNONODE (zk_masters [1]) [master_node 1] (master_node 1)).
  - vm_compute. reflexivity.
  - vm_compute. reflexivity.
  - vm_compute. reflexivity.
  - vm_compute. reflexivity.
  - discriminate.
  - reflexivity.
  - apply list_elem_of_here.
  - intros x ->%list_elem_of_singleton. reflexivity.
  - vm_compute. reflexivity.
Defined.

(** The only master: it saw the znode of a leader that has just ended, and reads
    nothing from it. *)
Definition ex_alone : WaitConf :=
  default (wait_start ZOK (ex_master 1 id))
    (wait_run [LTry (zk_masters [1]); LData ""] (wait_start ZOK (ex_master 1 id))).
Definition ex_alone_round : list wait_action :=
  [LRetry ZNONODE; LTry (zk_masters [1]); LWatch ZNONODE; LData ""].

Lemma no_leader_run_rtc tr c c' :
  Forall no_leader_action tr → wait_run tr c = Some c' → rtc no_leader_step c c'.
Proof.
  intros Htr. revert c. induction Htr as [|a tr Ha _ IH]; intros c; simpl; [by intros [= ->]|].
  destruct (wait_exec a c) as [c1|] eqn:He; [|done]. simpl. intros Hr.
  eapply rtc_l; [by exists a|by apply IH].
Qed.

Lemma retry_without_leader_stuck_witness :
  let c' := default ex_alone (wait_run ex_alone_round ex_alone) in
  isLeader c' = false ∧ writes c' = writes ex_alone ∧
  (wpc c' = WTry ∨ wpc c' = WData ∨ wpc c' = WRetry).
Proof.
  intros c'. apply (retry_without_leader_stuck ex_alone c').
  - vm_compute. reflexivity.
  - vm_compute. reflexivity.
  - apply (no_leader_run_rtc ex_alone_round); [repeat constructor; by left|]. vm_compute. reflexivity.
Defined.
