(* ===== verification/Startup.v ===== *)
(** * The start of the two processes and the addresses they publish ([main] of
    [master.cc] and [worker.cc], [Worker::run], [Master::register_with_zk], the
    two [RunServer]s)

    A process reads its failure setting from the command line, registers a node
    with ZooKeeper and serves at an address derived from its environment. What
    ZooKeeper then answers is constrained only by [shows]: a node has the data
    set on it.

    The theorems: a master that updates its workers gets, for a worker that has
    registered, a client at the address the worker's server listens on; the
    leader's replication client reaches the follower's server exactly when
    ZooKeeper happens to list the follower second. *)

From S2P Require Export Election Worker.

(** ** Command line and environment *)

(** [std::stoi]. *)
Definition stoi (s : string) : outcome Z :=
  match read_number s with
  | None => Raise InvalidArgument
  | Some n => if decide (- 2 ^ 31 ≤ n < 2 ^ 31) then Ret n else Raise OutOfRange
  end.

(** [(argc == 1) ? -1 : std::stoi(argv[1])]. *)
Definition main_fail_after (argv : list string) : outcome Z :=
  match argv with
  | [_] => Ret (-1)
  | _ :: arg :: _ => stoi arg
  | [] => Undef
  end.

(** The address of ZooKeeper in [init_zk_framework] and [connect_to_zk]; [ns] is
    MY_POD_NAMESPACE. *)
Definition zkURL (local : bool) (ns : string) : string :=
  if local then "localhost:2181" else "zookeeper." +:+ ns +:+ ".svc.cluster.local:2181".

(** ** The worker *)

(** [Worker::register_with_zk]: ZooKeeper names the node [nodepath]. *)
Definition worker_register_with_zk (nodepath : string) (w : Worker) : Worker * list zk_write :=
  (w <| w_nodepath := nodepath |>, [ZCreate "/workers"; ZCreateSequence "/workers/worker_" ""]).

Definition register_address_with_zk (w : Worker) : list zk_write :=
  [ZSetData (w_nodepath w) (m_full_address w)].

(** The address [MapReduceServiceImpl::RunServer] listens on. *)
Definition RunServer_address (ipAddress : string) (port : Z) : string :=
  ipAddress +:+ ":" +:+ to_string port.

(** [Worker::run]: the worker, what it writes and where it then serves. *)
Definition Worker_run (local : bool) (pod_ip nodepath : string) (w : Worker)
    : Worker * list zk_write * string :=
  let '(w, writes) := worker_register_with_zk nodepath w in
  let w := set_address_info local pod_ip w in
  let writes := writes ++ register_address_with_zk w in
  (w <| w_server := true |>, writes, RunServer_address (m_ip w) (m_port w)).

(** ** The master *)

(** [Master::register_with_zk]: what it asks for. *)
Definition register_with_zk (m : Master) : list zk_write :=
  [ZCreate "/masters"; ZCreateSequence "/masters/master_" (m_address m)].

(** The address [ReplicationServiceImpl::RunServer] listens on. *)
Definition repl_RunServer_address (addr : string) : string :=
  before_first ":" addr +:+ ":" +:+ to_string LEADER_GRPC_PORT.

(** ** ZooKeeper *)

(** A node has the data set on it. *)
Definition shows (zk : Zookeeper) (writes : list zk_write) : Prop :=
  ∀ path data, ZSetData path data ∈ writes → zk_data zk path = data.

(** ** Lemmas *)

Lemma worker_run_address local pod_ip nodepath w w' writes addr :
  Worker_run local pod_ip nodepath w = (w', writes, addr) →
  addr = m_full_address w' ∧ ZSetData nodepath addr ∈ writes.
Proof.
  unfold Worker_run, set_address_info, register_address_with_zk, RunServer_address.
  intros [= <- <- <-]. cbn. split; [done|]. do 2 apply list_elem_of_further. apply list_elem_of_here.
Qed.

Lemma before_first_host host : str_forall (λ a, bool_decide (a ≠ ":"%char)) host →
  ∀ port, before_first ":" (host +:+ ":" +:+ port) = host.
Proof. intros Hh port. exact (before_first_app ":" host port Hh). Qed.

Lemma repl_address_inj a b : repl_RunServer_address a = repl_RunServer_address b →
  before_first ":" a = before_first ":" b.
Proof.
  unfold repl_RunServer_address. intros H. remember (":" +:+ to_string LEADER_GRPC_PORT) as t eqn:Ht.
  clear Ht. revert H. generalize (before_first ":" a) as x, (before_first ":" b) as y.
  intros x. induction x as [|c x IH]; intros [|d y] H; simpl in H; [done| | |].
  - exfalso. apply (f_equal String.length) in H. simpl in H. rewrite str_length_app in H. simpl in H. lia.
  - exfalso. apply (f_equal String.length) in H. simpl in H. rewrite str_length_app in H. simpl in H. lia.
  - injection H as -> H. f_equal. by apply IH.
Qed.

(** The client of a node that was not known. *)
Lemma update_new_client W zk junk wrkrs x :
  clients_wf W → m_has_failed (master W) = false →
  zk_children zk "/workers" = Ret wrkrs → Forall node_name wrkrs → x ∈ wrkrs →
  ("/workers/" +:+ x) ∉ known_nodes W →
  ∃ W' c, update_workers zk junk W = Ret W' ∧ clients_wf W' ∧ c ∈ m_Clients (master W') ∧
    m_ClientMap (master W') !! c
    = Some (mkClientInfo (zk_data zk ("/workers/" +:+ x)) ("/workers/" +:+ x)).
Proof.
  intros Hw Hf Hc Hn Hx Hnew.
  destruct (update_workers_spec zk junk W wrkrs Hw Hf Hc Hn) as (W' & Hup & Hw' & Hk & _ & Haddr).
  pose proof Hn as Hnx. rewrite Forall_forall in Hnx. specialize (Hnx x Hx).
  apply (Hk x Hnx), (known_node_inv _ _ Hw') in Hx as (c & [a p] & Hi & Hp). cbn in Hp. subst p.
  exists W', c. split; [done|]. split; [done|]. split; [apply (cw_dom _ Hw'); by eexists|].
  specialize (Haddr c _ Hi Hnew). change (a = zk_data zk ("/workers/" +:+ x)) in Haddr.
  by rewrite Hi, Haddr.
Qed.

(** ** Properties *)

(** C27: Once a worker has registered and ZooKeeper shows what it wrote, a master
    that did not know its node and updates its workers has a client for it whose
    address is the one the worker's server listens on. *)
Theorem worker_registers W zk junk wrkrs x local pod_ip n w' writes addr :
  clients_wf W → m_has_failed (master W) = false →
  zk_children zk "/workers" = Ret wrkrs → Forall node_name wrkrs → x ∈ wrkrs →
  ("/workers/" +:+ x) ∉ known_nodes W →
  Worker_run local pod_ip ("/workers/" +:+ x) (Worker_new n) = (w', writes, addr) →
  shows zk writes →
  ∃ W' client, update_workers zk junk W = Ret W' ∧ client ∈ m_Clients (master W') ∧
    m_ClientMap (master W') !! client = Some (mkClientInfo addr ("/workers/" +:+ x)).
Proof.
  intros Hw Hf Hc Hn Hx Hnew Hrun Hsh. apply worker_run_address in Hrun as [_ Hset].
  destruct (update_new_client W zk junk wrkrs x) as (W' & c & Hup & _ & Hin & Hi); [done..|].
  exists W', c. rewrite (Hsh _ _ Hset) in Hi. done.
Qed.

(** A master that lists a worker's node before the worker has set its address
    keeps an empty address for it: a later update does not read it again,
    whatever the node's data is by then, and there is no other client for the
    node. *)
Theorem registered_too_early W zk1 zk2 junk wrkrs1 wrkrs2 x :
  clients_wf W → m_has_failed (master W) = false → ("/workers/" +:+ x) ∉ known_nodes W →
  zk_children zk1 "/workers" = Ret wrkrs1 → Forall node_name wrkrs1 → x ∈ wrkrs1 →
  zk_data zk1 ("/workers/" +:+ x) = "" →
  zk_children zk2 "/workers" = Ret wrkrs2 → Forall node_name wrkrs2 → x ∈ wrkrs2 →
  ∃ W1 W2 client, update_workers zk1 junk W = Ret W1 ∧ update_workers zk2 junk W1 = Ret W2 ∧
    ∀ c info, m_ClientMap (master W2) !! c = Some info → nodeid info = "/workers/" +:+ x →
      c = client ∧ ci_address info = "".
Proof.
  intros Hw Hf Hnew Hc1 Hn1 Hx1 Hd Hc2 Hn2 Hx2.
  destruct (update_new_client W zk1 junk wrkrs1 x) as (W1 & client & Hup1 & Hw1 & _ & Hi); [done..|].
  assert (m_has_failed (master W1) = false) as Hf1.
  { apply update_workers_frame in Hup1 as [Hj _]. unfold job_state in Hj. by injection Hj as _ _ _ _ _ ->. }
  destruct (update_workers_spec zk2 junk W1 wrkrs2 Hw1 Hf1 Hc2 Hn2) as (W2 & Hup2 & Hw2 & _ & Hkeep & _).
  destruct (Hkeep client _ x Hi eq_refl Hx2) as [Hi2 _].
  exists W1, W2, client. split; [done|]. split; [done|]. intros c info Hc Hp.
  assert (c = client) as -> by (by eapply (cw_inj _ Hw2)). split; [done|].
  rewrite Hi2 in Hc. injection Hc as <-. exact Hd.
Qed.

(** With two masters the leader's replication client is directed to the
    follower's replication server exactly when ZooKeeper lists the follower
    second: the children are not sorted, and otherwise the target is the leader
    itself. *)
Theorem repl_target_is_follower_iff zk l f A B listing :
  zk_children zk "/masters" = Ret listing → listing ≡ₚ [l; f] →
  zk_data zk ("/masters/" +:+ l) = A → zk_data zk ("/masters/" +:+ f) = B →
  before_first ":" A ≠ before_first ":" B →
  (repl_target zk = Ret (repl_RunServer_address B) ↔ listing = [l; f]) ∧
  (listing ≠ [l; f] → repl_target zk = Ret (repl_RunServer_address A)).
Proof.
  intros Hc Hperm HA HB Hne. unfold repl_target. rewrite Hc. cbn [obind].
  assert (l ≠ f) as Hlf by (intros ->; congruence).
  symmetry in Hperm. apply Permutation_length_2_inv in Hperm as [->| ->].
  - change ([l; f] !! 1%nat) with (Some f). cbn iota. rewrite HB. by split.
  - change ([f; l] !! 1%nat) with (Some l). cbn iota. rewrite HA. split; [|done]. split; [|intros [=]; congruence].
    intros [= H]. by destruct Hne; apply repl_address_inj.
Qed.

(** ** Witnesses *)

Definition ex_zk_workers (data : string) : Zookeeper :=
  mkZookeeper (λ p, if decide (p = "/workers") then Ret ["worker_0"; "worker_5"] else Ret [])
    (λ p, if decide (p = "/workers/worker_5") then data else "").

Lemma ex_workers_new : ("/workers/" +:+ "worker_5") ∉ known_nodes ex_workers.
Proof. apply (bool_decide_unpack _). vm_compute. reflexivity. Qed.

Lemma ex_shows : shows (ex_zk_workers "localhost:50055")
  (Worker_run true "" ("/workers/" +:+ "worker_5") (Worker_new 0)).1.2.
Proof.
  intros path data.
  change (Worker_run _ _ _ _).1.2 with [ZCreate "/workers"; ZCreateSequence "/workers/worker_" "";
    ZSetData "/workers/worker_5" "localhost:50055"].
  rewrite !elem_of_cons. intros [?|[?|[H|?%elem_of_nil]]]; [discriminate..| |done].
  injection H as -> ->. reflexivity.
Qed.

Lemma worker_registers_witness :
  ∃ W' client, update_workers (ex_zk_workers "localhost:50055") PING_CHECK ex_workers = Ret W' ∧
    client ∈ m_Clients (master W') ∧
    m_ClientMap (master W') !! client = Some (mkClientInfo "localhost:50055" "/workers/worker_5").
Proof.
  apply (worker_registers ex_workers (ex_zk_workers "localhost:50055") PING_CHECK
    ["worker_0"; "worker_5"] "worker_5" true "" 0 _ _ _ ex_workers_wf eq_refl eq_refl
    ltac:(repeat constructor) ltac:(set_solver) ex_workers_new eq_refl ex_shows).
Defined.

Lemma registered_too_early_witness :
  ∃ W1 W2 client, update_workers (ex_zk_workers "") PING_CHECK ex_workers = Ret W1 ∧
    update_workers (ex_zk_workers "localhost:50055") PING_CHECK W1 = Ret W2 ∧
    ∀ c info, m_ClientMap (master W2) !! c = Some info → nodeid info = "/workers/" +:+ "worker_5" →
      c = client ∧ ci_address info = "".
Proof.
  apply (registered_too_early ex_workers (ex_zk_workers "") (ex_zk_workers "localhost:50055") PING_CHECK
    ["worker_0"; "worker_5"] ["worker_0"; "worker_5"] "worker_5" ex_workers_wf eq_refl ex_workers_new
    eq_refl ltac:(repeat constructor) ltac:(set_solver) eq_refl
    eq_refl ltac:(repeat constructor) ltac:(set_solver)).
Defined.

Definition ex_zk_two (listing : list string) : Zookeeper :=
  mkZookeeper (λ p, if decide (p = "/masters") then Ret listing else Ret [])
    (λ p, if decide (p = "/masters/m0") then "10.0.0.1:5050" else "10.0.0.2:5050").

Lemma repl_target_is_follower_iff_witness :
  (repl_target (ex_zk_two ["m1"; "m0"]) = Ret (repl_RunServer_address "10.0.0.2:5050")
   ↔ ["m1"; "m0"] = ["m0"; "m1"]) ∧
  (["m1"; "m0"] ≠ ["m0"; "m1"] →
   repl_target (ex_zk_two ["m1"; "m0"]) = Ret (repl_RunServer_address "10.0.0.1:5050")).
Proof.
  apply (repl_target_is_follower_iff (ex_zk_two ["m1"; "m0"]) "m0" "m1"); try reflexivity.
  - apply Permutation_swap.
  - vm_compute. discriminate.
Defined.
