(* ===== verification/Leader.v ===== *)
(** * A leader's operations together ([start_ping] and the invariant of the
    [Master] object)

    The heartbeat thread that [req_handler::process] starts and joins, and what
    holds of a master in every state its operations reach, in whatever order
    they come.

    The theorems: the client list, the client map and the client objects stay in
    agreement and the [int] fields of the master in range; the heartbeat thread ends in its
    next step once a job has stopped it, and never if it first runs after
    that. *)

From S2P Require Export Startup ReducePhase.

(** ** The heartbeat thread *)

(** Before its first statement; in its loop; returned. *)
Inductive ping_pc : Type := HEntry | HLoop | HExit.

Record PingConf : Type := mkPingConf { hw : World; hpc : ping_pc }.

#[export] Instance eta_PingConf : EtaRecord PingConf := λ r, mkPingConf (hw r) (hpc r).

Abbreviation hmaster c := (master (hw c)).

(** [Master::start_ping]: the entry, and one test of [m_hbcheck] with the round
    that follows, [events] being the completions of its pings. *)
Definition ping_enter (c : PingConf) : PingConf :=
  if m_has_failed (hmaster c) then c <| hpc := HExit |>
  else c <| hw := (hw c) <| master := (hmaster c) <| m_hbcheck := true |> |> |> <| hpc := HLoop |>.
Definition ping_round (events : list (cptr * rpc_result unit)) (c : PingConf) : PingConf :=
  if m_hbcheck (hmaster c) then c <| hw := ping_workers events (hw c) |> else c <| hpc := HExit |>.

(** The thread's steps. *)
Inductive ping_step (c : PingConf) : PingConf → Prop :=
  | ps_enter : hpc c = HEntry → ping_step c (ping_enter c)
  | ps_round events : hpc c = HLoop → ping_step c (ping_round events c).

(** [stop_ping], called by another thread. *)
Definition ping_stop (c : PingConf) : PingConf :=
  c <| hw := (hw c) <| master := stop_ping (hmaster c) |> |>.

(** ** The leader's operations *)

(** A checkpoint message: its numbers are [int32]. *)
Definition checkpoint_typed (cp : CheckPointData) : Prop :=
  is_int32 (cp_req_id cp) ∧ is_int32 (cp_n_mappers cp) ∧ is_int32 (cp_n_reducers cp).

Inductive leader_op (w : World) : World → Prop :=
  | op_setup local pod_ip conn nodepath zk junk w' :
      (∀ l, zk_children zk "/workers" = Ret l → Forall node_name l) →
      run_setup local pod_ip conn nodepath zk junk w = Ret w' → leader_op w w'
  | op_update zk junk w' : (∀ l, zk_children zk "/workers" = Ret l → Forall node_name l) →
      update_workers zk junk w = Ret w' → leader_op w w'
  | op_elect zk won ws w' : elect_leader zk w = Ret (won, ws, w') → leader_op w w'
  | op_watch ret : leader_op w (exists_watcher_fn ret w)
  | op_checkpoint cp : checkpoint_typed cp →
      leader_op w (w <| master := pushCheckPointData cp (master w) |>)
  | op_request zk junk storage items events h :
      (∀ l, zk_children zk "/workers" = Ret l → Forall node_name l) →
      leader_op w (process_setup zk junk storage items events h w).1
  | op_map c : rtc map_step (runMapper_start w) c → leader_op w (mw c)
  | op_resume q c : rtc map_step (dispatchMapTasks_start w q) c → leader_op w (mw c)
  | op_reduce q d : rtc reduce_step (dispatchReduceTasks_start w q) d → leader_op w (rw d)
  | op_ping c : rtc ping_step (mkPingConf w HEntry) c → leader_op w (hw c)
  | op_lead_start : leader_op w (run_as_leader_start w).1
  | op_lead_end returned w' : run_as_leader_end returned w = Ret w' → leader_op w w'
  | op_stop : leader_op w (w <| master := stop_ping (master w) |>).

(** What they keep: the client tables agree, and the [int]s of the [Master] object
    and the two static counters are in range. *)
Record leader_typed (w : World) : Prop := {
  lt_clients : clients_wf w;
  lt_rid : is_int32 (m_rid (master w));
  lt_mappers : is_int32 (m_nmappers (master w));
  lt_reducers : is_int32 (m_nreducers (master w));
  lt_fail : is_int32 (m_until_fail (master w));
  lt_counter : is_int32 (request_counter w);
  lt_shard : is_int32 (shard_counter w)
}.

(** ** Lemmas: worlds with the same clients and parameters *)

(** The same client tables and numbers, no client object lost; the tasks left
    until the injected failure count down. *)
Record kept (w w' : World) : Prop := {
  kp_clients : m_Clients (master w') = m_Clients (master w);
  kp_map : m_ClientMap (master w') = m_ClientMap (master w);
  kp_heap : ∀ p, is_Some (heap w !! p) → is_Some (heap w' !! p);
  kp_numbers : (m_rid (master w'), m_nmappers (master w'), m_nreducers (master w'), request_counter w',
      shard_counter w')
    = (m_rid (master w), m_nmappers (master w), m_nreducers (master w), request_counter w,
      shard_counter w);
  kp_fail : m_until_fail (master w') = m_until_fail (master w) ∨ is_int32 (m_until_fail (master w'))
}.

#[export] Instance kept_preorder : PreOrder kept.
Proof.
  split; [intros w; by split; [..|left]|].
  intros w1 w2 w3 [?? Hh1 ? Hf1] [?? Hh2 ? Hf2]. split; [congruence..|auto|congruence|].
  destruct Hf2 as [->|?]; [exact Hf1|by right].
Qed.

Lemma kept_typed w w' : kept w w' → leader_typed w → leader_typed w'.
Proof.
  intros [Hc Hm Hh [= Hr Hn Hred Hcnt Hsh] Hf] [[] ? ? ? Hfw ? ?].
  split; rewrite ?Hr, ?Hn, ?Hred, ?Hcnt, ?Hsh; try done; [|by destruct Hf as [->|?]].
  split; rewrite ?Hc, ?Hm; auto.
Qed.

Lemma kept_rtc {C} (step : C → C → Prop) (world : C → World) c c' :
  (∀ x y, step x y → kept (world x) (world y)) → rtc step c c' → kept (world c) (world c').
Proof. intros Hs Hr. induction Hr as [|x y z Hxy _ IH]; [reflexivity|]. etrans; [by apply Hs|done]. Qed.

Lemma check_fail_kept w m parked :
  task_assigned_check_fail (master w) = (m, parked) → kept w (w <| master := m |>).
Proof.
  unfold task_assigned_check_fail. intros H. destruct (m_will_fail (master w)).
  - by destruct (decide _); injection H as <- <-; split; try done; right; apply to_int32_range.
  - injection H as <- <-. by split; [..|left].
Qed.

Ltac kept_solve :=
  split; [reflexivity|reflexivity| |reflexivity|left; reflexivity]; intros ?;
  try (intros; apply ping_start_heap; assumption); cbn;
  rewrite ?lookup_alter_is_Some, ?complete_ping_heap;
  try (rewrite lookup_insert_is_Some'; by right); try done.

Lemma map_step_kept c c' : map_step c c' → kept (mw c) (mw c').
Proof.
  intros [i q p _ _ _ _|_|_ _ _ _|_ _|_ _|_ _|res rest _ _|_|_ _|_ _ _|_ _|pos call res _ _|r client _
    | |ev|]%map_step_rule; try by kept_solve.
  - unfold start_map_call. destruct (vec_index _ _); [|by kept_solve].
    destruct (heap (mw c) !! p); by kept_solve.
  - unfold count_map_call. destruct (task_assigned_check_fail _) as [m parked] eqn:H.
    by apply check_fail_kept in H.
  - unfold process_map_response. destruct (decide _); [|by kept_solve].
    destruct (m_IntermediateResultMap _ !! _); by kept_solve.
  - unfold check_map_done. destruct (decide _); by kept_solve.
  - unfold complete_map_call. destruct res; by kept_solve.
Qed.

Lemma reduce_step_kept c c' : reduce_step c c' → kept (rw c) (rw c').
Proof.
  intros [j q bl p _ _ _ _ _|j q e _ _ _ _|_|j q bl _ _ _ _ _|_ _|_ _|_ _|pos res _ _|pos _|pos _ _
    |_ _ _|_ _|pos call res _ _| |ev|]%reduce_step_rule; try by kept_solve.
  - unfold start_reduce_call. destruct (heap (rw c) !! p); by kept_solve.
  - unfold count_reduce_call. destruct (task_assigned_check_fail _) as [m parked] eqn:H.
    apply check_fail_kept in H. by destruct parked.
  - unfold process_reduce_response. destruct (decide _); by kept_solve.
  - unfold check_reduce_done. destruct (rjob_q c); by kept_solve.
  - unfold complete_reduce_call. destruct res; by kept_solve.
Qed.

Lemma ping_workers_kept events w : kept w (ping_workers events w).
Proof.
  unfold ping_workers. split; [reflexivity|reflexivity| |reflexivity|by left]. intros p Hp.
  change (is_Some (AsyncCompletePingRpc events (length (m_Clients (master w))) (heap (ping_start w)) !! p)).
  assert (is_Some (heap (ping_start w) !! p)) as Hs by (by apply ping_start_heap).
  unfold AsyncCompletePingRpc. revert Hs. generalize (heap (ping_start w)) as h.
  induction (take _ events) as [|ev l IH]; intros h Hs; [done|]. simpl. apply IH. by rewrite complete_ping_heap.
Qed.

Lemma get_worker_addresses_kept events w : kept w (get_worker_addresses events w).
Proof.
  split; [reflexivity|reflexivity| |reflexivity|by left]. intros p. apply get_worker_addresses_heap.
Qed.

Lemma ping_step_kept c c' : ping_step c c' → kept (hw c) (hw c').
Proof.
  intros [_|events _].
  - unfold ping_enter. destruct (m_has_failed _); by kept_solve.
  - unfold ping_round. destruct (m_hbcheck _); [apply ping_workers_kept|by kept_solve].
Qed.

(** The same clients; the numbers may differ. *)
Lemma typed_clients w w' :
  leader_typed w → m_Clients (master w') = m_Clients (master w) →
  m_ClientMap (master w') = m_ClientMap (master w) →
  (∀ p, is_Some (heap w !! p) → is_Some (heap w' !! p)) →
  is_int32 (m_rid (master w')) → is_int32 (m_nmappers (master w')) → is_int32 (m_nreducers (master w')) →
  is_int32 (m_until_fail (master w')) → is_int32 (request_counter w') → is_int32 (shard_counter w') →
  leader_typed w'.
Proof. intros [[]] Hc Hm Hh ? ? ? ? ? ?. split; [|done..]. split; rewrite ?Hc, ?Hm; auto. Qed.

Lemma set_up_typed zk storage items events h w :
  leader_typed w → leader_typed (process_job zk storage items events h w).1.
Proof.
  intros Hw. destruct (process_job_params zk storage items events h w) as [[Hr Hf Hc Hm Hh Hcnt Hsh] [= Hn Hred _]].
  apply (typed_clients w); try done; rewrite ?Hr, ?Hf, ?Hcnt, ?Hn, ?Hred; try apply to_int32_range;
    try apply Hw. apply Hsh, Hw.
Qed.

(** The list of workers [update_workers] goes by. *)
Lemma update_workers_list zk junk w w' :
  m_has_failed (master w) = false → update_workers zk junk w = Ret w' →
  (∀ l, zk_children zk "/workers" = Ret l → Forall node_name l) →
  ∃ l, Forall node_name l ∧ update_workers (mkZookeeper (λ _, Ret l) (zk_data zk)) junk w = Ret w'.
Proof.
  intros Hf Hup Hzk. unfold update_workers in Hup. rewrite Hf in Hup.
  destruct (catch_std _ _) as [l| | |] eqn:Hl; try done. cbn [obind] in Hup. exists l. split.
  - unfold catch_std in Hl. destruct (zk_children zk "/workers") as [l'|e| |]; try done.
    + injection Hl as ->. by apply Hzk.
    + destruct (std_exception e); [|done]. by injection Hl as <-.
  - unfold update_workers. rewrite Hf. cbn [catch_std zk_children obind].
    assert (add_workers (mkZookeeper (λ _, Ret l) (zk_data zk)) junk l w = add_workers zk junk l w) as ->; [|done].
    clear. generalize (Ret l : outcome (list string)) as o. intros o. revert w.
    induction l as [|x l IH]; intros w; [done|]. cbn [add_workers zk_data].
    destruct (worker_client_already_added _ _ _) as [[]| | |]; cbn [obind]; auto.
Qed.

Lemma update_workers_wf zk junk w w' :
  (∀ l, zk_children zk "/workers" = Ret l → Forall node_name l) →
  update_workers zk junk w = Ret w' → clients_wf w → clients_wf w'.
Proof.
  intros Hzk Hup Hw. destruct (m_has_failed (master w)) eqn:Hf.
  { unfold update_workers in Hup. rewrite Hf in Hup. by injection Hup as <-. }
  destruct (update_workers_list zk junk w w' Hf Hup Hzk) as (l & Hl & Hup').
  destruct (update_workers_spec (mkZookeeper (λ _, Ret l) (zk_data zk)) junk w l Hw Hf eq_refl Hl)
    as (w2 & Hup2 & Hw2 & _).
  rewrite Hup' in Hup2. by injection Hup2 as <-.
Qed.

Lemma update_workers_typed zk junk w w' :
  (∀ l, zk_children zk "/workers" = Ret l → Forall node_name l) →
  update_workers zk junk w = Ret w' → leader_typed w → leader_typed w'.
Proof.
  intros Hzk Hup [Hw ? ? ? ? ? ?]. pose proof (update_workers_wf _ _ _ _ Hzk Hup Hw).
  apply update_workers_shape in Hup as (cs & cm & h & -> & _). by split.
Qed.

(** A world that differs in numbers that are in range only. *)
Lemma typed_numbers w w' :
  leader_typed w → m_Clients (master w') = m_Clients (master w) →
  m_ClientMap (master w') = m_ClientMap (master w) → heap w' = heap w →
  (m_nmappers (master w'), m_nreducers (master w'), m_until_fail (master w'), shard_counter w')
  = (m_nmappers (master w), m_nreducers (master w), m_until_fail (master w), shard_counter w) →
  is_int32 (m_rid (master w')) → is_int32 (request_counter w') → leader_typed w'.
Proof.
  intros Hw Hc Hm Hh [= Hn Hr Hf Hs] ? ?. apply (typed_clients w); try done; rewrite ?Hn, ?Hr, ?Hf, ?Hs;
    try apply Hw. by rewrite Hh.
Qed.

Lemma process_setup_typed zk junk storage items events h w :
  (∀ l, zk_children zk "/workers" = Ret l → Forall node_name l) →
  leader_typed w → leader_typed (process_setup zk junk storage items events h w).1.
Proof.
  intros Hzk Hw. assert (leader_typed (requested w)) as Hw1.
  { apply (typed_numbers w); try done; [apply Hw|apply to_int32_range]. }
  destruct (update_workers zk junk (requested w)) as [wu| | |] eqn:Hu.
  { rewrite (process_setup_listed _ _ _ _ _ _ _ wu Hu). apply set_up_typed.
    pose proof (update_workers_typed _ _ _ _ Hzk Hu Hw1) as Hwu.
    apply (typed_numbers wu); try done; [apply to_int32_range|apply Hwu]. }
  all: rewrite process_setup_unlisted by (rewrite Hu; by intros); done.
Qed.

Lemma elect_leader_typed zk w won ws w' :
  elect_leader zk w = Ret (won, ws, w') → leader_typed w → leader_typed w'.
Proof.
  intros H. apply kept_typed. unfold elect_leader in H. destruct (m_has_failed (master w)).
  { injection H as _ _ <-. reflexivity. }
  destruct (zk_children zk "/masters") as [children| | |]; try done. cbn [obind] in H.
  destruct (sort_children children) as [|child l]; [done|].
  destruct (decide _); injection H as _ _ <-; by kept_solve.
Qed.

Lemma deserialize_jobs_numbers l m :
  m_rid (foldl deserialize_job m l) = m_rid m ∧ m_nmappers (foldl deserialize_job m l) = m_nmappers m ∧
  m_nreducers (foldl deserialize_job m l) = m_nreducers m ∧
  m_until_fail (foldl deserialize_job m l) = m_until_fail m.
Proof. revert m. induction l as [|js l IH]; intros m; [done|]. apply (IH (deserialize_job m js)). Qed.

Lemma checkpoint_numbers cp m :
  m_rid (pushCheckPointData cp m) = cp_req_id cp ∧
  m_nmappers (pushCheckPointData cp m) = cp_n_mappers cp ∧
  m_nreducers (pushCheckPointData cp m) = cp_n_reducers cp ∧
  m_until_fail (pushCheckPointData cp m) = m_until_fail m.
Proof.
  unfold pushCheckPointData, getData, deserialize_data. rewrite deserialize_reduce_jobs. cbn.
  match goal with |- context [foldl deserialize_job ?m ?l] =>
    destruct (deserialize_jobs_numbers l m) as (-> & -> & -> & ->) end. done.
Qed.

Lemma leader_op_typed w w' : leader_typed w → leader_op w w' → leader_typed w'.
Proof.
  intros Hw Hop. revert Hw. destruct Hop as [local ip conn path zk junk w' Hzk Hup|zk junk w' Hzk Hup|zk won ws w' He|ret|cp Hcp
    |zk junk storage items events h Hzk|c Hr|q c Hr|q d Hr|c Hr| |returned w' He|].
  - intros Hw. eapply update_workers_typed; [exact Hzk|exact Hup|].
    revert Hw. apply kept_typed. by kept_solve.
  - by eapply update_workers_typed.
  - by eapply elect_leader_typed.
  - apply kept_typed. unfold exists_watcher_fn. destruct (decide _); [done|by kept_solve].
  - intros Hw. destruct Hcp as (H1 & H2 & H3).
    destruct (pushCheckPointData_frame cp (master w)) as (Hc & Hm & _).
    destruct (checkpoint_numbers cp (master w)) as (E1 & E2 & E3 & E4).
    set (m := pushCheckPointData cp (master w)) in *. clearbody m.
    apply (typed_clients w); cbn; rewrite ?E1, ?E2, ?E3, ?E4; try done; by destruct Hw.
  - by apply process_setup_typed.
  - apply kept_typed. etrans; [|exact (kept_rtc map_step mw _ _ map_step_kept Hr)]. by kept_solve.
  - apply kept_typed. etrans; [|exact (kept_rtc map_step mw _ _ map_step_kept Hr)]. by kept_solve.
  - apply kept_typed. etrans; [|exact (kept_rtc reduce_step rw _ _ reduce_step_kept Hr)]. by kept_solve.
  - apply kept_typed. exact (kept_rtc ping_step hw _ _ ping_step_kept Hr).
  - apply kept_typed. by kept_solve.
  - apply kept_typed. unfold run_as_leader_end in He. cbn in He. destruct (repl_clt_thd (master w)).
    + destruct returned; [|done]. injection He as <-. by kept_solve.
    + injection He as <-. by kept_solve.
  - apply kept_typed. by kept_solve.
Qed.

Lemma World_new_typed n : is_int32 n → leader_typed (World_new n).
Proof.
  intros Hn. split; try done; cbn; [|by destruct (decide (n ≤ 0))]. split; cbn; [constructor|..].
  - intros c. rewrite lookup_empty, elem_of_nil. split; [done|by intros []].
  - intros c []%elem_of_nil.
  - intros c info. by rewrite lookup_empty.
  - intros c c' info info'. by rewrite lookup_empty.
Qed.

(** ** Properties *)

(** C11: In every state a master reaches by its operations, in any order and with
    any answers of ZooKeeper, the storage and the workers (names of nodes without
    a slash, [int32] numbers in checkpoints), its client list, its client map and
    its client objects agree, no two clients stand for one node, and the [int]
    fields of the [Master] object ([m_rid], [m_nmappers], [m_nreducers],
    [m_until_fail]) and the two static counters are in range. *)
Theorem leader_always_typed n w :
  is_int32 n → rtc leader_op (World_new n) w → leader_typed w.
Proof.
  intros Hn Hr. exact (rtc_invariant leader_op leader_typed _ _ leader_op_typed (World_new_typed n Hn) Hr).
Qed.

(** C35: [t.join()] at the end of a job: a heartbeat thread that [stop_ping] finds
    in its loop ends in its next step and pings no one; one that has not run yet
    never ends, as it sets [m_hbcheck] again. *)
Theorem heartbeat_join c :
  (hpc c = HLoop → ∀ c', ping_step (ping_stop c) c' → hpc c' = HExit ∧ hw c' = hw (ping_stop c)) ∧
  (hpc c = HEntry → m_has_failed (hmaster c) = false →
     ∀ c', rtc ping_step (ping_stop c) c' → hpc c' ≠ HExit).
Proof.
  split.
  - intros Hl c' [H|events _]; [change (hpc c = HEntry) in H; congruence|]. by split.
  - intros He Hf c' Hr.
    assert ((hpc c' = HEntry ∧ m_has_failed (hmaster c') = false) ∨
      (hpc c' = HLoop ∧ m_hbcheck (hmaster c') = true)) as [[-> _]|[-> _]]; [|done..].
    refine (rtc_invariant ping_step (λ c, (hpc c = HEntry ∧ m_has_failed (hmaster c) = false) ∨
      (hpc c = HLoop ∧ m_hbcheck (hmaster c) = true)) _ _ _ _ Hr); [|by left].
    intros x y [[Hx Hxf]|[Hx Hxh]] [H|events H]; try congruence.
    + right. unfold ping_enter. by rewrite Hxf.
    + right. unfold ping_round. rewrite Hxh. done.
Qed.

(** ** Witnesses *)

(** A master starts, finds two workers and is asked for a job. *)
Definition ex_with_workers : World :=
  match run_setup true "" "conn" "/masters/master_0" ex_zk PING_CHECK (World_new 0) with
  | Ret w => w
  | _ => World_new 0
  end.
Definition ex_asked : World :=
  (process_setup ex_zk PING_CHECK (λ _, Ret tt) (Ret [mk_blob_item true "a" 64]) []
    (mkReqHandler "in" "2" "2") ex_with_workers).1.

Lemma ex_asked_reach : rtc leader_op (World_new 0) ex_asked.
Proof.
  eapply rtc_l; [apply (op_setup _ true "" "conn" "/masters/master_0" ex_zk PING_CHECK ex_with_workers)|].
  - intros l [= <-]. repeat constructor.
  - vm_compute. reflexivity.
  - apply rtc_once. apply (op_request ex_with_workers). intros l [= <-]. repeat constructor.
Qed.

Lemma leader_always_typed_witness :
  leader_typed ex_asked ∧ length (m_Clients (master ex_asked)) = 2%nat ∧
  length (m_shards (master ex_asked)) = 2%nat.
Proof.
  split; [exact (leader_always_typed 0 ex_asked ltac:(unfold is_int32; lia) ex_asked_reach)|]. split; vm_compute; reflexivity.
Defined.

Lemma heartbeat_join_witness :
  (∀ c', ping_step (ping_stop (ping_enter (mkPingConf ex_workers HEntry))) c' → hpc c' = HExit) ∧
  (∀ c', rtc ping_step (ping_stop (mkPingConf ex_workers HEntry)) c' → hpc c' ≠ HExit).
Proof.
  split.
  - intros c' Hc. by apply (proj1 (heartbeat_join (ping_enter (mkPingConf ex_workers HEntry))) eq_refl c').
  - apply (proj2 (heartbeat_join (mkPingConf ex_workers HEntry)) eq_refl eq_refl).
Defined.
