(* ===== verification/WordCount.v ===== *)
(** * Word counting, from the request to the output blobs

    The job of the repository: the master cuts the blobs of the request's
    container, the workers run [map.py] on the pieces and [reduce.py] on the
    intermediate blobs, and whatever the interleaving, the retries and the workers
    that come and go, the outputs together are the word count of the blobs. *)

From S2P Require Export System Scripts Leader.

(** ** Lemmas: the set-up of the job *)

(** What [process_job] has done when it returns. *)
Lemma process_job_returns zk storage items events h w0 w :
  process_job zk storage (Ret items) events h w0 = (w, Ret tt) →
  ∃ conn wa wb, m_dbConnection (master wa) = Some conn ∧
    create_sharding_data items wa = Ret (Some wb) ∧
    m_nmappers (master wa) = m_nmappers (master w) ∧ m_shards (master wb) = m_shards (master w).
Proof.
  unfold process_job, create_container.
  generalize (set_num_mappers (rh_mappers h) (set_num_reducers (rh_reducers h) (master w0))) as m0.
  intros m0. cbn zeta beta iota. set (m := m0 <| m_containername := rh_container h |>).
  destruct (m_dbConnection m) as [conn|] eqn:Hm; [|done]. destruct (storage _); try done. cbn [obind].
  set (wa := w0 <| master := m |>).
  destruct (create_sharding_data items wa) as [[wb|]| | |] eqn:Hs; try done.
  destruct (start_repl_clt_thd zk wb) as [wc| | |] eqn:Ht; try done. intros [= <-].
  exists conn, wa, wb. apply create_sharding_data_frame in Hs as Hf. destruct Hf as [_ [= Hn _ _]].
  apply start_repl_clt_thd_frame in Ht as (_ & [= Hn' _ _] & Hsh & _).
  split; [done|]. split; [done|]. split; [|by rewrite <-Hsh]. cbn. by rewrite Hn', Hn.
Qed.

(** What [process_setup] has done when it returns: the clients are those of the
    listing, the parameters those of the request, the shards those of the
    listed blobs. *)
Lemma process_setup_returns zk junk storage items events h w0 w :
  (∀ l, zk_children zk "/workers" = Ret l → Forall node_name l) → clients_wf w0 →
  process_setup zk junk storage (Ret items) events h w0 = (w, Ret tt) →
  (∀ p, p ∈ m_Clients (master w) → is_Some (heap w !! p)) ∧
  job_request (master w)
    = (to_int32 (strtol (rh_mappers h)), to_int32 (strtol (rh_reducers h)), rh_container h) ∧
  ∃ conn wa wb, m_dbConnection (master wa) = Some conn ∧
    create_sharding_data items wa = Ret (Some wb) ∧
    m_nmappers (master wa) = m_nmappers (master w) ∧ m_shards (master wb) = m_shards (master w).
Proof.
  intros Hzk Hw0. destruct (update_workers zk junk (requested w0)) as [wu| | |] eqn:Hu.
  2-4: rewrite process_setup_unlisted by (rewrite Hu; by intros); rewrite Hu; done.
  rewrite (process_setup_listed _ _ _ _ _ _ _ wu Hu).
  set (w1 := wu <| master := _ |>). intros Hp.
  pose proof (process_job_params zk storage (Ret items) events h w1) as [[_ _ Hc _ Hh _ _] Hreq].
  rewrite Hp in Hc, Hh, Hreq. cbn [fst] in *. split; [|split; [done|by eapply process_job_returns]].
  assert (clients_wf wu) as Hwu by (apply (update_workers_wf _ _ _ _ Hzk Hu); by destruct Hw0).
  intros p. rewrite Hc. intros Hp'. apply Hh. by apply (cw_heap wu Hwu).
Qed.

Lemma chain_bounds name b ps e d :
  chain name b ps e → 0 ≤ b → d ∈ to_ShardData <$> ps →
  blobName_ d = name ∧ b ≤ begin_ d ∧ begin_ d ≤ end_ d ≤ e.
Proof.
  revert b. induction ps as [|p ps IH]; intros b; cbn [chain]; [by intros _ _ ?%elem_of_nil|].
  intros (Hn & Hb & Hle & Hc) Hpos. rewrite fmap_cons, elem_of_cons. intros [->|Hd].
  - cbn. split; [done|]. split; [lia|]. split; [lia|].
    clear IH. assert (∀ ps b, chain name b ps e → b ≤ e) as Hch; [|by eapply Hch].
    clear. induction ps as [|p ps IH]; intros b; cbn [chain]; [lia|]. intros (_ & <- & ? & ?%IH). lia.
  - destruct (IH _ Hc ltac:(lia) Hd) as (? & ? & ?). split; [done|]. lia.
Qed.

(** The pieces of the shards are not empty and lie inside their blobs. *)
Lemma shards_inside items wa wb conn sz :
  m_dbConnection (master wa) = Some conn → calc_shard_sz items (m_nmappers (master wa)) = Ret sz →
  0 < sz → Forall (fits sz) (blobs items) → Forall (λ it, 0 < item_size it) (blobs items) →
  create_sharding_data items wa = Ret (Some wb) →
  (∀ s, s ∈ m_shards (master wb) → sets_ s ≠ []) ∧
  (∀ s d, s ∈ m_shards (master wb) → d ∈ sets_ s → ∃ it, it ∈ blobs items ∧
     blobName_ d = item_name it ∧ 0 ≤ begin_ d < end_ d ∧ end_ d ≤ item_size it) ∧
  (∀ i s, m_shards (master wb) !! i = Some s → shardId_ s = to_int32 (Z.of_nat i)) ∧
  (blobs items ≠ [] → m_shards (master wb) ≠ []).
Proof.
  intros Hconn Hsz Hpos Hfits Hne Hw.
  destruct (create_sharding_data_spec items wa conn sz Hconn Hsz Hpos Hfits)
    as (w1 & pss & _ & Hw1 & Htiles & _ & Hcat & _ & Hids & Hlen).
  rewrite Hw1 in Hw. injection Hw as ->. specialize (Hlen Hne).
  destruct (create_sharding_data_total items wa conn sz Hconn Hsz Hpos Hfits wb Hw1)
    as (fulls & last & pend & Hsh & _ & Htot & Hfull & Hlast).
  assert (∀ s d, s ∈ m_shards (master wb) → d ∈ sets_ s → d ∈ to_ShardData <$> concat pss) as Hin.
  { intros s d Hs Hd. rewrite <-Hcat. apply list_elem_of_In, in_concat. exists (sets_ s).
    split; apply list_elem_of_In; [by apply list_elem_of_fmap_2|done]. }
  split; [|split; [|split; [done|]]].
  - intros s Hs Hnil. assert (shard_len s = 0) as Hz by (unfold shard_len; by rewrite Hnil).
    rewrite Hsh in Hs. apply elem_of_app in Hs as [Hs|Hs].
    + rewrite Forall_forall in Hfull. rewrite (Hfull s Hs) in Hz. lia.
    + destruct Hlast as [[-> _]|(s' & -> & Hl & Hp)]; [by apply elem_of_nil in Hs|].
      apply list_elem_of_singleton in Hs as ->. specialize (Hp Hne). lia.
  - intros s d Hs Hd. specialize (Hin s d Hs Hd). clear Hcat Hsh Htot Hlast.
    induction Htiles as [|it ps its pss Ht Hts IH]; [by apply elem_of_nil in Hin|].
    cbn [concat] in Hin, Hlen. rewrite fmap_app, elem_of_app in Hin. apply Forall_app in Hlen as [Hl1 Hl2].
    apply Forall_cons in Hne as [_ Hne]. apply Forall_cons in Hfits as [_ Hfits].
    destruct Hin as [Hin|Hin].
    + exists it. split; [apply list_elem_of_here|].
      destruct (chain_bounds _ _ _ _ _ Ht ltac:(lia) Hin) as (Hn & Hb & _ & He).
      apply list_elem_of_fmap in Hin as (p & -> & Hp). rewrite Forall_forall in Hl1.
      specialize (Hl1 p Hp). unfold piece_len in Hl1. cbn in *. split; [done|]. lia.
    + destruct (IH Hfits Hne Hl2 Hin) as (it' & Hit' & ?). exists it'. split; [by apply list_elem_of_further|done].
  - intros Hb Hnil. rewrite Hsh in Hnil. apply app_eq_nil in Hnil as [-> ->].
    destruct Hlast as [[_ ->]|(s' & [=] & _)]. simpl in Htot. rewrite Z.mul_0_r in Htot.
    unfold total_size in Htot. destruct Hne as [|it its Hit Hne]; [done|]. simpl in Htot.
    assert (0 ≤ foldr (λ it n, item_size it + n) 0 its); [|lia].
    clear -Hne. induction Hne as [|it its ? _ IH]; simpl; lia.
Qed.

(** ** Lemmas: the words of a piece *)

Lemma blank_start_length n l r : blank_start n l = Ret r → length r = length l.
Proof.
  revert l r. induction n as [|n IH]; intros [|c l] r; simpl; try done; try (by intros [= <-]).
  destruct (is_delim c); [by intros [= <-]|]. destruct (blank_start n l) as [r'| | |] eqn:Hb; try done.
  intros [= <-]. simpl. by rewrite (IH l r').
Qed.

Lemma fix_word_boundary_length b e l r :
  fix_word_boundary b e l = Ret r → (length r ≤ length l)%nat.
Proof.
  unfold fix_word_boundary. destruct (if decide (b = 0) then _ else _) as [l'| | |] eqn:Hs; try done.
  assert (length l' = length l) as <-.
  { destruct (decide (b = 0)); [by injection Hs as <-|]. by eapply blank_start_length. }
  cbn [obind]. intros Hr. destruct (decide _) in Hr; [|by injection Hr as <-].
  destruct (decide _) in Hr; [done|]. injection Hr as <-.
  rewrite length_app, length_take. pose proof (until_delim_length (drop (Z.to_nat (to_int32 (to_size (e - b)))) l')) as Hu.
  rewrite length_drop in Hu. lia.
Qed.

(** The pairs of a class, of words. *)
Lemma part_reprs hash n j (l : list (bytes * Z)) :
  part hash n j (reprs l) = reprs (filter (λ kv, hash (py_repr kv.1) mod n = j) l).
Proof.
  unfold part, reprs. induction l as [|kv l IH]; [done|]. rewrite fmap_cons, !filter_cons. cbn [fst].
  rewrite IH. by destruct (decide _).
Qed.

Lemma reprs_bind {A} (f : A → list (bytes * Z)) (xs : list A) :
  reprs (xs ≫= f) = xs ≫= λ x, reprs (f x).
Proof. induction xs as [|x xs IH]; [done|]. rewrite !bind_cons, <-IH. apply fmap_app. Qed.

Section Pieces.
Context (unicode : string → bytes → option (list (string * Z))) (content : string → bytes).

(** What a worker makes of a piece of which it keeps [text]: the word count of
    [text]. *)
Lemma piece_words addr d text :
  0 ≤ begin_ d < 2 ^ 31 → 0 ≤ end_ d < 2 ^ 31 → Z.of_nat (length (content (blobName_ d))) < 2 ^ 31 →
  plain text → WorkerText.kept content d text →
  piece_pairs (scripts unicode) addr content (to_ShardTuple d) ≡ₚ reprs (word_count (words_of text)).
Proof.
  intros Hb He Hlen Hp Hk. unfold piece_pairs, piece_data, WorkerText.kept, WorkerText.keeps in *.
  cbn [startoffset endoffset st_blobname to_ShardTuple].
  rewrite (to_int32_id (begin_ d)), (to_int32_id (end_ d)) by (unfold is_int32; lia).
  rewrite !Z2Nat.id in Hk by lia. destruct Hk as [[k Hk]|[-> ->]]; [|done]. rewrite Hk. unfold pairs_of.
  pose proof (fix_word_boundary_length _ _ _ _ Hk) as Hl. unfold downloaded in Hl.
  rewrite length_take, length_drop in Hl.
  assert (plain (blanks k ++ text)) as Hp'.
  { apply plain_app. split; [|done]. apply Forall_forall. intros a [-> _]%elem_of_replicate. done. }
  destruct (scripts_map unicode (blanks k ++ text) (shard_file (begin_ d) (end_ d) addr))
    as (items & -> & Hit); [done|lia|]. cbn [py_items]. by rewrite Hit, words_of_blanks.
Qed.

Lemma shards_words (addrs : list string) shards texts :
  length addrs = length shards →
  (∀ s d, s ∈ shards → d ∈ sets_ s → 0 ≤ begin_ d < 2 ^ 31 ∧ 0 ≤ end_ d < 2 ^ 31 ∧
     Z.of_nat (length (content (blobName_ d))) < 2 ^ 31) →
  Forall plain texts → Forall2 (WorkerText.kept content) (concat (sets_ <$> shards)) texts →
  concat (zip_with (shard_pairs (scripts unicode) content) addrs shards)
  ≡ₚ reprs (texts ≫= λ t, word_count (words_of t)).
Proof.
  revert addrs texts. induction shards as [|s shards IH]; intros [|addr addrs] texts Hlen Hb Hp Hk; try done.
  { inversion Hk; by subst. }
  rewrite fmap_cons in Hk. cbn [concat zip_with] in *.
  apply Forall2_app_inv_l in Hk as (ts1 & ts2 & Hk1 & Hk2 & ->).
  apply Forall_app in Hp as [Hp1 Hp2]. rewrite bind_app. unfold reprs in *. rewrite fmap_app.
  apply Permutation_app; [|apply IH; [simpl in Hlen; lia|set_solver|done|done]].
  pose proof (λ d, Hb s d (list_elem_of_here _ _)) as Hbs. clear Hb. rename Hbs into Hb.
  unfold shard_pairs. clear -Hb Hp1 Hk1. revert Hb Hp1.
  induction Hk1 as [|d t ds ts Hd _ IH]; intros Hb Hp; [done|]. apply Forall_cons in Hp as [Ht Hp].
  rewrite fmap_cons, !bind_cons, fmap_app. apply Permutation_app.
  - destruct (Hb d) as (? & ? & ?); [set_solver|]. by apply piece_words.
  - apply IH; [set_solver|done].
Qed.
End Pieces.

(** ** Lemmas: putting the outputs together *)

Lemma list_choice {A B} (P : A → B → Prop) (l : list A) :
  (∀ x, x ∈ l → ∃ y, P x y) → ∃ k, Forall2 P l k.
Proof.
  induction l as [|x l IH]; intros H; [by exists []|].
  destruct (H x) as [y Hy]; [set_solver|]. destruct IH as [k Hk]; [set_solver|]. by exists (y :: k); constructor.
Qed.

Lemma concat_perm {A B} (f : A → list B) (l : list A) (k : list (list B)) :
  Forall2 (λ x y, y ≡ₚ f x) l k → concat k ≡ₚ l ≫= f.
Proof. induction 1 as [|x y l k Hy _ IH]; [done|]. rewrite bind_cons. cbn [concat]. by rewrite Hy, IH. Qed.

Lemma ones_bind {A} (f : A → list bytes) (xs : list A) : ones (xs ≫= f) = xs ≫= λ x, ones (f x).
Proof. induction xs as [|x xs IH]; [done|]. rewrite !bind_cons, <-IH. apply fmap_app. Qed.

Lemma bind_concat {A B} (f : A → list B) (xs : list A) : xs ≫= f = concat (f <$> xs).
Proof. induction xs as [|x xs IH]; [done|]. by rewrite bind_cons, IH. Qed.

(** The word counts of the parts, all together. *)
Definition part_counts (texts : list bytes) : list (bytes * Z) :=
  texts ≫= λ t, word_count (words_of t).

Lemma part_counts_sum texts : group_sum (part_counts texts) ≡ₚ word_count (texts ≫= words_of).
Proof. unfold part_counts, word_count. rewrite group_sum_bind. by rewrite ones_bind. Qed.

Lemma part_counts_words texts : word_items (part_counts texts).
Proof. unfold word_items, part_counts. apply Forall_bind, Forall_forall. intros t _. apply word_count_words. Qed.

Lemma part_counts_bound texts k :
  0 ≤ key_total k (part_counts texts) ≤ Z.of_nat (length (texts ≫= words_of)).
Proof.
  rewrite <-key_total_group_sum, part_counts_sum. unfold word_count. rewrite key_total_group_sum.
  apply ones_bounds.
Qed.

(** What [reduce.py] makes of a class of the words. *)
Lemma class_reduced unicode hash n j texts items f :
  Z.of_nat (length (texts ≫= words_of)) ≤ long_max →
  items ≡ₚ part hash n j (reprs (part_counts texts)) →
  ∃ out, py_items (scripts unicode "reduce" f (Some (items ≫= pair_line))) = out ∧
    out ≡ₚ reprs (group_sum (filter (λ kv, hash (py_repr kv.1) mod n = j) (part_counts texts))).
Proof.
  intros Hmax Hit. rewrite part_reprs in Hit.
  unfold reprs in Hit at 1. apply Permutation_map_inv in Hit as (l & -> & Hl).
  change (map ?g l) with (reprs l).
  assert (word_items l ∧ Forall (λ kv, long_min ≤ kv.2 ≤ long_max) (group_sum l)) as [Hw Hb].
  { split.
    - unfold word_items. rewrite <-Hl. apply Forall_forall. intros kv [_ Hkv]%list_elem_of_filter.
      pose proof (part_counts_words texts) as Hw. unfold word_items in Hw. rewrite Forall_forall in Hw. by apply Hw.
    - rewrite <-Hl. apply Forall_fmap, Forall_forall. intros k _.
      assert (key_total k (filter (λ kv, hash (py_repr kv.1) mod n = j) (part_counts texts))
        = if decide (hash (py_repr k) mod n = j) then key_total k (part_counts texts) else 0) as Ht
        by exact (key_total_filter (λ k, hash (py_repr k) mod n = j) k (part_counts texts)).
      unfold compose. cbn [snd]. rewrite Ht. pose proof (part_counts_bound texts k). destruct (decide _); unfold long_min, long_max in *; lia. }
  destruct (scripts_reduce unicode l f Hw Hb) as (items & -> & Hp). exists items. split; [done|].
  by rewrite Hp, <-Hl.
Qed.

(** ** The property *)

Section Job.
Context {S : Type} {HS : Storage S} {HL : StorageLaws S}.
Context (unicode : string → bytes → option (list (string * Z))) (hash : string → Z) (Hhash : ∀ s, 0 ≤ hash s).
Context (conn : string) (Hst : storage_ok (S:=S) conn).
Context (items : list blob_item) (content : string → bytes).

Abbreviation py := (scripts unicode).

(** Blobs a job counts the words of: not empty, of less than 2 GiB each, of
    printable ASCII characters and newlines, without a run of 16 characters that
    has no space, period or comma. *)
Record countable_blobs : Prop := {
  cb_some : blobs items ≠ [];
  cb_size : Forall (λ it, 0 < item_size it) (blobs items);
  cb_lists : Forall (lists content) (blobs items);
  cb_plain : Forall (λ it, plain (content (item_name it))) (blobs items);
  cb_short : all_short content items;
  cb_words : Z.of_nat (length (blobs items ≫= λ it, words_of (content (item_name it)))) ≤ long_max
}.

Definition all_words : list bytes := blobs items ≫= λ it, words_of (content (item_name it)).

Lemma words_additive : additive words_of.
Proof using. split; [done|]. intros. by apply words_of_delim. Qed.

(** The set-up establishes what the phases need. *)
Lemma set_up_ready zk junk storage events h w0 w sz :
  countable_blobs → (∀ l, zk_children zk "/workers" = Ret l → Forall node_name l) → clients_wf w0 →
  process_setup zk junk storage (Ret items) events h w0 = (w, Ret tt) →
  calc_shard_sz items (m_nmappers (master w)) = Ret sz → 0 < sz < 2 ^ 63 →
  m_nmappers (master w) = Z.of_nat (length (m_shards (master w))) →
  job_ready w ∧ Z.of_nat (length (m_shards (master w))) < 2 ^ 31 ∧ m_shards (master w) ≠ [] ∧
  shards_ok content w ∧
  (∀ s d, s ∈ m_shards (master w) → d ∈ sets_ s → ∃ it, it ∈ blobs items ∧
     blobName_ d = item_name it ∧ 0 ≤ begin_ d < end_ d ∧ end_ d ≤ item_size it) ∧
  ∃ texts, Forall2 (WorkerText.kept content) (concat (sets_ <$> m_shards (master w))) texts ∧
    Forall plain texts ∧ texts ≫= words_of = all_words.
Proof using.
  intros [Hsome Hsize Hlists Hplain Hshort Hwords] Hzk Hw0 Hp Hsz Hpos Hnm.
  destruct (process_setup_returns _ _ _ _ _ _ _ _ Hzk Hw0 Hp)
    as (Hcl & [= Hnm' _ _] & conn' & wa & wb & Hconn & Hcreate & Hnma & Hsh).
  assert (Z.of_nat (length (m_shards (master w))) < 2 ^ 31) as Hids.
  { rewrite <-Hnm, Hnm'. apply to_int32_range. }
  rewrite <-Hnma in Hsz. rewrite <-Hsh in *.
  assert (Forall (fits sz) (blobs items)) as Hfits.
  { rewrite !Forall_forall in *. intros it Hit. specialize (Hsize it Hit). destruct (Hlists it Hit) as [_ Hlt].
    unfold fits. lia. }
  destruct (shards_inside items wa wb conn' sz Hconn Hsz ltac:(lia) Hfits Hsize Hcreate)
    as (Hne & Hin & Hid & Hnil).
  split; [|split; [done|split; [by apply Hnil|split; [|split; [done|]]]]].
  - split.
    + intros i s. rewrite <-Hsh. intros Hi. rewrite (Hid i s Hi). apply to_int32_id. unfold is_int32.
      apply lookup_lt_Some in Hi. lia.
    + exact Hcl.
  - intros s. rewrite <-Hsh. intros Hs. split; [by apply Hne|]. intros d Hd.
    destruct (Hin s d Hs Hd) as (it & Hit & -> & Hb & He). rewrite Forall_forall in Hlists.
    destruct (Hlists it Hit) as [<- Hlt]. lia.
  - destruct (workers_read_spec content items wa conn' sz wb Hconn Hsz ltac:(lia) Hfits Hlists (or_intror Hshort) Hcreate)
      as (texts & Hcat & Hadd & Hk).
    exists texts. split; [by eapply Forall2_impl; [exact Hk|]; intros ?? []|]. split.
    + assert (Forall is_plain (concat texts)) as Hpl.
      { rewrite Hcat. apply Forall_concat, Forall_fmap. exact Hplain. }
      by apply Forall_concat in Hpl.
    + rewrite bind_concat, (Hadd Hshort _ _ words_additive). unfold all_words. by rewrite bind_concat.
Qed.

(** C1: A job of word counting, from the request to the outputs. The blobs are
    not empty, below 2 GiB each, of printable ASCII characters and newlines, with
    no run of 16 characters that has no space, period or comma, with no more words
    in all than a [long] can count ([countable_blobs]); [std::hash] is not negative;
    the storage holds them under the names of the listing and performs every
    operation of the workers ([storage_ok]); the workers are idle, connected to
    nothing or to this job, and have answered nothing yet; the master's client
    tables agree ([clients_wf]) and the names of the worker nodes are nodes' names
    ([node_name]); the set-up of the request returns, with a shard size that is
    positive and below 2^63, as many shards as mappers and at least one reducer.
    Then, whatever the master and the workers do in
    whatever order, retries, repeated executions and workers that come and go
    included, when the job has returned the outputs of the reducers, taken
    together, list every word of the blobs exactly once with the number of its
    occurrences. *)
Theorem word_count_job zk junk storage events h w0 w sz cl x d :
  countable_blobs → (∀ l, zk_children zk "/workers" = Ret l → Forall node_name l) → clients_wf w0 →
  process_setup zk junk storage (Ret items) events h w0 = (w, Ret tt) →
  calc_shard_sz items (m_nmappers (master w)) = Ret sz → 0 < sz < 2 ^ 63 →
  m_nmappers (master w) = Z.of_nat (length (m_shards (master w))) → 0 < m_nreducers (master w) →
  Forall (worker_ok conn (rh_container h)) (cl_workers cl) → cl_map cl = [] → cl_red cl = [] →
  (∀ it, it ∈ blobs items →
     stored (rh_container h) (item_name it) (content (item_name it)) (cl_store cl)) →
  rtc (map_sys_step py hash conn (rh_container h) w) (runMapper_start w, cl) x → mpc x.1 = MReturn →
  rtc (red_sys_step py hash conn (rh_container h) w (mw x.1)) (process_reduce x.1, x.2) d →
  rpc d.1 = RReturn →
  ∃ outs,
    Forall2 (λ j out, stored (out_container (rh_container h)) (out_name j) (out ≫= pair_line) (cl_store d.2))
      (Z.of_nat <$> seq 0 (Z.to_nat (m_nreducers (master w)))) outs ∧
    concat outs ≡ₚ reprs (word_count all_words).
Proof using HL Hhash Hst.
  intros Hcb Hzk Hw0 Hp Hsz Hpos Hnm Hn Hws Hm Hr Htext Hr1 Hpc1 Hr2 Hpc2.
  destruct (set_up_ready _ _ _ _ _ _ _ _ Hcb Hzk Hw0 Hp Hsz Hpos Hnm)
    as (Hready & Hids & Hne & Hsh & Hin & texts & Hk & Hplain & Hwords).
  destruct (process_setup_returns _ _ _ _ _ _ _ _ Hzk Hw0 Hp) as (_ & [= _ Hnr _] & _).
  assert (0 < m_nreducers (master w) < 2 ^ 31) as Hn'.
  { split; [done|]. rewrite Hnr. apply to_int32_range. }
  destruct (job_outputs_spec py hash conn (rh_container h) content Hst Hhash) with (w := w) (cl := cl) (x := x) (d := d)
    as (addrs & Hlen & Hout); try done.
  { intros f data. split; apply scripts_attr. }
  { split; [done| |done..]. intros s e Hs He. destruct (Hin s e Hs He) as (it & Hit & -> & _). by apply Htext. }
  { rewrite <-Hnm. apply to_size_id. unfold is_size. lia. }
  set (n := m_nreducers (master w)) in *.
  assert (concat (zip_with (shard_pairs py content) addrs (m_shards (master w)))
    ≡ₚ reprs (part_counts texts)) as Hpairs.
  { apply shards_words; [done| |done|done]. intros s e Hs He.
    destruct (Hin s e Hs He) as (it & Hit & -> & Hb & Hend). pose proof (cb_lists Hcb) as Hl.
    rewrite Forall_forall in Hl. destruct (Hl it Hit) as [Heq Hlt]. lia. }
  assert (Z.of_nat (length (texts ≫= words_of)) ≤ long_max) as Hmax by (rewrite Hwords; apply Hcb).
  set (class j := reprs (group_sum (filter (λ kv, hash (py_repr kv.1) mod n = j) (part_counts texts)))).
  destruct (list_choice (λ j out, stored (out_container (rh_container h)) (out_name j) (out ≫= pair_line)
    (cl_store d.2) ∧ out ≡ₚ class j) (Z.of_nat <$> seq 0 (Z.to_nat n))) as (outs & Houts).
  { intros j (k & -> & Hk'%elem_of_seq)%list_elem_of_fmap. destruct (Hout (Z.of_nat k)) as (addr & its & Hits & Ho);
      [lia|]. unfold reducer_pairs in Hits.
    destruct (class_reduced unicode hash n (Z.of_nat k) texts its (kv_file addr (Z.of_nat k)) Hmax)
      as (out & Heq & Hperm).
    { rewrite Hits. unfold part. by rewrite Hpairs. }
    exists out. split; [|done]. unfold reduce_out in Ho. by rewrite Heq in Ho. }
  exists outs. split; [by eapply Forall2_impl; [exact Houts|]; intros ?? []|].
  rewrite (concat_perm class); [|by eapply Forall2_impl; [exact Houts|]; intros ?? []].
  unfold class. rewrite <-reprs_bind. apply reprs_proper.
  rewrite <-Hwords, <-part_counts_sum.
  apply (group_sum_partition (λ k, hash (py_repr k) mod n)). intros k _. rewrite Z2Nat.id by lia.
  apply Z.mod_pos_bound. lia.
Qed.
End Job.

(** ** A run

    Two blobs for two mappers, cut inside a word; both workers execute the first
    shard, and the reply that reaches the master is that of the first to do so. *)

Definition ex_wc_items : list blob_item := [mk_blob_item true "a.txt" 12; mk_blob_item true "b.txt" 10].
Definition ex_wc_content (name : string) : bytes :=
  to_bytes (if decide (name = "a.txt") then "A cat, a dog" else "the cat. a").
Definition ex_wc_hash (s : string) : Z := Z.of_nat (String.length s / 2).
Definition ex_wc_request : req_handler :=
  req_handler_new (mkRequest "POST" "/upload?container=c&m=2&r=2").
Definition ex_wc_leader : World :=
  let w := World_new 0 in w <| master := (master w) <| m_dbConnection := Some "conn" |> |>.
Definition ex_wc_zk : Zookeeper :=
  mkZookeeper (λ p, if decide (p = "/workers") then Ret ["worker_0"] else Ret ["master_0"])
    (λ _, "10.0.0.1:50051").
Definition ex_wc_world : World :=
  (process_setup ex_wc_zk PING_SUCCESS (λ _, Ret tt) (Ret ex_wc_items) [] ex_wc_request ex_wc_leader).1.

Definition ex_wc_worker (a : string) : Worker * gmap string bytes :=
  ((Worker_new 0) <| m_full_address := a |> <| w_dbConnection := Some (job_db "conn" "c") |>, ∅).
Definition ex_wc_cluster : WorkerCluster (gmap (string * string) bytes) :=
  mkWorkerCluster
    {[ ("c", "a.txt") := ex_wc_content "a.txt"; ("c", "b.txt") := ex_wc_content "b.txt" ]}
    [ex_wc_worker "a:1"; ex_wc_worker "b:1"] [] [].

Definition ex_wc_map : list (sys_event map_action) :=
  [EvMaster ADispatch; EvMaster AStarted; EvMaster ADispatch; EvMaster AStarted; EvMaster ADispatched;
   EvTask 1 0; EvTask 0 1; EvTask 0 0; EvMaster CEnter; EvReply 1 1; EvMaster CPublished;
   EvMaster ASpin; EvMaster AProcess; EvMaster ACount; EvMaster ACheck; EvMaster ADispatched;
   EvMaster CEnter; EvReply 0 2; EvMaster CPublished;
   EvMaster ASpin; EvMaster AProcess; EvMaster ACount; EvMaster ACheck].
Definition ex_wc_reduce : list (sys_event reduce_action) :=
  [EvMaster BDispatch; EvMaster BStarted; EvMaster BDispatch; EvMaster BStarted; EvMaster BDispatched;
   EvTask 0 1; EvTask 1 0; EvMaster BEnter; EvReply 0 0; EvMaster BEnter; EvReply 0 1;
   EvMaster BAwait; EvMaster BProcess; EvMaster BProcess; EvMaster BCheck].

Abbreviation ex_scripts := (scripts ex_unicode).

Definition ex_wc_start : MapConf * WorkerCluster (gmap (string * string) bytes) :=
  (runMapper_start ex_wc_world, ex_wc_cluster).
Definition ex_wc_mapped : MapConf * WorkerCluster (gmap (string * string) bytes) :=
  default ex_wc_start (map_sys_run ex_scripts ex_wc_hash ex_wc_world ex_wc_map ex_wc_start).
Definition ex_wc_end : RedConf * WorkerCluster (gmap (string * string) bytes) :=
  let x := (process_reduce ex_wc_mapped.1, ex_wc_mapped.2) in
  default x (red_sys_run ex_scripts ex_wc_hash (mw ex_wc_mapped.1) ex_wc_reduce x).

Lemma run_default {X} (o : option X) (x : X) :
  match o with Some _ => true | None => false end = true → o = Some (default x o).
Proof. by destruct o. Qed.

Lemma ex_wc_map_run :
  map_sys_run ex_scripts ex_wc_hash ex_wc_world ex_wc_map ex_wc_start = Some ex_wc_mapped.
Proof. apply run_default. vm_compute. reflexivity. Qed.

Lemma ex_wc_reduce_run :
  red_sys_run ex_scripts ex_wc_hash (mw ex_wc_mapped.1) ex_wc_reduce
    (process_reduce ex_wc_mapped.1, ex_wc_mapped.2) = Some ex_wc_end.
Proof. apply run_default. vm_compute. reflexivity. Qed.

(** The outputs of the run. *)
Example ex_wc_outputs :
  (λ b, String.string_of_list_ascii (fetched "cout" (cl_store ex_wc_end.2) b)) <$> ["out_0"; "out_1"]
  = ["'cat':2" +:+ String newline ("'dog':1" +:+ String newline ("'the':1" +:+ String newline ""));
     "'a':3" +:+ String newline ""].
Proof. vm_compute. reflexivity. Qed.

Lemma ex_wc_hash_pos s : 0 ≤ ex_wc_hash s.
Proof. unfold ex_wc_hash. lia. Qed.

Lemma ex_wc_storage : storage_ok (S:=gmap (string * string) bytes) "conn".
Proof. split; [done|by eexists|by eexists]. Qed.

Lemma ex_wc_short t : (length t < 16)%nat → short_words t.
Proof. intros Ht p. pose proof (run_le t p). lia. Qed.

(** What holds of both blobs. *)
Lemma ex_wc_blobs (P : blob_item → Prop) :
  P (mk_blob_item true "a.txt" 12) → P (mk_blob_item true "b.txt" 10) → Forall P (blobs ex_wc_items).
Proof.
  intros Ha Hb. change (blobs ex_wc_items) with [mk_blob_item true "a.txt" 12; mk_blob_item true "b.txt" 10].
  by repeat constructor.
Qed.

Lemma ex_wc_countable : countable_blobs ex_wc_items ex_wc_content.
Proof.
  split; [discriminate|apply ex_wc_blobs..|vm_compute; discriminate]; try done;
    try (by apply forallb_True); apply ex_wc_short; vm_compute; lia.
Qed.

Lemma ex_wc_workers : Forall (worker_ok "conn" "c") (cl_workers ex_wc_cluster).
Proof. repeat constructor; by right. Qed.

Lemma ex_wc_ready : job_ready ex_wc_world.
Proof.
  split.
  - intros [|[|i]] s; vm_compute; [by intros [= <-]..|done].
  - assert (m_Clients (master ex_wc_world) = [0%nat]) as -> by (vm_compute; reflexivity).
    intros p ->%list_elem_of_singleton. vm_compute. by eexists.
Qed.

Lemma word_count_job_witness :
  ∃ outs,
    Forall2 (λ j out, stored "cout" (out_name j) (out ≫= pair_line) (cl_store ex_wc_end.2))
      [0; 1] outs ∧
    concat outs ≡ₚ reprs (word_count (all_words ex_wc_items ex_wc_content)).
Proof.
  apply (word_count_job ex_unicode ex_wc_hash ex_wc_hash_pos "conn" ex_wc_storage ex_wc_items ex_wc_content
    ex_wc_zk PING_SUCCESS (λ _, Ret tt) [] ex_wc_request ex_wc_leader ex_wc_world 11 ex_wc_cluster
    ex_wc_mapped ex_wc_end).
  - exact ex_wc_countable.
  - intros l [= <-]. repeat constructor.
  - apply (clients_wf_same (World_new 0)); [|reflexivity..].
    exact (lt_clients _ (World_new_typed 0 ltac:(unfold is_int32; lia))).
  - vm_compute. reflexivity.
  - vm_compute. reflexivity.
  - lia.
  - vm_compute. reflexivity.
  - vm_compute. reflexivity.
  - exact ex_wc_workers.
  - reflexivity.
  - reflexivity.
  - intros it [->|[->|[]%elem_of_nil]%elem_of_cons]%elem_of_cons; vm_compute; reflexivity.
  - exact (map_sys_run_rtc _ _ _ _ _ _ _ _ ex_wc_map_run).
  - vm_compute. reflexivity.
  - exact (red_sys_run_rtc _ _ _ _ _ _ _ _ _ ex_wc_reduce_run).
  - vm_compute. reflexivity.
Defined.

Lemma job_outputs_witness :
  ∃ addrs, length addrs = 2%nat ∧
    ∀ j, 0 ≤ j < m_nreducers (master ex_wc_world) → ∃ addr items,
      items ≡ₚ reducer_pairs ex_scripts ex_wc_hash ex_wc_content 2 j addrs (m_shards (master ex_wc_world)) ∧
      stored "cout" (out_name j) (reduce_out ex_scripts addr j (items ≫= pair_line)) (cl_store ex_wc_end.2).
Proof.
  apply (job_outputs ex_scripts ex_wc_hash "conn" "c" ex_wc_content ex_wc_storage ex_wc_hash_pos
    (λ f data, conj (scripts_attr ex_unicode "map" f data) (scripts_attr ex_unicode "reduce" f data))
    ex_wc_world) with (cl := ex_wc_cluster) (x := ex_wc_mapped).
  - exact ex_wc_ready.
  - vm_compute. by split.
  - vm_compute. reflexivity.
  - intros s Hs. vm_compute in Hs. apply list_elem_of_In in Hs as [<-|[<-|[]]]; (split; [discriminate|]);
      intros d Hd%list_elem_of_In; cbn in Hd; repeat destruct Hd as [<-|Hd]; cbn; try lia; done.
  - split; [exact ex_wc_workers| |reflexivity|reflexivity]. intros s d Hs Hd.
    vm_compute in Hs. apply list_elem_of_In in Hs as [<-|[<-|[]]];
      apply list_elem_of_In in Hd; cbn in Hd; repeat destruct Hd as [<-|Hd]; done.
  - vm_compute. discriminate.
  - vm_compute. reflexivity.
  - exact (map_sys_run_rtc _ _ _ _ _ _ _ _ ex_wc_map_run).
  - vm_compute. reflexivity.
  - exact (red_sys_run_rtc _ _ _ _ _ _ _ _ _ ex_wc_reduce_run).
  - vm_compute. reflexivity.
Defined.
