(* ===== verification/Workshop6.v ===== *)
(** * The masters and workers of [src/w6]

    The framework's first stage: masters elect a leader, a worker registers its
    address, and the leader sends it greetings. [src/w6/src] keeps the leader's
    path on [/masters]; [src/w6/DockerFolder] has the [/leader] node and the
    watch that [src/w7] keeps, and compares pod names.

    The theorems: at most one live master leads, and [/masters] names it; a round
    of the election makes a master the leader exactly when no live master leads
    and it is the smallest; the loop that waits for a worker's address never
    waits. *)

From S2P Require Export Startup.

(** ** Greetings *)

(** [GreeterServiceImpl::SayHello], and [GreeterClient::SayHello] with [rpc] for
    the call. *)
Definition SayHello_server (name : string) : string := name +:+ "gatech".
Definition SayHello (rpc : string → rpc_result string) (user : string) : string :=
  match rpc user with RpcOk message => message | RpcError _ => "RPC failed" end.

(** ** Workers *)

(** The address both [RunServer]s listen on. *)
Definition RunServer6_address (ipAddress : string) : string := ipAddress +:+ ":50051".

(** [main] of the worker: what it writes. *)
Definition worker6_main (ipAddress ownPath : string) : list zk_write :=
  [ZCreate "/workers"; ZCreateSequence "/workers/worker_" ""; ZSetData ownPath ipAddress].
Definition worker6_docker_main (ipAddress : string) : list zk_write :=
  [ZCreate "/workers"; ZCreateEphemeral "/workers/worker1"; ZSetData "/workers/worker1" ipAddress].

(** ** The master of [src/w6/src] *)

Record Master6 : Type := mkMaster6 {
  ownPath : string;
  amLeader : bool;
  hadPreviousLeader : bool
}.

#[export] Instance eta_Master6 : EtaRecord Master6 := λ r,
  mkMaster6 (ownPath r) (amLeader r) (hadPreviousLeader r).

Definition Master6_new (path : string) : Master6 := mkMaster6 path false false.

(** One round of [while (!amLeader)]: [zk] gives the data and the children,
    [checkExists] the codes. The writes come second. *)
Definition master6_round (zk : Zookeeper) (checkExists : string → Z) (m : Master6)
    : outcome (Master6 * list zk_write) :=
  let curLeader := zk_data zk "/masters" in
  let m := if decide (curLeader = "") then m else m <| hadPreviousLeader := true |> in
  if decide (curLeader ≠ "" ∧ checkExists curLeader = ZOK) then Ret (m, [])
  else
    let! children := zk_children zk "/masters" in
    match merge_sort String.le children with
    | [] => Raise OutOfRange
    | child :: _ =>
        let nextLeader := "/masters/" +:+ child in
        if decide (nextLeader = ownPath m)
        then Ret (m <| amLeader := true |>, [ZSetData "/masters" (ownPath m)])
        else Ret (m, [])
    end.

(** The address of the worker: the loop's body assigns to a variable of its
    own, so that the one tested keeps its value. *)
Definition master6_target (zk : Zookeeper) : outcome string :=
  let! wrkrs := zk_children zk "/workers" in
  match wrkrs with
  | [] => Raise OutOfRange
  | x :: _ =>
      let target_str := zk_data zk ("/workers/" +:+ x) +:+ ":50051" in
      if decide (target_str = "") then Parked else Ret target_str
  end.

(** ** The master of [src/w6/DockerFolder] *)

Record MasterDocker : Type := mkMasterDocker {
  md_podid : string;
  md_watchTriggered : bool;
  md_isLeader : bool
}.

#[export] Instance eta_MasterDocker : EtaRecord MasterDocker := λ r,
  mkMasterDocker (md_podid r) (md_watchTriggered r) (md_isLeader r).

Definition docker_exists_watcher_fn (ret : Z) (m : MasterDocker) : MasterDocker :=
  if decide (ret = ZOK) then m else m <| md_watchTriggered := true |>.

(** [isLeader = elect_leader(podid, framework)]. *)
Definition docker_elect_leader (zk : Zookeeper) (m : MasterDocker)
    : outcome (MasterDocker * list zk_write) :=
  let m := m <| md_watchTriggered := false |> in
  let! children := zk_children zk "/masters" in
  match sort_children children with
  | [] => Raise OutOfRange
  | child :: _ =>
      if decide (zk_data zk ("/masters/" +:+ child) = md_podid m)
      then Ret (m <| md_isLeader := true |>,
                [ZCreateEphemeral "/leader"; ZSetData "/leader" child])
      else Ret (m <| md_isLeader := false |>, [])
  end.

(** [main] up to its loop; [ret] is what [checkExists] answers. *)
Definition docker_main (ret : Z) (zk : Zookeeper) (podid : string)
    : outcome (MasterDocker * list zk_write) :=
  let m := mkMasterDocker podid false false in
  let writes := [ZCreate "/masters"; ZCreateSequence "/masters/master_" podid] in
  if decide (ret = ZNONODE) then
    let! (m, ws) := docker_elect_leader zk m in Ret (m, writes ++ ws)
  else Ret (m, writes).

(** One round of [while(!isLeader)]. *)
Definition docker_round (zk : Zookeeper) (m : MasterDocker) : outcome (MasterDocker * list zk_write) :=
  if md_watchTriggered m then docker_elect_leader zk m else Ret (m, []).

Definition docker_target (zk : Zookeeper) : outcome string :=
  let! wrkrs := zk_children zk "/workers" in
  match wrkrs with
  | [] => Raise OutOfRange
  | _ :: _ => Ret (zk_data zk "/workers/worker1" +:+ ":50051")
  end.

(** ** Specification: a cluster of masters *)

(** The live masters by number, the next number, and the data of [/masters]. *)
Record Cluster6 : Type := mkCluster6 {
  live6 : gmap Z Master6;
  next6 : Z;
  data6 : string
}.

Definition path6 (n : Z) : string := "/masters/" +:+ master_node n.
Definition numbers6 (cl : Cluster6) : list Z := (map_to_list (live6 cl)).*1.

(** The children of [/masters]. *)
Definition children6 (zk : Zookeeper) (cl : Cluster6) : Prop :=
  ∃ l, zk_children zk "/masters" = Ret l ∧ l ≡ₚ master_node <$> numbers6 cl.

(** A round sees the present children; what it has read of the leader before may
    be outdated, so that it is left open. *)
Inductive cluster6_step (cl : Cluster6) : Cluster6 → Prop :=
  | c6_join : 0 ≤ next6 cl < seq_limit →
      cluster6_step cl (mkCluster6 (<[next6 cl := Master6_new (path6 (next6 cl))]> (live6 cl))
                          (next6 cl + 1) (data6 cl))
  | c6_gone n : cluster6_step cl (mkCluster6 (delete n (live6 cl)) (next6 cl) (data6 cl))
  | c6_round n m zk checkExists m' ws : live6 cl !! n = Some m → amLeader m = false →
      children6 zk cl → master6_round zk checkExists m = Ret (m', ws) →
      cluster6_step cl (mkCluster6 (<[n := m']> (live6 cl)) (next6 cl)
                          (if amLeader m' then ownPath m' else data6 cl)).

Definition cluster6_start : Cluster6 := mkCluster6 ∅ 0 "".

(** All of what a round asks, answered from one state of the cluster. *)
Definition answers6 (zk : Zookeeper) (checkExists : string → Z) (cl : Cluster6) : Prop :=
  children6 zk cl ∧ zk_data zk "/masters" = data6 cl ∧
  ∀ n, 0 ≤ n < seq_limit → checkExists (path6 n) = ZOK ↔ is_Some (live6 cl !! n).

Record cluster6_inv (cl : Cluster6) : Prop := {
  c6_seq : 0 ≤ next6 cl ≤ seq_limit;
  c6_live : ∀ n, is_Some (live6 cl !! n) → 0 ≤ n < next6 cl;
  c6_path : ∀ n m, live6 cl !! n = Some m → ownPath m = path6 n;
  c6_leader : ∀ n m, live6 cl !! n = Some m → amLeader m = true →
    data6 cl = path6 n ∧ Forall (Z.le n) (numbers6 cl);
  c6_data : data6 cl = "" ∨ ∃ k, 0 ≤ k < next6 cl ∧ data6 cl = path6 k ∧
    ∀ m, live6 cl !! k = Some m → amLeader m = true
}.

(** ** Lemmas *)

#[local] Opaque seq_limit master_node.

Lemma path6_inj a b : 0 ≤ a < seq_limit → 0 ≤ b < seq_limit → path6 a = path6 b → a = b.
Proof. intros Ha Hb H%(inj (String.app "/masters/")). by apply master_node_inj. Qed.

Lemma path6_nonempty n : path6 n ≠ "".
Proof. done. Qed.

Lemma numbers6_range cl n : cluster6_inv cl → n ∈ numbers6 cl → 0 ≤ n < seq_limit.
Proof.
  intros Hi Hn%elem_of_map_keys. pose proof (c6_live _ Hi n Hn). pose proof (c6_seq _ Hi). lia.
Qed.

(** The leader a master sees: one that it must wait for. *)
Definition blocked (zk : Zookeeper) (checkExists : string → Z) : Prop :=
  zk_data zk "/masters" ≠ "" ∧ checkExists (zk_data zk "/masters") = ZOK.
#[export] Instance blocked_dec zk ex : Decision (blocked zk ex) := decide (_ ∧ _).

Lemma master6_round_eq cl n m zk ex :
  cluster6_inv cl → live6 cl !! n = Some m → amLeader m = false → children6 zk cl →
  ∃ m', master6_round zk ex m = Ret (m',
      if decide (¬ blocked zk ex ∧ Forall (Z.le n) (numbers6 cl)) then [ZSetData "/masters" (path6 n)] else []) ∧
    ownPath m' = path6 n ∧
    amLeader m' = bool_decide (¬ blocked zk ex ∧ Forall (Z.le n) (numbers6 cl)).
Proof.
  intros Hi Hn Hl (l & Hc & Hperm). pose proof (c6_path _ Hi n m Hn) as Hp.
  unfold master6_round.
  set (m1 := if decide (zk_data zk "/masters" = "") then m else m <| hadPreviousLeader := true |>).
  assert (ownPath m1 = path6 n ∧ amLeader m1 = false) as [Hp1 Hl1]
    by (unfold m1; by destruct (decide _)).
  destruct (decide (zk_data zk "/masters" ≠ "" ∧ ex (zk_data zk "/masters") = ZOK)) as [Hb|Hb];
    fold (blocked zk ex) in Hb.
  { exists m1. rewrite decide_False, bool_decide_eq_false_2 by naive_solver. done. }
  assert (n ∈ numbers6 cl) as Hin by (apply elem_of_map_keys; by eexists).
  rewrite Hc. cbn [obind]. destruct (sorted_head l) as (child & k & -> & Hch & Hmin).
  { intros ->. symmetry in Hperm. apply Permutation_nil_r, fmap_nil_inv in Hperm.
    rewrite Hperm in Hin. by apply elem_of_nil in Hin. }
  pose proof (smallest_node (numbers6 cl) l child n (λ x, numbers6_range cl x Hi) Hperm Hch Hmin Hin) as Hsm.
  rewrite Hp1. destruct (decide ("/masters/" +:+ child = path6 n)) as [Heq|Hne].
  - apply (inj (String.app _)) in Heq. apply Hsm in Heq. eexists.
    rewrite decide_True, bool_decide_eq_true_2 by done. done.
  - exists m1. assert (¬ Forall (Z.le n) (numbers6 cl)) as Hf by (intros ->%Hsm; by apply Hne).
    rewrite decide_False, bool_decide_eq_false_2 by naive_solver. done.
Qed.

Lemma numbers6_insert cl n m x :
  x ∈ (map_to_list (<[n := m]> (live6 cl))).*1 ↔ x = n ∨ x ∈ numbers6 cl.
Proof. unfold numbers6. rewrite !elem_of_map_keys, lookup_insert_is_Some'. naive_solver. Qed.

Lemma cluster6_join_inv cl :
  cluster6_inv cl → 0 ≤ next6 cl < seq_limit →
  cluster6_inv (mkCluster6 (<[next6 cl := Master6_new (path6 (next6 cl))]> (live6 cl))
                  (next6 cl + 1) (data6 cl)).
Proof.
  intros [Hseq Hlive Hpath Hlead Hdata] Hn.
  assert (live6 cl !! next6 cl = None) as Hfresh.
  { apply eq_None_not_Some. intros H%Hlive. lia. }
  split; cbn [live6 next6 data6].
  - lia.
  - intros k. rewrite lookup_insert_is_Some'. intros [<-|Hk]; [lia|]. specialize (Hlive k Hk). lia.
  - intros k m. rewrite lookup_insert_Some. intros [[<- <-]|[_ ?]]; [done|eauto].
  - intros k m. rewrite lookup_insert_Some. intros [[<- <-]|[_ Hk]] Hm; [done|].
    destruct (Hlead k m Hk Hm) as [Hd Hall]. split; [done|]. apply Forall_forall.
    intros x [->|Hx]%numbers6_insert; [|by eapply Forall_forall in Hx].
    specialize (Hlive k ltac:(by eexists)). lia.
  - destruct Hdata as [?|(k & Hk & Hd & Hlk)]; [by left|]. right. exists k. split; [lia|]. split; [done|].
    intros m. rewrite lookup_insert_ne by lia. apply Hlk.
Qed.

Lemma cluster6_gone_inv cl n :
  cluster6_inv cl → cluster6_inv (mkCluster6 (delete n (live6 cl)) (next6 cl) (data6 cl)).
Proof.
  intros [Hseq Hlive Hpath Hlead Hdata].
  split; cbn [live6 next6 data6].
  - done.
  - intros k [m Hk]. apply lookup_delete_Some in Hk as [_ Hk]. apply Hlive. by eexists.
  - intros k m. rewrite lookup_delete_Some. intros [_ ?]. eauto.
  - intros k m. rewrite lookup_delete_Some. intros [_ Hk] Hm.
    destruct (Hlead k m Hk Hm) as [Hd Hall]. split; [done|]. apply Forall_forall. rewrite Forall_forall in Hall.
    intros x [u Hx]%elem_of_map_keys. apply Hall, elem_of_map_keys. cbn [live6] in Hx.
    apply lookup_delete_Some in Hx as [_ Hx]. by eexists.
  - destruct Hdata as [?|(k & Hk & Hd & Hlk)]; [by left|]. right. exists k. split; [done|]. split; [done|].
    intros m. rewrite lookup_delete_Some. intros [_ ?]. eauto.
Qed.

Lemma cluster6_round_inv cl n m zk ex m' ws :
  cluster6_inv cl → live6 cl !! n = Some m → amLeader m = false → children6 zk cl →
  master6_round zk ex m = Ret (m', ws) →
  cluster6_inv (mkCluster6 (<[n := m']> (live6 cl)) (next6 cl)
                  (if amLeader m' then ownPath m' else data6 cl)).
Proof.
  intros Hi Hn Hl Hc Hr. pose proof Hi as [Hseq Hlive Hpath Hlead Hdata].
  destruct (master6_round_eq cl n m zk ex Hi Hn Hl Hc) as (m2 & Hr2 & Hp2 & Hl2).
  rewrite Hr in Hr2. injection Hr2 as -> _.
  assert (∀ k, is_Some (<[n := m2]> (live6 cl) !! k) ↔ is_Some (live6 cl !! k)) as Hdom.
  { intros k. rewrite lookup_insert_is_Some'. split; [intros [<-|?]; [by eexists|done]|by right]. }
  assert (∀ k, Forall (Z.le k) (numbers6 cl) → Forall (Z.le k) (map_to_list (<[n := m2]> (live6 cl))).*1) as Hall.
  { intros k. rewrite !Forall_forall. intros H x [->|Hx]%numbers6_insert; [|by apply H].
    apply H, elem_of_map_keys. by eexists. }
  assert (0 ≤ n < next6 cl) as Hnr by (apply Hlive; by eexists).
  split; cbn [live6 next6 data6].
  - done.
  - intros k Hk%Hdom. by apply Hlive.
  - intros k u. rewrite lookup_insert_Some. intros [[<- <-]|[_ ?]]; [done|eauto].
  - intros k u. rewrite lookup_insert_Some. intros [[<- <-]|[Hne Hk]] Hu.
    + rewrite Hu. rewrite Hu in Hl2. symmetry in Hl2. apply bool_decide_eq_true_1 in Hl2 as [_ Hmin]. auto.
    + destruct (Hlead k u Hk Hu) as [Hd Hmin]. destruct (amLeader m2) eqn:E; [|by auto].
      symmetry in Hl2. apply bool_decide_eq_true_1 in Hl2 as [_ Hmin2]. exfalso.
      rewrite Forall_forall in Hmin, Hmin2.
      pose proof (Hmin n ltac:(apply elem_of_map_keys; by eexists)).
      pose proof (Hmin2 k ltac:(apply elem_of_map_keys; by eexists)). lia.
  - destruct (amLeader m2) eqn:E.
    + right. exists n. split; [done|]. split; [done|]. intros u. rewrite lookup_insert_eq. by intros [= <-].
    + destruct Hdata as [?|(k & Hk & Hd & Hlk)]; [by left|]. right. exists k. split; [done|]. split; [done|].
      intros u. rewrite lookup_insert_Some. intros [[<- <-]|[_ ?]]; [|eauto].
      specialize (Hlk m Hn). congruence.
Qed.

Lemma cluster6_step_inv cl cl' : cluster6_inv cl → cluster6_step cl cl' → cluster6_inv cl'.
Proof.
  intros Hi [Hn|n|n m zk ex m' ws Hn Hl Hc Hr];
    [by apply cluster6_join_inv|by apply cluster6_gone_inv|by eapply cluster6_round_inv].
Qed.

Lemma cluster6_reach_inv cl : rtc cluster6_step cluster6_start cl → cluster6_inv cl.
Proof.
  intros Hr. refine (rtc_invariant cluster6_step cluster6_inv _ _ cluster6_step_inv _ Hr).
  split; cbn [live6 next6 data6 cluster6_start]; [done|..|by left].
  - intros n. rewrite lookup_empty. by intros [? ?].
  - intros n m. by rewrite lookup_empty.
  - intros n m. by rewrite lookup_empty.
Qed.

(** ** Properties *)

(** At most one live master of [src/w6/src] leads, whatever masters join, end
    and run rounds of the election, also with outdated answers about the leader;
    it has the smallest number and [/masters] names it. *)
Theorem w6_one_leader cl a b ma mb :
  rtc cluster6_step cluster6_start cl →
  live6 cl !! a = Some ma → live6 cl !! b = Some mb → amLeader ma = true → amLeader mb = true →
  a = b ∧ data6 cl = ownPath ma ∧ Forall (Z.le a) (numbers6 cl).
Proof.
  intros Hi%cluster6_reach_inv Ha Hb Hla Hlb.
  destruct (c6_leader _ Hi a ma Ha Hla) as [Hd Hma]. destruct (c6_leader _ Hi b mb Hb Hlb) as [_ Hmb].
  split; [|by rewrite (c6_path _ Hi a ma Ha)]. rewrite Forall_forall in Hma, Hmb.
  apply Z.le_antisymm; [apply Hma|apply Hmb]; apply elem_of_map_keys; by eexists.
Qed.

(** C33: With answers from one state, a round makes a live master the leader
    exactly when no live master leads and it has the smallest number, and it
    writes its path then and only then: a leader that is gone is replaced in the
    next round of the smallest master. *)
Theorem w6_round_elects cl n m zk checkExists :
  rtc cluster6_step cluster6_start cl → live6 cl !! n = Some m → amLeader m = false →
  answers6 zk checkExists cl →
  let wins := bool_decide (map_Forall (λ _ x, amLeader x = false) (live6 cl) ∧
                           Forall (Z.le n) (numbers6 cl)) in
  ∃ m', master6_round zk checkExists m
        = Ret (m', if wins then [ZSetData "/masters" (ownPath m)] else []) ∧
    ownPath m' = ownPath m ∧ amLeader m' = wins.
Proof.
  intros Hi%cluster6_reach_inv Hn Hl (Hc & Hd & Hex). cbn zeta.
  destruct (master6_round_eq cl n m zk checkExists Hi Hn Hl Hc) as (m' & -> & Hp & Hl').
  rewrite (c6_path _ Hi n m Hn).
  assert (blocked zk checkExists ↔ ¬ map_Forall (λ _ x, amLeader x = false) (live6 cl)) as Hbl.
  { unfold blocked. rewrite Hd. destruct (c6_data _ Hi) as [Hno|(k & Hk & Hdk & Hlk)].
    - rewrite Hno. split; [by intros []|]. intros Hnot. exfalso. apply Hnot. intros j x Hj.
      apply not_true_is_false. intros Hx. destruct (c6_leader _ Hi j x Hj Hx) as [Hj' _]. by rewrite Hno in Hj'.
    - pose proof (c6_seq _ Hi). rewrite Hdk, (Hex k) by lia. split.
      + intros [_ [x Hx]] Hall. specialize (Hall k x Hx). simpl in Hall.
        specialize (Hlk x Hx). congruence.
      + intros Hnot. split; [done|]. apply not_eq_None_Some. intros Hnone. apply Hnot.
        intros j x Hj. apply not_true_is_false. intros Hx.
        destruct (c6_leader _ Hi j x Hj Hx) as [Hj' _]. rewrite Hdk in Hj'.
        apply path6_inj in Hj' as ->; [by rewrite Hnone in Hj|lia|].
        pose proof (c6_live _ Hi j ltac:(by eexists)). lia. }
  assert (¬ blocked zk checkExists ↔ map_Forall (λ _ x, amLeader x = false) (live6 cl)) as Hb.
  { rewrite Hbl. split; [apply dec_stable|tauto]. }
  exists m'. split; [|split; [done|]].
  - do 2 f_equal. destruct (decide (¬ blocked zk checkExists ∧ _)) as [H|H];
      [rewrite bool_decide_eq_true_2 by tauto|rewrite bool_decide_eq_false_2 by tauto]; done.
  - rewrite Hl'. apply bool_decide_ext. tauto.
Qed.

(** The loop that waits for the worker's address never waits: a worker that
    has not written its address yet yields the address of no host. *)
Theorem w6_target_never_waits zk x wrkrs :
  zk_children zk "/workers" = Ret (x :: wrkrs) →
  master6_target zk = Ret (zk_data zk ("/workers/" +:+ x) +:+ ":50051").
Proof.
  intros Hc. unfold master6_target. rewrite Hc. cbn [obind]. rewrite decide_False; [done|].
  generalize (zk_data zk ("/workers/" +:+ x)). by intros [|].
Qed.

(** ** Witnesses *)

#[local] Transparent seq_limit master_node.

Definition ex6_join2 : Cluster6 :=
  mkCluster6 (<[1 := Master6_new (path6 1)]> (<[0 := Master6_new (path6 0)]> ∅)) 2 "".

Lemma ex6_join2_reach : rtc cluster6_step cluster6_start ex6_join2.
Proof.
  eapply rtc_l; [apply (c6_join cluster6_start); split; [done|reflexivity]|].
  eapply rtc_l; [apply c6_join; split; [done|reflexivity]|]. apply rtc_refl.
Qed.

Definition ex6_zk (data : string) (ns : list Z) : Zookeeper :=
  mkZookeeper (λ p, if decide (p = "/masters") then Ret (master_node <$> ns) else Ret []) (λ _, data).

Lemma ex6_children data : children6 (ex6_zk data [1; 0]) ex6_join2.
Proof.
  exists (master_node <$> [1; 0]). split; [reflexivity|]. apply fmap_Permutation.
  apply (bool_decide_unpack _). vm_compute. reflexivity.
Qed.

(** The first leads. *)
Definition ex6_lead : Cluster6 :=
  mkCluster6 (<[0 := (Master6_new (path6 0)) <| amLeader := true |>]> (live6 ex6_join2)) 2 (path6 0).

Lemma ex6_lead_reach : rtc cluster6_step cluster6_start ex6_lead.
Proof.
  eapply rtc_r; [exact ex6_join2_reach|].
  refine (c6_round ex6_join2 0 (Master6_new (path6 0)) (ex6_zk "" [1; 0]) (λ _, ZNONODE)
    ((Master6_new (path6 0)) <| amLeader := true |>) [ZSetData "/masters" (path6 0)] _ _ (ex6_children "") _);
    vm_compute; reflexivity.
Qed.

Lemma w6_one_leader_witness :
  0 = 0 ∧ data6 ex6_lead = ownPath ((Master6_new (path6 0)) <| amLeader := true |>) ∧
  Forall (Z.le 0) (numbers6 ex6_lead).
Proof.
  apply (w6_one_leader ex6_lead 0 0 ((Master6_new (path6 0)) <| amLeader := true |>)
    ((Master6_new (path6 0)) <| amLeader := true |>) ex6_lead_reach); reflexivity.
Defined.

(** It ends; the second takes over. *)
Definition ex6_gone : Cluster6 := mkCluster6 (delete 0 (live6 ex6_lead)) 2 (path6 0).

Lemma ex6_gone_reach : rtc cluster6_step cluster6_start ex6_gone.
Proof. eapply rtc_r; [exact ex6_lead_reach|]. exact (c6_gone ex6_lead 0). Qed.

Definition ex6_exists (p : string) : Z := if decide (p = path6 1) then ZOK else ZNONODE.

Lemma ex6_answers : answers6 (ex6_zk (path6 0) [1]) ex6_exists ex6_gone.
Proof.
  split; [|split; [reflexivity|]].
  - exists (master_node <$> [1]). split; [reflexivity|]. apply fmap_Permutation.
    apply (bool_decide_unpack _). vm_compute. reflexivity.
  - intros n Hn. unfold ex6_exists. unfold ex6_gone, ex6_lead, ex6_join2. cbn [live6].
    destruct (decide (path6 n = path6 1)) as [Heq|Hne].
    + apply path6_inj in Heq as ->; [|done|split; [done|reflexivity]].
      split; [intros _; eexists; vm_compute; reflexivity|done].
    + split; [done|]. intros [x Hx]. exfalso.
      rewrite lookup_delete_Some, !lookup_insert_Some, lookup_empty in Hx. naive_solver.
Qed.

Lemma w6_round_elects_witness :
  ∃ m', master6_round (ex6_zk (path6 0) [1]) ex6_exists (Master6_new (path6 1))
        = Ret (m', [ZSetData "/masters" (path6 1)]) ∧
    ownPath m' = path6 1 ∧ amLeader m' = true.
Proof.
  apply (w6_round_elects ex6_gone 1 (Master6_new (path6 1)) (ex6_zk (path6 0) [1]) ex6_exists
    ex6_gone_reach eq_refl eq_refl ex6_answers).
Defined.

Lemma w6_target_never_waits_witness :
  master6_target (mkZookeeper (λ _, Ret ["worker_0"]) (λ _, "")) = Ret ":50051".
Proof.
  apply (w6_target_never_waits (mkZookeeper (λ _, Ret ["worker_0"]) (λ _, "")) "worker_0" []).
  reflexivity.
Defined.

Example w6_greeting : SayHello (λ q, RpcOk (SayHello_server q)) "hello " = "hello gatech".
Proof. reflexivity. Qed.
